(* ===== verification/_CoqProject ===== *)
-Q . S2P
Prelude.v
Coro.v
PyStr.v
Logging.v
Argparse.v
Format.v
Config.v
Models.v
Lru.v
Heapq.v
Recrawl.v
ConsistentHash.v
UrlUtils.v
HtmlParser.v
Bloom.v
SimHash.v
Dedup.v
CircuitBreaker.v
Budget.v
Backpressure.v
RateLimit.v
Acquirers.v
Frontier.v
Seeding.v
Robots.v
Gates.v
Expiry.v
Fetcher.v
Storage.v
ObjectStore.v
Buckets.v
Sessions.v
Pipeline.v
Factory.v
Engine.v
LocalCrawl.v
Schemas.v
Migrations.v
Service.v
Api.v
App.v
Cli.v
Bench.v
Output.v
Commands.v
Launcher.v
Entry.v
Distributed.v
Concurrent.v
Worker.v
WorkerRun.v
Batch.v
