(* ===== verification/Prelude.v ===== *)
(** * Verification library of the web crawler

    A shallow embedding of the Python crawler under [src/]: the crawl engine
    and its pipeline, the shared data structures it relies on, the distributed
    worker, the control plane and the commands that start them.  A definition
    keeps the name of the function, class or method it translates; the doc
    comment at the top of each file names its source and its main theorems.

    ** The program and its parts

    A page's way through the program: a frontier ([Frontier]) hands an item to
    the pipeline ([Pipeline]), which asks robots.txt and the politeness gate
    ([Robots], [RateLimit]), the circuit breaker ([CircuitBreaker]) and the
    domain budget ([Budget]), fetches ([Fetcher]), parses ([HtmlParser], over
    [UrlUtils]), looks for near-duplicates ([SimHash], [Dedup]), stores the body
    ([ObjectStore]) and saves the record ([Storage]).  The single-node engine
    ([Engine]) feeds the links back to its in-memory frontier; the distributed
    step ([Distributed]) and worker ([Worker], [WorkerRun]) check them against a
    shared Bloom filter ([Bloom]) and publish them to Kafka, on the partition
    their domain hashes to ([ConsistentHash]).  [Factory] builds the
    collaborators from the settings ([Config]); [LocalCrawl], [Cli], [Bench],
    [Launcher] and [WorkerRun] wire and run them; [Service] and [Api] are the
    dashboard's control plane over the same tables ([Storage], [Sessions]);
    [Recrawl] and [Seeding] order and publish pages for a refresh.  [Concurrent]
    and [Batch] run many pages and messages of one worker at the same time,
    [Gates], [Acquirers] and [Buckets] the tasks that meet at the permits, at the
    local limiter's locks and at the bucket of the page bodies; [Entry],
    [Commands] and [Output] are the command lines the programs read, what they
    run and the lines they print; [App] is the web application with its routes;
    [Migrations] creates the tables on PostgreSQL.

    File and source, under [src/crawler/] unless named in full:
    - [PyStr] Python's str methods, [Format] its number formats, [Heapq] and
      [Argparse] the modules of these names (standard library); [Coro]
      coroutines and [asyncio.gather];
    - [Config] config.py; [Logging] logging_setup.py; [Models] models.py, metrics.py; [Lru] cache/lru.py;
    - [Recrawl] scheduler/recrawl.py; [ConsistentHash] sharding/;
    - [UrlUtils] url_utils.py; [HtmlParser] parser/html_parser.py;
    - [Bloom] dedup/bloom.py, dedup/seen.py; [SimHash] dedup/simhash.py; [Dedup]
      dedup/dedup_service.py;
    - [CircuitBreaker], [Budget], [Backpressure] resilience/; [RateLimit]
      ratelimit/, with token_bucket.lua, and [Acquirers] the callers of
      ratelimit/local.py;
    - [Frontier] frontier/; [Seeding] the _seed helpers; [Robots] robots/;
    - [Fetcher] fetcher/fetcher.py; [Storage] storage/orm.py, repositories.py,
      sinks.py; [ObjectStore] and [Buckets] storage/object_store.py; [Sessions] storage/db.py,
      redis_client.py;
    - [Pipeline], [Engine], [Distributed] pipeline/; [Factory] factory.py;
      [LocalCrawl] local_crawl.py; [Worker], [WorkerRun], [Batch] worker.py;
      [Concurrent] pipeline/pipeline.py and distributed.py as coroutines, [Gates]
      the gates around the fetch in pipeline.py;
    - [Schemas], [Service], [Api], [App] api/; [Cli], [Output], [Commands] cli.py;
      [Bench] bench.py;
      [Launcher] src/run.py; [Entry] the mains of src/run.py and worker.py;
    - [Migrations] src/migrations/ against storage/orm.py; [Expiry] the times to
      live of ratelimit/redis_limiter.py, dedup/dedup_service.py and
      robots/robots_cache.py.

    ** How code is represented

    A call that may raise is a [result]; a method that reads and changes an
    object is an [act], a function from the object to a result and the object
    after it, also after a raise.  A coroutine that gives way while others work
    on the same objects is a step relation, whose steps are the stretches
    between two awaits: [Backpressure], the slots and the single flight of
    [Robots], [engine_step] of [Engine], [fleet_step] of [Distributed],
    [service_step] of [Service], [serve_step] and [sup_step] of [Launcher],
    [call_step] of [Acquirers] (with time passing), [put_step] of [Buckets].
    Where the program gathers coroutines, they are trees of such stretches
    ([coro] of [Coro]) and [turn] lets any of them make its next one: run alone,
    a tree is the [act] of the same method ([run_process],
    [run_process_message], [run_handle]), and the theorems of [Concurrent] and
    [Batch] are about every schedule.
    The protocols of the source (UrlSeen, ContentDedup,
    DomainBudget, DocumentSink, ObjectStore, CrawlService, ...) are classes; a
    client is verified against the class, [sum_seen] and its like of [Factory]
    combine the implementations a setting chooses between.

    ** What the theorems show

    - The engine: [engine_terminates], [engine_visits_once],
      [engine_stays_in_scope], [engine_page_budget], for all schedules;
      [execute_crawl_completes], [local_crawl_scope], [local_crawl_status],
      [local_crawl_misconfigured] for the crawls built on it.
    - The pipeline: [process_result] on every branch, [process_feeds_breaker],
      [stored_page_is_revalidated].
    - The fleet: [fleet_enqueues_once] with [process_message_refines_fleet],
      [worker_handles], [failing_message_reaches_dlq],
      [worker_commits_handled], [worker_shuts_down], [kafka_partition].
    - Concurrency within a worker: [gates_drain] for the permits that fetches
      wait for, [acquirers_rate_bound], [acquirers_wait_bound] and
      [slots_bound_wait] for the calls of the local limiter, [concurrent_puts] for
      the page bodies, [concurrent_pages_well_formed] for pages that
      share a pipeline, [gather_refines_fleet] and [gather_enqueues_once] for
      gathered calls, [batch_forwards] and [worker_loses_nothing] for a batch of
      messages of every kind and for the loop over batches;
      [run_loop_is_schedule] says that the loop that handles the messages one
      after the other is one of its schedules.  The common technique is that of
      [Coro]: what a coroutine does on its own ([performs]) and what gathered
      ones have done at any point of a schedule, an interleaving of the former
      ([performed_turns]).
    - Time: [lua_rate_bound], [bucket_expiry_invisible], [lsh_expiry_window],
      [robots_bounded_age], for a Redis server that drops keys at their
      deadlines.
    - The schema: [migrations_roundtrip], [migrated_schema_matches_orm],
      [document_row_fits], [crawl_row_fits], [env_atomic].
    - The control plane: [service_well_formed], [stop_is_final],
      [create_crawl_result], [stats_consistent], [pages_concatenate],
      [status_codes], [reads_change_nothing]; [order_does_not_matter],
      [urls_reach_handlers] and [startup_repeats] for the application around it.
    - Storage: [save_page_invariant], [save_page_reads_back],
      [save_page_idempotent], [session_atomic], [pg_store_roundtrip].
    - Data structures against their specifications: [bloom_refines_bit_set],
      [redis_bloom_simulates] up to the 2^32 bits of a Redis string,
      [lsh_equals_scan], [redis_lsh_simulates], [lru_refines_recency_list],
      [pop_due_exact], [breaker_host_automaton] and [breaker_protects],
      [robots_single_flight], [ring_minimal_disruption],
      [ring_history_independent], [redis_budget_simulates],
      [local_rate_bound] and [lua_rate_bound].
    - Text: [normalize_url_classifies], [parse_page_links], [message_roundtrip].
    - Commands: [dry_run_scope], [recrawl_reenqueues_stalest], [graph_command],
      [ring_demo_moves], [benchmark_returns], [launcher_exits],
      [shutdown_complete], [serve_waits]; their command lines and output:
      [launch_args_roundtrip], [main_typed], [spawned_workers_start],
      [graph_report_reads], [reported_figures], [ring_demo_report], and whole
      commands: [crawl_reports], [recrawl_reports], [graph_reports].

    An [Example] next to them shows where the code does not do what a reader of
    its documentation expects ([launch_race], [poison_url_stops_worker],
    [page_budget_overrun], [enqueue_failure_loses_link], [head_of_line],
    [slow_host_forgotten], [late_stop_is_overwritten], ...).

    ** Fuel and bounds

    The executable engine ([work], [run] and the runs built on it) takes fuel,
    one unit per item; [work_terminates] gives the fuel with which it ends.  The
    binary searches of [ConsistentHash] take the length of the list, which their
    lemmas show to be enough; the fetch loop recurses on the attempts that are
    left (a float's range ends its back-off at attempt 1024), the heap on the
    length of its list.  Python's integers are unbounded
    ([Z]); fingerprints, ring positions and bit indices are kept at their width
    by the masks and remainders the code has.

    ** Parameters and assumptions

    Code that is not under [src/] is a class or an argument: w3lib and
    tldextract, selectolax, mmh3, blake2b, sha256,
    gzip, aiohttp, protego, aiokafka, the JSON text layer, the S3 client and the
    Redis commands, with their documented behaviour in classes named [*Laws];
    each file that needs them has concrete instances for its witnesses.  A float
    is the rational it denotes, with exact arithmetic; strings are ASCII.  The
    SQL tables are lists of rows, a session is atomic, ORDER BY is a class with
    its laws.  The Redis laws of a collaborator's own file are those of keys
    within their time to live; [Expiry] has the server that drops them at their
    deadlines, says when that makes no difference and what it does otherwise.
    Each collaborator of a
    pipeline has its own view of the connection: their keys do not overlap.  The
    database's own statements are a class in [Migrations].  The clock is an
    argument, read where the code reads it; sleeping is time passing.

    ** Not modelled

    The rendering of log lines; typer's parsing of the command line of [crawler]
    (a command's options are arguments of its definition); FastAPI's, Starlette's
    and uvicorn's machinery beyond route templates, the declared constraints and
    status codes, and the documentation pages and static files they serve; the
    page template and its script; the exposition of the metrics and the server
    of a worker's; the installing of signal handlers (a stop request can come at
    any time); the opening of connections; alembic's own bookkeeping.  Of
    PostgreSQL's bookkeeping, the sequence value that an insert consumes when it
    turns into an update (ids are compared, never counted), and the foreign key
    of a document's crawl, which the callers set to a row they made or leave
    empty.  The theorem of [Buckets] takes a bucket that is there to accept what
    is put; a request that fails is a branch of its definitions.

    A page's task is cancelled only when its event loop closes, and then its
    process ends: the [finally] blocks that still run change objects no one reads
    again.  A task that is cancelled within a page makes no more turns, so that
    what [Concurrent] shows of every point of a schedule holds of it; [Gates] has
    its permits and [Acquirers] its place at the limiter, [Service] and
    [LocalCrawl] follow a cancelled crawl between two pages.  [Expiry] has the
    keys that expire one collaborator at a time: a worker of [Batch] over a server
    that drops them all would repeat its theorems for each page. *)
From Stdlib Require Export ZArith Lia QArith Qround Qpower Lqa.
From stdpp Require Export base gmap strings fin_maps sorting numbers.
From stdpp Require Export list.
Local Open Scope Z_scope.

(** ** Python exceptions and fallible results *)

(** The exceptions the modelled code raises or catches, by the class the code
    (or the interpreter) uses for them.  [OtherError] is any exception that a
    collaborator outside the repository raises. *)
Inductive exn : Type :=
| ValueError
| KeyError
| IndexError
| TypeError
| AttributeError
| ZeroDivisionError
| RuntimeError
| OtherError (what : string).

#[export] Instance exn_eq_dec : EqDecision exn.
Proof. solve_decision. Defined.

(** A Python call: a value, or an exception that propagates to the caller. *)
Inductive result (A : Type) : Type :=
| Ok (a : A)
| Raise (e : exn).
Arguments Ok {A} _.
Arguments Raise {A} _.

#[export] Instance result_ret : MRet result := @Ok.
#[export] Instance result_bind : MBind result :=
  fun A B f r => match r with Ok a => f a | Raise e => Raise e end.
#[export] Instance result_fmap : FMap result :=
  fun A B f r => match r with Ok a => Ok (f a) | Raise e => Raise e end.
#[export] Instance result_eq_dec `{EqDecision A} : EqDecision (result A).
Proof. solve_decision. Defined.

(** [let* p := r in k]: the same sequencing, with the type of [r] known when
    the pattern [p] is read. *)
Definition rbind {A B} (r : result A) (f : A -> result B) : result B :=
  match r with Ok a => f a | Raise e => Raise e end.
Declare Scope py_scope.
Delimit Scope py_scope with py.
Notation "'let*' p := r 'in' k" := (rbind r (fun p => k))
  (at level 200, p pattern, r at level 100, k at level 200, right associativity) : py_scope.
Open Scope py_scope.

(** Methods that read and change an object: a state in, a result and the state
    after it out (also after a raise: what was done before it stays done). *)
Definition act (S A : Type) : Type := S -> result A * S.
Definition aret {S A} (a : A) : act S A := fun s => (Ok a, s).
Definition araise {S A} (e : exn) : act S A := fun s => (Raise e, s).
Definition abind {S A B} (m : act S A) (k : A -> act S B) : act S B := fun s =>
  match m s with (Ok a, s') => k a s' | (Raise e, s') => (Raise e, s') end.
Definition alift {S A} (r : result A) : act S A := fun s => (r, s).
Definition aget {S} : act S S := fun s => (Ok s, s).
Definition amodify {S} (f : S -> S) : act S unit := fun s => (Ok tt, f s).
(** [try: m except Exception: h]. *)
Definition atry {S A} (m : act S A) (h : exn -> act S A) : act S A := fun s =>
  match m s with (Ok a, s') => (Ok a, s') | (Raise e, s') => h e s' end.
Notation "'let!' p := m 'in' k" := (abind m (fun p => k))
  (at level 200, p pattern, m at level 100, k at level 200, right associativity) : py_scope.

(** What a method leaves true of the object, whether it returns or raises. *)
Definition keeps {S A} (I : S -> Prop) (m : act S A) : Prop := forall s, I s -> I (snd (m s)).

Section Keeps.
Context {S A B : Type} (I : S -> Prop).

Lemma keeps_ret (a : A) : keeps I (aret a).
Proof. by intros s. Qed.
Lemma keeps_raise e : keeps I (@araise S A e).
Proof. by intros s. Qed.
Lemma keeps_lift (r : result A) : keeps I (alift r).
Proof. by intros s. Qed.
Lemma keeps_get : keeps I aget.
Proof. by intros s. Qed.
Lemma keeps_modify f : (forall s, I s -> I (f s)) -> keeps I (amodify f).
Proof. intros Hf s. apply Hf. Qed.
Lemma keeps_bind (m : act S A) (k : A -> act S B) : keeps I m -> (forall a, keeps I (k a)) -> keeps I (abind m k).
Proof.
  intros Hm Hk s Hs. unfold abind. specialize (Hm s Hs). destruct (m s) as [[a|e] s']; [by apply Hk|done].
Qed.
Lemma keeps_try (m : act S A) h : keeps I m -> (forall e, keeps I (h e)) -> keeps I (atry m h).
Proof.
  intros Hm Hh s Hs. unfold atry. specialize (Hm s Hs). destruct (m s) as [[a|e] s']; [done|by apply Hh].
Qed.
End Keeps.

(** [keeps_auto] walks through a method's statements and branches. *)
Create HintDb keeps.
#[export] Hint Resolve keeps_ret keeps_raise keeps_lift keeps_get keeps_modify keeps_bind keeps_try : keeps.
Ltac keeps_auto :=
  repeat (intros; match goal with
    | |- keeps _ (match ?x with _ => _ end) => destruct x
    | |- keeps _ (abind _ _) => apply keeps_bind
    | |- keeps _ (atry _ _) => apply keeps_try
    end); auto with keeps.

(** [try: r except Exception: handler]. *)
Definition except {A} (r : result A) (handler : exn -> result A) : result A :=
  match r with Ok a => Ok a | Raise e => handler e end.

Definition is_ok {A} (r : result A) : bool :=
  match r with Ok _ => true | Raise _ => false end.

Lemma bind_Ok {A B} (f : A -> result B) (r : result A) (b : B) :
  (r ≫= f) = Ok b -> exists a, r = Ok a /\ f a = Ok b.
Proof. destruct r; cbn; [eauto | discriminate]. Qed.

Lemma rbind_Ok {A B} (f : A -> result B) (r : result A) (b : B) :
  rbind r f = Ok b <-> exists a, r = Ok a /\ f a = Ok b.
Proof.
  destruct r as [a|e]; cbn; split; [eauto|by intros (? & [= <-] & ?)|done|by intros (? & ? & _)].
Qed.

(** ** Python numbers

    [int] is [Z]; Python's [//] and [%] are [Z.div] and [Z.modulo] (both round
    towards minus infinity).  A [float] is modelled by the rational it denotes,
    with exact arithmetic. *)

Definition Qltb (x y : Q) : bool := negb (Qle_bool y x).

Lemma Qleb_spec (x y : Q) : reflect (x <= y)%Q (Qle_bool x y).
Proof. apply iff_reflect. symmetry. apply Qle_bool_iff. Qed.

Lemma Qltb_spec (x y : Q) : reflect (x < y)%Q (Qltb x y).
Proof.
  unfold Qltb. destruct (Qleb_spec y x) as [H|H]; constructor; [lra|].
  apply Qnot_le_lt, H.
Qed.

(** Python's [max] and [min] on two arguments keep the first on a tie. *)
Definition py_max (a b : Q) : Q := if Qltb a b then b else a.
Definition py_min (a b : Q) : Q := if Qltb b a then b else a.

(** [int(x)] on a float truncates towards zero. *)
Definition py_int (x : Q) : Z := if Qltb x 0 then - Qfloor (- x) else Qfloor x.

(** [math.ceil]. *)
Definition py_ceil (x : Q) : Z := Qceiling x.

(** [round(x)]: to the nearest integer, a tie to the even one. *)
Definition py_round (x : Q) : Z :=
  let f := Qfloor x in
  let d := (x - inject_Z f)%Q in
  if Qltb d (1 # 2) then f
  else if Qltb (1 # 2) d then f + 1
  else if Z.even f then f else f + 1.

(** [qcases] splits on every rational comparison in the goal or a hypothesis
    and leaves the facts as propositions [lra] understands. *)
Ltac qcase_one :=
  match goal with
  | |- context [Qle_bool ?x ?y] => destruct (Qleb_spec x y)
  | |- context [Qltb ?x ?y] => destruct (Qltb_spec x y)
  | H : context [Qle_bool ?x ?y] |- _ => destruct (Qleb_spec x y)
  | H : context [Qltb ?x ?y] |- _ => destruct (Qltb_spec x y)
  end.
Ltac qcases := unfold py_max, py_min in *; repeat qcase_one.
Ltac qsolve := qcases; try discriminate; try congruence; try lra.

(** ** Lists *)

Lemma list_filter_fmap {A B} (f : A -> B) (P : B -> Prop) `{!forall y, Decision (P y)} (l : list A) :
  filter P (f <$> l) = f <$> filter (fun x => P (f x)) l.
Proof.
  induction l as [|x l IH]; [done|]. rewrite fmap_cons, !filter_cons, IH.
  by case_decide.
Qed.

Lemma elem_of_take_in {A} (x : A) n l : x ∈ take n l -> x ∈ l.
Proof. rewrite elem_of_take. intros (i & ? & _). by eapply list_elem_of_lookup_2. Qed.

Lemma elem_of_drop_in {A} (x : A) n l : x ∈ drop n l -> x ∈ l.
Proof. intros H. rewrite <- (take_drop n l). apply elem_of_app. by right. Qed.

Lemma elem_of_take_drop {A} (x : A) n l : x ∈ l <-> x ∈ take n l \/ x ∈ drop n l.
Proof. by rewrite <- elem_of_app, take_drop. Qed.

Lemma NoDup_take {A} n (l : list A) : NoDup l -> NoDup (take n l).
Proof. rewrite <- (take_drop n l) at 1. intros (? & _)%NoDup_app. done. Qed.

Lemma NoDup_drop {A} n (l : list A) : NoDup l -> NoDup (drop n l).
Proof. rewrite <- (take_drop n l) at 1. intros (_ & _ & ?)%NoDup_app. done. Qed.

(** Slices of a list: their elements and duplicates. *)
Create HintDb slices.
#[export] Hint Resolve elem_of_take_in elem_of_drop_in NoDup_take NoDup_drop : slices.

Lemma rev_take {A} n (l : list A) : rev (take n l) = drop (length l - n) (rev l).
Proof.
  rewrite skipn_rev. destruct (decide (n <= length l)%nat) as [H|H].
  - by replace (length l - (length l - n))%nat with n by lia.
  - replace (length l - (length l - n))%nat with (length l) by lia.
    by rewrite firstn_all, take_ge by lia.
Qed.

(** ** Step relations *)

(** An invariant of the steps holds in every reachable state. *)
Lemma rtc_invariant {A} (R : relation A) (I : A -> Prop) x y :
  (forall x y, I x -> R x y -> I y) -> rtc R x y -> I x -> I y.
Proof. intros Hs. induction 1; eauto. Qed.

(** ** Powers of a growth factor *)

Lemma Qpower_S (q : Q) n : (1 <= q)%Q -> (q ^ Z.of_nat (S n) == q ^ Z.of_nat n * q)%Q.
Proof.
  intros Hq. rewrite Nat2Z.inj_succ. unfold Z.succ.
  rewrite Qpower_plus by (intros E; lra). apply Qeq_refl.
Qed.

Lemma Qpower_ge_1 (q : Q) n : (1 <= q)%Q -> (1 <= q ^ Z.of_nat n)%Q.
Proof.
  intros Hq. induction n as [|n IH].
  - change (q ^ Z.of_nat 0)%Q with 1%Q. lra.
  - rewrite Qpower_S by done. nra.
Qed.
