(* ===== verification/Coro.v ===== *)
(** * Coroutines and [asyncio.gather]

    A coroutine that gives way at its awaits, as a tree: a [Step] is the stretch
    of code up to the next await, run on the shared state as the task finds it
    when it is resumed; its continuation depends on that state.  [run_coro] runs
    one alone, which gives back the [act] it stands for ([run_await],
    [run_bind], [run_try], [run_zoom]); [turn] resumes any task of a list.

    [turn_terminates]: no schedule runs for ever; [turn_invariant]: an invariant
    that every stretch keeps; [performed_turns]: what a set of tasks does to the
    shared state, as an interleaving of what each of them does, whatever the
    schedule. *)
From S2P Require Import Prelude.
From stdpp Require Import relations.

Inductive coro (S A : Type) : Type :=
| Return (r : result A)
| Step (f : S -> S) (k : S -> coro S A).
Arguments Return {S A} _.
Arguments Step {S A} _ _.

(** [await m] where [m] is not interrupted: the task gives way first. *)
Definition await {S A} (m : act S A) : coro S A :=
  Step (fun s => snd (m s)) (fun s => Return (fst (m s))).
Fixpoint cbind {S A B} (c : coro S A) (g : A -> coro S B) : coro S B :=
  match c with
  | Return (Ok a) => g a
  | Return (Raise e) => Return (Raise e)
  | Step f k => Step f (fun s => cbind (k s) g)
  end.
(** [try: c except Exception: h]. *)
Fixpoint ctry {S A} (c : coro S A) (h : exn -> coro S A) : coro S A :=
  match c with
  | Return (Ok a) => Return (Ok a)
  | Return (Raise e) => h e
  | Step f k => Step f (fun s => ctry (k s) h)
  end.
Notation "'let>' p := m 'in' k" := (cbind m (fun p => k))
  (at level 200, p pattern, m at level 100, k at level 200, right associativity) : py_scope.
Definition cret {S A} (a : A) : coro S A := Return (Ok a).

(** A coroutine on a part of the state. *)
Fixpoint czoom {T S A} (get : T -> S) (put : T -> S -> T) (c : coro S A) : coro T A :=
  match c with
  | Return r => Return r
  | Step f k => Step (fun t => put t (f (get t))) (fun t => czoom get put (k (get t)))
  end.

(** Alone, without being interrupted. *)
Fixpoint run_coro {S A} (c : coro S A) : act S A := fun s =>
  match c with Return r => (r, s) | Step f k => run_coro (k s) (f s) end.

Lemma run_await {S A} (m : act S A) s : run_coro (await m) s = m s.
Proof. cbn. by destruct (m s). Qed.
Lemma run_bind {S A B} (c : coro S A) (g : A -> coro S B) s :
  run_coro (cbind c g) s = abind (run_coro c) (fun a => run_coro (g a)) s.
Proof. revert s. induction c as [[a|e]|f k IH]; intros s; [done..|]. apply IH. Qed.
Lemma run_try {S A} (c : coro S A) h s : run_coro (ctry c h) s = atry (run_coro c) (fun e => run_coro (h e)) s.
Proof. revert s. induction c as [[a|e]|f k IH]; intros s; [done..|]. apply IH. Qed.

(** The part of the state can be read and replaced. *)
Record lens {T S} (get : T -> S) (put : T -> S -> T) : Prop := {
  get_put t s : get (put t s) = s;
  put_get t : put t (get t) = t;
  put_put t s s' : put (put t s) s' = put t s' }.
Lemma run_zoom {T S A} (get : T -> S) (put : T -> S -> T) (c : coro S A) t : lens get put ->
  run_coro (czoom get put c) t = let '(x, s) := run_coro c (get t) in (x, put t s).
Proof.
  intros L. revert t. induction c as [r|f k IH]; intros t; cbn; [by rewrite (put_get _ _ L)|].
  rewrite IH, (get_put _ _ L). destruct (run_coro (k (get t)) (f (get t))) as [x s]. by rewrite (put_put _ _ L).
Qed.

(** ** What a coroutine can return *)

(** Some states, met at its resumptions, make it return [r]. *)
Inductive returns {S A} (r : result A) : coro S A -> Prop :=
| returns_here : returns r (Return r)
| returns_step f k s : returns r (k s) -> returns r (Step f k).

Lemma returns_bind {S A B} (r : result B) (c : coro S A) g : returns r (cbind c g) ->
  (exists e, r = Raise e /\ returns (Raise e) c) \/ (exists a, returns (Ok a) c /\ returns r (g a)).
Proof.
  induction c as [[a|e]|f k IH]; cbn; intros H.
  - right. exists a. split; [constructor|done].
  - left. inversion H; subst. exists e. split; [done|constructor].
  - inversion H as [|? ? s Hs]; subst. destruct (IH s Hs) as [(e & -> & He)|(a & Ha & Hr)].
    + left. exists e. split; [done|]. by econstructor.
    + right. exists a. split; [by econstructor|done].
Qed.
Lemma run_returns {S A} (c : coro S A) s : returns (fst (run_coro c s)) c.
Proof. revert s. induction c as [r|f k IH]; intros s; cbn; [constructor|]. econstructor. apply IH. Qed.

(** ** [asyncio.gather] *)
Section Gather.
Context {S A : Type}.

(** Any task that has not returned can be resumed. *)
Inductive turn : list (coro S A) * S -> list (coro S A) * S -> Prop :=
| turn_task ts s i f k : ts !! i = Some (Step f k) -> turn (ts, s) (<[i := k s]> ts, f s).

Definition returned (c : coro S A) : Prop := exists r, c = Return r.
Definition succeeded (c : coro S A) : Prop := exists a, c = Return (Ok a).

Lemma turn_length c c' : rtc turn c c' -> length (fst c') = length (fst c).
Proof. induction 1 as [|x y z Ht _ IH]; [done|]. rewrite IH. destruct Ht. cbn. apply length_insert. Qed.

(** Without the state: one task goes on. *)
Definition goes_on (ts' ts : list (coro S A)) : Prop :=
  exists i f k s, ts !! i = Some (Step f k) /\ ts' = <[i := k s]> ts.

Lemma goes_on_acc ts : Acc goes_on ts.
Proof.
  induction ts as [|c ts IH].
  { constructor. intros ts' (i & f & k & s & E & _). by rewrite lookup_nil in E. }
  revert ts IH. induction c as [r|f k IHk]; intros ts Hts; induction Hts as [ts Hts IH];
    constructor; intros ts' ([|i] & f' & k' & s & E & ->).
  - discriminate E.
  - apply IH. by exists i, f', k', s.
  - injection E as <- <-. apply IHk. by constructor.
  - apply IH. by exists i, f', k', s.
Qed.
Lemma turn_terminates cfg : sn turn cfg.
Proof.
  destruct cfg as [ts s]. revert s. induction (goes_on_acc ts) as [ts _ IH]. intros s.
  constructor. intros cfg' Ht. inversion Ht as [? ? i f k E]; subst. apply IH. by exists i, f, k, s.
Qed.

(** A set of tasks either can go on or has returned. *)
Lemma turn_progress ts s : Forall returned ts \/ exists cfg, turn (ts, s) cfg.
Proof.
  induction ts as [|[r|f k] ts IH]; [by left| |].
  - destruct IH as [IH|[cfg Ht]]; [left; constructor; [by exists r|done]|right].
    inversion Ht as [? ? i f k E]; subst. eexists. by apply (turn_task _ _ (Datatypes.S i) f k).
  - right. eexists. by apply (turn_task _ _ 0 f k).
Qed.

(** A task resumed until it has returned. *)
Lemma run_turns (ts : list (coro S A)) i c s : ts !! i = Some c ->
  rtc turn (ts, s) (<[i := Return (fst (run_coro c s))]> ts, snd (run_coro c s)).
Proof.
  revert ts s. induction c as [r|f k IH]; intros ts s E; cbn.
  { rewrite list_insert_id by done. apply rtc_refl. }
  eapply rtc_l; [by apply (turn_task _ _ i)|].
  replace (<[i := Return (fst (run_coro (k s) (f s)))]> ts)
    with (<[i := Return (fst (run_coro (k s) (f s)))]> (<[i := k s]> ts)) by apply list_insert_insert_eq.
  apply IH, list_lookup_insert_eq. by eapply lookup_lt_Some.
Qed.

(** ** Invariants *)
Section Safe.
Variable I : S -> Prop.

Fixpoint csafe {B} (c : coro S B) : Prop :=
  match c with Return _ => True | Step f k => forall s, I s -> I (f s) /\ csafe (k s) end.

Lemma csafe_await {B} (m : act S B) : keeps I m -> csafe (await m).
Proof. intros Hm s Hs. split; [by apply Hm|done]. Qed.
Lemma csafe_bind {B C} (c : coro S B) (g : B -> coro S C) : csafe c -> (forall b, csafe (g b)) -> csafe (cbind c g).
Proof.
  intros Hc Hg. induction c as [[b|e]|f k IH]; cbn; [apply Hg|done|].
  intros s Hs. destruct (Hc s Hs) as [? Hk]. split; [done|by apply IH].
Qed.
Lemma csafe_try {B} (c : coro S B) h : csafe c -> (forall e, csafe (h e)) -> csafe (ctry c h).
Proof.
  intros Hc Hg. induction c as [[b|e]|f k IH]; cbn; [done|apply Hg|].
  intros s Hs. destruct (Hc s Hs) as [? Hk]. split; [done|by apply IH].
Qed.
Lemma csafe_ret {B} (r : result B) : csafe (Return r).
Proof. done. Qed.

Lemma turn_safe cfg cfg' : turn cfg cfg' -> Forall csafe (fst cfg) /\ I (snd cfg) -> Forall csafe (fst cfg') /\ I (snd cfg').
Proof.
  intros Ht [Hts Hs]. destruct Ht as [ts s i f k E]. cbn in *.
  destruct (proj1 (Forall_lookup csafe ts) Hts i _ E s Hs) as [? ?]. split; [|done]. by apply Forall_insert.
Qed.
Lemma turn_invariant cfg cfg' : rtc turn cfg cfg' -> Forall csafe (fst cfg) -> I (snd cfg) -> I (snd cfg').
Proof.
  intros Hr Hts Hs. apply (rtc_invariant turn (fun cfg => Forall csafe (fst cfg) /\ I (snd cfg)) cfg cfg'); [|done..].
  intros ? ? ? ?. by eapply turn_safe.
Qed.
End Safe.

(** ** What the tasks do

    The stretches of a task change the shared state by operations of a log
    [L] (a write, a message sent): [ext l s s'] when [s'] is [s] after the
    operations [l].  [performs Q out c]: a task that has done [out] so far and
    is at [c] does operations in every state with [I], which keep [I], until it
    returns [r] having done some [out'] with [Q r out']. *)
Section Performs.
Context {L : Type} (ext : list L -> S -> S -> Prop) (I : S -> Prop).

Fixpoint performs {B} (Q : result B -> list L -> Prop) (out : list L) (c : coro S B) : Prop :=
  match c with
  | Return r => Q r out
  | Step f k => forall s, I s -> I (f s) /\ exists new, ext new s (f s) /\ performs Q (out ++ new) (k s)
  end.

Lemma performs_mono {B} (Q Q' : result B -> list L -> Prop) out (c : coro S B) :
  (forall r out, Q r out -> Q' r out) -> performs Q out c -> performs Q' out c.
Proof.
  intros HQ. revert out. induction c as [r|f k IH]; intros out; cbn; [apply HQ|].
  intros Hc s Hs. destruct (Hc s Hs) as (? & new & ? & Hk). split; [done|]. exists new. split; [done|]. by apply IH.
Qed.
Lemma performs_bind {B C} (Q : result C -> list L -> Prop) out (c : coro S B) (g : B -> coro S C) :
  performs (fun r out => match r with Ok b => performs Q out (g b) | Raise e => Q (Raise e) out end) out c ->
  performs Q out (cbind c g).
Proof.
  revert out. induction c as [[b|e]|f k IH]; intros out Hc; [done..|].
  intros s Hs. destruct (Hc s Hs) as (? & new & ? & Hk). split; [done|]. exists new. split; [done|]. by apply IH.
Qed.
Lemma performs_try {B} (Q : result B -> list L -> Prop) out (c : coro S B) (h : exn -> coro S B) :
  performs (fun r out => match r with Ok b => Q (Ok b) out | Raise e => performs Q out (h e) end) out c ->
  performs Q out (ctry c h).
Proof.
  revert out. induction c as [[b|e]|f k IH]; intros out Hc; [done..|].
  intros s Hs. destruct (Hc s Hs) as (? & new & ? & Hk). split; [done|]. exists new. split; [done|]. by apply IH.
Qed.
Lemma performs_await {B} (Q : result B -> list L -> Prop) out (m : act S B) :
  (forall s, I s -> I (snd (m s)) /\ exists new, ext new s (snd (m s)) /\ Q (fst (m s)) (out ++ new)) -> performs Q out (await m).
Proof. done. Qed.
(** A call that does none of the operations. *)
Lemma performs_silent {B} (Q : result B -> list L -> Prop) out (m : act S B) :
  (forall s, I s -> I (snd (m s)) /\ ext [] s (snd (m s))) -> (forall s, I s -> Q (fst (m s)) out) -> performs Q out (await m).
Proof.
  intros Hm HQ s Hs. destruct (Hm s Hs) as [? ?]. split; [done|]. exists []. split; [done|]. rewrite app_nil_r. by apply HQ.
Qed.
(** A coroutine on another part of the state. *)
Lemma performs_elsewhere {T B} (Q : result B -> list L -> Prop) out (get : S -> T) (put : S -> T -> S) (c : coro T B) :
  (forall s t, I s -> I (put s t) /\ ext [] s (put s t)) -> (forall r, returns r c -> Q r out) -> performs Q out (czoom get put c).
Proof.
  intros Hput. induction c as [r|f k IH]; intros Hr; cbn; [apply Hr; constructor|].
  intros s Hs. destruct (Hput s (f (get s)) Hs) as [? ?]. split; [done|]. exists []. split; [done|]. rewrite app_nil_r.
  apply IH. intros r Hret. apply Hr. by econstructor.
Qed.

(** A task can be run to its end. *)
Lemma performs_completes {B} (Q : result B -> list L -> Prop) out (c : coro S B) s : I s -> performs Q out c ->
  exists r more, Q r (out ++ more).
Proof.
  revert out s. induction c as [r|f k IH]; intros out s Hs Hc; [exists r, []; by rewrite app_nil_r|].
  destruct (Hc s Hs) as (Hs' & new & _ & Hk). destruct (IH s (out ++ new) (f s) Hs' Hk) as (r & more & Hq).
  exists r, (new ++ more). by rewrite app_assoc.
Qed.

(** One after the other, [l] has the operations of each list in its order. *)
Inductive interleaves : list (list L) -> list L -> Prop :=
| il_start n : interleaves (replicate n []) []
| il_next outs i out x l : interleaves outs l -> outs !! i = Some out -> interleaves (<[i := out ++ [x]]> outs) (l ++ [x]).

Lemma interleaves_extend outs i out new l : interleaves outs l -> outs !! i = Some out ->
  interleaves (<[i := out ++ new]> outs) (l ++ new).
Proof.
  revert outs out l. induction new as [|x new IH]; intros outs out l Hi Ho.
  { by rewrite !app_nil_r, list_insert_id. }
  specialize (IH (<[i := out ++ [x]]> outs) (out ++ [x]) (l ++ [x]) ltac:(by apply il_next)).
  rewrite <- !app_assoc in IH. rewrite list_insert_insert_eq in IH. apply IH. apply list_lookup_insert_eq. by eapply lookup_lt_Some.
Qed.
Lemma interleaves_perm outs l : interleaves outs l -> l ≡ₚ concat outs.
Proof.
  induction 1 as [n|outs i out x l _ IH Ho].
  { induction n as [|n IH]; cbn; [done|]. exact IH. }
  rewrite IH. clear IH. revert i Ho. induction outs as [|o outs IH]; intros [|i] Ho; cbn in *; [done|done| |].
  - injection Ho as ->. solve_Permutation.
  - rewrite <- (IH i Ho). by rewrite app_assoc.
Qed.
Lemma interleaves_order outs l i out : interleaves outs l -> outs !! i = Some out -> out `sublist_of` l.
Proof.
  intros Hi. revert i out. induction Hi as [n|outs j o x l _ IH Ho]; intros i out E.
  { apply lookup_replicate in E as [-> _]. done. }
  destruct (decide (j = i)) as [->|Hne].
  - rewrite list_lookup_insert_eq in E by (by eapply lookup_lt_Some). injection E as <-. apply sublist_app; [by eapply IH|done].
  - rewrite list_lookup_insert_ne in E by done. etrans; [by eapply IH|]. by apply sublist_inserts_r.
Qed.

(** Where a set of tasks is: the operations done so far, and whose they are. *)
Definition performed (Q : nat -> result A -> list L -> Prop) (s0 : S) (cfg : list (coro S A) * S) (outs : list (list L)) (l : list L) : Prop :=
  I (snd cfg) /\ ext l s0 (snd cfg) /\ interleaves outs l /\ length outs = length (fst cfg) /\
  forall i c out, fst cfg !! i = Some c -> outs !! i = Some out -> performs (Q i) out c.

Hypothesis ext_nil : forall s, ext [] s s.
Hypothesis ext_app : forall l1 l2 s1 s2 s3, ext l1 s1 s2 -> ext l2 s2 s3 -> ext (l1 ++ l2) s1 s3.

Lemma performed_start Q ts s : I s -> (forall i c, ts !! i = Some c -> performs (Q i) [] c) ->
  performed Q s (ts, s) (replicate (length ts) []) [].
Proof.
  intros Hs Hp. split_and!; [done|apply ext_nil|constructor|apply length_replicate|].
  intros i c out Hc Ho. apply lookup_replicate in Ho as [-> _]. by apply Hp.
Qed.
Lemma performed_turn Q s0 cfg cfg' outs l : performed Q s0 cfg outs l -> turn cfg cfg' ->
  exists outs' new, performed Q s0 cfg' outs' (l ++ new).
Proof.
  intros (Hi & He & Hl & Hlen & Hp) Ht. destruct Ht as [ts s i f k E]. cbn [fst snd] in *.
  destruct (lookup_lt_is_Some_2 outs i) as [out Ho]; [rewrite Hlen; by eapply lookup_lt_Some|].
  destruct (Hp i _ _ E Ho s Hi) as (Hi' & new & Hn & Hk).
  exists (<[i := out ++ new]> outs), new. unfold performed. cbn [fst snd]. rewrite !length_insert.
  split_and!; [done|by eapply ext_app|by apply interleaves_extend|done|].
  intros j c o Hc Hj. destruct (decide (i = j)) as [<-|Hne].
  - rewrite list_lookup_insert_eq in Hc by (by eapply lookup_lt_Some). rewrite list_lookup_insert_eq in Hj by (by eapply lookup_lt_Some).
    by simplify_eq.
  - rewrite list_lookup_insert_ne in Hc by done. rewrite list_lookup_insert_ne in Hj by done. by eapply Hp.
Qed.
Lemma performed_turns Q s0 cfg cfg' outs l : performed Q s0 cfg outs l -> rtc turn cfg cfg' ->
  exists outs' new, performed Q s0 cfg' outs' (l ++ new).
Proof.
  intros Hp Hr. revert outs l Hp. induction Hr as [x|x y z Ht _ IH]; intros outs l Hp.
  { exists outs, []. by rewrite app_nil_r. }
  destruct (performed_turn _ _ _ _ _ _ Hp Ht) as (o1 & n1 & Hp1). destruct (IH _ _ Hp1) as (o2 & n2 & Hp2).
  exists o2, (n1 ++ n2). by rewrite app_assoc.
Qed.

(** What a schedule has done is an interleaving of what its tasks have: each
    task could still be finished, and has done what its result says if it has
    returned. *)
Lemma performed_so_far Q s0 ts s outs l i c : performed Q s0 (ts, s) outs l -> ts !! i = Some c ->
  exists out, outs !! i = Some out /\ (exists r more, Q i r (out ++ more)) /\ forall r, c = Return r -> Q i r out.
Proof.
  intros (Hi & _ & _ & Hlen & Hp) E. cbn [fst snd] in *.
  destruct (lookup_lt_is_Some_2 outs i) as [out Ho]; [rewrite Hlen; by eapply lookup_lt_Some|].
  exists out. split; [done|]. pose proof (Hp i c out E Ho) as Hc. split; [by eapply performs_completes|]. by intros r ->.
Qed.
End Performs.

Lemma succeeded_returned (ts : list (coro S A)) : Forall succeeded ts -> Forall returned ts.
Proof. intros Hok. eapply Forall_impl; [exact Hok|]. intros c [a ->]. by eexists. Qed.

End Gather.
Arguments turn {S A} _ _.

(** What a coroutine does on a part of the state. *)
Lemma performs_zoom {T S B L} (ext : list L -> T -> T -> Prop) (I : T -> Prop) (ext' : list L -> S -> S -> Prop) (I' : S -> Prop)
    (Q : result B -> list L -> Prop) out (get : T -> S) (put : T -> S -> T) (c : coro S B) :
  (forall t, I t -> I' (get t)) ->
  (forall t s l, I t -> I' s -> ext' l (get t) s -> I (put t s) /\ ext l t (put t s)) ->
  performs ext' I' Q out c -> performs ext I Q out (czoom get put c).
Proof.
  intros Hget Hput. revert out. induction c as [r|f k IH]; intros out Hc; [done|].
  intros t Ht. destruct (Hc (get t) (Hget t Ht)) as (Hs & new & He & Hk).
  destruct (Hput t (f (get t)) new Ht Hs He) as [? ?]. split; [done|]. exists new. split; [done|]. by apply IH.
Qed.

(** Walks through a coroutine's statements and branches. *)
#[export] Hint Resolve csafe_await csafe_bind csafe_try csafe_ret : keeps.
Ltac csafe_auto :=
  repeat (intros; match goal with
    | |- csafe _ (match ?x with _ => _ end) => destruct x
    | |- csafe _ (cbind _ _) => apply csafe_bind
    | |- csafe _ (ctry _ _) => apply csafe_try
    | |- csafe _ (await _) => apply csafe_await
    | |- csafe _ (cret _) => apply csafe_ret
    | |- csafe _ (Return _) => apply csafe_ret
    end); auto with keeps.
