(* ===== verification/PyStr.v ===== *)
(** * Python strings and the parts of [urllib.parse] the crawler calls

    A Python [str] is a Stdlib [string] of ASCII code points.  The file models
    the string methods the crawler uses ([lower], [strip], [startswith],
    [split], [partition], ...) and, from the Python standard library,
    [urllib.parse.urlsplit], [SplitResult.hostname] and [urllib.parse.urljoin]
    (CPython 3.11/3.12), which [crawler/url_utils.py] is built on. *)
From S2P Require Import Prelude.
From stdpp Require Export pretty.
From Stdlib Require Import Ascii.
Local Open Scope Z_scope.

(** ** Characters *)

Definition code (c : ascii) : nat := nat_of_ascii c.
Definition between (lo hi : nat) (c : ascii) : bool :=
  (lo <=? code c)%nat && (code c <=? hi)%nat.
Definition is_upper : ascii -> bool := between 65 90.
Definition is_alpha (c : ascii) : bool := between 65 90 c || between 97 122 c.
Definition is_digit : ascii -> bool := between 48 57.
(** [str.isspace] on ASCII: [\t\n\v\f\r], [\x1c]..[\x1f] and the space. *)
Definition is_space (c : ascii) : bool := between 9 13 c || between 28 32 c.
(** [\w] of the [re] module on ASCII. *)
Definition is_word (c : ascii) : bool :=
  is_alpha c || is_digit c || (code c =? 95)%nat.
Definition lower_char (c : ascii) : ascii :=
  if is_upper c then ascii_of_nat (code c + 32) else c.
Definition is_char (d c : ascii) : bool := Ascii.eqb d c.

(** ** String methods *)

Fixpoint smap (f : ascii -> ascii) (s : string) : string :=
  match s with EmptyString => EmptyString | String c s' => String (f c) (smap f s') end.
Definition lower : string -> string := smap lower_char.

Fixpoint sfilter (p : ascii -> bool) (s : string) : string :=
  match s with
  | EmptyString => EmptyString
  | String c s' => if p c then String c (sfilter p s') else sfilter p s'
  end.

Fixpoint sall (p : ascii -> bool) (s : string) : bool :=
  match s with EmptyString => true | String c s' => p c && sall p s' end.
Definition sany (p : ascii -> bool) (s : string) : bool := negb (sall (fun c => negb (p c)) s).
Definition has_char (c : ascii) : string -> bool := sany (is_char c).

Fixpoint drop_while (p : ascii -> bool) (s : string) : string :=
  match s with
  | EmptyString => EmptyString
  | String c s' => if p c then drop_while p s' else s
  end.
Definition lstrip (p : ascii -> bool) : string -> string := drop_while p.
Definition rstrip (p : ascii -> bool) (s : string) : string :=
  String.rev (drop_while p (String.rev s)).
Definition strip (s : string) : string := rstrip is_space (lstrip is_space s).

Definition startswith (prefix s : string) : bool := String.prefix prefix s.

(** [s[n:]]. *)
Fixpoint sdrop (n : nat) (s : string) : string :=
  match n, s with
  | O, _ => s
  | S n', String _ s' => sdrop n' s'
  | S _, EmptyString => EmptyString
  end.

(** The longest prefix free of characters satisfying [p], and the rest. *)
Fixpoint break (p : ascii -> bool) (s : string) : string * string :=
  match s with
  | EmptyString => (EmptyString, EmptyString)
  | String c s' =>
      if p c then (EmptyString, s)
      else let '(a, b) := break p s' in (String c a, b)
  end.

(** [s.partition(c)], with [bool] telling whether the separator was found. *)
Definition partition (c : ascii) (s : string) : string * bool * string :=
  match break (is_char c) s with
  | (a, EmptyString) => (a, false, EmptyString)
  | (a, String _ b) => (a, true, b)
  end.

(** [s.rpartition(c)[2]]: what follows the last separator, or all of [s]. *)
Definition after_last (c : ascii) (s : string) : string :=
  String.rev (fst (break (is_char c) (String.rev s))).

(** [s.split(c)]: never empty. *)
Fixpoint split (c : ascii) (s : string) : list string :=
  match s with
  | EmptyString => [EmptyString]
  | String d s' =>
      if is_char c d then EmptyString :: split c s'
      else match split c s' with
           | w :: ws => String d w :: ws
           | [] => [String d EmptyString]
           end
  end.

(** [sep.join(parts)]. *)
Fixpoint join (sep : string) (parts : list string) : string :=
  match parts with
  | [] => EmptyString
  | [w] => w
  | w :: ws => w +:+ sep +:+ join sep ws
  end.

(** [needle in s]. *)
Fixpoint contains (needle s : string) : bool :=
  String.prefix needle s ||
  match s with EmptyString => false | String _ s' => contains needle s' end.

Definition truthy (s : string) : bool :=
  match s with EmptyString => false | String _ _ => true end.

Definition in_list (s : string) (l : list string) : bool := bool_decide (s ∈ l).

(** ** [urllib.parse] *)

Record SplitResult : Type := mkSplit {
  scheme : string; netloc : string; path : string; query : string; fragment : string }.

#[export] Instance SplitResult_eq_dec : EqDecision SplitResult.
Proof. solve_decision. Defined.

(** [_WHATWG_C0_CONTROL_OR_SPACE] and [_UNSAFE_URL_BYTES_TO_REMOVE]. *)
Definition c0_or_space (c : ascii) : bool := (code c <=? 32)%nat.
Definition unsafe_char (c : ascii) : bool :=
  ((code c =? 9) || (code c =? 10) || (code c =? 13))%nat.
Definition scheme_char (c : ascii) : bool :=
  is_alpha c || is_digit c || is_char "+" c || is_char "-" c || is_char "." c.

(** The characters that end a network location. *)
Definition netloc_end (c : ascii) : bool := is_char "/" c || is_char "?" c || is_char "#" c.

(** A URL's scheme prefix, split off when it is well formed. *)
Definition split_scheme (default url : string) : string * string :=
  match partition ":" url with
  | (s, true, rest) =>
      match s with
      | String c _ => if is_alpha c && sall scheme_char s then (lower s, rest) else (default, url)
      | EmptyString => (default, url)
      end
  | _ => (default, url)
  end.

Definition mismatched_brackets (nl : string) : bool :=
  xorb (has_char "[" nl) (has_char "]" nl).

Section Urllib.
(** [urllib.parse._check_bracketed_netloc]: whether the text of a bracketed
    host is an IP literal the interpreter accepts (it calls [ipaddress]). *)
Variable bracketed_ok : string -> bool.

Definition urlsplit_in (default url0 : string) : result SplitResult :=
  let url := sfilter (fun c => negb (unsafe_char c)) (lstrip c0_or_space url0) in
  let '(sch, url) := split_scheme default url in
  let '(nl, url) :=
    if startswith "//" url then break netloc_end (sdrop 2 url) else (EmptyString, url) in
  if mismatched_brackets nl then Raise ValueError
  else if has_char "[" nl && has_char "]" nl && negb (bracketed_ok nl) then Raise ValueError
  else
    let '(url, _, frag) := partition "#" url in
    let '(url, _, q) := partition "?" url in
    Ok (mkSplit sch nl url q frag).

Definition urlsplit (url : string) : result SplitResult := urlsplit_in EmptyString url.

(** [SplitResult.hostname]; [None] when there is no host. *)
Definition hostname (r : SplitResult) : option string :=
  let hostinfo := after_last "@" (netloc r) in
  let h := match partition "[" hostinfo with
           | (_, true, bracketed) => fst (fst (partition "]" bracketed))
           | _ => fst (fst (partition ":" hostinfo))
           end in
  if truthy h then
    match partition "%" h with
    | (a, true, zone) => Some (lower a +:+ "%" +:+ zone)
    | (a, false, _) => Some (lower a)
    end
  else None.

Definition uses_relative : list string :=
  [""; "ftp"; "http"; "gopher"; "nntp"; "imap"; "wais"; "file"; "https"; "shttp"; "mms";
   "prospero"; "rtsp"; "rtsps"; "rtspu"; "sftp"; "svn"; "svn+ssh"; "ws"; "wss"].
Definition uses_netloc : list string :=
  [""; "ftp"; "http"; "gopher"; "nntp"; "telnet"; "imap"; "wais"; "file"; "mms"; "https";
   "shttp"; "snews"; "prospero"; "rtsp"; "rtsps"; "rtspu"; "rsync"; "svn"; "svn+ssh"; "sftp";
   "nfs"; "git"; "git+ssh"; "ws"; "wss"; "itms-services"].
Definition uses_params : list string :=
  [""; "ftp"; "hdl"; "prospero"; "http"; "imap"; "https"; "shttp"; "rtsp"; "rtsps"; "rtspu";
   "sip"; "sips"; "mms"; "sftp"; "tel"].

(** [_splitparams]: the parameters of the last path segment. *)
Definition splitparams (sch p : string) : string * string :=
  if in_list sch uses_params then
    let last := after_last "/" p in
    match partition ";" last with
    | (_, true, ps) =>
        (String.substring 0 (String.length p - S (String.length ps)) p, ps)
    | _ => (p, EmptyString)
    end
  else (p, EmptyString).

Definition urlunsplit (sch nl p q frag : string) : string :=
  let u := if truthy nl || (truthy sch && in_list sch uses_netloc && negb (startswith "//" p))
           then "//" +:+ nl +:+ (if truthy p && negb (startswith "/" p) then "/" +:+ p else p)
           else p in
  let u := if truthy sch then sch +:+ ":" +:+ u else u in
  let u := if truthy q then u +:+ "?" +:+ q else u in
  if truthy frag then u +:+ "#" +:+ frag else u.

Definition urlunparse (sch nl p params q frag : string) : string :=
  urlunsplit sch nl (if truthy params then p +:+ ";" +:+ params else p) q frag.

(** The dot-segment resolution of [urljoin]. *)
Definition resolve_segments (segments : list string) : list string :=
  let step acc seg :=
    if bool_decide (seg = "..") then removelast acc
    else if bool_decide (seg = ".") then acc else acc ++ [seg] in
  let r := fold_left step segments [] in
  match last segments with
  | Some l => if in_list l ["."; ".."] then r ++ [EmptyString] else r
  | None => r
  end.

(** [segments[1:-1] = filter(None, segments[1:-1])]. *)
Definition drop_empty_inner (segments : list string) : list string :=
  match segments with
  | [] | [_] => segments
  | s :: rest =>
      s :: List.filter truthy (removelast rest) ++
      match last rest with Some l => [l] | None => [] end
  end.

Definition urljoin (base url : string) : result string :=
  if negb (truthy base) then Ok url
  else if negb (truthy url) then Ok base
  else
    b ← urlsplit_in EmptyString base;
    u ← urlsplit_in (scheme b) url;
    let '(bpath, bparams) := splitparams (scheme b) (path b) in
    let '(upath, uparams) := splitparams (scheme u) (path u) in
    if negb (bool_decide (scheme u = scheme b)) || negb (in_list (scheme u) uses_relative)
    then Ok url
    else if in_list (scheme u) uses_netloc && truthy (netloc u)
    then Ok (urlunparse (scheme u) (netloc u) upath uparams (query u) (fragment u))
    else
      let nl := if in_list (scheme u) uses_netloc then netloc b else netloc u in
      if negb (truthy upath) && negb (truthy uparams) then
        Ok (urlunparse (scheme u) nl bpath bparams
              (if truthy (query u) then query u else query b) (fragment u))
      else
        let base_parts := split "/" bpath in
        let base_parts :=
          match last base_parts with
          | Some l => if truthy l then removelast base_parts else base_parts
          | None => base_parts
          end in
        let segments :=
          if startswith "/" upath then split "/" upath
          else drop_empty_inner (base_parts ++ split "/" upath) in
        let p := join "/" (resolve_segments segments) in
        Ok (urlunparse (scheme u) nl (if truthy p then p else "/") uparams (query u) (fragment u)).
End Urllib.

(** ** Facts *)

Lemma lower_char_idemp c : lower_char (lower_char c) = lower_char c.
Proof. destruct c as [[] [] [] [] [] [] [] []]; reflexivity. Qed.

Lemma lower_idemp s : lower (lower s) = lower s.
Proof. unfold lower. induction s as [|c s IH]; cbn; [done|]. by rewrite lower_char_idemp, IH. Qed.

Lemma in_list_spec s l : in_list s l = true <-> s ∈ l.
Proof. apply bool_decide_eq_true. Qed.

Lemma truthy_false s : truthy s = false <-> s = EmptyString.
Proof. by destruct s. Qed.

Lemma truthy_true s : truthy s = true <-> s <> EmptyString.
Proof. by destruct s. Qed.

(** ** Strings whose characters all satisfy a test *)

Lemma sall_app p a b : sall p (a +:+ b) = sall p a && sall p b.
Proof.
  induction a as [|c a IH]; [done|]. change (String c a +:+ b) with (String c (a +:+ b)).
  cbn [sall]. by rewrite IH, andb_assoc.
Qed.

Lemma sall_impl (p q : ascii -> bool) s :
  (forall c, p c = true -> q c = true) -> sall p s = true -> sall q s = true.
Proof.
  intros Hpq. induction s as [|c s IH]; cbn; [done|].
  rewrite !andb_true_iff. intros [??]. auto.
Qed.

Lemma sall_sfilter p q s : sall p s = true -> sall p (sfilter q s) = true.
Proof.
  induction s as [|c s IH]; cbn; [done|]. rewrite andb_true_iff. intros [Hc Hs].
  destruct (q c); cbn; [rewrite Hc|]; auto.
Qed.

Lemma sall_drop_while p q s : sall p s = true -> sall p (drop_while q s) = true.
Proof.
  induction s as [|c s IH]; cbn; [done|]. intros Hs. destruct (q c); [|exact Hs].
  apply andb_true_iff in Hs as [_ ?]. auto.
Qed.

Lemma sall_rev_app p s t : sall p (String.rev_app s t) = sall p s && sall p t.
Proof.
  revert t. induction s as [|c s IH]; intros t; cbn; [done|].
  rewrite IH. cbn. destruct (p c), (sall p s); done.
Qed.

Lemma sall_rev p s : sall p (String.rev s) = sall p s.
Proof. unfold String.rev. rewrite sall_rev_app. cbn. by rewrite andb_true_r. Qed.

Lemma sall_strip p s : sall p s = true -> sall p (strip s) = true.
Proof.
  intros Hs. unfold strip, rstrip, lstrip.
  rewrite sall_rev. apply sall_drop_while. rewrite sall_rev. by apply sall_drop_while.
Qed.

Lemma sall_break p q s a b :
  break q s = (a, b) -> sall p s = true -> sall p a = true /\ sall p b = true.
Proof.
  revert a b. induction s as [|c s IH]; cbn; intros a b E Hs; [by simplify_eq|].
  destruct (q c); [by simplify_eq|].
  destruct (break q s) as [a' b']. simplify_eq. apply andb_true_iff in Hs as [Hc Hs].
  destruct (IH _ _ eq_refl Hs). cbn. by rewrite Hc.
Qed.

Lemma sall_partition p c s a f b :
  partition c s = (a, f, b) -> sall p s = true -> sall p a = true /\ sall p b = true.
Proof.
  unfold partition. destruct (break (is_char c) s) as [x y] eqn:E. intros E' Hs.
  destruct (sall_break p _ _ _ _ E Hs) as [Hx Hy].
  destruct y as [|d y]; simplify_eq; [done|]. cbn in Hy.
  apply andb_true_iff in Hy as [_ ?]. done.
Qed.

Lemma sall_after_last p c s : sall p s = true -> sall p (after_last c s) = true.
Proof.
  intros Hs. unfold after_last. rewrite sall_rev.
  destruct (break (is_char c) (String.rev s)) as [x y] eqn:E.
  apply (sall_break p) in E; [tauto|]. by rewrite sall_rev.
Qed.

Lemma sall_sdrop p n s : sall p s = true -> sall p (sdrop n s) = true.
Proof.
  revert s. induction n as [|n IH]; intros [|c s]; cbn; try done.
  rewrite andb_true_iff. intros [_ ?]. auto.
Qed.

Lemma sall_substring p n m s : sall p s = true -> sall p (String.substring n m s) = true.
Proof.
  revert n m. induction s as [|c s IH]; intros [|n] [|m]; cbn; try done;
    rewrite ?andb_true_iff; intros [? ?]; cbn; rewrite ?andb_true_iff; auto.
Qed.

Lemma sall_split p c s : sall p s = true -> Forall (fun w => sall p w = true) (split c s).
Proof.
  induction s as [|d s IH]; cbn; [by repeat constructor|].
  rewrite andb_true_iff. intros [Hd Hs]. specialize (IH Hs).
  destruct (is_char c d); [by constructor|].
  destruct (split c s) as [|w ws].
  - repeat constructor. cbn. by rewrite Hd.
  - inversion IH; subst. constructor; [|done]. cbn. by rewrite Hd.
Qed.

Lemma sall_join p sep l :
  sall p sep = true -> Forall (fun w => sall p w = true) l -> sall p (join sep l) = true.
Proof.
  intros Hsep. induction 1 as [|w ws Hw Hws IH]; [done|].
  destruct ws as [|w' ws]; [done|]. cbn [join]. by rewrite !sall_app, Hw, Hsep.
Qed.

Lemma append_assoc (a b c : string) : (a +:+ b) +:+ c = a +:+ b +:+ c.
Proof.
  induction a as [|d a IH]; [done|].
  change (String d ((a +:+ b) +:+ c) = String d (a +:+ b +:+ c)). by rewrite IH.
Qed.

Lemma append_inj_l (a b c : string) : a +:+ b = a +:+ c -> b = c.
Proof. induction a as [|d a IH]; [done|]. intros [= E]. auto. Qed.

Lemma rev_app_append s t : String.rev_app s t = String.rev s +:+ t.
Proof.
  revert t. induction s as [|c s IH]; intros t; [done|].
  unfold String.rev. cbn [String.rev_app]. rewrite IH, (IH (String c EmptyString)).
  by rewrite append_assoc.
Qed.

Lemma rev_cons c s : String.rev (String c s) = String.rev s +:+ String c EmptyString.
Proof. unfold String.rev at 1. cbn [String.rev_app]. apply rev_app_append. Qed.

Lemma rev_snoc s c : String.rev (s +:+ String c EmptyString) = String c (String.rev s).
Proof.
  induction s as [|d s IH]; [done|]. change (String d s +:+ ?x) with (String d (s +:+ x)).
  by rewrite !rev_cons, IH.
Qed.

Lemma rev_involutive s : String.rev (String.rev s) = s.
Proof. induction s as [|c s IH]; [done|]. by rewrite rev_cons, rev_snoc, IH. Qed.

Lemma drop_while_none p s : sall (fun c => negb (p c)) s = true -> drop_while p s = s.
Proof. destruct s as [|c s]; cbn; [done|]. by destruct (p c). Qed.

Lemma strip_none s : sall (fun c => negb (is_space c)) s = true -> strip s = s.
Proof.
  intros Hs. unfold strip, rstrip, lstrip. rewrite (drop_while_none _ s) by done.
  rewrite drop_while_none by by rewrite sall_rev. apply rev_involutive.
Qed.

Lemma rev_append a b : String.rev (a +:+ b) = String.rev b +:+ String.rev a.
Proof.
  induction a as [|c a IH].
  - change ("" +:+ b) with b. change (String.rev "") with "".
    induction (String.rev b) as [|d s IH]; [done|]. change (String d s +:+ "") with (String d (s +:+ "")). by rewrite <- IH.
  - change (String c a +:+ b) with (String c (a +:+ b)). by rewrite !rev_cons, IH, append_assoc.
Qed.

Lemma break_sep (p : ascii -> bool) c a b :
  sall (fun d => negb (p d)) a = true -> p c = true -> break p (a +:+ String c b) = (a, String c b).
Proof.
  intros Ha Hc. induction a as [|d a IH].
  - change ("" +:+ String c b) with (String c b). cbn. by rewrite Hc.
  - change (String d a +:+ ?x) with (String d (a +:+ x)). cbn [break sall] in *.
    apply andb_true_iff in Ha as [Hd Ha]. destruct (p d); [done|]. by rewrite IH.
Qed.

(** What follows the last separator. *)
Lemma after_last_sep c a b : has_char c b = false -> after_last c (a +:+ String c b) = b.
Proof.
  intros Hb. unfold after_last. rewrite rev_append, rev_cons, append_assoc.
  change (String c "" +:+ ?x) with (String c x). rewrite break_sep.
  - cbn [fst]. apply rev_involutive.
  - rewrite sall_rev. unfold has_char, sany in Hb. by apply negb_false_iff in Hb.
  - unfold is_char. apply Ascii.eqb_refl.
Qed.

(** [partition] at a separator that does not occur before it. *)
Lemma partition_sep c a b :
  sall (fun d => negb (is_char c d)) a = true -> partition c (a +:+ String c b) = (a, true, b).
Proof. intros Ha. unfold partition. rewrite break_sep; [done|done|]. unfold is_char. apply Ascii.eqb_refl. Qed.

(** ** [int(s)] on decimal text

    Optional sign and ASCII digits, with single underscores between them, after
    stripping. *)
Definition digit_value (c : ascii) : Z := Z.of_nat (code c) - 48.

Fixpoint digits_value (s : string) (acc : Z) : option Z :=
  match s with
  | EmptyString => Some acc
  | String c s' => if is_digit c then digits_value s' (10 * acc + digit_value c) else None
  end.

Fixpoint grouped (after_digit : bool) (s : string) : bool :=
  match s with
  | EmptyString => after_digit
  | String c s' => if is_digit c then grouped true s' else is_char "_" c && after_digit && grouped false s'
  end.

Definition int_of_digits (s : string) : result Z :=
  if grouped false s
  then match digits_value (sfilter is_digit s) 0 with Some z => Ok z | None => Raise ValueError end
  else Raise ValueError.

Definition int_of_text (s : string) : result Z :=
  match strip s with
  | String c s' =>
      if is_char "-" c then z ← int_of_digits s'; Ok (- z)
      else if is_char "+" c then int_of_digits s' else int_of_digits (String c s')
  | EmptyString => Raise ValueError
  end.

Lemma digits_value_go x s :
  digits_value (pretty_N_go x s) 0 = digits_value s (Z.of_N x).
Proof.
  revert s. induction (N.lt_wf_0 x) as [x _ IH]; intros s.
  destruct (decide (x = 0)%N) as [->|Hne]; [by rewrite pretty_N_go_0|].
  rewrite pretty_N_go_step by lia. rewrite IH by (apply N.div_lt; lia). cbn [digits_value].
  assert (x mod 10 < 10)%N as Hd by (apply N.mod_lt; lia).
  assert (is_digit (pretty_N_char (x mod 10)) = true /\
          digit_value (pretty_N_char (x mod 10)) = Z.of_N (x mod 10)) as [-> ->].
  { clear -Hd. revert Hd. generalize (x mod 10)%N. intros d Hd.
    destruct d as [|[[[[]|[]|]|[[]|[]|]|]|[[[]|[]|]|[[]|[]|]|]|]]; try (vm_compute; done); lia. }
  f_equal. rewrite (N.div_mod x 10) at 3 by lia. lia.
Qed.

Lemma pretty_digits_go (p : ascii -> bool) x s :
  (forall d, p (pretty_N_char d) = true) -> sall p s = true -> sall p (pretty_N_go x s) = true.
Proof.
  intros Hp. revert s. induction (N.lt_wf_0 x) as [x _ IH]; intros s Hs.
  destruct (decide (x = 0)%N) as [->|Hne]; [by rewrite pretty_N_go_0|].
  rewrite pretty_N_go_step by lia. apply IH; [apply N.div_lt; lia|]. cbn. by rewrite Hp.
Qed.

(** Every character of a printed integer is a digit or the sign. *)
Lemma sall_pretty (p : ascii -> bool) (z : Z) :
  (forall d, p (pretty_N_char d) = true) -> p "-"%char = true -> sall p (pretty z) = true.
Proof.
  intros Hp Hm. destruct z as [|q|q].
  - change (sall p (String (pretty_N_char 0) EmptyString) = true). cbn [sall]. by rewrite Hp.
  - apply pretty_digits_go; done.
  - change (sall p (String "-" (pretty_N_go (Npos q) "")) = true). cbn [sall]. rewrite Hm.
    by apply pretty_digits_go.
Qed.

Lemma pretty_N_char_cases (p : ascii -> bool) :
  forallb p ["0"; "1"; "2"; "3"; "4"; "5"; "6"; "7"; "8"; "9"]%char = true ->
  forall d, p (pretty_N_char d) = true.
Proof.
  rewrite forallb_forall. intros H d. apply H. unfold pretty_N_char.
  repeat case_match; repeat (left; reflexivity) || right; cbn; tauto.
Qed.

Lemma sall_pretty_check (p : ascii -> bool) (z : Z) :
  forallb p ["0"; "1"; "2"; "3"; "4"; "5"; "6"; "7"; "8"; "9"]%char && p "-"%char = true ->
  sall p (pretty z) = true.
Proof. intros [? ?]%andb_true_iff. apply sall_pretty; [by apply pretty_N_char_cases|done]. Qed.

Lemma grouped_digits s : sall is_digit s = true -> grouped true s = true /\ sfilter is_digit s = s.
Proof.
  induction s as [|c s IH]; cbn; [done|]. intros [-> Hs]%andb_true_iff. destruct (IH Hs) as [-> ->]. done.
Qed.

Lemma int_of_digits_pretty q : int_of_digits (pretty_N_go (Npos q) "") = Ok (Zpos q).
Proof.
  pose proof (digits_value_go (Npos q) "") as E. unfold int_of_digits.
  pose proof (pretty_digits_go is_digit (Npos q) "" (pretty_N_char_cases is_digit eq_refl) eq_refl) as Hd.
  destruct (pretty_N_go (Npos q) "") as [|c s]; [done|]. destruct (grouped_digits _ Hd) as [_ ->].
  cbn [sall] in Hd. apply andb_true_iff in Hd as [Hc Hs]. cbn [grouped]. rewrite Hc.
  by rewrite (proj1 (grouped_digits s Hs)), E.
Qed.
Example int_groups : int_of_text " 8_010" = Ok 8010 /\ int_of_text "8__010" = Raise ValueError /\ int_of_text "_8" = Raise ValueError /\ int_of_text "-7" = Ok (-7).
Proof. vm_compute. done. Qed.

(** [int(str(z)) == z]. *)
Lemma int_of_text_pretty z : int_of_text (pretty z) = Ok z.
Proof.
  unfold int_of_text. rewrite strip_none by by apply sall_pretty_check.
  destruct z as [|q|q]; [done| |].
  - change (pretty (Zpos q)) with (pretty_N_go (Npos q) "").
    pose proof (int_of_digits_pretty q) as E.
    pose proof (pretty_digits_go is_digit (Npos q) "" (pretty_N_char_cases is_digit eq_refl) eq_refl) as Hd.
    destruct (pretty_N_go (Npos q) "") as [|c s]; [done|]. cbn [sall] in Hd.
    apply andb_true_iff in Hd as [Hc _].
    assert (is_char "-" c = false /\ is_char "+" c = false) as [-> ->]; [|done].
    revert Hc. clear. by destruct c as [[] [] [] [] [] [] [] []].
  - change (pretty (Zneg q)) with (String "-" (pretty_N_go (Npos q) "")). cbn [is_char].
    change (is_char "-" "-") with true. cbn iota. by rewrite int_of_digits_pretty.
Qed.
