(* ===== verification/Logging.v ===== *)
(** * Logging set-up ([crawler/logging_setup.py])

    [configure_logging]: the level a name stands for, and what the call leaves
    configured of structlog and of the standard library's root logger.  The
    level structlog's filtering logger is made with is a parameter.

    [level_names]: which level a name gives; [configure_again]: a second call
    changes structlog's configuration and not the root logger's. *)
From Stdlib Require Import Ascii.
From S2P Require Import Prelude PyStr.
Local Open Scope Z_scope.

Definition upper_char (c : ascii) : ascii := if between 97 122 c then ascii_of_nat (code c - 32) else c.
Definition upper : string -> string := smap upper_char.

(** What [getattr] finds in the module [logging] under a name in capitals: a
    level, or one of its two other constants. *)
Inductive log_attribute : Type := Level (n : Z) | NoLevel (name : string).
Definition logging_module : gmap string log_attribute := list_to_map
  [("CRITICAL", Level 50); ("FATAL", Level 50); ("ERROR", Level 40); ("WARNING", Level 30); ("WARN", Level 30);
   ("INFO", Level 20); ("DEBUG", Level 10); ("NOTSET", Level 0); ("BASIC_FORMAT", NoLevel "BASIC_FORMAT"); ("_STYLES", NoLevel "_STYLES")].
Definition level_of (level : string) : log_attribute := default (Level 20) (logging_module !! upper level).

(** [structlog.make_filtering_bound_logger]. *)
Class Structlog := { make_filtering_bound_logger : log_attribute -> result Z }.
(** It takes the levels of the standard library. *)
Class StructlogLaws `{Structlog} := { filtering_level n : n ∈ [0; 10; 20; 30; 40; 50] -> make_filtering_bound_logger (Level n) = Ok n }.

(** structlog's least level and whether it renders JSON, once configured; and
    the root logger's level, once it has a handler. *)
Record LogState : Type := mkLog { ls_structlog : option (Z * bool); ls_root : option Z }.
Definition unconfigured : LogState := mkLog None None.

(** [logging.basicConfig]: nothing when the root logger has a handler; a level
    that is not a number is refused after the handler was added. *)
Definition basicConfig (level : log_attribute) : act LogState unit := fun s =>
  match ls_root s with
  | Some _ => (Ok tt, s)
  | None =>
      match level with
      | Level n => (Ok tt, mkLog (ls_structlog s) (Some n))
      | NoLevel name => (Raise (if decide (name = "_STYLES") then TypeError else ValueError), mkLog (ls_structlog s) (Some 30))
      end
  end.

Definition configure_logging `{Structlog} (level : string) (json_logs : bool) : act LogState unit :=
  let log_level := level_of level in
  let! wrapper := alift (make_filtering_bound_logger log_level) in
  let! _ := amodify (fun s => mkLog (Some (wrapper, json_logs)) (ls_root s)) in
  basicConfig log_level.

(** A name in any mixture of cases gives its level; any other name that is not
    one of the module's two other constants gives INFO. *)
Lemma level_names (level : string) :
  match level_of level with
  | Level n => n ∈ [0; 10; 20; 30; 40; 50] /\ (logging_module !! upper level = Some (Level n) \/ n = 20 /\ logging_module !! upper level = None)
  | NoLevel name => upper level = name /\ (name = "BASIC_FORMAT" \/ name = "_STYLES")
  end.
Proof.
  unfold level_of. destruct (logging_module !! upper level) as [a|] eqn:E; cbn [default from_option]; cycle 1.
  { split; [set_solver|by right]. }
  assert (forall n, a = Level n -> n ∈ [0; 10; 20; 30; 40; 50]) as Hn.
  { revert E. unfold logging_module. generalize (upper level) as k. intros k E n ->.
    apply elem_of_list_to_map_2 in E. set_solver. }
  destruct a as [n|name]; [split; [by apply Hn|by left]|].
  apply elem_of_list_to_map_2 in E. set_solver.
Qed.

(** Configuring again.  When structlog takes the standard levels and both names
    are levels, the first call configures both loggers, and a second one changes
    structlog's level and format only: the root logger keeps the level of the
    first. *)
Theorem configure_again `{SL : StructlogLaws} (level level' : string) (json json' : bool) (n n' : Z) :
  level_of level = Level n -> level_of level' = Level n' ->
  configure_logging level json unconfigured = (Ok tt, mkLog (Some (n, json)) (Some n)) /\
  configure_logging level' json' (mkLog (Some (n, json)) (Some n)) = (Ok tt, mkLog (Some (n', json')) (Some n)).
Proof.
  intros E E'. pose proof (level_names level) as Hn. pose proof (level_names level') as Hn'. rewrite E in Hn. rewrite E' in Hn'.
  unfold configure_logging, abind, alift, amodify. rewrite E, E', !filtering_level by tauto. done.
Qed.

Definition standard_structlog : Structlog := {|
  make_filtering_bound_logger := fun a => match a with Level n => Ok n | NoLevel _ => Raise KeyError end |}.
#[export] Instance standard_structlog_laws : @StructlogLaws standard_structlog.
Proof. split. done. Qed.
Example level_in_any_case : level_of "wArNing" = Level 30 /\ level_of "verbose" = Level 20 /\ level_of "basic_format" = NoLevel "BASIC_FORMAT".
Proof. vm_compute. done. Qed.
Lemma configure_again_witness :
  @configure_logging standard_structlog "debug" true (mkLog (Some (30, false)) (Some 30)) = (Ok tt, mkLog (Some (10, true)) (Some 30)).
Proof. apply (@configure_again standard_structlog standard_structlog_laws "warn" "debug" false true 30 10); vm_compute; reflexivity. Defined.
