(* ===== verification/Argparse.v ===== *)
(** * [argparse]

    The command lines of [run.py] and [crawler/worker.py] are parsed by the
    standard library's [argparse] (Python 3.11), as far as they use it: options
    that store a string or an integer, a list of strings, or a constant; [-h];
    abbreviated options, [--option=value] and bundled short options; no
    positional arguments.

    [parse_typed]: what a successful parse puts in the namespace. *)
From Stdlib Require Import Ascii.
From S2P Require Import Prelude PyStr.
Local Open Scope Z_scope.

(** What [add_argument] registers: [nargs] absent (with or without
    [type=int]), [nargs="*"], [store_true] and [store_false], and [-h]. *)
Inductive action : Type :=
| Store (dest : string) (int : bool)
| StoreList (dest : string)
| StoreConst (dest : string) (const : bool)
| PrintHelp.

Inductive value : Type := VNone | VStr (s : string) | VInt (z : Z) | VBool (b : bool) | VList (l : list value).

(** The option strings in the order they were added, and the defaults. *)
Record ArgumentParser : Type := mkParser { ap_options : list (string * action); ap_defaults : list (string * value) }.
Abbreviation namespace := (gmap string value).

(** How the program leaves [parse_args]: with a namespace, by printing the help
    (status 0), or by an error message (status 2). *)
Inductive usage_error : Type :=
| AmbiguousOption (arg : string) (options : list string)
| ExpectedOneArgument (option : string)
| IgnoredExplicitArgument (option arg : string)
| InvalidInt (option arg : string)
| UnrecognizedArguments (args : list string).
Inductive exit (A : Type) : Type := Done (a : A) | HelpShown | Usage (e : usage_error).
Arguments Done {A}.
Arguments HelpShown {A}.
Arguments Usage {A}.
Definition ebind {A B} (m : exit A) (f : A -> exit B) : exit B :=
  match m with Done a => f a | HelpShown => HelpShown | Usage e => Usage e end.
Notation "'let?' x := m 'in' f" := (ebind m (fun x => f)) (at level 200, x pattern, right associativity).

Definition exit_status {A} (ok : Z) (m : exit A) : Z := match m with Done _ => ok | HelpShown => 0 | Usage _ => 2 end.

(** ** Which words are options *)

(** The letters of [arg_strings_pattern]: an argument, the first [--], or an
    option ([None]: one the parser does not have). *)
Inductive word : Type := WArg | WDashes | WOpt (a : option action) (option_string : string) (explicit : option string).

Section Parser.
Variable p : ArgumentParser.

Definition lookup_option (s : string) : option action := (fun ioa => snd (snd ioa)) <$> list_find (fun oa => fst oa = s) (ap_options p).

(** [_get_option_tuples]. *)
Definition option_tuples (arg : string) : list (action * string * option string) :=
  if startswith "--" arg then
    let '(prefix, sep, explicit) := partition "="%char arg in
    omap (fun oa => if startswith prefix (fst oa) then Some (snd oa, fst oa, if sep then Some explicit else None) else None) (ap_options p)
  else
    omap (fun oa => if bool_decide (fst oa = String.substring 0 2 arg) then Some (snd oa, fst oa, Some (sdrop 2 arg))
                    else if startswith arg (fst oa) then Some (snd oa, fst oa, None) else None) (ap_options p).

(** [_negative_number_matcher]: [^-\d+$|^-\d*\.\d+$], whose [$] also accepts a
    final newline. *)
Definition chomp (s : string) : string :=
  match String.rev s with String c r => if (code c =? 10)%nat then String.rev r else s | EmptyString => s end.
Definition digits1 (s : string) : bool := truthy s && sall is_digit s.
Definition negative_number (s : string) : bool :=
  match chomp s with
  | String c s' =>
      is_char "-" c && (digits1 s' || let '(a, dot, b) := partition "."%char s' in dot && sall is_digit a && digits1 b)
  | EmptyString => false
  end.

(** [_parse_optional]; no option of the parsers looks like a negative number. *)
Definition parse_optional (arg : string) : exit word :=
  match arg with
  | String "-"%char rest =>
      match lookup_option arg with
      | Some a => Done (WOpt (Some a) arg None)
      | None =>
          if truthy rest then
            let '(opt, sep, explicit) := partition "="%char arg in
            match (if sep then lookup_option opt else None) with
            | Some a => Done (WOpt (Some a) opt (Some explicit))
            | None =>
                match option_tuples arg with
                | [(a, o, e)] => Done (WOpt (Some a) o e)
                | [] => if negative_number arg || has_char " " arg then Done WArg else Done (WOpt None arg None)
                | ts => Usage (AmbiguousOption arg (map (fun t => snd (fst t)) ts))
                end
            end
          else Done WArg
      end
  | _ => Done WArg
  end.

(** The words of the command line: behind [--] there are only arguments. *)
Fixpoint classify (args : list string) : exit (list (word * string)) :=
  match args with
  | [] => Done []
  | arg :: rest =>
      if bool_decide (arg = "--") then Done ((WDashes, arg) :: map (pair WArg) rest)
      else let? w := parse_optional arg in let? ws := classify rest in Done ((w, arg) :: ws)
  end.

(** ** Actions *)

(** [_get_value] and [_get_values]: the first [--] is removed; one argument is
    a value, any other number a list of them. *)
Definition get_value (option_string : string) (int : bool) (s : string) : exit value :=
  if int then match int_of_text s with Ok z => Done (VInt z) | Raise _ => Usage (InvalidInt option_string s) end else Done (VStr s).
Fixpoint get_list (option_string : string) (int : bool) (args : list string) : exit (list value) :=
  match args with
  | [] => Done []
  | s :: args => let? v := get_value option_string int s in let? vs := get_list option_string int args in Done (v :: vs)
  end.
Fixpoint remove_dashes (args : list string) : list string :=
  match args with [] => [] | s :: args => if bool_decide (s = "--") then args else s :: remove_dashes args end.

(** [take_action]. *)
Definition take_action (a : action) (option_string : string) (args : list string) (ns : namespace) : exit namespace :=
  let args := remove_dashes args in
  match a with
  | Store dest int =>
      match args with
      | [s] => let? v := get_value option_string int s in Done (<[dest := v]> ns)
      | _ => let? vs := get_list option_string int args in Done (<[dest := VList vs]> ns)
      end
  | StoreList dest => let? vs := get_list option_string false args in Done (<[dest := VList vs]> ns)
  | StoreConst dest const => Done (<[dest := VBool const]> ns)
  | PrintHelp => HelpShown
  end.
Fixpoint take_actions (l : list (action * list string * string)) (ns : namespace) : exit namespace :=
  match l with
  | [] => Done ns
  | (a, args, o) :: l => let? ns := take_action a o args ns in take_actions l ns
  end.

(** [_match_argument]: how many of the arguments that follow an option are its
    own; [None] when its one argument is missing. *)
Fixpoint run_of_args (ws : list (word * string)) : nat :=
  match ws with (WArg, _) :: ws => S (run_of_args ws) | _ => 0 end.
Definition match_argument (a : action) (ws : list (word * string)) : option nat :=
  match a with
  | Store _ _ => match ws with (WArg, _) :: _ => Some 1%nat | _ => None end
  | StoreList _ => Some (run_of_args ws)
  | StoreConst _ _ | PrintHelp => Some 0%nat
  end.

(** The explicit argument of an option: its one argument, or (after a single
    dash) more options.  The actions, with the last of them still to be given
    the words that follow if there is one. *)
Definition takes_argument (a : action) : bool := match a with Store _ _ | StoreList _ => true | _ => false end.
Fixpoint explicit_actions (a : action) (o : string) (explicit : string) (acc : list (action * list string * string)) :
    exit (list (action * list string * string) * option (action * string)) :=
  if takes_argument a then Done (acc ++ [(a, [explicit], o)], None)
  else if startswith "--" o then Usage (IgnoredExplicitArgument o explicit)
  else match explicit with
       | EmptyString => Usage (IgnoredExplicitArgument o explicit)
       | String c rest =>
           let o' := String "-" (String c EmptyString) in
           match lookup_option o' with
           | None => Usage (IgnoredExplicitArgument o explicit)
           | Some a' =>
               let acc := acc ++ [(a, [], o)] in
               match rest with
               | EmptyString => Done (acc, Some (a', o'))
               | _ => explicit_actions a' o' rest acc
               end
           end
       end.

(** [consume_optional]: the actions of an option, and how many of the following
    words they use. *)
Definition consume_optional (a : action) (o : string) (explicit : option string) (ws : list (word * string)) :
    exit (list (action * list string * string) * nat) :=
  let? (acc, last) := match explicit with None => Done ([], Some (a, o)) | Some e => explicit_actions a o e [] end in
  match last with
  | None => Done (acc, 0%nat)
  | Some (a, o) =>
      match match_argument a ws with
      | None => Usage (ExpectedOneArgument o)
      | Some n => Done (acc ++ [(a, map snd (take n ws), o)], n)
      end
  end.

(** The loop of [_parse_known_args]; [skip] words belong to the last option. *)
Fixpoint consume (skip : nat) (ws : list (word * string)) (ns : namespace) (extras : list string) : exit (namespace * list string) :=
  match ws with
  | [] => Done (ns, extras)
  | (w, s) :: rest =>
      match skip with
      | S k => consume k rest ns extras
      | O =>
          match w with
          | WOpt (Some a) o explicit =>
              let? (acts, n) := consume_optional a o explicit rest in
              let? ns := take_actions acts ns in
              consume n rest ns extras
          | _ => consume 0 rest ns (extras ++ [s])
          end
      end
  end.

(** [parse_args]. *)
Definition parse_args (argv : list string) : exit namespace :=
  let? ws := classify argv in
  let? (ns, extras) := consume 0 ws (list_to_map (rev (ap_defaults p))) [] in
  match extras with [] => Done ns | _ => Usage (UnrecognizedArguments extras) end.

End Parser.

(** ** The types of the namespace *)

Inductive kind : Type := KStr | KInt | KList | KBool.
Definition has_kind (k : kind) (v : value) : Prop :=
  match k, v with
  | KStr, VStr _ | KInt, VInt _ | KBool, VBool _ => True
  | KList, VNone => True
  | KList, VList l => Forall (fun v => exists s, v = VStr s) l
  | _, _ => False
  end.
(** The attribute an action writes, and its kind. *)
Definition writes (a : action) : option (string * kind) :=
  match a with
  | Store d int => Some (d, if int then KInt else KStr)
  | StoreList d => Some (d, KList)
  | StoreConst d _ => Some (d, KBool)
  | PrintHelp => None
  end.
Definition typed (types : gmap string kind) (ns : namespace) : Prop :=
  forall d k, types !! d = Some k -> exists v, ns !! d = Some v /\ has_kind k v.

(** [s] ends in two dashes. *)
Definition dashed (s : string) : Prop := exists r, s = r +:+ "--".
Lemma dashed_app r s : ~ dashed (r +:+ s) -> ~ dashed s.
Proof. intros Hn [r' ->]. apply Hn. exists (r +:+ r'). by rewrite append_assoc. Qed.
Lemma dashes_dashed s : ~ dashed s -> s <> "--".
Proof. intros Hn ->. apply Hn. by exists "". Qed.

Lemma not_dashed s : startswith "--" (String.rev s) = false -> ~ dashed s.
Proof. intros Hs [r ->]. rewrite rev_append in Hs. by destruct (String.rev r). Qed.

Lemma remove_dashes_none args : Forall (fun s => s <> "--") args -> remove_dashes args = args.
Proof. induction 1 as [|s args Hs _ IH]; [done|]. cbn. by rewrite bool_decide_eq_false_2, IH. Qed.
Lemma get_list_strings o args : get_list o false args = Done (map VStr args).
Proof. induction args as [|s args IH]; [done|]. cbn. by rewrite IH. Qed.

Section Typed.
Variable p : ArgumentParser.
Variable types : gmap string kind.
Hypothesis Htypes : Forall (fun oa => forall d k, writes (snd oa) = Some (d, k) -> types !! d = Some k) (ap_options p).

Definition registered (a : action) : Prop := exists o, (o, a) ∈ ap_options p.
Lemma registered_writes a d k : registered a -> writes a = Some (d, k) -> types !! d = Some k.
Proof. intros [o Ho]. apply (proj1 (Forall_forall _ _) Htypes _ Ho). Qed.

Lemma typed_insert ns d k v : types !! d = Some k -> has_kind k v -> typed types ns -> typed types (<[d := v]> ns).
Proof.
  intros Hd Hv Hns d' k' Hd'. destruct (decide (d' = d)) as [->|Hne].
  - rewrite lookup_insert_eq. simplify_eq. by exists v.
  - rewrite lookup_insert_ne by done. by apply Hns.
Qed.

(** An action with the arguments it was registered for. *)
Definition proper (t : action * list string * string) : Prop :=
  let '(a, args, _) := t in registered a /\ Forall (fun s => s <> "--") args /\
  match a with Store _ _ => length args = 1%nat | _ => True end.
Lemma take_action_typed a args o ns ns' : proper (a, args, o) -> typed types ns -> take_action a o args ns = Done ns' -> typed types ns'.
Proof.
  intros (Hreg & Hargs & Hlen) Hns. unfold take_action. rewrite remove_dashes_none by done.
  destruct a as [d int|d|d b|]; cbn [writes] in *; [| | |done].
  - destruct args as [|s [|? ?]]; [done| |done]. unfold get_value.
    assert (types !! d = Some (if int then KInt else KStr)) as Hd by by apply (registered_writes _ d _ Hreg).
    destruct int; [destruct (int_of_text s); [|done]|]; intros [= <-]; by eapply typed_insert.
  - rewrite get_list_strings. intros [= <-]. eapply typed_insert; [by apply (registered_writes _ d KList Hreg)| |done].
    apply Forall_map, Forall_true. intros s. by exists s.
  - intros [= <-]. eapply typed_insert; [by apply (registered_writes _ d KBool Hreg)|done|done].
Qed.
Lemma take_actions_typed l ns ns' : Forall proper l -> typed types ns -> take_actions l ns = Done ns' -> typed types ns'.
Proof.
  intros Hl. revert ns. induction Hl as [|[[a args] o] l Ha Hl IH]; intros ns Hns; cbn; [by intros [= <-]|].
  destruct (take_action a o args ns) as [ns1| |] eqn:E; cbn; [|done..]. apply IH. by eapply take_action_typed.
Qed.

(** The words: an option that is known has one of the parser's actions and an
    explicit argument that its word ends in. *)
Definition sound_word (w : word) (arg : string) : Prop :=
  match w with
  | WOpt (Some a) _ explicit => registered a /\ match explicit with Some e => exists r, arg = r +:+ e | None => True end
  | WDashes => False
  | _ => True
  end.
Lemma lookup_option_registered s a : lookup_option p s = Some a -> registered a.
Proof.
  unfold lookup_option. destruct (list_find _ _) as [[i [o a']]|] eqn:E; [|done]. intros [= <-].
  apply list_find_Some in E as (Hi & _). exists o. by eapply list_elem_of_lookup_2.
Qed.
Lemma partition_append c s a f b : partition c s = (a, f, b) -> f = true -> exists r, s = r +:+ b.
Proof.
  unfold partition. intros E Hf. revert a f b E Hf. induction s as [|c' s IH]; intros a f b; cbn.
  - intros [= <- <- <-]. done.
  - destruct (is_char c c'); [by intros [= <- <- <-]; exists (String c' "")|].
    destruct (break (is_char c) s) as [x y] eqn:Ey. intros E Hf. destruct y as [|d y]; [by simplify_eq|].
    injection E as <- <- <-. destruct (IH x true y) as [r ->]; [done|done|]. by exists (String c' r).
Qed.

Lemma sdrop_append n s : exists r, s = r +:+ sdrop n s.
Proof.
  revert s. induction n as [|n IH]; intros s; [by exists ""|]. destruct s as [|c s]; [by exists ""|].
  destruct (IH s) as [r Hr]. exists (String c r). change (String c s = String c (r +:+ sdrop n s)). by rewrite <- Hr.
Qed.
Lemma option_tuples_sound arg a o e : (a, o, e) ∈ option_tuples p arg -> sound_word (WOpt (Some a) o e) arg.
Proof.
  unfold option_tuples. destruct (startswith "--" arg).
  - destruct (partition "=" arg) as [[pre sep] expl] eqn:Ep. intros ([o' a'] & Hin & E)%list_elem_of_omap. cbn [fst snd] in E.
    destruct (startswith pre o'); [|done]. injection E as <- <- <-. split; [by exists o'|].
    destruct sep; [|done]. by eapply partition_append.
  - intros ([o' a'] & Hin & E)%list_elem_of_omap. cbn [fst snd] in E.
    case_bool_decide; [|destruct (startswith arg o'); [|done]]; injection E as <- <- <-; (split; [by exists o'|]); [|done].
    exact (sdrop_append 2 arg).
Qed.
Lemma parse_optional_sound arg w : parse_optional p arg = Done w -> sound_word w arg.
Proof.
  unfold parse_optional. destruct arg as [|c rest]; [by intros [= <-]|].
  destruct (decide (c = "-"%char)) as [->|Hne].
  2:{ destruct c as [[] [] [] [] [] [] [] []]; (by intros [= <-]) || done. }
  destruct (lookup_option p _) as [a|] eqn:El; [intros [= <-]; split; [by eapply lookup_option_registered|done]|].
  destruct (truthy rest); [|by intros [= <-]]. destruct (partition "=" _) as [[opt sep] expl] eqn:Ep.
  destruct (if sep then lookup_option p opt else None) as [a|] eqn:Es.
  - intros [= <-]. destruct sep; [|done]. split; [by eapply lookup_option_registered|]. by eapply partition_append.
  - pose proof (fun a o e => option_tuples_sound (String "-" rest) a o e) as Hts.
    destruct (option_tuples p _) as [|[[a o] e] [|? ?]]; [destruct (_ || _); by intros [= <-]| |done].
    intros [= <-]. apply Hts. by left.
Qed.

(** Up to the first [--], sound words that do not end in two dashes; then
    arguments. *)
Fixpoint sound_words (ws : list (word * string)) : Prop :=
  match ws with
  | [] => True
  | (WDashes, _) :: rest => Forall (fun ws => fst ws = WArg) rest
  | (w, s) :: rest => sound_word w s /\ ~ dashed s /\ sound_words rest
  end.
Lemma classify_sound argv ws : Forall (fun s => s = "--" \/ ~ dashed s) argv -> classify p argv = Done ws -> sound_words ws.
Proof.
  intros Hd. revert ws. induction Hd as [|s argv Hs _ IH]; intros ws; cbn [classify]; [by intros [= <-]|].
  case_bool_decide as Es; [intros [= <-]; cbn; by apply Forall_map, Forall_true|].
  destruct (parse_optional p s) as [w| |] eqn:Ew; [|done..]. cbn [ebind].
  destruct (classify p argv) as [ws'| |]; [|done..]. intros [= <-].
  apply parse_optional_sound in Ew. destruct Hs as [Hs|Hs]; [done|]. destruct w; [|done|]; cbn; by split_and!; auto.
Qed.

Lemma run_of_args_plain ws n : sound_words ws -> (n <= run_of_args ws)%nat -> Forall (fun s => s <> "--") (map snd (take n ws)).
Proof.
  revert n. induction ws as [|[w s] ws IH]; intros [|n] Hs Hn; [constructor..|]. cbn in Hn. destruct w; try lia.
  destruct Hs as (_ & Hs & Hws). cbn. constructor; [by apply dashes_dashed|]. apply IH; [done|lia].
Qed.

Lemma explicit_actions_proper a o e acc acts last : registered a -> ~ dashed e -> Forall proper acc ->
  explicit_actions p a o e acc = Done (acts, last) ->
  Forall proper acts /\ match last with Some (a', _) => registered a' | None => True end.
Proof.
  revert a o acc. induction e as [|c e IH]; intros a o acc Hreg Hd Hacc; cbn [explicit_actions].
  all: destruct (takes_argument a) eqn:Et; [intros [= <- <-]; split; [|done]; apply Forall_app; split; [done|]; constructor; [|done];
         split; [done|]; split; [constructor; [by apply dashes_dashed|done]|by destruct a]|].
  all: destruct (startswith "--" o); [done|]; try done.
  destruct (lookup_option p _) as [a'|] eqn:El; [|done]. apply lookup_option_registered in El.
  assert (Forall proper (acc ++ [(a, [], o)])) as Hacc'.
  { apply Forall_app. split; [done|]. constructor; [|done]. split; [done|]. split; [constructor|by destruct a]. }
  destruct e as [|c' e]; [by intros [= <- <-]|]. apply IH; [done| |done]. by apply (dashed_app (String c "")).
Qed.

Lemma consume_optional_proper a o explicit ws acts n s : sound_word (WOpt (Some a) o explicit) s -> ~ dashed s -> sound_words ws ->
  consume_optional p a o explicit ws = Done (acts, n) -> Forall proper acts.
Proof.
  intros [Hreg He] Hd Hws. unfold consume_optional.
  destruct (match explicit with Some e => _ | None => _ end) as [[acc last]| |] eqn:E; [|done..]. cbn [ebind].
  assert (Forall proper acc /\ match last with Some (a', _) => registered a' | None => True end) as [Hacc Hlast].
  { destruct explicit as [e|]; [|injection E as <- <-; by split; [constructor|]]. destruct He as [r ->]. apply dashed_app in Hd.
    by eapply explicit_actions_proper in E. }
  destruct last as [[a' o']|]; [|by intros [= <- <-]]. destruct (match_argument a' ws) as [n'|] eqn:En; [|done].
  intros [= <- <-]. apply Forall_app. split; [done|]. constructor; [|done]. split; [done|]. split.
  - apply run_of_args_plain; [done|]. destruct a'; cbn in En; try (injection En as <-; lia).
    destruct ws as [|[[] ?] ?]; try done. injection En as <-. cbn. lia.
  - destruct a'; try done. destruct ws as [|[[] ?] ?]; try done. by injection En as <-.
Qed.

Lemma consume_args ws ns ns' skip extras extras' : Forall (fun ws => fst ws = WArg) ws ->
  consume p skip ws ns extras = Done (ns', extras') -> ns' = ns.
Proof.
  intros Hws. revert skip extras. induction Hws as [|[w s] ws Hw _ IH]; intros skip extras; cbn; [by intros [= <- <-]|].
  cbn in Hw. subst w. destruct skip; apply IH.
Qed.
Lemma consume_typed skip ws ns ns' extras extras' : sound_words ws -> typed types ns ->
  consume p skip ws ns extras = Done (ns', extras') -> typed types ns'.
Proof.
  revert skip ns extras. induction ws as [|[w s] ws IH]; intros skip ns extras Hws Hns; [cbn; by intros [= <- <-]|].
  destruct w as [| |[a|] o explicit]; cbn [consume].
  - destruct Hws as (_ & _ & Hws). destruct skip; by apply IH.
  - destruct skip; by intros ->%consume_args.
  - destruct Hws as (Hw & Hd & Hws). destruct skip; [|by apply IH].
    destruct (consume_optional p a o explicit ws) as [[acts n]| |] eqn:E; [|done..]. cbn [ebind].
    destruct (take_actions acts ns) as [ns1| |] eqn:Et; [|done..]. cbn [ebind]. apply IH; [done|].
    eapply take_actions_typed; [|done|exact Et]. by eapply consume_optional_proper.
  - destruct Hws as (_ & _ & Hws). destruct skip; by apply IH.
Qed.

(** What a successful parse returns: every attribute the parser writes has the
    kind it was registered with, when no word other than [--] ends in two
    dashes (an explicit [--option=--] loses its argument and stores a list). *)
Lemma parse_typed argv ns : typed types (list_to_map (rev (ap_defaults p))) ->
  Forall (fun s => s = "--" \/ ~ dashed s) argv -> parse_args p argv = Done ns -> typed types ns.
Proof.
  intros Hdef Hargv. unfold parse_args. destruct (classify p argv) as [ws| |] eqn:Ec; [|done..]. cbn [ebind].
  destruct (consume p 0 ws _ []) as [[ns' extras]| |] eqn:E; [|done..]. cbn [ebind]. destruct extras; [|done]. intros [= <-].
  eapply consume_typed; [|exact Hdef|exact E]. by eapply classify_sound.
Qed.
End Typed.

(** ** Consuming the words one by one *)

Lemma parse_optional_plain p s : startswith "-" s = false -> parse_optional p s = Done WArg.
Proof.
  destruct s as [|c s]; [done|]. destruct c as [[] [] [] [] [] [] [] []]; try done. by destruct s.
Qed.
Lemma classify_plain p args : Forall (fun s => startswith "-" s = false) args -> classify p args = Done (map (pair WArg) args).
Proof.
  induction 1 as [|s args Hs _ IH]; [done|]. cbn [classify]. rewrite bool_decide_eq_false_2 by by intros ->.
  by rewrite parse_optional_plain, IH.
Qed.

Section Consume.
Variable p : ArgumentParser.
Lemma consume_store d int o e s rest ns extras : e <> "--" ->
  consume p 0 ((WOpt (Some (Store d int)) o (Some e), s) :: rest) ns extras =
  let? v := get_value o int e in consume p 0 rest (<[d := v]> ns) extras.
Proof.
  intros He. cbn [consume]. unfold consume_optional.
  assert (explicit_actions p (Store d int) o e [] = Done ([(Store d int, [e], o)], None)) as -> by by destruct e.
  cbn [ebind take_actions take_action]. rewrite remove_dashes_none by by constructor. by destruct (get_value o int e).
Qed.
Lemma consume_const d b o s rest ns extras :
  consume p 0 ((WOpt (Some (StoreConst d b)) o None, s) :: rest) ns extras = consume p 0 rest (<[d := VBool b]> ns) extras.
Proof. done. Qed.

Lemma consume_skip args rest ns extras :
  consume p (length args) (map (pair WArg) args ++ rest) ns extras = consume p 0 rest ns extras.
Proof. induction args as [|s args IH]; [done|]. apply IH. Qed.
Lemma run_of_args_all args : run_of_args (map (pair WArg) args) = length args.
Proof. induction args as [|s args IH]; cbn; by f_equal. Qed.
Lemma consume_list d o s args ns extras : Forall (fun s => s <> "--") args ->
  consume p 0 ((WOpt (Some (StoreList d)) o None, s) :: map (pair WArg) args) ns extras =
  Done (<[d := VList (map VStr args)]> ns, extras).
Proof.
  intros Ha. cbn [consume]. unfold consume_optional. cbn [ebind match_argument]. rewrite run_of_args_all.
  assert (map snd (take (length args) (map (pair WArg) args)) = args) as ->.
  { rewrite firstn_all2 by by rewrite length_map. rewrite map_map. apply map_id. }
  cbn [app take_actions take_action ebind]. rewrite remove_dashes_none by done. rewrite get_list_strings. cbn [ebind].
  pose proof (consume_skip args [] (<[d := VList (map VStr args)]> ns) extras) as E. by rewrite app_nil_r in E.
Qed.
Lemma get_value_int o z : get_value o true (pretty z) = Done (VInt z).
Proof. unfold get_value. by rewrite int_of_text_pretty. Qed.
End Consume.
