(* ===== verification/Format.v ===== *)
(** * Numbers in format strings

    The format specifications of the printed lines: [:.2f] and the like, [:.1%],
    and [:>6].  A float is its exact value, of which Python prints the nearest
    decimal with the digits asked for, a tie going to the even one.

    [read_fixed]: the printed decimal is the number's, to half a unit of its
    last digit. *)
From Stdlib Require Import Ascii Qabs.
From S2P Require Import Prelude PyStr.
Local Open Scope Z_scope.

Definition repeat_char (c : ascii) (n : nat) : string := Nat.iter n (String c) EmptyString.
(** [s.rjust(width)] with a fill character. *)
Definition rjust (c : ascii) (width : nat) (s : string) : string := repeat_char c (width - String.length s) +:+ s.

(** [format(x, ".<p>f")]. *)
Definition fixed (p : nat) (x : Q) : string :=
  let unit := 10 ^ Z.of_nat p in
  let n := py_round (Qabs x * inject_Z unit) in
  (if Qltb x 0 then "-" else "") +:+ pretty (n / unit) +:+
  match p with O => "" | _ => "." +:+ rjust "0" p (pretty (n mod unit)) end.
(** [format(x, ".<p>%")]. *)
Definition percent (p : nat) (x : Q) : string := fixed p (x * 100) +:+ "%".

(** What a reader takes a decimal for. *)
Definition read_unsigned (s : string) : result Q :=
  let '(a, dot, b) := partition "." s in
  let* x := int_of_digits a in
  if dot then let* y := int_of_digits b in Ok (inject_Z x + inject_Z y / inject_Z (10 ^ Z.of_nat (String.length b)))%Q
  else Ok (inject_Z x).
Definition read_decimal (s : string) : result Q :=
  match s with
  | String "-"%char s => let* x := read_unsigned s in Ok (- x)%Q
  | _ => read_unsigned s
  end.

Lemma py_round_close x : (Qabs (inject_Z (py_round x) - x) <= 1 # 2)%Q.
Proof.
  unfold py_round. pose proof (Qfloor_le x). pose proof (Qlt_floor x) as Hlt. rewrite inject_Z_plus in Hlt.
  apply Qabs_Qle_condition. qcases; [| |destruct (Z.even _)]; rewrite ?inject_Z_plus; change (inject_Z 1) with 1%Q in *; lra.
Qed.
Lemma py_round_nonneg x : (0 <= x)%Q -> 0 <= py_round x.
Proof.
  intros Hx. assert (0 <= Qfloor x) by (rewrite <- (Qfloor_Z 0); by apply Qfloor_resp_le).
  unfold py_round. qcases; [| |destruct (Z.even _)]; lia.
Qed.

(** Digits. *)
Lemma length_pretty_go x s k : (x < 10 ^ N.of_nat k)%N -> (String.length (pretty_N_go x s) <= k + String.length s)%nat.
Proof.
  revert x s. induction k as [|k IH]; intros x s Hx.
  - assert (x = 0)%N as -> by (cbn in Hx; lia). rewrite pretty_N_go_0. lia.
  - destruct (decide (x = 0)%N) as [->|Hne]; [rewrite pretty_N_go_0; lia|]. rewrite pretty_N_go_step by lia.
    etrans; [apply IH|cbn; lia]. apply N.Div0.div_lt_upper_bound. rewrite Nat2N.inj_succ, N.pow_succ_r' in Hx. lia.
Qed.
Lemma length_pretty (z : Z) k : 0 <= z < 10 ^ Z.of_nat k -> (0 < k)%nat -> (String.length (pretty z) <= k)%nat.
Proof.
  intros Hz Hk. destruct z as [|q|q]; [cbn; lia| |lia]. change (pretty (Zpos q)) with (pretty_N_go (Npos q) "").
  etrans; [apply (length_pretty_go _ _ k)|cbn; lia]. apply N2Z.inj_lt. rewrite N2Z.inj_pow, nat_N_Z. lia.
Qed.
Lemma int_of_digits_nonneg (z : Z) : 0 <= z -> int_of_digits (pretty z) = Ok z.
Proof. destruct z; [done| |lia]. intros _. apply int_of_digits_pretty. Qed.
Lemma sall_digits_nonneg (z : Z) : 0 <= z -> sall is_digit (pretty z) = true.
Proof.
  destruct z as [|q|q]; [done| |lia]. intros _. exact (pretty_digits_go is_digit (Npos q) "" (pretty_N_char_cases is_digit eq_refl) eq_refl).
Qed.

Lemma sall_repeat p c n : p c = true -> sall p (repeat_char c n) = true.
Proof. intros Hc. induction n as [|n IH]; [done|]. cbn. by rewrite Hc. Qed.
Lemma length_append a b : String.length (a +:+ b) = (String.length a + String.length b)%nat.
Proof. induction a as [|c a IH]; [done|]. change (S (String.length (a +:+ b)) = S (String.length a + String.length b)%nat). by rewrite IH. Qed.
Lemma length_repeat_char c n : String.length (repeat_char c n) = n.
Proof. induction n as [|n IH]; [done|]. cbn. by f_equal. Qed.
Lemma length_rjust c w s : (String.length s <= w)%nat -> String.length (rjust c w s) = w.
Proof. intros Hs. unfold rjust. rewrite length_append, length_repeat_char. lia. Qed.

Lemma int_of_digits_value s z : s <> "" -> sall is_digit s = true -> digits_value s 0 = Some z -> int_of_digits s = Ok z.
Proof.
  intros Hs Hd Hv. unfold int_of_digits. destruct (grouped_digits s Hd) as [_ ->]. rewrite Hv.
  destruct s as [|c s]; [done|]. cbn [sall] in Hd. apply andb_true_iff in Hd as [Hc Hd]. cbn [grouped]. rewrite Hc.
  by rewrite (proj1 (grouped_digits s Hd)).
Qed.
Lemma digits_value_zeros n s : digits_value (repeat_char "0" n +:+ s) 0 = digits_value s 0.
Proof. induction n as [|n IH]; [done|]. exact IH. Qed.
Lemma int_of_digits_padded w (z : Z) : 0 <= z -> int_of_digits (rjust "0" w (pretty z)) = Ok z.
Proof.
  intros Hz. pose proof (sall_digits_nonneg z Hz) as Hd. pose proof (int_of_digits_nonneg z Hz) as Hi.
  apply int_of_digits_value.
  - intros E%(f_equal String.length). unfold rjust in E. rewrite length_append in E. destruct (pretty z) eqn:Ez; [done|]. cbn in E. lia.
  - unfold rjust. rewrite sall_app, sall_repeat, Hd; done.
  - unfold rjust. rewrite digits_value_zeros. revert Hi. unfold int_of_digits. destruct (grouped_digits _ Hd) as [_ ->].
    destruct (grouped false (pretty z)); [|done]. destruct (digits_value (pretty z) 0); [|done]. by intros [= ->].
Qed.

(** What is printed reads as the rounded number. *)
Lemma read_unsigned_fixed p n : 0 <= n ->
  exists y, read_unsigned (pretty (n / 10 ^ Z.of_nat p) +:+ match p with O => "" | _ => "." +:+ rjust "0" p (pretty (n mod 10 ^ Z.of_nat p)) end) = Ok y /\
    (y == inject_Z n / inject_Z (10 ^ Z.of_nat p))%Q.
Proof.
  intros Hn. set (u := 10 ^ Z.of_nat p). assert (0 < u) as Hu by (apply Z.pow_pos_nonneg; lia).
  assert (0 <= n / u) as Hq by (apply Z.div_pos; lia). pose proof (Z.mod_pos_bound n u Hu) as Hm.
  assert (sall (fun c => negb (is_char "." c)) (pretty (n / u)) = true) as Hdot.
  { eapply sall_impl; [|by apply sall_digits_nonneg]. intros c. unfold is_digit, between, is_char. by destruct c as [[] [] [] [] [] [] [] []]. }
  destruct p as [|p]; unfold read_unsigned.
  - assert (pretty (n / u) +:+ "" = pretty (n / u)) as -> by (clear; induction (pretty (n / u)) as [|c s IH]; [done|]; change (String c (s +:+ "") = String c s); by rewrite IH).
    unfold partition. assert (break (is_char ".") (pretty (n / u)) = (pretty (n / u), "")) as ->.
    { revert Hdot. clear. induction (pretty (n / u)) as [|c s IH]; [done|]. cbn [sall break]. destruct (is_char "." c); [done|]. intros Hs. by rewrite IH. }
    rewrite int_of_digits_nonneg by done. cbn [rbind]. eexists. split; [done|]. change u with 1. rewrite Z.div_1_r. field.
  - change ("." +:+ rjust "0" (S p) (pretty (n mod u))) with (String "." (rjust "0" (S p) (pretty (n mod u)))).
    rewrite partition_sep by done. cbv beta iota zeta.
    rewrite int_of_digits_nonneg, int_of_digits_padded by lia. cbn [rbind].
    rewrite length_rjust by (apply length_pretty; [done|lia]). fold u. eexists. split; [done|].
    rewrite (Z.div_mod n u) at 3 by lia. rewrite inject_Z_plus, inject_Z_mult. field. intros E. unfold Qeq in E. cbn in E. lia.
Qed.
Lemma read_decimal_plain s : startswith "-" s = false -> read_decimal s = read_unsigned s.
Proof. destruct s as [|c s]; [done|]. destruct c as [[] [] [] [] [] [] [] []]; try done. by destruct s. Qed.
Lemma startswith_digit (z : Z) s : 0 <= z -> startswith "-" (pretty z +:+ s) = false.
Proof.
  intros Hz. pose proof (sall_digits_nonneg z Hz) as Hd. destruct (pretty z) as [|c t] eqn:E.
  - pose proof (int_of_digits_nonneg z Hz) as Hi. by rewrite E in Hi.
  - cbn [sall] in Hd. apply andb_true_iff in Hd as [Hc _].
    change (startswith "-" (String c (t +:+ s)) = false). by destruct c as [[] [] [] [] [] [] [] []].
Qed.

(** The text of a number reads back to within half a unit of its last digit. *)
Lemma read_fixed p x : exists y, read_decimal (fixed p x) = Ok y /\ (Qabs (y - x) <= (1 # 2) / inject_Z (10 ^ Z.of_nat p))%Q.
Proof.
  unfold fixed. set (u := 10 ^ Z.of_nat p). assert (0 < u) as Hu by (apply Z.pow_pos_nonneg; lia).
  assert (0 < inject_Z u)%Q as Hu' by (rewrite <- (Zlt_Qlt 0); done).
  set (n := py_round (Qabs x * inject_Z u)).
  assert (0 <= n) as Hn by (apply py_round_nonneg, Qmult_le_0_compat; [apply Qabs_nonneg|lra]).
  pose proof (py_round_close (Qabs x * inject_Z u)) as Hc. fold n in Hc.
  destruct (read_unsigned_fixed p n Hn) as (y & Ey & Hy). fold u in Ey, Hy.
  assert (Qabs (y - Qabs x) <= (1 # 2) / inject_Z u)%Q as Hclose.
  { apply Qle_shift_div_l; [done|]. rewrite <- (Qabs_pos (inject_Z u)) at 1 by lra. rewrite <- Qabs_Qmult.
    assert ((y - Qabs x) * inject_Z u == inject_Z n - Qabs x * inject_Z u)%Q as -> by (rewrite Hy; field; lra). done. }
  destruct (Qltb_spec x 0).
  - exists (- y)%Q. change (read_decimal ("-" +:+ ?s)) with (let* x := read_unsigned s in Ok (- x)%Q). rewrite Ey. split; [done|].
    pose proof (Qabs_neg x ltac:(lra)) as Hx. rewrite Hx in Hclose. assert (- y - x == - (y - - x))%Q as -> by lra. by rewrite Qabs_opp.
  - exists y. change ("" +:+ ?s) with s. rewrite read_decimal_plain by by apply startswith_digit, Z.div_pos. split; [done|].
    pose proof (Qabs_pos x ltac:(lra)) as Hx. by rewrite Hx in Hclose.
Qed.

Example formats : fixed 2 (1 # 8) = "0.12" /\ fixed 2 (3 # 8) = "0.38" /\ fixed 0 (5 # 2) = "2" /\ fixed 1 (-(1) # 100) = "-0.0" /\
  percent 1 (1 # 3) = "33.3%" /\ fixed 3 (10001 # 10000) = "1.000" /\ rjust " " 6 "42" = "    42".
Proof. vm_compute. done. Qed.
