(* ===== verification/Config.v ===== *)
(** * Settings ([crawler/config.py])

    The nested settings tree with the defaults the classes declare.  A
    [float] setting is a rational; environment overrides and [.env] parsing
    (pydantic-settings) are outside the model, which takes any [Settings]
    value. *)
From S2P Require Import Prelude.
Local Open Scope Z_scope.

Record PostgresSettings : Type := {
  dsn : string; echo : bool; pool_size : Z }.
Record RedisSettings : Type := { redis_url : string }.
Record KafkaSettings : Type := {
  bootstrap_servers : string; topic_prefix : string; partitions : Z;
  replication_factor : Z; consumer_group : string; max_retries : Z }.
Record FetchSettings : Type := {
  concurrency : Z; per_host_concurrency : Z; timeout_seconds : Q;
  connect_timeout_seconds : Q; retries : Z; max_page_bytes : Z; user_agent : string }.
Record PolitenessSettings : Type := {
  respect_robots : bool; default_crawl_delay_ms : Z; robots_cache_size : Z;
  robots_cache_ttl_seconds : Z; dns_cache_size : Z; dns_cache_ttl_seconds : Z }.
Record CrawlSettings : Type := {
  max_depth : Z; max_pages : Z; max_pages_per_domain : Z; max_url_length : Z;
  allowed_content_types : list string }.
Record DedupSettings : Type := {
  enable_url_dedup : bool; enable_content_dedup : bool; bloom_expected_insertions : Z;
  bloom_false_positive_rate : Q; bloom_namespace : string;
  simhash_hamming_threshold : Z; simhash_lsh_bands : Z }.
Inductive frontier_backend : Type := FrontierMemory | FrontierKafka.
Record FrontierSettings : Type := { backend : frontier_backend; max_in_flight : Z }.
Record ShardingSettings : Type := { workers : Z; virtual_nodes : Z }.
Record ResilienceSettings : Type := {
  enable_domain_budget : bool; domain_budget_namespace : string;
  enable_circuit_breaker : bool; circuit_failure_threshold : Z; circuit_reset_seconds : Q;
  max_global_in_flight : Z }.
Record RecrawlSettings : Type := {
  min_interval_seconds : Q; max_interval_seconds : Q; backoff_factor : Q; batch_size : Z }.
Inductive body_backend_kind : Type := BodyPostgres | BodyMinio.
Record StorageSettings : Type := {
  body_backend : body_backend_kind; minio_endpoint : string; minio_access_key : string;
  minio_secret_key : string; minio_bucket : string; minio_secure : bool }.

Record Settings : Type := {
  base_url : string; log_level : string; log_json : bool;
  postgres : PostgresSettings; redis : RedisSettings; kafka : KafkaSettings;
  fetch : FetchSettings; politeness : PolitenessSettings; crawl : CrawlSettings;
  dedup : DedupSettings; frontier : FrontierSettings; sharding : ShardingSettings;
  storage : StorageSettings; resilience : ResilienceSettings; recrawl : RecrawlSettings }.

#[export] Instance frontier_backend_eq_dec : EqDecision frontier_backend.
Proof. solve_decision. Defined.
#[export] Instance body_backend_eq_dec : EqDecision body_backend_kind.
Proof. solve_decision. Defined.

(** [Settings()] with no override ([get_settings]). *)
Definition default_settings : Settings := {|
  base_url := "http://localhost:8010"; log_level := "INFO"; log_json := false;
  postgres := {| dsn := "sqlite+aiosqlite:///./crawler.db"; echo := false; pool_size := 10 |};
  redis := {| redis_url := "redis://localhost:6379/0" |};
  kafka := {| bootstrap_servers := "localhost:9092"; topic_prefix := "crawler";
              partitions := 6; replication_factor := 1; consumer_group := "crawler-workers";
              max_retries := 3 |};
  fetch := {| concurrency := 100; per_host_concurrency := 2; timeout_seconds := 15;
              connect_timeout_seconds := 5; retries := 2; max_page_bytes := 5000000;
              user_agent := "MoonshotCrawler/0.1 (+https://github.com/moonshot/web-crawler)" |};
  politeness := {| respect_robots := true; default_crawl_delay_ms := 1000;
                   robots_cache_size := 10000; robots_cache_ttl_seconds := 3600;
                   dns_cache_size := 10000; dns_cache_ttl_seconds := 300 |};
  crawl := {| max_depth := 3; max_pages := 1000; max_pages_per_domain := 500;
              max_url_length := 2048;
              allowed_content_types := ["text/html"; "application/xhtml+xml"] |};
  dedup := {| enable_url_dedup := true; enable_content_dedup := true;
              bloom_expected_insertions := 1000000; bloom_false_positive_rate := 1 # 100;
              bloom_namespace := "bloom:seen"; simhash_hamming_threshold := 3;
              simhash_lsh_bands := 4 |};
  frontier := {| backend := FrontierMemory; max_in_flight := 1000 |};
  sharding := {| workers := 3; virtual_nodes := 150 |};
  storage := {| body_backend := BodyPostgres; minio_endpoint := "localhost:9000";
                minio_access_key := "minioadmin"; minio_secret_key := "minioadmin";
                minio_bucket := "crawl-content"; minio_secure := false |};
  resilience := {| enable_domain_budget := true; domain_budget_namespace := "budget:domain";
                   enable_circuit_breaker := true; circuit_failure_threshold := 5;
                   circuit_reset_seconds := 30; max_global_in_flight := 0 |};
  recrawl := {| min_interval_seconds := 3600; max_interval_seconds := 7 * 24 * 3600;
                backoff_factor := 2; batch_size := 100 |}
|}.

(** [__version__] of the package ([crawler/__init__.py]). *)
Definition __version__ : string := "0.1.0".
