(* ===== verification/Models.v ===== *)
(** * Domain objects and metrics ([crawler/models.py], [crawler/metrics.py])

    The records the stages pass to each other, with the properties and the
    header lookup the classes define, and the process-wide Prometheus
    registry as a finite map from a metric (name, label values) to its
    value. *)
From S2P Require Import Prelude PyStr.
Local Open Scope Z_scope.

(** ** [crawler/models.py] *)

Record FrontierItem : Type := mkItem {
  fi_url : string; fi_depth : Z; fi_crawl_id : option Z }.

Record Link : Type := mkLink { link_url : string; link_anchor : option string }.

Record FetchResult : Type := mkFetch {
  fr_url : string; fr_final_url : string; fr_status : Z;
  fr_headers : list (string * string);   (* a dict: insertion order, distinct keys *)
  fr_body : string;                      (* bytes *)
  fr_content_type : option string; fr_elapsed : Q; fr_error : option string }.

Record ParsedPage : Type := mkParsed {
  pp_url : string; pp_title : option string; pp_links : list Link; pp_text : string }.

Record PageRecord : Type := mkRecord {
  pr_url : string; pr_registered_domain : string; pr_depth : Z;
  pr_http_status : option Z; pr_content_type : option string; pr_content_length : option Z;
  pr_title : option string; pr_content_hash : option string; pr_simhash : option Z;
  pr_storage_key : option string; pr_etag : option string; pr_last_modified : option string;
  pr_crawl_id : option Z; pr_links : list Link }.

Record ProcessResult : Type := mkResult {
  res_item : FrontierItem; res_fetched : bool; res_stored : bool; res_duplicate : bool;
  res_skipped : option string; res_links : list Link; res_record : option PageRecord }.

#[export] Instance FrontierItem_eq_dec : EqDecision FrontierItem.
Proof. solve_decision. Defined.
#[export] Instance Link_eq_dec : EqDecision Link.
Proof. solve_decision. Defined.
#[export] Instance PageRecord_eq_dec : EqDecision PageRecord.
Proof. solve_decision. Defined.
#[export] Instance ProcessResult_eq_dec : EqDecision ProcessResult.
Proof. solve_decision. Defined.

(** [FetchResult.ok]. *)
Definition ok (r : FetchResult) : bool :=
  bool_decide (fr_error r = None) && (200 <=? fr_status r) && (fr_status r <? 300).

(** [FetchResult.is_html]. *)
Definition is_html (r : FetchResult) : bool :=
  let ct := lower (default EmptyString (fr_content_type r)) in
  contains "text/html" ct || contains "application/xhtml+xml" ct.

(** [FetchResult.header]: the first header whose name matches, ignoring case. *)
Definition header (r : FetchResult) (name : string) : option string :=
  snd <$> List.find (fun kv => bool_decide (lower (fst kv) = lower name)) (fr_headers r).

(** [ProcessResult(item=item, skipped=why)]. *)
Definition skipped_result (item : FrontierItem) (why : string) : ProcessResult :=
  mkResult item false false false (Some why) [] None.

(** ** [crawler/metrics.py] *)

(** A metric child: the collector's name and its label values. *)
Abbreviation metric := (string * list string)%type.
Abbreviation registry := (gmap (string * list string) Z).

Definition PAGES_FETCHED (status outcome : string) : metric :=
  ("crawler_pages_fetched_total", [status; outcome]).
(** The histogram is modelled by its number of observations. *)
Definition FETCH_LATENCY : metric := ("crawler_fetch_latency_seconds", []).
Definition BYTES_DOWNLOADED : metric := ("crawler_bytes_downloaded_total", []).
Definition LINKS_EXTRACTED : metric := ("crawler_links_extracted_total", []).
Definition URLS_ENQUEUED : metric := ("crawler_urls_enqueued_total", []).
Definition DEDUP_SKIPPED (kind : string) : metric := ("crawler_dedup_skipped_total", [kind]).
Definition ROBOTS_BLOCKED : metric := ("crawler_robots_blocked_total", []).
Definition NOT_MODIFIED : metric := ("crawler_not_modified_total", []).
Definition BODIES_STORED (backend : string) : metric := ("crawler_bodies_stored_total", [backend]).
Definition RATE_LIMIT_WAITS : metric := ("crawler_rate_limit_waits_total", []).
Definition BUDGET_EXHAUSTED : metric := ("crawler_budget_exhausted_total", []).
Definition CIRCUIT_OPEN_SKIPS : metric := ("crawler_circuit_open_skips_total", []).
Definition CIRCUIT_STATE : metric := ("crawler_circuit_breakers_open", []).
Definition RECRAWL_SCHEDULED : metric := ("crawler_recrawl_scheduled_total", []).
Definition FRONTIER_DEPTH : metric := ("crawler_frontier_depth", []).
Definition ACTIVE_FETCHES : metric := ("crawler_active_fetches", []).

Definition sample (m : metric) (reg : registry) : Z := default 0 (reg !! m).
(** [Counter.inc(n)] / [Gauge.inc] / [Gauge.dec] (a negative [n]). *)
Definition inc (m : metric) (n : Z) (reg : registry) : registry :=
  <[m := sample m reg + n]> reg.
(** [Gauge.set]. *)
Definition gauge_set (m : metric) (n : Z) (reg : registry) : registry := <[m := n]> reg.

#[global] Arguments sample : simpl never.
#[global] Arguments inc : simpl never.
#[global] Arguments gauge_set : simpl never.

(** [status_class]. *)
Definition status_class (status : Z) : string :=
  if status <=? 0 then "error" else pretty (status / 100) +:+ "xx".

(** ** Facts *)

Lemma sample_inc m n reg : sample m (inc m n reg) = sample m reg + n.
Proof. unfold sample, inc. by rewrite lookup_insert_eq. Qed.

Lemma sample_inc_ne m m' n reg : m <> m' -> sample m (inc m' n reg) = sample m reg.
Proof. intros. unfold sample, inc. by rewrite lookup_insert_ne by congruence. Qed.

(** Evaluates the samples of a registry after a sequence of increments. *)
Ltac metrics :=
  repeat first [rewrite sample_inc
               |rewrite sample_inc_ne by (let X := fresh in intros X; discriminate X)].

(** The header lookup ignores the case of the requested name. *)
Lemma header_case r name : header r (lower name) = header r name.
Proof. unfold header. by rewrite lower_idemp. Qed.
