(* ===== verification/Lru.v ===== *)
(** * The LRU cache ([crawler/cache/lru.py])

    [LruCache] on an [OrderedDict], as an association list with the least
    recently used entry first.  [time.monotonic()] is the [now] argument of
    each call.  The component's contract is the abstract cache [Spec]: an
    unbounded recency list of which only the [capacity] most recent keys
    answer. *)
From S2P Require Import Prelude.
Local Open Scope Z_scope.

Section LruCache.
Context {K V : Type} `{EqDecision K}.

(** ** [OrderedDict] *)

Fixpoint od_get {X} (k : K) (l : list (K * X)) : option X :=
  match l with
  | [] => None
  | (k', x) :: l' => if decide (k = k') then Some x else od_get k l'
  end.
Definition od_del {X} (k : K) (l : list (K * X)) : list (K * X) :=
  filter (fun p => p.1 <> k) l.
Definition od_move_to_end {X} (k : K) (l : list (K * X)) : list (K * X) :=
  match od_get k l with Some x => od_del k l ++ [(k, x)] | None => l end.
(** [d[k] = x]: in place when the key is there, at the end otherwise. *)
Fixpoint od_set {X} (k : K) (x : X) (l : list (K * X)) : list (K * X) :=
  match l with
  | [] => [(k, x)]
  | (k', y) :: l' => if decide (k = k') then (k, x) :: l' else (k', y) :: od_set k x l'
  end.

(** ** The cache *)

Record LruCache : Type := mkLru {
  capacity : Z; ttl : option Q; data : list (K * (V * Q)) }.

Definition new (cap : Z) (t : option Q) : result LruCache :=
  if cap <=? 0 then Raise ValueError else Ok (mkLru cap t []).

Definition set_data (c : LruCache) (d : list (K * (V * Q))) : LruCache :=
  mkLru (capacity c) (ttl c) d.

(** [self.ttl is not None and (now - stored_at) > self.ttl]. *)
Definition expired (c : LruCache) (now stored_at : Q) : bool :=
  match ttl c with Some t => Qltb t (now - stored_at) | None => false end.

Definition get (now : Q) (k : K) (c : LruCache) : option V * LruCache :=
  match od_get k (data c) with
  | None => (None, c)
  | Some (value, stored_at) =>
      if expired c now stored_at then (None, set_data c (od_del k (data c)))
      else (Some value, set_data c (od_move_to_end k (data c)))
  end.

(** [while len(self._data) > self.capacity: popitem(last=False)]. *)
Fixpoint evict {X} (cap : Z) (l : list X) : list X :=
  match l with
  | [] => []
  | _ :: l' => if Z.of_nat (length l) >? cap then evict cap l' else l
  end.

Definition put (now : Q) (k : K) (v : V) (c : LruCache) : LruCache :=
  let d := match od_get k (data c) with
           | Some _ => od_move_to_end k (data c)
           | None => data c
           end in
  set_data c (evict (capacity c) (od_set k (v, now) d)).

Definition contains (now : Q) (k : K) (c : LruCache) : bool * LruCache :=
  let '(v, c') := get now k c in (bool_decide (is_Some v), c').

Definition len (c : LruCache) : Z := Z.of_nat (length (data c)).

(** ** The abstract cache: an unbounded recency list *)

Definition spec_put (k : K) (v : V) (s : list (K * V)) : list (K * V) :=
  (k, v) :: od_del k s.
Definition spec_get (cap : nat) (k : K) (s : list (K * V)) : option V * list (K * V) :=
  match od_get k (take cap s) with
  | Some v => (Some v, spec_put k v s)
  | None => (None, s)
  end.

Inductive op : Type := Get (now : Q) (k : K) | Put (now : Q) (k : K) (v : V).

Definition run_op (o : op) (c : LruCache) : option V * LruCache :=
  match o with Get now k => get now k c | Put now k v => (None, put now k v c) end.
Definition spec_op (cap : nat) (o : op) (s : list (K * V)) : option V * list (K * V) :=
  match o with Get _ k => spec_get cap k s | Put _ k v => (None, spec_put k v s) end.
Fixpoint run_ops (os : list op) (c : LruCache) : list (option V) * LruCache :=
  match os with
  | [] => ([], c)
  | o :: os' => let '(a, c1) := run_op o c in let '(r, c2) := run_ops os' c1 in (a :: r, c2)
  end.
Fixpoint spec_ops (cap : nat) (os : list op) (s : list (K * V)) :
    list (option V) * list (K * V) :=
  match os with
  | [] => ([], s)
  | o :: os' =>
      let '(a, s1) := spec_op cap o s in let '(r, s2) := spec_ops cap os' s1 in (a :: r, s2)
  end.

(** The cached entries without their timestamps. *)
Definition entries (c : LruCache) : list (K * V) := prod_map id fst <$> data c.

(** The invariant: distinct keys, at most [capacity] of them. *)
Definition wf (c : LruCache) : Prop :=
  0 < capacity c /\ NoDup (data c).*1 /\ len c <= capacity c.

(** The cache holds the [capacity] most recent entries of [s]. *)
Definition refines (c : LruCache) (s : list (K * V)) : Prop :=
  0 < capacity c /\ ttl c = None /\ NoDup s.*1 /\
  entries c = rev (take (Z.to_nat (capacity c)) s).

(** ** Lemmas on the ordered dictionary *)

Lemma od_get_Some {X} (k : K) (x : X) l :
  NoDup l.*1 -> od_get k l = Some x <-> (k, x) ∈ l.
Proof.
  induction l as [|[k' y] l IH]; csimpl; intros ND; [set_solver|].
  apply NoDup_cons in ND as [Hk ND]. rewrite elem_of_cons.
  case_decide as E; subst.
  - split; [intros [= ->]; by left|].
    intros [[= ->]|Hin]; [done|].
    destruct Hk. apply list_elem_of_fmap. by exists (k', x).
  - rewrite IH by done. naive_solver.
Qed.

Lemma od_get_None {X} (k : K) (l : list (K * X)) : od_get k l = None <-> k ∉ l.*1.
Proof.
  induction l as [|[k' y] l IH]; csimpl; [set_solver|].
  rewrite not_elem_of_cons. case_decide; naive_solver.
Qed.

Lemma od_del_id {X} (k : K) (l : list (K * X)) : k ∉ l.*1 -> od_del k l = l.
Proof.
  unfold od_del. induction l as [|[k' y] l IH]; csimpl; [done|].
  rewrite not_elem_of_cons. intros [? ?]. rewrite filter_cons_True by (cbn; congruence).
  by rewrite IH.
Qed.

Lemma od_del_keys {X} (k : K) (l : list (K * X)) : (od_del k l).*1 = filter (fun y => y <> k) l.*1.
Proof. unfold od_del. by rewrite list_filter_fmap. Qed.

Lemma od_del_notin {X} (k : K) (l : list (K * X)) : k ∉ (od_del k l).*1.
Proof. rewrite od_del_keys, list_elem_of_filter. tauto. Qed.

Lemma od_del_NoDup {X} (k : K) (l : list (K * X)) : NoDup l.*1 -> NoDup (od_del k l).*1.
Proof. rewrite od_del_keys. apply NoDup_filter. Qed.

Lemma od_del_lengthS {X} (k : K) (l : list (K * X)) :
  k ∈ l.*1 -> (S (length (od_del k l)) <= length l)%nat.
Proof.
  unfold od_del. induction l as [|[k' y] l IH]; csimpl; [set_solver|].
  rewrite filter_cons. intros Hin. case_decide as E; cbn in *.
  - apply le_n_S, IH. set_solver.
  - apply le_n_S, length_filter.
Qed.

Lemma od_set_notin {X} (k : K) (x : X) l : k ∉ l.*1 -> od_set k x l = l ++ [(k, x)].
Proof.
  induction l as [|[k' y] l IH]; csimpl; [done|].
  rewrite not_elem_of_cons. intros [? ?]. case_decide; [done|]. by rewrite IH.
Qed.

Lemma od_set_end {X} (k : K) (x y : X) l :
  k ∉ l.*1 -> od_set k x (l ++ [(k, y)]) = l ++ [(k, x)].
Proof.
  induction l as [|[k' z] l IH]; csimpl; [by rewrite decide_True|].
  rewrite not_elem_of_cons. intros [? ?]. case_decide; [done|]. by rewrite IH.
Qed.

(** What [put] writes before evicting, whether or not the key was there. *)
Lemma put_data (k : K) (x : V * Q) (l : list (K * (V * Q))) :
  od_set k x (match od_get k l with Some _ => od_move_to_end k l | None => l end)
  = od_del k l ++ [(k, x)].
Proof.
  unfold od_move_to_end. destruct (od_get k l) eqn:E.
  - apply od_set_end, od_del_notin.
  - apply od_get_None in E. by rewrite od_set_notin, od_del_id.
Qed.

Lemma evict_drop {X} (cap : Z) (l : list X) :
  0 <= cap -> evict cap l = drop (length l - Z.to_nat cap) l.
Proof.
  intros Hc. induction l as [|x l IH]; [done|]. cbn [evict].
  destruct (Z.gtb_spec (Z.of_nat (length (x :: l))) cap) as [H|H]; cbn [length] in *.
  - replace (S (length l) - Z.to_nat cap)%nat with (S (length l - Z.to_nat cap)) by lia.
    exact IH.
  - by replace (S (length l) - Z.to_nat cap)%nat with 0%nat by lia.
Qed.

Lemma NoDup_del_snoc {X} (k : K) (x : X) (l : list (K * X)) :
  NoDup l.*1 -> NoDup (od_del k l ++ [(k, x)]).*1.
Proof.
  intros ND. rewrite fmap_app. apply NoDup_app.
  split_and!; [by apply od_del_NoDup| |apply NoDup_singleton].
  intros y Hy ->%list_elem_of_singleton. by apply (od_del_notin k l).
Qed.

(** ** The invariant is preserved *)

Lemma wf_set_data (c : LruCache) d :
  wf c -> NoDup d.*1 -> Z.of_nat (length d) <= capacity c -> wf (set_data c d).
Proof. intros (? & ? & ?) ??. by split_and!. Qed.

Lemma move_to_end_length {X} (k : K) (l : list (K * X)) :
  (length (od_move_to_end k l) <= length l)%nat.
Proof.
  unfold od_move_to_end. destruct (od_get k l) eqn:E; [|done].
  assert (k ∈ l.*1) as Hin.
  { destruct (decide (k ∈ l.*1)) as [|Hn]; [done|]. apply od_get_None in Hn. congruence. }
  apply od_del_lengthS in Hin. rewrite length_app. cbn. lia.
Qed.

Lemma move_to_end_NoDup {X} (k : K) (l : list (K * X)) :
  NoDup l.*1 -> NoDup (od_move_to_end k l).*1.
Proof.
  unfold od_move_to_end. destruct (od_get k l); [apply NoDup_del_snoc|done].
Qed.

Lemma wf_get now k c : wf c -> wf (get now k c).2.
Proof.
  intros Hwf. pose proof Hwf as (Hc & ND & Hl). unfold get, len in *.
  destruct (od_get k (data c)) as [[v t]|] eqn:E; [|done].
  destruct (expired c now t); cbn; apply wf_set_data; try done.
  - by apply od_del_NoDup.
  - etrans; [|exact Hl]. apply Nat2Z.inj_le, length_filter.
  - by apply move_to_end_NoDup.
  - etrans; [|exact Hl]. apply Nat2Z.inj_le, move_to_end_length.
Qed.

Lemma evict_put (cap : Z) (d : list (K * (V * Q))) (k : K) (x : V * Q) :
  0 < cap ->
  evict cap (od_del k d ++ [(k, x)])
  = drop (length (od_del k d) - (Z.to_nat cap - 1)) (od_del k d) ++ [(k, x)].
Proof.
  intros Hc. rewrite evict_drop, length_app by lia. cbn [length].
  rewrite drop_app_le by lia. do 2 f_equal. lia.
Qed.

Lemma wf_put now k v c : wf c -> wf (put now k v c).
Proof.
  intros Hwf. pose proof Hwf as (Hc & ND & Hl). unfold put. rewrite put_data.
  apply wf_set_data; [done| |].
  - rewrite evict_drop by lia. rewrite fmap_drop.
    auto using NoDup_del_snoc with slices.
  - rewrite evict_put by done. rewrite length_app, length_drop. cbn. lia.
Qed.

(** ** The refinement *)

Lemma take_od_del (k : K) (s : list (K * V)) (n : nat) :
  NoDup s.*1 -> take n (od_del k s) = take n (od_del k (take (S n) s)).
Proof.
  unfold od_del. revert n. induction s as [|[k' y] s IH]; intros n ND; [done|].
  apply NoDup_cons in ND as [Hk ND]. rewrite firstn_cons, !filter_cons. cbn [fst].
  case_decide as E.
  - destruct n as [|n]; [done|]. rewrite !firstn_cons. f_equal. by apply IH.
  - subst k'.
    pose proof (od_del_id k s Hk) as E1. unfold od_del in E1. rewrite E1.
    assert (k ∉ (take n s).*1) as Hk'.
    { rewrite fmap_take. by intros ?%elem_of_take_in. }
    pose proof (od_del_id k _ Hk') as E2. unfold od_del in E2. rewrite E2.
    by rewrite take_take, Nat.min_id.
Qed.

Lemma entries_del k (l : list (K * (V * Q))) :
  prod_map id fst <$> od_del k l = od_del k (prod_map id fst <$> l : list (K * V)).
Proof. unfold od_del. rewrite list_filter_fmap. done. Qed.

Lemma od_del_rev {X} k (l : list (K * X)) : od_del k (rev l) = rev (od_del k l).
Proof.
  unfold od_del. induction l as [|p l IH]; [done|]. cbn [rev].
  rewrite filter_app, IH, !filter_cons, filter_nil.
  case_decide; cbn; [done|by rewrite app_nil_r].
Qed.

(** The key step: re-inserting a key at the recent end and evicting agrees
    with the recency list cut at the capacity. *)
Lemma refines_touch (c : LruCache) (s : list (K * V)) (k : K) (v : V) (t : Q) :
  refines c s ->
  prod_map id fst <$> evict (capacity c) (od_del k (data c) ++ [(k, (v, t))])
  = rev (take (Z.to_nat (capacity c)) (spec_put k v s)).
Proof.
  intros (Hc & _ & ND & He). rewrite evict_put, fmap_app by done. cbn [fmap list_fmap].
  unfold spec_put, entries in *.
  destruct (Z.to_nat (capacity c)) as [|n] eqn:En; [lia|].
  rewrite firstn_cons. cbn [rev prod_map id fst]. f_equal.
  rewrite <- (length_fmap (prod_map id fst)), fmap_drop, entries_del, He, od_del_rev.
  rewrite (take_od_del k s n ND), rev_take, length_rev. do 2 f_equal. lia.
Qed.

Lemma refines_spec_put_NoDup k v s : NoDup s.*1 -> NoDup (spec_put k v s).*1.
Proof. intros. apply NoDup_cons. split; [apply od_del_notin|by apply od_del_NoDup]. Qed.

Lemma refines_put now k v c s : refines c s -> refines (put now k v c) (spec_put k v s).
Proof.
  intros Hr. pose proof Hr as (Hc & Ht & ND & He). split_and!; cbn; [done|done| |].
  - by apply (refines_spec_put_NoDup k v s).
  - unfold entries, put. cbn [data set_data capacity]. rewrite put_data. by apply refines_touch.
Qed.

Lemma entries_get k (l : list (K * (V * Q))) :
  fst <$> od_get k l = od_get k (prod_map id fst <$> l : list (K * V)).
Proof. induction l as [|[k' [v t]] l IH]; cbn; [done|]. by case_decide. Qed.

Lemma od_get_rev {X} k (l : list (K * X)) : NoDup l.*1 -> od_get k (rev l) = od_get k l.
Proof.
  intros ND. apply option_eq. intros x.
  rewrite !od_get_Some; [|done|by rewrite <- Permutation_rev].
  by rewrite <- Permutation_rev.
Qed.

Lemma refines_get now k c s :
  refines c s ->
  (get now k c).1 = (spec_get (Z.to_nat (capacity c)) k s).1 /\
  refines (get now k c).2 (spec_get (Z.to_nat (capacity c)) k s).2.
Proof.
  intros Hr. pose proof Hr as (Hc & Ht & ND & He). unfold get, spec_get.
  assert (NoDup (take (Z.to_nat (capacity c)) s).*1) as NDt.
  { rewrite fmap_take. auto with slices. }
  assert (fst <$> od_get k (data c) = od_get k (take (Z.to_nat (capacity c)) s)) as Eg.
  { rewrite entries_get. unfold entries in He. by rewrite He, od_get_rev. }
  rewrite <- Eg. destruct (od_get k (data c)) as [[v t]|] eqn:E; cbn; [|done].
  unfold expired. rewrite Ht. cbn. split; [done|]. split_and!; cbn; [done|done| |].
  - by apply (refines_spec_put_NoDup k v s).
  - rewrite <- (refines_touch c s k v t Hr). unfold entries. cbn.
    unfold od_move_to_end. rewrite E. f_equal. symmetry.
    rewrite evict_drop by lia. replace (_ - _)%nat with 0%nat; [done|].
    assert (length (data c) <= Z.to_nat (capacity c))%nat as Hlen.
    { rewrite <- (length_fmap (prod_map id fst)). unfold entries in He. rewrite He.
      rewrite length_rev, length_take. lia. }
    pose proof (move_to_end_length k (data c)) as Hm. unfold od_move_to_end in Hm.
    rewrite E in Hm. lia.
Qed.

Lemma get_capacity now k c : capacity (get now k c).2 = capacity c.
Proof. unfold get. destruct (od_get k (data c)) as [[v t]|]; [|done]. by destruct (expired _ _ _). Qed.

Lemma refines_ops os c s :
  refines c s ->
  (run_ops os c).1 = (spec_ops (Z.to_nat (capacity c)) os s).1 /\
  refines (run_ops os c).2 (spec_ops (Z.to_nat (capacity c)) os s).2.
Proof.
  revert c s. induction os as [|o os IH]; intros c s Hr; [done|].
  destruct o as [now k|now k v]; cbn [run_ops spec_ops run_op spec_op].
  - pose proof (refines_get now k c s Hr) as [E1 E2]. pose proof (get_capacity now k c) as Ec.
    destruct (get now k c) as [a c1], (spec_get _ k s) as [b s1]. cbn in *. subst b.
    destruct (IH c1 s1 E2) as [E3 E4]. rewrite Ec in E3, E4.
    destruct (run_ops os c1), (spec_ops _ os s1). cbn in *. by subst.
  - pose proof (refines_put now k v c s Hr) as E2.
    destruct (IH _ _ E2) as [E3 E4]. cbn in E3, E4.
    destruct (run_ops os (put now k v c)), (spec_ops _ os (spec_put k v s)). cbn in *. by subst.
Qed.

Lemma put_data_last now k v c :
  0 < capacity c -> exists l, data (put now k v c) = l ++ [(k, (v, now))] /\ k ∉ l.*1.
Proof.
  intros Hc. unfold put. cbn. rewrite put_data, evict_put by done. eexists. split; [done|].
  rewrite fmap_drop. intros Hin%elem_of_drop_in. by apply (od_del_notin k (data c)).
Qed.

Lemma od_get_snoc {X} (k : K) (x : X) l : k ∉ l.*1 -> od_get k (l ++ [(k, x)]) = Some x.
Proof.
  induction l as [|[k' y] l IH]; csimpl; [by rewrite decide_True|].
  rewrite not_elem_of_cons. intros [? ?]. case_decide; [done|]. by apply IH.
Qed.
End LruCache.
Arguments LruCache : clear implicits.
Arguments op : clear implicits.

(** ** Properties *)

(** Without a TTL the cache is the abstract cache: for every sequence of
    calls it gives the same answers as an unbounded recency list of which only
    the [capacity] most recently used keys answer, and it holds exactly those
    entries, the least recently used first. *)
Theorem lru_refines_recency_list {K V : Type} `{EqDecision K}
    (cap : Z) (c : LruCache K V) (os : list (op K V)) :
  new cap None = Ok c ->
  (run_ops os c).1 = (spec_ops (Z.to_nat cap) os []).1 /\
  entries (run_ops os c).2 = rev (take (Z.to_nat cap) (spec_ops (Z.to_nat cap) os []).2).
Proof.
  unfold new. destruct (Z.leb_spec cap 0) as [|Hc]; [discriminate|]. intros [= <-].
  assert (refines (mkLru cap None [] : LruCache K V) []) as Hr.
  { split_and!; cbn; [done|done|apply NoDup_nil_2|by rewrite take_nil]. }
  destruct (refines_ops os _ _ Hr) as [E1 (_ & _ & _ & E2)]. split; [exact E1|].
  rewrite E2. do 2 f_equal. clear.
  assert (forall os (c : LruCache K V), capacity (run_ops os c).2 = capacity c) as Hcap.
  { clear. intros os. induction os as [|o os IH]; intros c; [done|]. cbn.
    destruct o as [now k|now k v]; cbn; [pose proof (get_capacity now k c) as E;
      destruct (get now k c) as [a c1]|];
      match goal with |- context [run_ops os ?c0] => specialize (IH c0);
        destruct (run_ops os c0) end; cbn in *; congruence. }
  by rewrite Hcap.
Qed.

Lemma lru_refines_recency_list_witness :
  exists c : LruCache string Z, new 2 None = Ok c /\
    (run_ops [Put 0 "a" 1%Z; Put 0 "b" 2%Z; Get 0 "a"; Put 0 "c" 3%Z; Get 0 "b"; Get 0 "a"; Get 0 "c"]%Q c).1
    = [None; None; Some 1; None; None; Some 1; Some 3].
Proof.
  exists (mkLru 2 None []). split; [reflexivity|].
  etransitivity; [exact (proj1 (lru_refines_recency_list 2 _ _ eq_refl)) | reflexivity].
Defined.

(** Every call, whatever the TTL and the clock readings, keeps the keys
    distinct and the size within the capacity, starting from a new cache. *)
Theorem lru_invariant {K V : Type} `{EqDecision K}
    (cap : Z) (t : option Q) (c : LruCache K V) (os : list (op K V)) :
  new cap t = Ok c -> wf (run_ops os c).2.
Proof.
  unfold new. destruct (Z.leb_spec cap 0) as [|Hc]; [discriminate|]. intros [= <-].
  assert (wf (mkLru cap t [] : LruCache K V)) as Hwf.
  { split_and!; cbn; [done|apply NoDup_nil_2|unfold len; cbn; lia]. }
  generalize dependent (mkLru cap t [] : LruCache K V).
  induction os as [|o os IH]; intros c Hwf; [done|]. cbn.
  destruct o as [now k|now k v]; cbn.
  - pose proof (wf_get now k c Hwf) as Hw. destruct (get now k c) as [a c1].
    specialize (IH c1 Hw). by destruct (run_ops os c1).
  - specialize (IH _ (wf_put now k v c Hwf)). by destruct (run_ops os (put now k v c)).
Qed.

Lemma lru_invariant_witness :
  wf (run_ops [Put 0 "a" 1%Z; Put 1 "b" 2%Z; Get 9 "a"]%Q (mkLru 1 (Some 5%Q) [] : LruCache string Z)).2.
Proof. exact (lru_invariant 1 (Some 5%Q) _ _ eq_refl). Defined.

(** [get] answers exactly the entries that are stored and not older than
    the TTL, and an entry it finds expired is gone afterwards. *)
Theorem lru_get_live {K V : Type} `{EqDecision K} (now : Q) (k : K) (c : LruCache K V) :
  wf c ->
  (forall v, (get now k c).1 = Some v <->
     exists t, (k, (v, t)) ∈ data c /\ forall limit, ttl c = Some limit -> (now - t <= limit)%Q) /\
  ((get now k c).1 = None -> k ∉ (data (get now k c).2).*1).
Proof.
  intros (Hc & ND & _). unfold get.
  destruct (od_get k (data c)) as [[v0 t0]|] eqn:E.
  - pose proof E as E'. apply od_get_Some in E'; [|done].
    unfold expired. destruct (ttl c) as [limit|] eqn:Et; [destruct (Qltb_spec limit (now - t0))|];
      cbn; split.
    + intros v. split; [done|]. intros (t & Hin & Hl). apply od_get_Some in Hin; [|done].
      specialize (Hl _ eq_refl). rewrite E in Hin. injection Hin as -> ->. exfalso. lra.
    + intros _. apply od_del_notin.
    + intros v. split.
      * intros [= ->]. exists t0. split; [done|]. intros ? [= <-]. lra.
      * intros (t & Hin & _). apply od_get_Some in Hin; [|done]. congruence.
    + done.
    + intros v. split.
      * intros [= ->]. exists t0. done.
      * intros (t & Hin & _). apply od_get_Some in Hin; [|done]. congruence.
    + done.
  - cbn. split; [|by intros _; apply od_get_None].
    intros v. split; [done|]. intros (t & Hin & _). apply od_get_Some in Hin; [congruence|done].
Qed.

Lemma lru_get_live_witness :
  (get 9 "a" (mkLru 2 (Some 5%Q) [("a", (1, 0%Q))] : LruCache string Z)).1 = None /\
  "a" ∉ (data (get 9 "a" (mkLru 2 (Some 5%Q) [("a", (1, 0%Q))] : LruCache string Z)).2).*1.
Proof.
  assert (wf (mkLru 2 (Some 5%Q) [("a", (1, 0%Q))] : LruCache string Z)) as Hwf.
  { split_and!; cbn; [lia|apply NoDup_singleton|unfold len; cbn; lia]. }
  split; [reflexivity|]. apply (proj2 (lru_get_live 9%Q "a" _ Hwf)). reflexivity.
Defined.
