(* ===== verification/Heapq.v ===== *)
(** * The binary heap of [heapq]

    [crawler/scheduler/recrawl.py] keeps its queue with the standard library's
    [heapq.heappush] and [heapq.heappop].  This file models CPython's
    algorithm on the array ([_siftdown] and [_siftup], the sift to a leaf
    before sifting back included), because the order in which equal keys come
    out is decided by it, and proves the facts the scheduler relies on: the
    heap property, that no element is lost, and that the root is a minimum. *)
From S2P Require Import Prelude.
Local Open Scope nat_scope.

Section Heapq.
Context {A : Type} `{Inhabited A}.
(** [__lt__]. *)
Variable lt : A -> A -> bool.

Definition parent (i : nat) : nat := (i - 1) / 2.
Arguments parent : simpl never.

(** The loop of [_siftdown] from position [pos] with [newitem] in hand; it
    halves [pos], so [fuel = pos] steps are enough. *)
Fixpoint siftdown_loop (fuel : nat) (heap : list A) (startpos pos : nat) (newitem : A) : list A :=
  match fuel with
  | O => <[pos := newitem]> heap
  | S f =>
      if startpos <? pos then
        let parentpos := parent pos in
        let par := heap !!! parentpos in
        if lt newitem par
        then siftdown_loop f (<[pos := par]> heap) startpos parentpos newitem
        else <[pos := newitem]> heap
      else <[pos := newitem]> heap
  end.
Definition siftdown (heap : list A) (startpos pos : nat) : list A :=
  siftdown_loop pos heap startpos pos (heap !!! pos).

(** The loop of [_siftup]: the hole goes down to a leaf, the smaller child
    moving up; on a tie the right child does.  Returns the heap and the
    position of the hole. *)
Fixpoint siftup_loop (fuel : nat) (heap : list A) (pos : nat) : list A * nat :=
  match fuel with
  | O => (heap, pos)
  | S f =>
      let endpos := length heap in
      let childpos := 2 * pos + 1 in
      if childpos <? endpos then
        let rightpos := childpos + 1 in
        let childpos :=
          if (rightpos <? endpos) && negb (lt (heap !!! childpos) (heap !!! rightpos))
          then rightpos else childpos in
        siftup_loop f (<[pos := heap !!! childpos]> heap) childpos
      else (heap, pos)
  end.
Definition siftup (heap : list A) (pos : nat) : list A :=
  let newitem := heap !!! pos in
  let '(h, p) := siftup_loop (length heap) heap pos in
  siftdown (<[p := newitem]> h) pos p.

Definition heappush (heap : list A) (item : A) : list A :=
  siftdown (heap ++ [item]) 0 (length heap).

(** [None] is the [IndexError] of popping an empty list. *)
Definition heappop (heap : list A) : option (A * list A) :=
  match last heap with
  | None => None
  | Some lastelt =>
      let heap := removelast heap in
      match heap with
      | [] => Some (lastelt, [])
      | returnitem :: _ => Some (returnitem, siftup (<[0 := lastelt]> heap) 0)
      end
  end.

(** [a <= b] for the order behind [lt]. *)
Definition le (a b : A) : Prop := lt b a = false.

(** No element is smaller than its parent. *)
Definition heap_inv (h : list A) : Prop :=
  forall i, 0 < i < length h -> le (h !!! parent i) (h !!! i).

(** The heap property away from the hole [p], whatever the array holds there;
    the children of the hole are above the hole's parent. *)
Definition hole_inv (h : list A) (p : nat) : Prop :=
  (forall i, 0 < i < length h -> i <> p -> parent i <> p -> le (h !!! parent i) (h !!! i)) /\
  (forall i, 0 < i < length h -> parent i = p -> 0 < p -> le (h !!! parent p) (h !!! i)).

Hypothesis lt_asym : forall a b, lt a b = true -> lt b a = false.
Hypothesis le_trans : forall a b c, le a b -> le b c -> le a c.

(** ** Permutations *)

Lemma insert_perm (l : list A) i y :
  i < length l -> (l !!! i) :: <[i := y]> l ≡ₚ y :: l.
Proof.
  intros Hi. destruct (lookup_lt_is_Some_2 l i Hi) as [x Hx].
  rewrite (list_lookup_total_correct _ _ _ Hx).
  rewrite (insert_take_drop l i y Hi). rewrite <- (take_drop_middle l i x Hx) at 3.
  rewrite <- !Permutation_middle. constructor.
Qed.

Lemma move_hole_perm (h : list A) p q x :
  p < length h -> q < length h -> p <> q ->
  <[q := x]> (<[p := h !!! q]> h) ≡ₚ <[p := x]> h.
Proof.
  intros Hp Hq Hne.
  pose proof (insert_perm (<[p := h !!! q]> h) q x) as E1.
  rewrite length_insert, list_lookup_total_insert_ne in E1 by done. specialize (E1 Hq).
  pose proof (insert_perm h p x Hp) as E2. pose proof (insert_perm h p (h !!! q) Hp) as E3.
  apply (Permutation_cons_inv (a := h !!! q)), (Permutation_cons_inv (a := h !!! p)).
  transitivity (x :: h !!! q :: h).
  - rewrite E1. rewrite (Permutation_swap x (h !!! p)). by rewrite E3.
  - rewrite (Permutation_swap (h !!! q) (h !!! p)), E2. apply Permutation_swap.
Qed.

Lemma parent_lt i : 0 < i -> parent i < i.
Proof. unfold parent. intros. apply Nat.Div0.div_lt_upper_bound. lia. Qed.

Lemma siftdown_loop_perm fuel h s p x :
  p < length h -> siftdown_loop fuel h s p x ≡ₚ <[p := x]> h.
Proof.
  revert h p. induction fuel as [|f IH]; intros h p Hp; cbn [siftdown_loop]; [done|].
  destruct (Nat.ltb_spec s p); [|done]. destruct (lt x _); [|done].
  pose proof (parent_lt p ltac:(lia)). rewrite IH by (rewrite length_insert; lia).
  apply move_hole_perm; lia.
Qed.

Lemma siftdown_perm h s p : p < length h -> siftdown h s p ≡ₚ h.
Proof.
  intros Hp. unfold siftdown. rewrite siftdown_loop_perm by done.
  rewrite list_insert_id; [done|]. by apply list_lookup_lookup_total_lt.
Qed.

Lemma siftup_loop_spec fuel h p x :
  p < length h ->
  let '(h', p') := siftup_loop fuel h p in
  length h' = length h /\ p' < length h /\ <[p' := x]> h' ≡ₚ <[p := x]> h.
Proof.
  revert h p. induction fuel as [|f IH]; intros h p Hp; cbn [siftup_loop]; [done|].
  destruct (Nat.ltb_spec (2 * p + 1) (length h)) as [Hl|]; [|done].
  match goal with |- context [siftup_loop f _ ?c] => set (c0 := c) end.
  assert (c0 < length h /\ c0 <> p) as [Hc Hne].
  { subst c0. destruct (Nat.ltb_spec (2 * p + 1 + 1) (length h)), (lt _ _); cbn [andb negb]; lia. }
  specialize (IH (<[p := h !!! c0]> h) c0). rewrite length_insert in IH. specialize (IH Hc).
  destruct (siftup_loop f (<[p := h !!! c0]> h) c0) as [h' p']. destruct IH as (E1 & E2 & E3).
  split_and!; [done|done|]. rewrite E3. by apply move_hole_perm.
Qed.

Lemma siftup_perm h p : p < length h -> siftup h p ≡ₚ h.
Proof.
  intros Hp. unfold siftup. pose proof (siftup_loop_spec (length h) h p (h !!! p) Hp) as E.
  destruct (siftup_loop (length h) h p) as [h' p']. destruct E as (E1 & E2 & E3).
  rewrite siftdown_perm by (rewrite length_insert; lia). rewrite E3, list_insert_id; [done|].
  by apply list_lookup_lookup_total_lt.
Qed.

Lemma heappush_perm h x : heappush h x ≡ₚ x :: h.
Proof.
  unfold heappush. rewrite siftdown_perm by (rewrite length_app; cbn; lia).
  symmetry. apply Permutation_cons_append.
Qed.

Lemma removelast_last (h : list A) x : last h = Some x -> removelast h ++ [x] = h.
Proof. intros (l & ->)%last_Some. by rewrite removelast_last. Qed.

Lemma heappop_perm h x h' : heappop h = Some (x, h') -> x :: h' ≡ₚ h.
Proof.
  unfold heappop. destruct (last h) as [y|] eqn:El; [|done].
  apply removelast_last in El. rewrite <- El at 2. clear El.
  destruct (removelast h) as [|z t]; intros [= <- <-]; [done|].
  rewrite siftup_perm by (cbn; lia). cbn. constructor. apply Permutation_cons_append.
Qed.

Lemma heappop_None h : heappop h = None <-> h = [].
Proof.
  unfold heappop. destruct (last h) as [y|] eqn:El.
  - destruct (removelast h); split; try done; intros ->; done.
  - apply last_None in El. by subst.
Qed.

(** ** The heap property *)

Lemma le_refl a : le a a.
Proof. unfold le. destruct (lt a a) eqn:E; [|done]. pose proof (lt_asym a a E). congruence. Qed.

Lemma lt_le a b : lt a b = true -> le a b.
Proof. apply lt_asym. Qed.

(** Writing a value at the hole that is in order with its surroundings. *)
Lemma hole_fill h p x :
  p < length h -> hole_inv h p ->
  (0 < p -> le (h !!! parent p) x) ->
  (forall i, 0 < i < length h -> parent i = p -> le x (h !!! i)) ->
  heap_inv (<[p := x]> h).
Proof.
  intros Hp [H1 _] Hup Hdown i Hi. rewrite length_insert in Hi.
  pose proof (parent_lt i ltac:(lia)).
  destruct (decide (i = p)) as [->|Hne].
  - rewrite list_lookup_total_insert_eq, list_lookup_total_insert_ne by lia. apply Hup; lia.
  - rewrite (list_lookup_total_insert_ne _ p i) by done.
    destruct (decide (parent i = p)) as [Ep|Hne'].
    + rewrite Ep, list_lookup_total_insert_eq by done. by apply Hdown.
    + rewrite list_lookup_total_insert_ne by done. by apply H1.
Qed.

(** Moving the hole of [_siftdown] up to its parent. *)
Lemma hole_up h p :
  0 < p < length h -> hole_inv h p -> hole_inv (<[p := h !!! parent p]> h) (parent p).
Proof.
  intros Hp [H1 H2]. pose proof (parent_lt p ltac:(lia)) as Hpp.
  split; rewrite length_insert.
  - intros i Hi Hne Hne'. pose proof (parent_lt i ltac:(lia)).
    assert (i <> p) as Hip by congruence.
    rewrite (list_lookup_total_insert_ne _ p i) by done.
    destruct (decide (parent i = p)) as [Ep|].
    + rewrite Ep, list_lookup_total_insert_eq by lia. apply H2; [done|done|lia].
    + rewrite list_lookup_total_insert_ne by done. by apply H1.
  - intros i Hi Hne Hq. pose proof (parent_lt (parent p) Hq).
    rewrite (list_lookup_total_insert_ne _ p (parent (parent p))) by lia.
    assert (le (h !!! parent (parent p)) (h !!! parent p)) as Hg by (apply H1; lia).
    destruct (decide (i = p)) as [->|Hip].
    + by rewrite list_lookup_total_insert_eq by lia.
    + rewrite list_lookup_total_insert_ne by done.
      eapply le_trans; [exact Hg|]. rewrite <- Hne. apply H1; [done|done|lia].
Qed.

Lemma siftdown_loop_inv fuel h p x :
  p <= fuel -> p < length h -> hole_inv h p ->
  (forall i, 0 < i < length h -> parent i = p -> le x (h !!! i)) ->
  heap_inv (siftdown_loop fuel h 0 p x).
Proof.
  revert h p. induction fuel as [|f IH]; intros h p Hf Hp Hh Hdown; cbn [siftdown_loop].
  { apply hole_fill; [done|done|lia|done]. }
  destruct (Nat.ltb_spec 0 p) as [H0|]; [|apply hole_fill; [done|done|lia|done]].
  pose proof (parent_lt p H0) as Hpp.
  destruct (lt x (h !!! parent p)) eqn:El; [|by apply hole_fill].
  apply IH; [lia|rewrite length_insert; lia|apply hole_up; [lia|done]|].
  rewrite length_insert. intros i Hi Ei.
  destruct (decide (i = p)) as [->|Hip].
  - rewrite list_lookup_total_insert_eq by done. by apply lt_le.
  - rewrite list_lookup_total_insert_ne by done. destruct Hh as [H1 _].
    eapply le_trans; [by apply lt_le|]. rewrite <- Ei. apply H1; [done|done|lia].
Qed.

Lemma heappush_inv h x : heap_inv h -> heap_inv (heappush h x).
Proof.
  intros Hh. unfold heappush, siftdown. apply siftdown_loop_inv.
  - done.
  - rewrite length_app. cbn. lia.
  - split; rewrite length_app; cbn; intros i Hi Hne; [intros _|].
    + pose proof (parent_lt i ltac:(lia)). rewrite !list_lookup_total_alt, !lookup_app_l by lia.
      rewrite <- !list_lookup_total_alt. apply Hh. lia.
    + pose proof (parent_lt i ltac:(lia)). lia.
  - rewrite length_app. cbn. intros i Hi Hne. pose proof (parent_lt i ltac:(lia)). lia.
Qed.

(** The hole of [_siftup] moves down to the smaller child. *)
Lemma hole_down h p c :
  p < length h -> parent c = p -> 0 < c < length h ->
  (forall i, 0 < i < length h -> parent i = p -> le (h !!! c) (h !!! i)) ->
  hole_inv h p -> hole_inv (<[p := h !!! c]> h) c.
Proof.
  intros Hp Hc Hcl Hmin [H1 H2]. pose proof (parent_lt c ltac:(lia)) as Hpc.
  split; rewrite length_insert.
  - intros i Hi Hne Hne'. pose proof (parent_lt i ltac:(lia)).
    destruct (decide (i = p)) as [->|Hip].
    + rewrite list_lookup_total_insert_eq, list_lookup_total_insert_ne by lia.
      apply H2; [lia|done|lia].
    + rewrite (list_lookup_total_insert_ne _ p i) by done.
      destruct (decide (parent i = p)) as [Ep|].
      * rewrite Ep, list_lookup_total_insert_eq by lia. by apply Hmin.
      * rewrite list_lookup_total_insert_ne by done. by apply H1.
  - intros i Hi Hne _. rewrite Hc, list_lookup_total_insert_eq by lia.
    pose proof (parent_lt i ltac:(lia)).
    rewrite list_lookup_total_insert_ne by lia. rewrite <- Hne. apply H1; lia.
Qed.

Lemma siftup_loop_inv fuel h p :
  length h <= fuel + p -> p < length h -> hole_inv h p ->
  let '(h', p') := siftup_loop fuel h p in
  hole_inv h' p' /\ length h' = length h /\ p' < length h /\
  (forall i, 0 < i < length h -> parent i <> p').
Proof.
  revert h p. induction fuel as [|f IH]; intros h p Hf Hp Hh; cbn [siftup_loop]; [lia|].
  assert (forall i, 0 < i -> parent i = p -> i = 2 * p + 1 \/ i = 2 * p + 2) as Hch.
  { unfold parent. intros i Hi Ei. pose proof (Nat.div_mod_eq (i - 1) 2).
    pose proof (Nat.mod_upper_bound (i - 1) 2). lia. }
  destruct (Nat.ltb_spec (2 * p + 1) (length h)) as [Hl|Hl].
  2: { split_and!; [done..|]. intros i Hi Ei. apply Hch in Ei; lia. }
  match goal with |- context [siftup_loop f _ ?c] => set (c0 := c) end.
  assert (parent c0 = p /\ 0 < c0 < length h /\ p < c0 /\
    forall i, 0 < i < length h -> parent i = p -> le (h !!! c0) (h !!! i)) as (C1 & C2 & C3 & C4).
  { assert (parent (2 * p + 1) = p /\ parent (2 * p + 1 + 1) = p) as [P1 P2].
    { unfold parent. split; [replace (2 * p + 1 - 1) with (p * 2) by lia|
        replace (2 * p + 1 + 1 - 1) with (1 + p * 2) by lia].
      - by apply Nat.div_mul. - by rewrite Nat.div_add. }
    subst c0. destruct (Nat.ltb_spec (2 * p + 1 + 1) (length h)) as [Hr|Hr];
      [destruct (lt (h !!! (2 * p + 1)) (h !!! (2 * p + 1 + 1))) eqn:El|]; cbn [andb negb];
      (split_and!; [done|lia|lia|lia|]); intros i Hi Ei; apply Hch in Ei as [->| ->]; try lia;
      replace (2 * p + 2) with (2 * p + 1 + 1) by lia;
      [apply le_refl|by apply lt_le|done|apply le_refl|apply le_refl]. }
  specialize (IH (<[p := h !!! c0]> h) c0). rewrite length_insert in IH.
  apply IH; [lia|lia|]. by apply hole_down.
Qed.

Lemma siftup_inv h : 0 < length h -> hole_inv h 0 -> heap_inv (siftup h 0).
Proof.
  intros Hl Hh. unfold siftup.
  pose proof (siftup_loop_inv (length h) h 0 ltac:(lia) Hl Hh) as E.
  destruct (siftup_loop (length h) h 0) as [h' p']. destruct E as ((E1 & E2) & E3 & E4 & E5).
  unfold siftdown. rewrite list_lookup_total_insert_eq by lia.
  apply siftdown_loop_inv; rewrite ?length_insert; [done|lia| |].
  - split; rewrite length_insert; intros i Hi Hne.
    + intros Hne'. rewrite !list_lookup_total_insert_ne by congruence. apply E1; [lia|done|done].
    + exfalso. apply (E5 i); [lia|done].
  - intros i Hi Ei. exfalso. apply (E5 i); [lia|done].
Qed.

Lemma heappop_inv h x h' : heap_inv h -> heappop h = Some (x, h') -> heap_inv h'.
Proof.
  unfold heappop. intros Hh. destruct (last h) as [y|] eqn:El; [|done].
  apply removelast_last in El. rewrite <- El in Hh. clear El.
  destruct (removelast h) as [|z t]; intros [= <- <-]; [intros i; cbn; lia|].
  apply siftup_inv; [cbn; lia|]. split; [intros i Hi Hne Hne'|intros; lia].
  change (y :: t) with (<[0 := y]> (z :: t)). rewrite !list_lookup_total_insert_ne by congruence.
  specialize (Hh i). rewrite length_app, !list_lookup_total_alt in Hh. cbn [length] in *.
  pose proof (parent_lt i ltac:(lia)).
  rewrite !lookup_app_l in Hh by (cbn; lia). rewrite <- !list_lookup_total_alt in Hh.
  apply Hh. lia.
Qed.

(** The root is a minimum. *)
Lemma heap_min h x t : heap_inv h -> h = x :: t -> forall y, y ∈ h -> le x y.
Proof.
  intros Hh -> y [i Hi]%list_elem_of_lookup.
  pose proof (lookup_lt_Some _ _ _ Hi) as Hl. apply list_lookup_total_correct in Hi as <-.
  induction (lt_wf i) as [i _ IH].
  destruct i as [|i]; [apply le_refl|]. pose proof (parent_lt (S i) ltac:(lia)).
  eapply le_trans; [apply (IH (parent (S i))); lia|]. apply Hh. lia.
Qed.

Lemma heappop_head h x h' : heappop h = Some (x, h') -> head h = Some x.
Proof.
  unfold heappop. destruct (last h) as [y|] eqn:El; [|done].
  apply removelast_last in El.
  destruct (removelast h) as [|z t]; intros [= <- <-]; by rewrite <- El.
Qed.
End Heapq.
