(* ===== verification/Recrawl.v ===== *)
(** * The recrawl scheduler ([crawler/scheduler/recrawl.py])

    The adaptive interval [next_interval], the min-heap [RecrawlScheduler] over
    [Heapq], and the batch [crawler recrawl] builds with it
    ([crawler/cli.py], [_recrawl]).  A clock reading is an argument of the
    call that takes it. *)
From S2P Require Import Prelude Config Models Heapq.
Local Open Scope Z_scope.

(** ** Interval policy *)

Definition next_interval (current_interval : option Q) (changed : bool)
    (settings : RecrawlSettings) : Q :=
  match changed, current_interval with
  | false, Some cur => py_min (cur * backoff_factor settings) (max_interval_seconds settings)
  | _, _ => min_interval_seconds settings
  end.

(** The interval after a first crawl and [n] unchanged refreshes. *)
Fixpoint interval_after (n : nat) (settings : RecrawlSettings) : Q :=
  match n with
  | O => next_interval None false settings
  | S n' => next_interval (Some (interval_after n' settings)) false settings
  end.

(** ** The scheduler *)

Record RecrawlEntry : Type := mkEntry {
  due_at : Q; re_url : string; re_interval : Q; re_depth : Z; re_crawl_id : option Z }.

#[export] Instance RecrawlEntry_inhabited : Inhabited RecrawlEntry :=
  populate (mkEntry 0 EmptyString 0 0 None).

(** [@dataclass(order=True)] with every field but [due_at] excluded. *)
Definition entry_lt (a b : RecrawlEntry) : bool := Qltb (due_at a) (due_at b).

(** [self._heap]. *)
Definition RecrawlScheduler : Type := list RecrawlEntry.

Definition schedule (url : string) (interval : Q) (depth : Z) (crawl_id : option Z)
    (now : option Q) (clock : Q) (s : RecrawlScheduler) (reg : registry) :
    RecrawlEntry * RecrawlScheduler * registry :=
  let due := (default clock now + interval)%Q in
  let entry := mkEntry due url interval depth crawl_id in
  (entry, heappush entry_lt s entry, inc RECRAWL_SCHEDULED 1 reg).

Definition peek (s : RecrawlScheduler) : option RecrawlEntry := head s.

(** [while self._heap and self._heap[0].due_at <= moment: due.append(heappop(...))].
    Every round removes an entry: the heap's size is enough fuel. *)
Fixpoint pop_due_loop (fuel : nat) (moment : Q) (s : RecrawlScheduler) (due : list RecrawlEntry) :
    list RecrawlEntry * RecrawlScheduler :=
  match fuel with
  | O => (due, s)
  | S f =>
      match peek s with
      | Some e =>
          if Qle_bool (due_at e) moment then
            match heappop entry_lt s with
            | Some (x, s') => pop_due_loop f moment s' (due ++ [x])
            | None => (due, s)
            end
          else (due, s)
      | None => (due, s)
      end
  end.
Definition pop_due (now : option Q) (clock : Q) (s : RecrawlScheduler) :
    list RecrawlEntry * RecrawlScheduler :=
  pop_due_loop (length s) (default clock now) s [].

Definition seconds_until_next (now : option Q) (clock : Q) (s : RecrawlScheduler) : option Q :=
  match peek s with
  | None => None
  | Some h => Some (py_max 0 (due_at h - default clock now))
  end.

(** The queue part of [cli._recrawl]: each stale row [(url, depth, crawl_id)]
    is scheduled with interval 0 at its own clock reading, then everything due
    at a last reading is popped. *)
Fixpoint schedule_all (stale : list (string * Z * option Z * Q)) (s : RecrawlScheduler)
    (reg : registry) : RecrawlScheduler * registry :=
  match stale with
  | [] => (s, reg)
  | (url, depth, crawl_id, clock) :: rest =>
      let '(_, s', reg') := schedule url 0 depth crawl_id None clock s reg in
      schedule_all rest s' reg'
  end.
Definition recrawl_batch (stale : list (string * Z * option Z * Q)) (clock : Q) :
    list RecrawlEntry :=
  (pop_due None clock (schedule_all stale [] ∅).1).1.

(** The entry [schedule] makes of one stale row. *)
Definition stale_entry (row : string * Z * option Z * Q) : RecrawlEntry :=
  let '(url, depth, crawl_id, clock) := row in mkEntry (clock + 0) url 0 depth crawl_id.

Definition due_le (a b : RecrawlEntry) : Prop := (due_at a <= due_at b)%Q.
Definition due_lt (a b : RecrawlEntry) : Prop := (due_at a < due_at b)%Q.

(** ** Lemmas *)

Lemma entry_lt_asym a b : entry_lt a b = true -> entry_lt b a = false.
Proof. unfold entry_lt. qsolve. Qed.

Lemma entry_le a b : le entry_lt a b <-> due_le a b.
Proof. unfold le, entry_lt, due_le. split; intros; qsolve. Qed.

Lemma entry_le_trans a b c : le entry_lt a b -> le entry_lt b c -> le entry_lt a c.
Proof. rewrite !entry_le. unfold due_le. intros. lra. Qed.

#[export] Hint Resolve entry_lt_asym entry_le_trans : core.

Abbreviation heap_ok := (heap_inv entry_lt).

Lemma heap_ok_nil : heap_ok [].
Proof. intros i. cbn. lia. Qed.

Lemma schedule_ok url iv d cid now clk s reg :
  heap_ok s -> heap_ok (schedule url iv d cid now clk s reg).1.2.
Proof. apply heappush_inv; eauto. Qed.

(** The root of a heap is due no later than any entry. *)
Lemma peek_min s e : heap_ok s -> peek s = Some e -> Forall (due_le e) s.
Proof.
  unfold peek. destruct s as [|x t]; intros Hs; [done|]. intros [= ->].
  apply Forall_forall. intros y Hy. apply entry_le.
  by eapply (heap_min entry_lt entry_lt_asym entry_le_trans).
Qed.

Lemma pop_due_loop_spec fuel moment s due0 :
  (length s <= fuel)%nat -> heap_ok s ->
  exists l, (pop_due_loop fuel moment s due0).1 = due0 ++ l /\
    l ++ (pop_due_loop fuel moment s due0).2 ≡ₚ s /\
    heap_ok (pop_due_loop fuel moment s due0).2 /\
    StronglySorted due_le l /\
    Forall (fun e => due_at e <= moment)%Q l /\
    Forall (fun e => moment < due_at e)%Q (pop_due_loop fuel moment s due0).2.
Proof.
  revert s due0. induction fuel as [|f IH]; intros s due0 Hf Hs; cbn [pop_due_loop].
  { destruct s; cbn in Hf; [|lia]. exists []. rewrite app_nil_r. split_and!; try done; constructor. }
  destruct (peek s) as [e|] eqn:Ep.
  2: { destruct s; [|done]. exists []. rewrite app_nil_r. split_and!; try done; constructor. }
  pose proof (peek_min s e Hs Ep) as Hmin. destruct (Qleb_spec (due_at e) moment) as [Hle|Hgt].
  - destruct (heappop entry_lt s) as [[x s']|] eqn:Epop.
    2: { apply heappop_None in Epop. by subst. }
    pose proof (heappop_head _ _ _ _ Epop) as Eh. unfold peek in Ep. rewrite Ep in Eh.
    injection Eh as <-. pose proof (heappop_perm _ _ _ _ Epop) as Hperm.
    destruct (IH s' (due0 ++ [e])) as (l & E1 & E2 & E3 & E4 & E5 & E6).
    { apply Permutation_length in Hperm. cbn in Hperm. lia. }
    { eapply heappop_inv; eauto. }
    exists (e :: l). rewrite E1, <- app_assoc. split_and!; try done.
    + cbn. by rewrite E2.
    + constructor; [done|]. rewrite <- Hperm in Hmin. apply Forall_cons in Hmin as [_ Hmin].
      rewrite <- E2 in Hmin. by apply Forall_app in Hmin as [? _].
    + by constructor.
  - exists []. rewrite app_nil_r. split_and!; try done; [constructor|].
    eapply Forall_impl; [exact Hmin|]. unfold due_le. cbn. intros y Hy. lra.
Qed.

Lemma sorted_perm_unique (l1 l2 : list RecrawlEntry) :
  StronglySorted due_le l1 -> StronglySorted due_lt l2 -> l1 ≡ₚ l2 -> l1 = l2.
Proof.
  revert l1. induction l2 as [|x t IH]; intros l1 H1 H2 Hp.
  { by apply Permutation_nil_r in Hp. }
  destruct l1 as [|y l]; [by apply Permutation_nil_l in Hp|].
  apply StronglySorted_inv in H1 as [H1 H1']. apply StronglySorted_inv in H2 as [H2 H2'].
  assert (y = x) as ->.
  { assert (y ∈ x :: t) as [->|Hy]%elem_of_cons by (rewrite <- Hp; set_solver); [done|].
    assert (x ∈ y :: l) as [->|Hx]%elem_of_cons by (rewrite Hp; set_solver); [done|].
    rewrite Forall_forall in H1', H2'. specialize (H1' _ Hx). specialize (H2' _ Hy).
    unfold due_le, due_lt in *. lra. }
  f_equal. apply IH; [done|done|]. by apply Permutation_cons_inv in Hp.
Qed.

Lemma schedule_all_spec stale s reg :
  heap_ok s ->
  heap_ok (schedule_all stale s reg).1 /\ (schedule_all stale s reg).1 ≡ₚ (stale_entry <$> stale) ++ s.
Proof.
  revert s reg. induction stale as [|[[[u d] c] clk] stale IH]; intros s reg Hs; [done|].
  cbn [schedule_all]. destruct (IH (schedule u 0 d c None clk s reg).1.2
    (schedule u 0 d c None clk s reg).2) as [E1 E2]; [by apply schedule_ok|].
  split; [exact E1|]. cbn in E2 |- *. rewrite E2, heappush_perm. symmetry. apply Permutation_middle.
Qed.

Lemma interval_after_closed n (s : RecrawlSettings) :
  (1 <= backoff_factor s)%Q -> (0 <= min_interval_seconds s <= max_interval_seconds s)%Q ->
  (interval_after n s ==
   py_min (min_interval_seconds s * backoff_factor s ^ Z.of_nat n) (max_interval_seconds s))%Q.
Proof.
  intros Hb Hm. induction n as [|n IH]; cbn [interval_after next_interval].
  - assert (min_interval_seconds s * backoff_factor s ^ Z.of_nat 0 == min_interval_seconds s)%Q
      as E by (change (backoff_factor s ^ Z.of_nat 0)%Q with 1%Q; ring).
    qcases; lra.
  - pose proof (Qpower_ge_1 _ n Hb) as Hp. pose proof (Qpower_S _ n Hb) as Ep.
    set (P := (backoff_factor s ^ Z.of_nat n)%Q) in *.
    set (P' := (backoff_factor s ^ Z.of_nat (S n))%Q) in *.
    set (I := interval_after n s) in *.
    assert (min_interval_seconds s * P' == min_interval_seconds s * P * backoff_factor s)%Q as E'
      by (rewrite Ep; ring).
    qcases; try nra.
Qed.

(** ** Properties *)

(** On a heap, [pop_due] returns exactly the entries whose due time has
    arrived, soonest first, keeps exactly the others, and leaves a heap. *)
Theorem pop_due_exact (now : option Q) (clock : Q) (s : RecrawlScheduler) :
  heap_inv entry_lt s ->
  let moment := default clock now in
  let '(due, rest) := pop_due now clock s in
  due ++ rest ≡ₚ s /\ heap_inv entry_lt rest /\ StronglySorted due_le due /\
  Forall (fun e => due_at e <= moment)%Q due /\ Forall (fun e => moment < due_at e)%Q rest.
Proof.
  intros Hs. cbn. unfold pop_due.
  destruct (pop_due_loop_spec (length s) (default clock now) s [] ltac:(lia) Hs)
    as (l & E1 & E2 & E3 & E4 & E5 & E6).
  destruct (pop_due_loop _ _ _ _) as [d r]. cbn in *. by subst.
Qed.

Lemma pop_due_exact_witness :
  exists s : RecrawlScheduler, heap_inv entry_lt s /\
    map re_url (pop_due None 250%Q s).1 = ["fast"; "mid"] /\
    (let '(due, rest) := pop_due None 250%Q s in due ++ rest ≡ₚ s).
Proof.
  set (s := (schedule_all [("slow", 0, None, 500%Q); ("fast", 0, None, 100%Q);
                           ("mid", 0, None, 200%Q)] [] ∅).1).
  exists s. assert (heap_inv entry_lt s) as Hs.
  { exact (proj1 (schedule_all_spec _ [] ∅ heap_ok_nil)). }
  split; [exact Hs|]. split; [vm_compute; reflexivity|].
  pose proof (pop_due_exact None 250%Q s Hs) as H. cbv zeta in H.
  destruct (pop_due None 250%Q s) as [due rest]. exact (proj1 H).
Defined.

(** The interval of a page that keeps coming back unchanged grows
    geometrically from the minimum and is capped: after [n] refreshes it is
    [min(min_interval * backoff ** n, max_interval)]. *)
Theorem next_interval_geometric (n : nat) (s : RecrawlSettings) :
  (1 <= backoff_factor s)%Q -> (0 <= min_interval_seconds s <= max_interval_seconds s)%Q ->
  (interval_after n s ==
   py_min (min_interval_seconds s * backoff_factor s ^ Z.of_nat n) (max_interval_seconds s))%Q /\
  (min_interval_seconds s <= interval_after n s <= max_interval_seconds s)%Q /\
  next_interval (Some (interval_after n s)) true s = min_interval_seconds s.
Proof.
  intros Hb Hm. pose proof (interval_after_closed n s Hb Hm) as E.
  split; [exact E|]. split; [|done]. rewrite E. clear E.
  pose proof (Qpower_ge_1 _ n Hb) as Hp.
  qcases; split; nra.
Qed.

Lemma next_interval_geometric_witness :
  (interval_after 8 (recrawl default_settings) == 604800)%Q /\
  (3600 <= interval_after 8 (recrawl default_settings) <= 604800)%Q.
Proof.
  destruct (next_interval_geometric 8 (recrawl default_settings)) as (E & B & _);
    [vm_compute; discriminate|split; vm_compute; discriminate|].
  split; [rewrite E; vm_compute; reflexivity|exact B].
Defined.

(** [crawler recrawl] enqueues the stalest page first and drops nothing,
    when its clock advances between two [schedule] calls and has not gone
    back when the batch is popped. *)
Theorem recrawl_batch_stalest_first (stale : list (string * Z * option Z * Q)) (clock : Q) :
  StronglySorted (fun a b => a.2 < b.2)%Q stale -> Forall (fun row => row.2 <= clock)%Q stale ->
  recrawl_batch stale clock = stale_entry <$> stale.
Proof.
  intros Hs Hc. destruct (schedule_all_spec stale [] ∅ heap_ok_nil) as [Hok Hp].
  rewrite app_nil_r in Hp. unfold recrawl_batch, pop_due.
  destruct (pop_due_loop_spec _ (default clock None) _ [] (le_n _) Hok)
    as (l & E1 & E2 & E3 & E4 & E5 & E6).
  rewrite E1. cbn [app]. clear E1. generalize dependent (pop_due_loop
    (length (schedule_all stale [] ∅).1) (default clock None) (schedule_all stale [] ∅).1 []).2.
  intros rest E2 _ Hrest. rewrite Hp in E2. cbn in Hrest.
  assert (rest = []) as ->.
  { destruct rest as [|e r]; [done|]. exfalso.
    assert (e ∈ stale_entry <$> stale) as He by (rewrite <- E2; set_solver).
    apply list_elem_of_fmap in He as ([[[u d] c] clk] & -> & Hin).
    apply Forall_cons in Hrest as [Hrest _]. rewrite Forall_forall in Hc. specialize (Hc _ Hin).
    cbn in *. lra. }
  rewrite app_nil_r in E2. apply sorted_perm_unique; [done| |done].
  clear -Hs. induction Hs as [|[[[u d] c] clk] stale Hs IH Hf]; csimpl; constructor; [done|].
  apply Forall_fmap. eapply Forall_impl; [exact Hf|].
  intros [[[u' d'] c'] clk']. cbn. unfold due_lt. cbn. lra.
Qed.

Lemma recrawl_batch_stalest_first_witness :
  map re_url (recrawl_batch [("a", 0, None, 1%Q); ("b", 1, None, 2%Q); ("c", 0, None, 3%Q)] 3%Q)
  = ["a"; "b"; "c"].
Proof.
  rewrite (recrawl_batch_stalest_first [("a", 0, None, 1%Q); ("b", 1, None, 2%Q); ("c", 0, None, 3%Q)] 3%Q).
  - reflexivity.
  - repeat constructor; reflexivity.
  - repeat constructor; vm_compute; discriminate.
Defined.

(** With equal clock readings the heap does not keep the order of insertion:
    the third-stalest page is enqueued before the second. *)
Lemma recrawl_batch_ties :
  map re_url (recrawl_batch [("a", 0, None, 1%Q); ("b", 0, None, 1%Q);
                             ("c", 0, None, 1%Q); ("d", 0, None, 1%Q)] 1%Q) = ["a"; "c"; "b"; "d"].
Proof. vm_compute. reflexivity. Qed.
