(* ===== verification/ConsistentHash.v ===== *)
(** * The consistent-hash ring ([crawler/sharding/])

    [ConsistentHashRing] with its virtual nodes, on [bisect] as CPython
    implements it, and the analysis helpers of [rebalance.py].  The hash
    ([mmh3.hash(key, signed=False)], a third-party function) is a parameter;
    it is documented to return an unsigned 32-bit value. *)
From S2P Require Import Prelude PyStr.
Local Open Scope Z_scope.

(** ** [bisect] *)

(** The loop of [bisect_right]; [hi - lo] decreases, so [len(a)] rounds suffice. *)
Fixpoint bisect_right_loop (fuel : nat) (a : list Z) (x : Z) (lo hi : nat) : nat :=
  match fuel with
  | O => lo
  | S f =>
      if (lo <? hi)%nat then
        let mid := ((lo + hi) / 2)%nat in
        if x <? a !!! mid then bisect_right_loop f a x lo mid
        else bisect_right_loop f a x (S mid) hi
      else lo
  end.
Definition bisect (a : list Z) (x : Z) : nat := bisect_right_loop (length a) a x 0 (length a).

Fixpoint bisect_left_loop (fuel : nat) (a : list Z) (x : Z) (lo hi : nat) : nat :=
  match fuel with
  | O => lo
  | S f =>
      if (lo <? hi)%nat then
        let mid := ((lo + hi) / 2)%nat in
        if a !!! mid <? x then bisect_left_loop f a x (S mid) hi
        else bisect_left_loop f a x lo mid
      else lo
  end.
Definition bisect_left (a : list Z) (x : Z) : nat :=
  bisect_left_loop (length a) a x 0 (length a).

(** [a.insert(i, x)] and [bisect.insort]. *)
Definition list_insert_at (i : nat) (x : Z) (a : list Z) : list Z := take i a ++ x :: drop i a.
Definition insort (a : list Z) (x : Z) : list Z := list_insert_at (bisect a x) x a.
(** [a.pop(i)]. *)
Definition list_pop (i : nat) (a : list Z) : list Z := delete i a.

(** ** The ring *)

Record ConsistentHashRing : Type := mkRing {
  virtual_nodes : Z; ring : gmap Z string; sorted_hashes : list Z; nodes : gset string }.

Section Ring.
(** [mmh3.hash(key, signed=False)]. *)
Variable hash : string -> Z.

(** [f"{node}#{i}"]. *)
Definition label (node : string) (i : Z) : string := node +:+ "#" +:+ pretty i.

Definition add_node (node : string) (r : ConsistentHashRing) : ConsistentHashRing :=
  if decide (node ∈ nodes r) then r
  else
    let step st i :=
      let h := hash (label node i) in (<[h := node]> st.1, insort st.2 h) in
    let st := fold_left step (seqZ 0 (virtual_nodes r)) (ring r, sorted_hashes r) in
    mkRing (virtual_nodes r) st.1 st.2 ({[node]} ∪ nodes r).

Definition remove_point (st : gmap Z string * list Z) (h : Z) : gmap Z string * list Z :=
  match st.1 !! h with
  | None => st
  | Some _ =>
      let idx := bisect_left st.2 h in
      (delete h st.1,
       if (idx <? length st.2)%nat && (st.2 !!! idx =? h) then list_pop idx st.2 else st.2)
  end.

Definition remove_node (node : string) (r : ConsistentHashRing) : ConsistentHashRing :=
  if decide (node ∈ nodes r) then
    let step st i := remove_point st (hash (label node i)) in
    let st := fold_left step (seqZ 0 (virtual_nodes r)) (ring r, sorted_hashes r) in
    mkRing (virtual_nodes r) st.1 st.2 (nodes r ∖ {[node]})
  else r.

Definition empty_ring (vn : Z) : ConsistentHashRing := mkRing vn ∅ [] ∅.
Definition new_ring (ns : list string) (vn : Z) : result ConsistentHashRing :=
  if vn <=? 0 then Raise ValueError
  else Ok (fold_left (fun r n => add_node n r) ns (empty_ring vn)).

Definition get (key : string) (r : ConsistentHashRing) : result (option string) :=
  match sorted_hashes r with
  | [] => Ok None
  | _ =>
      let idx := bisect (sorted_hashes r) (hash key) in
      let idx := if (idx =? length (sorted_hashes r))%nat then 0%nat else idx in
      match ring r !! (sorted_hashes r !!! idx) with
      | Some node => Ok (Some node)
      | None => Raise KeyError
      end
  end.

Definition ring_len (r : ConsistentHashRing) : Z := Z.of_nat (size (nodes r)).

(** ** [rebalance.py] *)

Fixpoint assignments (r : ConsistentHashRing) (keys : list string) (acc : gmap string string) :
    result (gmap string string) :=
  match keys with
  | [] => Ok acc
  | key :: rest =>
      node ← get key r;
      assignments r rest (match node with Some n => <[key := n]> acc | None => acc end)
  end.

(** [Counter(assignments(...).values())]. *)
Definition distribution (r : ConsistentHashRing) (keys : list string) : result (gmap string Z) :=
  a ← assignments r keys ∅;
  Ok (map_fold (fun _ node counts => <[node := default 0 (counts !! node) + 1]> counts) ∅ a).

Definition imbalance (r : ConsistentHashRing) (keys : list string) : result Q :=
  match distribution r keys with
  | Raise e => Raise e
  | Ok counts =>
      let loads := (map_to_list counts).*2 in
      if decide (loads = []) then Ok 0%Q
      else
        let total := foldr Z.add 0 loads in
        let node_count := ring_len r in
        let mean := if node_count =? 0 then 0%Q
                    else (inject_Z total / inject_Z node_count)%Q in
        if Qeq_bool mean 0%Q then Ok 0%Q
        else Ok (inject_Z (foldr Z.max 0%Z loads) / mean)%Q
  end.

(** [moved / len(before)]; [after.get(key) != node]. *)
Definition moved_keys (before after : gmap string string) : gmap string string :=
  filter (fun kn => after !! kn.1 <> Some kn.2) before.
Definition churn (before after : gmap string string) : Q :=
  if decide (before = ∅) then 0%Q
  else (inject_Z (Z.of_nat (size (moved_keys before after)))
        / inject_Z (Z.of_nat (size before)))%Q.

Definition naive_churn (keys : list string) (before_n after_n : Z) : Q :=
  if decide (keys = []) then 0%Q
  else if (before_n <=? 0) || (after_n <=? 0) then 0%Q
  else (inject_Z (Z.of_nat (length (filter
          (fun key => hash key mod before_n <> hash key mod after_n) keys)))
        / inject_Z (Z.of_nat (length keys)))%Q.

(** ** Specification vocabulary *)

(** The points of a node, and of a set of nodes. *)
Definition point_of (vn : Z) (n : string) (h : Z) : Prop :=
  exists i, 0 <= i < vn /\ h = hash (label n i).

(** [U] is a set of node names whose points are pairwise distinct. *)
Definition collision_free (vn : Z) (U : string -> Prop) : Prop :=
  forall n m i j, U n -> U m -> 0 <= i < vn -> 0 <= j < vn ->
    hash (label n i) = hash (label m j) -> n = m /\ i = j.

(** The ring is the one its node set determines. *)
Record canonical (r : ConsistentHashRing) : Prop := {
  can_sorted : Sorted Z.lt (sorted_hashes r);
  can_dom : forall h, h ∈ sorted_hashes r <-> is_Some (ring r !! h);
  can_ring : forall h n, ring r !! h = Some n <-> n ∈ nodes r /\ point_of (virtual_nodes r) n h }.

(** Clockwise distance from [h] to the next point at or after [h + 1]. *)
Definition clockwise (h p : Z) : Z := (p - h - 1) mod 2 ^ 32.

Inductive ring_op : Type := AddNode (n : string) | RemoveNode (n : string).
Definition run_ring_op (r : ConsistentHashRing) (o : ring_op) : ConsistentHashRing :=
  match o with AddNode n => add_node n r | RemoveNode n => remove_node n r end.
Definition op_node (o : ring_op) : string :=
  match o with AddNode n => n | RemoveNode n => n end.
(** The node set the operations leave, as a set. *)
Definition node_set_op (s : gset string) (o : ring_op) : gset string :=
  match o with AddNode n => {[n]} ∪ s | RemoveNode n => s ∖ {[n]} end.

(** ** [bisect] on sorted lists *)

Lemma ssorted (a : list Z) : Sorted Z.lt a -> StronglySorted Z.lt a.
Proof. apply Sorted_StronglySorted. intros ???; lia. Qed.

Lemma sorted_lookup (a : list Z) i j :
  Sorted Z.lt a -> (i < j < length a)%nat -> a !!! i < a !!! j.
Proof.
  intros Hs%ssorted.
  revert i j. induction Hs as [|x a Hs IH Hf]; intros i j Hij; cbn in *; [lia|].
  destruct j as [|j]; [lia|]. destruct i as [|i]; cbn.
  - rewrite Forall_forall in Hf. apply Hf. apply list_elem_of_lookup_total. exists j. split; [lia|done].
  - apply IH. lia.
Qed.

Lemma mid_bounds lo hi : (lo < hi)%nat -> (lo <= (lo + hi) / 2 < hi)%nat.
Proof. intros. pose proof (Nat.div_mod_eq (lo + hi) 2). pose proof (Nat.mod_upper_bound (lo + hi) 2). lia. Qed.

Lemma bisect_right_loop_spec fuel a x lo hi :
  Sorted Z.lt a -> (hi <= length a)%nat -> (lo <= hi)%nat -> (hi - lo <= fuel)%nat ->
  (forall i, (i < lo)%nat -> a !!! i <= x) ->
  (forall i, (hi <= i < length a)%nat -> x < a !!! i) ->
  let k := bisect_right_loop fuel a x lo hi in
  (k <= length a)%nat /\ (forall i, (i < k)%nat -> a !!! i <= x) /\
  (forall i, (k <= i < length a)%nat -> x < a !!! i).
Proof.
  intros Hs. revert lo hi. induction fuel as [|f IH]; intros lo hi Hh Hlh Hf Hlo Hhi; cbn [bisect_right_loop].
  { replace hi with lo in * by lia. done. }
  destruct (Nat.ltb_spec lo hi) as [Hlt|]; [|by replace hi with lo in * by lia].
  pose proof (mid_bounds lo hi Hlt) as Hm. set (mid := ((lo + hi) / 2)%nat) in *.
  destruct (Z.ltb_spec x (a !!! mid)) as [Hx|Hx]; apply IH; try lia; try done.
  - intros i Hi. destruct (decide (i = mid)) as [->|]; [done|].
    pose proof (sorted_lookup a mid i Hs ltac:(lia)). lia.
  - intros i Hi. destruct (decide (i = mid)) as [->|]; [done|].
    pose proof (sorted_lookup a i mid Hs ltac:(lia)). lia.
Qed.

Lemma bisect_spec a x :
  Sorted Z.lt a ->
  (bisect a x <= length a)%nat /\ (forall i, (i < bisect a x)%nat -> a !!! i <= x) /\
  (forall i, (bisect a x <= i < length a)%nat -> x < a !!! i).
Proof. intros Hs. apply bisect_right_loop_spec; try done; lia. Qed.

Lemma bisect_left_loop_spec fuel a x lo hi :
  Sorted Z.lt a -> (hi <= length a)%nat -> (lo <= hi)%nat -> (hi - lo <= fuel)%nat ->
  (forall i, (i < lo)%nat -> a !!! i < x) ->
  (forall i, (hi <= i < length a)%nat -> x <= a !!! i) ->
  let k := bisect_left_loop fuel a x lo hi in
  (k <= length a)%nat /\ (forall i, (i < k)%nat -> a !!! i < x) /\
  (forall i, (k <= i < length a)%nat -> x <= a !!! i).
Proof.
  intros Hs. revert lo hi. induction fuel as [|f IH]; intros lo hi Hh Hlh Hf Hlo Hhi; cbn [bisect_left_loop].
  { replace hi with lo in * by lia. done. }
  destruct (Nat.ltb_spec lo hi) as [Hlt|]; [|by replace hi with lo in * by lia].
  pose proof (mid_bounds lo hi Hlt) as Hm. set (mid := ((lo + hi) / 2)%nat) in *.
  destruct (Z.ltb_spec (a !!! mid) x) as [Hx|Hx]; apply IH; try lia; try done.
  - intros i Hi. destruct (decide (i = mid)) as [->|]; [done|].
    pose proof (sorted_lookup a i mid Hs ltac:(lia)). lia.
  - intros i Hi. destruct (decide (i = mid)) as [->|]; [done|].
    pose proof (sorted_lookup a mid i Hs ltac:(lia)). lia.
Qed.

Lemma bisect_left_spec a x :
  Sorted Z.lt a ->
  (bisect_left a x <= length a)%nat /\ (forall i, (i < bisect_left a x)%nat -> a !!! i < x) /\
  (forall i, (bisect_left a x <= i < length a)%nat -> x <= a !!! i).
Proof. intros Hs. apply bisect_left_loop_spec; try done; lia. Qed.
(** ** Inserting and removing points *)

Lemma sorted_app_lt (l k : list Z) :
  Sorted Z.lt l -> Sorted Z.lt k -> (forall x y, x ∈ l -> y ∈ k -> x < y) -> Sorted Z.lt (l ++ k).
Proof.
  intros Hl Hk H. apply StronglySorted_Sorted. apply ssorted in Hl, Hk.
  induction Hl as [|x l Hl IH Hf]; cbn; [done|]. constructor.
  - apply IH. intros y z Hy Hz. apply H; [by right|done].
  - apply Forall_app. split; [done|]. apply Forall_forall. intros y Hy. apply H; [by left|done].
Qed.

Lemma sorted_split (a : list Z) k :
  Sorted Z.lt a -> Sorted Z.lt (take k a) /\ Sorted Z.lt (drop k a).
Proof.
  intros Hs%ssorted.
  split; apply StronglySorted_Sorted.
  - revert k. induction Hs as [|x a Hs IH Hf]; intros [|k]; cbn; try constructor; [apply IH|].
    apply Forall_take, Hf.
  - revert k. induction Hs as [|x a Hs IH Hf]; intros [|k]; cbn; try constructor; try done.
Qed.

Lemma insort_elem a x y : y ∈ insort a x <-> y = x \/ y ∈ a.
Proof.
  unfold insort, list_insert_at. rewrite (elem_of_take_drop y (bisect a x) a).
  rewrite !elem_of_app, elem_of_cons. tauto.
Qed.

Lemma insort_sorted a x : Sorted Z.lt a -> x ∉ a -> Sorted Z.lt (insort a x).
Proof.
  intros Hs Hx. destruct (bisect_spec a x Hs) as (H1 & H2 & H3).
  destruct (sorted_split a (bisect a x) Hs) as [S1 S2]. unfold insort, list_insert_at.
  assert (forall y, y ∈ drop (bisect a x) a -> x < y) as Hd.
  { intros y [i Hi]%list_elem_of_lookup. rewrite lookup_drop in Hi.
    pose proof (lookup_lt_Some _ _ _ Hi). apply list_lookup_total_correct in Hi as <-. apply H3. lia. }
  apply (sorted_app_lt _ (x :: _)); [done| |].
  - apply StronglySorted_Sorted. constructor; [by apply ssorted|].
    apply Forall_forall, Hd.
  - intros y z Hy Hz.
    assert (y < x) as Hyx.
    { assert (y <> x) by (intros ->; eapply Hx, elem_of_take_in, Hy).
      apply list_elem_of_lookup in Hy as [i Hi]. apply lookup_take_Some in Hi as [Hi Hlt].
      apply list_lookup_total_correct in Hi as <-. specialize (H2 i Hlt). lia. }
    apply elem_of_cons in Hz as [->|Hz]; [done|]. specialize (Hd z Hz). lia.
Qed.

(** The index [bisect_left] finds for an element of a sorted list. *)
Lemma bisect_left_elem a x :
  Sorted Z.lt a -> x ∈ a ->
  (bisect_left a x < length a)%nat /\ a !!! bisect_left a x = x.
Proof.
  intros Hs [i Hi]%list_elem_of_lookup. destruct (bisect_left_spec a x Hs) as (H1 & H2 & H3).
  pose proof (lookup_lt_Some _ _ _ Hi) as Hl. apply list_lookup_total_correct in Hi.
  assert (bisect_left a x <= i)%nat as Hle.
  { destruct (decide (bisect_left a x <= i)%nat); [done|]. specialize (H2 i). lia. }
  assert (bisect_left a x = i) as ->; [|done].
  destruct (decide (bisect_left a x = i)) as [|Hne]; [done|].
  pose proof (sorted_lookup a _ i Hs (conj (proj2 (Nat.le_neq _ _) (conj Hle Hne)) Hl)).
  specialize (H3 (bisect_left a x)). lia.
Qed.

Lemma list_pop_elem a i y :
  Sorted Z.lt a -> (i < length a)%nat -> y ∈ list_pop i a <-> y ∈ a /\ y <> a !!! i.
Proof.
  intros Hs Hi. unfold list_pop. rewrite delete_take_drop.
  destruct (lookup_lt_is_Some_2 a i Hi) as [x Hx]. rewrite (list_lookup_total_correct _ _ _ Hx).
  rewrite (elem_of_take_drop y i a), (drop_S _ _ _ Hx), elem_of_app, elem_of_cons.
  assert (x ∉ take i a /\ x ∉ drop (S i) a) as [N1 N2].
  { apply list_lookup_total_correct in Hx as <-. split.
    - intros [j Hj]%list_elem_of_lookup. apply lookup_take_Some in Hj as [Hj Hlt].
      apply list_lookup_total_correct in Hj. pose proof (sorted_lookup a j i Hs ltac:(lia)). lia.
    - intros [j Hj]%list_elem_of_lookup. rewrite lookup_drop in Hj.
      pose proof (lookup_lt_Some _ _ _ Hj). apply list_lookup_total_correct in Hj.
      pose proof (sorted_lookup a i (S i + j) Hs ltac:(lia)). lia. }
  split; [|naive_solver]. intros [H|H]; (split; [tauto|]); intros ->; done.
Qed.

Lemma list_pop_sorted a i : Sorted Z.lt a -> (i < length a)%nat -> Sorted Z.lt (list_pop i a).
Proof.
  intros Hs Hi. unfold list_pop. rewrite delete_take_drop.
  apply sorted_app_lt; [by apply sorted_split|by apply sorted_split|].
  intros x y [j Hj]%list_elem_of_lookup [k Hk]%list_elem_of_lookup.
  apply lookup_take_Some in Hj as [Hj Hlt]. rewrite lookup_drop in Hk.
  pose proof (lookup_lt_Some _ _ _ Hk). apply list_lookup_total_correct in Hj as <-.
  apply list_lookup_total_correct in Hk as <-. apply sorted_lookup; [done|lia].
Qed.

(** ** The points the operations write *)

(** A ring map and its sorted hashes represent the point relation [F]. *)
Record represents (st : gmap Z string * list Z) (F : Z -> string -> Prop) : Prop := {
  rep_sorted : Sorted Z.lt st.2;
  rep_dom : forall h, h ∈ st.2 <-> is_Some (st.1 !! h);
  rep_ring : forall h n, st.1 !! h = Some n <-> F h n }.

Lemma represents_ext st F G :
  represents st F -> (forall h n, F h n <-> G h n) -> represents st G.
Proof. intros [H1 H2 H3] He. split; [done|done|]. intros. by rewrite H3, He. Qed.

Lemma represents_add st F h n :
  represents st F -> (forall m, ~ F h m) ->
  represents (<[h := n]> st.1, insort st.2 h) (fun h' m => F h' m \/ (h' = h /\ m = n)).
Proof.
  intros [H1 H2 H3] Hfresh.
  assert (st.1 !! h = None) as Hn.
  { destruct (st.1 !! h) as [m|] eqn:E; [|done]. apply H3 in E. by destruct (Hfresh m). }
  split; cbn.
  - apply insort_sorted; [done|]. rewrite H2, Hn. by intros [? ?].
  - intros h'. rewrite insort_elem, H2. destruct (decide (h = h')) as [->|Hne].
    + rewrite lookup_insert_eq. naive_solver.
    + rewrite lookup_insert_ne by done. naive_solver.
  - intros h' m. destruct (decide (h = h')) as [->|Hne].
    + rewrite lookup_insert_eq. split; [intros [= ->]; by right|]. intros [Hf|[_ ->]]; [|done].
      by destruct (Hfresh m).
    + rewrite lookup_insert_ne, H3 by done. naive_solver.
Qed.

Lemma represents_remove st F h n :
  represents st F -> F h n -> represents (remove_point st h) (fun h' m => F h' m /\ h' <> h).
Proof.
  intros [H1 H2 H3] Hf. apply H3 in Hf. unfold remove_point. rewrite Hf.
  assert (h ∈ st.2) as Hin by (apply H2; eauto).
  destruct (bisect_left_elem st.2 h H1 Hin) as [B1 B2].
  rewrite (proj2 (Nat.ltb_lt _ _) B1), B2, Z.eqb_refl. cbn [andb]. split; cbn.
  - by apply list_pop_sorted.
  - intros h'. rewrite list_pop_elem, B2, H2 by done. destruct (decide (h = h')) as [->|Hne].
    + rewrite lookup_delete_eq. split; [naive_solver|by intros [? ?]].
    + rewrite lookup_delete_ne by done. naive_solver.
  - intros h' m. destruct (decide (h = h')) as [->|Hne].
    + rewrite lookup_delete_eq. naive_solver.
    + rewrite lookup_delete_ne, H3 by done. naive_solver.
Qed.

Lemma represents_add_all n idx st F :
  represents st F -> NoDup ((fun i => hash (label n i)) <$> idx) ->
  (forall i m, i ∈ idx -> ~ F (hash (label n i)) m) ->
  represents (fold_left (fun st i => let h := hash (label n i) in
                                     (<[h := n]> st.1, insort st.2 h)) idx st)
    (fun h m => F h m \/ (m = n /\ exists i, i ∈ idx /\ h = hash (label n i))).
Proof.
  revert st F. induction idx as [|i idx IH]; intros st F Hr ND Hfr; cbn [fold_left].
  { eapply represents_ext; [done|]. set_solver. }
  rewrite fmap_cons, NoDup_cons in ND. destruct ND as [Hi ND].
  eapply represents_ext.
  - apply IH; [apply represents_add; [done|intros m; apply Hfr; by left]|done|].
    intros j m Hj [Hf|[He _]]; [by apply (Hfr j m); [right|]|].
    apply Hi. rewrite list_elem_of_fmap. eauto.
  - intros h m. cbn. setoid_rewrite elem_of_cons. naive_solver.
Qed.

Lemma represents_remove_all n idx st F :
  represents st F -> NoDup ((fun i => hash (label n i)) <$> idx) ->
  (forall i, i ∈ idx -> F (hash (label n i)) n) ->
  represents (fold_left (fun st i => remove_point st (hash (label n i))) idx st)
    (fun h m => F h m /\ forall i, i ∈ idx -> h <> hash (label n i)).
Proof.
  revert st F. induction idx as [|i idx IH]; intros st F Hr ND Hfr; cbn [fold_left].
  { eapply represents_ext; [done|]. set_solver. }
  rewrite fmap_cons, NoDup_cons in ND. destruct ND as [Hi ND].
  eapply represents_ext.
  - apply IH; [eapply represents_remove; [done|apply Hfr; by left]|done|].
    intros j Hj. split; [apply Hfr; by right|]. intros He. apply Hi. rewrite list_elem_of_fmap. eauto.
  - intros h m. cbn. setoid_rewrite elem_of_cons. naive_solver.
Qed.

(** ** The operations keep the ring canonical *)

Lemma canonical_represents r :
  canonical r <-> represents (ring r, sorted_hashes r)
                    (fun h n => n ∈ nodes r /\ point_of (virtual_nodes r) n h).
Proof. split; intros [H1 H2 H3]; by split. Qed.

Lemma points_NoDup vn (U : string -> Prop) n :
  collision_free vn U -> U n -> NoDup ((fun i => hash (label n i)) <$> seqZ 0 vn).
Proof.
  intros Hc Hn. apply NoDup_fmap_2_strong; [|apply NoDup_seqZ].
  intros i j Hi%elem_of_seqZ Hj%elem_of_seqZ He. by apply (Hc n n i j); [| |lia|lia|].
Qed.

Lemma canonical_add (U : string -> Prop) n r :
  collision_free (virtual_nodes r) U -> U n -> (forall m, m ∈ nodes r -> U m) ->
  canonical r -> canonical (add_node n r).
Proof.
  intros Hc Hn HU Hr. unfold add_node. destruct (decide (n ∈ nodes r)) as [|Hni]; [done|].
  apply canonical_represents in Hr. apply canonical_represents. cbn.
  eapply represents_ext.
  - rewrite <- surjective_pairing.
    apply (represents_add_all n _ _ _ Hr); [by eapply points_NoDup|].
    intros i m Hi%elem_of_seqZ (Hm & j & Hj & He).
    destruct (Hc n m i j) as [-> _]; [done|by apply HU|lia|done|done|]. done.
  - intros h m. cbn. rewrite elem_of_union, elem_of_singleton. unfold point_of.
    setoid_rewrite elem_of_seqZ. split.
    + intros [[Hm Hp]|[-> (i & Hi & ->)]]; [by split; [right|]|].
      split; [by left|]. exists i. split; [lia|done].
    + intros [[->|Hm] (i & Hi & ->)]; [right; split; [done|]; exists i; split; [lia|done]|].
      left. split; [done|]. by exists i.
Qed.

Lemma canonical_remove (U : string -> Prop) n r :
  collision_free (virtual_nodes r) U -> U n -> (forall m, m ∈ nodes r -> U m) ->
  canonical r -> canonical (remove_node n r).
Proof.
  intros Hc Hn HU Hr. unfold remove_node. destruct (decide (n ∈ nodes r)) as [Hni|]; [|done].
  apply canonical_represents in Hr. apply canonical_represents. cbn.
  eapply represents_ext.
  - rewrite <- surjective_pairing.
    apply (represents_remove_all n _ _ _ Hr); [by eapply points_NoDup|].
    intros i Hi%elem_of_seqZ. split; [done|]. exists i. split; [lia|done].
  - intros h m. cbn. rewrite elem_of_difference, elem_of_singleton. unfold point_of.
    setoid_rewrite elem_of_seqZ. split.
    + intros [[Hm (i & Hi & ->)] Hne]. split; [|by exists i]. split; [done|].
      intros ->. apply (Hne i); [lia|done].
    + intros [[Hm Hmn] (i & Hi & ->)]. split; [split; [done|by exists i]|].
      intros j Hj He. destruct (Hc m n i j) as [-> _]; [by apply HU|done|done|lia|done|done].
Qed.

Lemma add_node_vn n r : virtual_nodes (add_node n r) = virtual_nodes r.
Proof. unfold add_node. by destruct (decide _). Qed.
Lemma remove_node_vn n r : virtual_nodes (remove_node n r) = virtual_nodes r.
Proof. unfold remove_node. by destruct (decide _). Qed.
Lemma add_node_nodes n r : nodes (add_node n r) = {[n]} ∪ nodes r.
Proof. unfold add_node. destruct (decide _); [set_solver|done]. Qed.
Lemma remove_node_nodes n r : nodes (remove_node n r) = nodes r ∖ {[n]}.
Proof. unfold remove_node. destruct (decide _); [done|set_solver]. Qed.

Lemma canonical_empty vn : canonical (empty_ring vn).
Proof.
  split; cbn; [constructor| |].
  - intros h. rewrite lookup_empty. split; [set_solver|by intros [? ?]].
  - intros h n. rewrite lookup_empty. set_solver.
Qed.

Lemma canonical_run (U : string -> Prop) os r :
  collision_free (virtual_nodes r) U -> (forall m, m ∈ nodes r -> U m) ->
  Forall (fun o => U (op_node o)) os -> canonical r ->
  let r' := fold_left run_ring_op os r in
  canonical r' /\ virtual_nodes r' = virtual_nodes r /\
  nodes r' = fold_left node_set_op os (nodes r) /\ (forall m, m ∈ nodes r' -> U m).
Proof.
  revert r. induction os as [|o os IH]; intros r Hc HU Hos Hr; [done|].
  apply Forall_cons in Hos as [Ho Hos]. cbn [fold_left].
  assert (virtual_nodes (run_ring_op r o) = virtual_nodes r) as Ev.
  { destruct o; [apply add_node_vn|apply remove_node_vn]. }
  assert (nodes (run_ring_op r o) = node_set_op (nodes r) o) as En.
  { destruct o; [apply add_node_nodes|apply remove_node_nodes]. }
  destruct (IH (run_ring_op r o)) as (E1 & E2 & E3 & E4).
  - by rewrite Ev.
  - rewrite En. destruct o; cbn in *; set_solver.
  - done.
  - destruct o; [by eapply canonical_add|by eapply canonical_remove].
  - split_and!; [done|congruence|by rewrite E3, En|done].
Qed.

Lemma sorted_ext (a b : list Z) :
  Sorted Z.lt a -> Sorted Z.lt b -> (forall x, x ∈ a <-> x ∈ b) -> a = b.
Proof.
  intros Ha%ssorted Hb%ssorted. revert b Hb.
  induction Ha as [|x a Ha IH Hf]; intros b Hb He.
  { destruct b as [|y b]; [done|]. exfalso. by apply (not_elem_of_nil y), He; left. }
  destruct Hb as [|y b Hb Hg].
  { exfalso. by apply (not_elem_of_nil x), He; left. }
  rewrite Forall_forall in Hf, Hg.
  assert (x = y) as ->.
  { assert (x ∈ y :: b) as [E|E]%elem_of_cons by (apply He; by left); [done|].
    assert (y ∈ x :: a) as [E'|E']%elem_of_cons by (apply He; by left); [done|].
    specialize (Hf _ E'). specialize (Hg _ E). lia. }
  f_equal. apply IH; [done|]. intros z. split; intros Hz.
  - assert (z ∈ y :: b) as [->|]%elem_of_cons by (apply He; by right); [|done].
    specialize (Hf _ Hz). lia.
  - assert (z ∈ y :: a) as [->|]%elem_of_cons by (apply He; by right); [|done].
    specialize (Hg _ Hz). lia.
Qed.

(** A canonical ring is determined by its node set. *)
Lemma canonical_unique r r' :
  canonical r -> canonical r' -> virtual_nodes r = virtual_nodes r' -> nodes r = nodes r' -> r = r'.
Proof.
  intros [S1 D1 R1] [S2 D2 R2] Ev En. destruct r as [v rg l ns], r' as [v' rg' l' ns'].
  cbn in *. subst v' ns'. assert (rg = rg') as ->.
  { apply map_eq. intros h. apply option_eq. intros n. by rewrite R1, R2. }
  f_equal. apply sorted_ext; [done|done|]. intros h. by rewrite D1, D2.
Qed.

(** What a ring built by adding and removing nodes named in [U] satisfies. *)
Lemma reachable_canonical (U : string -> Prop) vn os :
  collision_free vn U -> Forall (fun o => U (op_node o)) os ->
  let r := fold_left run_ring_op os (empty_ring vn) in
  canonical r /\ virtual_nodes r = vn /\ nodes r = fold_left node_set_op os ∅ /\
  (forall m, m ∈ nodes r -> U m).
Proof.
  intros Hc Hos. apply (canonical_run U os (empty_ring vn)); [done|cbn; set_solver|done|].
  apply canonical_empty.
Qed.

(** ** The owner of a key *)

Lemma clockwise_inj h p q :
  0 <= p < 2 ^ 32 -> 0 <= q < 2 ^ 32 -> clockwise h p = clockwise h q -> p = q.
Proof.
  unfold clockwise. change (2 ^ 32) with 4294967296. intros Hp Hq He.
  pose proof (Z.div_mod (p - h - 1) 4294967296). pose proof (Z.div_mod (q - h - 1) 4294967296). lia.
Qed.

Lemma clockwise_after h p : 0 <= h < 2 ^ 32 -> h < p < 2 ^ 32 -> clockwise h p = p - h - 1.
Proof. intros. unfold clockwise. apply Z.mod_small. lia. Qed.

Lemma clockwise_before h p :
  0 <= h < 2 ^ 32 -> 0 <= p <= h -> clockwise h p = p - h - 1 + 2 ^ 32.
Proof.
  intros. unfold clockwise. rewrite <- (Z.mod_add _ 1) by lia. apply Z.mod_small. lia.
Qed.

Lemma lookup_total_elem (a : list Z) i : (i < length a)%nat -> a !!! i ∈ a.
Proof.
  intros Hi. destruct (lookup_lt_is_Some_2 a i Hi) as [x Hx].
  rewrite (list_lookup_total_correct _ _ _ Hx). by eapply list_elem_of_lookup_2.
Qed.

(** The point [get] selects is the first one clockwise of the key's hash. *)
Lemma bisect_clockwise (a : list Z) h :
  Sorted Z.lt a -> a <> [] -> 0 <= h < 2 ^ 32 -> (forall p, p ∈ a -> 0 <= p < 2 ^ 32) ->
  let k := bisect a h in
  let p := a !!! (if (k =? length a)%nat then 0%nat else k) in
  p ∈ a /\ forall q, q ∈ a -> clockwise h p <= clockwise h q.
Proof.
  intros Hs Hne Hh Hb. cbv zeta. destruct (bisect_spec a h Hs) as (B1 & B2 & B3).
  assert (0 < length a)%nat as Hl by (destruct a; [done|cbn; lia]).
  destruct (Nat.eqb_spec (bisect a h) (length a)) as [E|E].
  - split; [by apply lookup_total_elem|]. intros q [j Hj]%list_elem_of_lookup.
    pose proof (lookup_lt_Some _ _ _ Hj) as Hjl. apply list_lookup_total_correct in Hj as <-.
    pose proof (Hb _ (lookup_total_elem a 0 Hl)). pose proof (Hb _ (lookup_total_elem a j Hjl)).
    rewrite !clockwise_before; [|done|split; [lia|apply B2; lia]|done|split; [lia|apply B2; lia]].
    destruct (decide (j = 0%nat)) as [->|]; [lia|]. pose proof (sorted_lookup a 0 j Hs ltac:(lia)). lia.
  - assert (bisect a h < length a)%nat as Hk by lia.
    split; [by apply lookup_total_elem|]. intros q [j Hj]%list_elem_of_lookup.
    pose proof (lookup_lt_Some _ _ _ Hj) as Hjl. apply list_lookup_total_correct in Hj as <-.
    pose proof (Hb _ (lookup_total_elem a _ Hk)). pose proof (Hb _ (lookup_total_elem a j Hjl)).
    pose proof (B3 (bisect a h) ltac:(lia)).
    rewrite (clockwise_after h (a !!! bisect a h)) by lia.
    destruct (decide (j < bisect a h)%nat) as [Hlt|Hge].
    + rewrite clockwise_before; [lia|done|]. split; [lia|by apply B2].
    + rewrite clockwise_after; [|done|split; [apply B3; lia|lia]].
      destruct (decide (j = bisect a h)) as [->|]; [lia|].
      pose proof (sorted_lookup a (bisect a h) j Hs ltac:(lia)). lia.
Qed.

Hypothesis hash_u32 : forall s, 0 <= hash s < 2 ^ 32.

Lemma canonical_bounds r p : canonical r -> p ∈ sorted_hashes r -> 0 <= p < 2 ^ 32.
Proof.
  intros [_ D R] Hp. apply D in Hp as [n Hn]. apply R in Hn as (_ & i & _ & ->). apply hash_u32.
Qed.

Lemma get_owner r key :
  canonical r -> sorted_hashes r <> [] ->
  exists p n, get key r = Ok (Some n) /\ ring r !! p = Some n /\
    forall q, q ∈ sorted_hashes r -> clockwise (hash key) p <= clockwise (hash key) q.
Proof.
  intros Hr Hne. pose proof Hr as [S D R].
  destruct (bisect_clockwise (sorted_hashes r) (hash key) S Hne (hash_u32 key)) as [Hin Hmin].
  { intros p. by apply canonical_bounds. }
  apply D in Hin as [n Hn]. eexists _, n. split_and!; [|exact Hn|exact Hmin].
  unfold get. destruct (sorted_hashes r) as [|x t] eqn:E; [done|]. by rewrite Hn.
Qed.

Lemma get_empty r key : sorted_hashes r = [] -> get key r = Ok None.
Proof. intros H. unfold get. by rewrite H. Qed.

Lemma sorted_hashes_nil r :
  canonical r -> 0 < virtual_nodes r -> sorted_hashes r = [] <-> nodes r = ∅.
Proof.
  intros [S D R] Hv. split; intros H.
  - apply set_eq. intros n. split; [|set_solver]. intros Hn. exfalso.
    apply (not_elem_of_nil (hash (label n 0))). rewrite <- H. apply D. exists n. apply R.
    split; [done|]. exists 0. split; [lia|done].
  - destruct (sorted_hashes r) as [|x t] eqn:E; [done|]. exfalso.
    destruct (proj1 (D x) ltac:(by left)) as [n Hn]. apply R in Hn as [Hn _]. set_solver.
Qed.

(** Two canonical rings, one with more nodes: a key keeps its owner unless
    it goes to a node only the larger ring has. *)
Lemma get_mono r r' key n :
  canonical r -> canonical r' -> virtual_nodes r = virtual_nodes r' -> nodes r ⊆ nodes r' ->
  get key r' = Ok (Some n) -> n ∈ nodes r -> get key r = Ok (Some n).
Proof.
  intros Hr Hr' Ev Hsub Hg Hn. pose proof Hr as [S D R]. pose proof Hr' as [S' D' R'].
  destruct (decide (sorted_hashes r' = [])) as [E|E]; [rewrite get_empty in Hg by done; done|].
  destruct (get_owner r' key Hr' E) as (p' & n' & G' & L' & M').
  rewrite G' in Hg. injection Hg as ->.
  assert (ring r !! p' = Some n) as Lp.
  { apply R. apply R' in L' as [_ Hp]. split; [done|]. by rewrite Ev. }
  assert (p' ∈ sorted_hashes r) as Hin by (apply D; eauto).
  destruct (get_owner r key Hr) as (p & m & G & L & M).
  { intros E0. rewrite E0 in Hin. set_solver. }
  assert (p = p') as ->; [|by rewrite G; congruence].
  assert (p ∈ sorted_hashes r) as Hp by (apply D; eauto).
  apply (clockwise_inj (hash key)); [by apply (canonical_bounds r)|by apply (canonical_bounds r)|].
  apply Z.le_antisymm; [by apply M|]. apply M', D'. exists m. apply R'.
  apply R in L as [Hm Hpt]. split; [by apply Hsub|]. by rewrite <- Ev.
Qed.

(** ** Reassignment *)

Lemma get_total r key :
  canonical r -> 0 < virtual_nodes r -> nodes r <> ∅ ->
  exists n, get key r = Ok (Some n) /\ n ∈ nodes r.
Proof.
  intros Hr Hv Hn. assert (sorted_hashes r <> []) as Hne by (by rewrite sorted_hashes_nil).
  destruct (get_owner r key Hr Hne) as (p & n & G & L & _). exists n. split; [done|].
  destruct Hr as [_ _ R]. by apply R in L as [? _].
Qed.

Lemma add_node_disruption (U : string -> Prop) r n key :
  collision_free (virtual_nodes r) U -> U n -> (forall m, m ∈ nodes r -> U m) -> canonical r ->
  0 < virtual_nodes r ->
  get key (add_node n r) = get key r \/ get key (add_node n r) = Ok (Some n).
Proof.
  intros Hc Hn HU Hr Hv. pose proof (canonical_add U n r Hc Hn HU Hr) as Hr'.
  destruct (get_total (add_node n r) key Hr') as (m & G & Hm).
  { by rewrite add_node_vn. }
  { rewrite add_node_nodes. set_solver. }
  rewrite add_node_nodes, elem_of_union, elem_of_singleton in Hm.
  destruct Hm as [->|Hm]; [by right|left]. rewrite G. symmetry.
  apply (get_mono r (add_node n r)); [done|done|by rewrite add_node_vn| |done|done].
  rewrite add_node_nodes. set_solver.
Qed.

Lemma remove_node_disruption (U : string -> Prop) r n key :
  collision_free (virtual_nodes r) U -> U n -> (forall m, m ∈ nodes r -> U m) -> canonical r ->
  0 < virtual_nodes r ->
  get key r <> Ok (Some n) -> get key (remove_node n r) = get key r.
Proof.
  intros Hc Hn HU Hr Hv Hg. pose proof (canonical_remove U n r Hc Hn HU Hr) as Hr'.
  destruct (decide (nodes r = ∅)) as [E|E].
  { unfold remove_node. rewrite decide_False by set_solver. done. }
  destruct (get_total r key Hr Hv E) as (m & G & Hm). rewrite G.
  apply (get_mono (remove_node n r) r); [done|done|by rewrite remove_node_vn| |done|].
  - rewrite remove_node_nodes. set_solver.
  - rewrite remove_node_nodes. assert (m <> n) by congruence. set_solver.
Qed.

Lemma assignments_lookup r keys acc a k :
  assignments r keys acc = Ok a ->
  a !! k = if decide (k ∈ keys)
           then match get k r with Ok (Some n) => Some n | _ => acc !! k end
           else acc !! k.
Proof.
  revert acc. induction keys as [|key keys IH]; intros acc; cbn [assignments].
  { intros [= ->]. done. }
  destruct (get key r) as [o|e] eqn:Eg; cbn; [|done]. intros Ha. rewrite (IH _ Ha).
  destruct (decide (k = key)) as [->|Hne].
  - rewrite (decide_True (P := key ∈ key :: keys)) by (by left). rewrite Eg.
    destruct o; [rewrite lookup_insert_eq|]; by destruct (decide _).
  - rewrite (decide_ext (k ∈ keys) (k ∈ key :: keys)) by (rewrite elem_of_cons; naive_solver).
    destruct o; [rewrite lookup_insert_ne by done|]; done.
Qed.

Lemma churn_bounds before after : (0 <= churn before after <= 1)%Q.
Proof.
  unfold churn. case_decide as E; [lra|].
  assert (0 < size before)%nat.
  { destruct (decide (size before = 0%nat)) as [E0|]; [by apply map_size_empty_inv in E0|lia]. }
  assert (size (moved_keys before after) <= size before)%nat as Hle.
  { apply map_subseteq_size, map_filter_subseteq. }
  set (m := size (moved_keys before after)) in *. set (b := size before) in *.
  assert (0 < inject_Z (Z.of_nat b))%Q as Hb by (unfold Qlt; cbn; lia).
  assert (0 <= inject_Z (Z.of_nat m) <= inject_Z (Z.of_nat b))%Q as Hm by (unfold Qle; cbn; lia).
  split; [apply Qle_shift_div_l|apply Qle_shift_div_r]; lra.
Qed.
End Ring.

(** ** Properties *)

(** The ring is a function of its node set: whatever the order and number
    of [add_node] and [remove_node] calls, two histories that leave the same
    nodes leave the same ring (map, sorted points and all), as long as the
    virtual-node points of the names used do not collide. *)
Theorem ring_history_independent (hash : string -> Z) (vn : Z) (U : string -> Prop)
    (os1 os2 : list ring_op) :
  collision_free hash vn U ->
  Forall (fun o => U (op_node o)) os1 -> Forall (fun o => U (op_node o)) os2 ->
  fold_left node_set_op os1 ∅ = fold_left node_set_op os2 ∅ ->
  fold_left (run_ring_op hash) os1 (empty_ring vn) = fold_left (run_ring_op hash) os2 (empty_ring vn).
Proof.
  intros Hc H1 H2 He.
  destruct (reachable_canonical hash U vn os1 Hc H1) as (C1 & V1 & N1 & _).
  destruct (reachable_canonical hash U vn os2 Hc H2) as (C2 & V2 & N2 & _).
  apply (canonical_unique hash); congruence.
Qed.

(** A concrete hash for the witnesses: four labels on distinct points. *)
Definition demo_hash (s : string) : Z :=
  if decide (s = "a#0") then 10 else if decide (s = "a#1") then 30
  else if decide (s = "b#0") then 20 else if decide (s = "b#1") then 40 else 25.

Definition demo_names (n : string) : Prop := n = "a" \/ n = "b".

Lemma demo_collision_free : collision_free demo_hash 2 demo_names.
Proof.
  intros n m i j [-> | ->] [-> | ->] Hi Hj;
    assert (i = 0 \/ i = 1) as [-> | ->] by lia; assert (j = 0 \/ j = 1) as [-> | ->] by lia;
    vm_compute; intros; try discriminate; split; reflexivity.
Qed.

Ltac demo_ops := repeat (apply Forall_cons; split; [unfold demo_names; cbn; tauto|]); apply Forall_nil_2.

Lemma demo_hash_u32 s : 0 <= demo_hash s < 2 ^ 32.
Proof. unfold demo_hash. repeat case_decide; lia. Qed.

Lemma ring_history_independent_witness :
  fold_left (run_ring_op demo_hash) [AddNode "a"; AddNode "b"; RemoveNode "a"] (empty_ring 2)
  = fold_left (run_ring_op demo_hash) [AddNode "b"; AddNode "b"] (empty_ring 2).
Proof.
  apply (ring_history_independent demo_hash 2 demo_names); [exact demo_collision_free| | |].
  - demo_ops.
  - demo_ops.
  - vm_compute. reflexivity.
Defined.

(** On a reachable non-empty ring [get] never raises: it returns a node of
    the ring, the owner of the first virtual-node point clockwise of the
    key's hash. *)
Theorem ring_get_owner (hash : string -> Z) (vn : Z) (U : string -> Prop) (os : list ring_op)
    (key : string) :
  (forall s, 0 <= hash s < 2 ^ 32) -> 0 < vn -> collision_free hash vn U ->
  Forall (fun o => U (op_node o)) os -> fold_left node_set_op os ∅ <> ∅ ->
  exists n i, get hash key (fold_left (run_ring_op hash) os (empty_ring vn)) = Ok (Some n) /\
    n ∈ fold_left node_set_op os ∅ /\ 0 <= i < vn /\
    forall m j, m ∈ fold_left node_set_op os ∅ -> 0 <= j < vn ->
      clockwise (hash key) (hash (label n i)) <= clockwise (hash key) (hash (label m j)).
Proof.
  intros Hb Hv Hc Hos Hne.
  destruct (reachable_canonical hash U vn os Hc Hos) as (C & V & N & HU).
  set (r := fold_left (run_ring_op hash) os (empty_ring vn)) in *.
  assert (sorted_hashes r <> []) as Hs.
  { rewrite (sorted_hashes_nil hash Hb r C) by lia. by rewrite N. }
  destruct (get_owner hash Hb r key C Hs) as (p & n & G & L & M).
  pose proof C as [S D R]. apply R in L as [Hn (i & Hi & ->)]. rewrite V in Hi. rewrite N in Hn.
  exists n, i. split_and!; [done|done|lia|lia|]. intros m j Hm Hj.
  apply M, D. exists m. apply R. split; [by rewrite N|]. exists j. rewrite V. done.
Qed.

Lemma ring_get_owner_witness :
  exists n i, get demo_hash "some.domain" (fold_left (run_ring_op demo_hash) [AddNode "a"; AddNode "b"] (empty_ring 2))
    = Ok (Some n) /\ 0 <= i < 2.
Proof.
  destruct (ring_get_owner demo_hash 2 demo_names [AddNode "a"; AddNode "b"] "some.domain")
    as (n & i & G & _ & Hi & _).
  - exact demo_hash_u32.
  - lia.
  - exact demo_collision_free.
  - demo_ops.
  - intros E. assert ("a" ∈ (∅ : gset string)) as H by (rewrite <- E; vm_compute; reflexivity).
    set_solver.
  - exists n, i. exact (conj G Hi).
Defined.

(** C37: minimal disruption: adding a node moves a key only to the new node,
    and removing a node moves only the keys it owned. *)
Theorem ring_minimal_disruption (hash : string -> Z) (vn : Z) (U : string -> Prop)
    (os : list ring_op) (n key : string) :
  (forall s, 0 <= hash s < 2 ^ 32) -> 0 < vn -> collision_free hash vn U ->
  Forall (fun o => U (op_node o)) os -> U n ->
  let r := fold_left (run_ring_op hash) os (empty_ring vn) in
  (get hash key (add_node hash n r) = get hash key r \/
   get hash key (add_node hash n r) = Ok (Some n)) /\
  (get hash key r <> Ok (Some n) -> get hash key (remove_node hash n r) = get hash key r) /\
  get hash key (remove_node hash n r) <> Ok (Some n).
Proof.
  intros Hb Hv Hc Hos Hn. cbv zeta.
  destruct (reachable_canonical hash U vn os Hc Hos) as (C & V & N & HU).
  set (r := fold_left (run_ring_op hash) os (empty_ring vn)) in *.
  assert (collision_free hash (virtual_nodes r) U) as Hc' by by rewrite V.
  assert (0 < virtual_nodes r) as Hv' by by rewrite V.
  split_and!; [by apply (add_node_disruption hash Hb U)|by apply (remove_node_disruption hash Hb U)|].
  intros G. pose proof (canonical_remove hash U n r Hc' Hn HU C) as C'.
  destruct (decide (sorted_hashes (remove_node hash n r) = [])) as [E|E].
  { rewrite get_empty in G by done. done. }
  destruct (get_owner hash Hb _ key C' E) as (p & m & G' & L & _). rewrite G in G'.
  injection G' as <-. destruct C' as [_ _ R]. apply R in L as [Hm _].
  rewrite remove_node_nodes in Hm. set_solver.
Qed.

Lemma ring_minimal_disruption_witness :
  let r := fold_left (run_ring_op demo_hash) [AddNode "a"] (empty_ring 2) in
  get demo_hash "k" (add_node demo_hash "b" r) = get demo_hash "k" r \/
  get demo_hash "k" (add_node demo_hash "b" r) = Ok (Some "b").
Proof.
  apply (ring_minimal_disruption demo_hash 2 demo_names [AddNode "a"] "b" "k").
  - exact demo_hash_u32.
  - lia.
  - exact demo_collision_free.
  - demo_ops.
  - by right.
Defined.

(** The churn of scaling out by one node is a fraction in [0, 1], and every
    key it counts is owned by the new node afterwards. *)
Theorem churn_add_node (hash : string -> Z) (vn : Z) (U : string -> Prop) (os : list ring_op)
    (n : string) (keys : list string) (before after : gmap string string) :
  (forall s, 0 <= hash s < 2 ^ 32) -> 0 < vn -> collision_free hash vn U ->
  Forall (fun o => U (op_node o)) os -> U n ->
  let r := fold_left (run_ring_op hash) os (empty_ring vn) in
  assignments hash r keys ∅ = Ok before -> assignments hash (add_node hash n r) keys ∅ = Ok after ->
  (0 <= churn before after <= 1)%Q /\
  forall k owner, moved_keys before after !! k = Some owner -> after !! k = Some n.
Proof.
  intros Hb Hv Hc Hos Hn. cbv zeta. intros Ha Hb'. split; [apply churn_bounds|].
  destruct (reachable_canonical hash U vn os Hc Hos) as (C & V & N & HU).
  set (r := fold_left (run_ring_op hash) os (empty_ring vn)) in *.
  intros k owner [Hk Hmv]%map_lookup_filter_Some. cbn in Hmv.
  pose proof (assignments_lookup hash Hb _ _ _ _ k Ha) as La. rewrite Hk in La.
  pose proof (assignments_lookup hash Hb _ _ _ _ k Hb') as Lb.
  destruct (decide (k ∈ keys)) as [Hin|]; [|by rewrite lookup_empty in La].
  destruct (get hash k r) as [[m|]|] eqn:G; rewrite ?lookup_empty in La; try done. injection La as ->.
  destruct (add_node_disruption hash Hb U r n k) as [E|E]; try done; try (by rewrite V).
  - rewrite E, G in Lb. done.
  - by rewrite E in Lb.
Qed.

Lemma churn_add_node_witness :
  exists before after : gmap string string,
    assignments demo_hash (fold_left (run_ring_op demo_hash) [AddNode "a"] (empty_ring 2)) ["x"; "y"] ∅
      = Ok before /\
    assignments demo_hash (add_node demo_hash "b"
      (fold_left (run_ring_op demo_hash) [AddNode "a"] (empty_ring 2))) ["x"; "y"] ∅ = Ok after /\
    (0 <= churn before after <= 1)%Q.
Proof.
  eexists _, _. split; [vm_compute; reflexivity|]. split; [vm_compute; reflexivity|].
  refine (proj1 (churn_add_node demo_hash 2 demo_names [AddNode "a"] "b" ["x"; "y"] _ _
    demo_hash_u32 _ demo_collision_free _ _ _ _)).
  - reflexivity.
  - demo_ops.
  - by right.
  - vm_compute. reflexivity.
  - vm_compute. reflexivity.
Defined.

(** The ring does not survive a collision of two nodes' points: with a hash
    that puts ["a#0"] and ["b#0"] on the same point, removing ["b"] leaves a
    stale point and [get] raises [KeyError] although ["a"] is still in the ring. *)
Theorem ring_collision_raises (key : string) :
  let h (_ : string) := 7 in
  let r := remove_node h "b" (add_node h "b" (add_node h "a" (empty_ring 1))) in
  "a" ∈ nodes r /\ get h key r = Raise KeyError.
Proof. cbv zeta. split; vm_compute; reflexivity. Qed.
