(* ===== verification/UrlUtils.v ===== *)
(** * URL normalization and domain extraction ([crawler/url_utils.py])

    [urljoin], [urlsplit] and [hostname] are those of [PyStr]; the functions of
    w3lib and tldextract are the fields of the class [UrlLib], a parameter of
    everything that normalizes a URL.

    The theorems: the answer is exactly the URL a crawlable href stands for,
    on every address the URL parser accepts ([normalize_url_classifies]);
    inputs without square brackets never raise ([normalize_url_total]); when
    the function raises ([normalize_url_raises]), and that a malformed IPv6
    netloc does, although the docstring promises [None]
    ([normalize_url_malformed]). *)
From S2P Require Import Prelude PyStr.
From Stdlib Require Import Ascii.
Local Open Scope Z_scope.

(** Third-party code: [ipaddress]' check of a bracketed host, the two w3lib
    functions (which may raise) and tldextract's [registered_domain] of a host
    (empty when the suffix is unknown). *)
Class UrlLib := {
  bracketed_ok : string -> bool;
  url_query_cleaner : string -> list string -> bool -> result string;
  canonicalize_url : string -> result string;
  extracted_registered_domain : string -> string }.

Definition TRACKING_PARAMS : list string :=
  ["utm_source"; "utm_medium"; "utm_campaign"; "utm_term"; "utm_content"; "gclid"; "fbclid";
   "mc_cid"; "mc_eid"; "ref"; "ref_src"; "_ga"].

Definition SKIP_SCHEME_PREFIXES : list string := ["javascript:"; "mailto:"; "tel:"; "data:"; "#"].

(** [s.startswith(prefixes)] on a tuple. *)
Definition startswith_any (prefixes : list string) (s : string) : bool :=
  existsb (fun p => startswith p s) prefixes.

Definition crawlable_parts (parts : SplitResult) : bool :=
  in_list (scheme parts) ["http"; "https"] && truthy (netloc parts).

(** [x or None] on a string. *)
Definition or_none (s : string) : option string := if truthy s then Some s else None.

Section UrlUtils.
Context `{UrlLib}.

Definition normalize_url (href base : option string) : result (option string) :=
  match href with
  | None => Ok None
  | Some href =>
      if negb (truthy href) then Ok None
      else
        let href := strip href in
        if negb (truthy href) then Ok None
        else if startswith_any SKIP_SCHEME_PREFIXES (lower href) then Ok None
        else
          url ← match base with
                | Some b => if truthy b then urljoin bracketed_ok b href else Ok href
                | None => Ok href
                end;
          parts ← urlsplit bracketed_ok url;
          if negb (crawlable_parts parts) then Ok None
          else
            except (cleaned ← url_query_cleaner url TRACKING_PARAMS true;
                    canonical ← canonicalize_url cleaned;
                    Ok (or_none canonical))
                   (fun _ => Ok None)
  end.

Definition host_of (url : string) : result string :=
  parts ← urlsplit bracketed_ok url;
  Ok (lower (default EmptyString (hostname parts))).

Definition registered_domain (url : string) : result string :=
  host ← host_of url;
  if negb (truthy host) then Ok EmptyString
  else
    let rd := extracted_registered_domain host in
    Ok (if truthy rd then rd else host).

Definition same_registered_domain (a b : string) : result bool :=
  da ← registered_domain a;
  db ← registered_domain b;
  Ok (bool_decide (da = db)).

End UrlUtils.

(** ** Bracket-free strings

    [plain s]: no square bracket in [s].  Every string [urljoin] builds from
    plain strings is plain, and a plain netloc never raises. *)
Definition plain_char (c : ascii) : bool := negb (is_char "[" c || is_char "]" c).
Definition plain (s : string) : bool := sall plain_char s.

Section Plain.

Lemma lower_char_plain c : plain_char c = true -> plain_char (lower_char c) = true.
Proof. destruct c as [[] [] [] [] [] [] [] []]; vm_compute; done. Qed.

Lemma plain_lower s : plain s = true -> plain (lower s) = true.
Proof.
  unfold plain, lower. induction s as [|c s IH]; cbn; [done|].
  rewrite !andb_true_iff. intros [? ?]. auto using lower_char_plain.
Qed.

Lemma plain_no_bracket s : plain s = true -> has_char "[" s = false /\ has_char "]" s = false.
Proof.
  intros Hs. unfold has_char, sany.
  split; apply negb_false_iff; (eapply sall_impl; [|exact Hs]); intros c; unfold plain_char;
    destruct (is_char "[" c), (is_char "]" c); done.
Qed.

Lemma Forall_removelast {A} (P : A -> Prop) (l : list A) : Forall P l -> Forall P (removelast l).
Proof.
  induction 1 as [|x l Hx Hl IH]; [done|]. cbn. destruct l; [done|]. by constructor.
Qed.

Lemma Forall_last {A} (P : A -> Prop) (l : list A) x : Forall P l -> last l = Some x -> P x.
Proof. intros Hl E. apply last_Some in E as [l' ->]. apply Forall_app in Hl as [_ Hl]. by inversion Hl. Qed.

Lemma Forall_resolve (P : string -> Prop) l :
  P EmptyString -> Forall P l -> Forall P (resolve_segments l).
Proof.
  intros Hnil Hl. unfold resolve_segments.
  set (step := fun acc seg => _).
  assert (forall l acc, Forall P l -> Forall P acc -> Forall P (fold_left step l acc)) as Hf.
  { clear. induction l as [|x l IH]; intros acc Hl Hacc; [done|]. inversion Hl; subst. cbn.
    apply IH; [done|]. unfold step. repeat case_bool_decide; auto using Forall_removelast.
    apply Forall_app. split; [done|]. by constructor. }
  destruct (last l) as [w|]; [destruct (in_list w _)|]; auto.
  apply Forall_app. split; auto.
Qed.

Lemma Forall_drop_empty_inner (P : string -> Prop) l : Forall P l -> Forall P (drop_empty_inner l).
Proof.
  intros Hl. destruct l as [|w [|w' l]]; try done. unfold drop_empty_inner.
  inversion Hl as [|?? Hw Hl']; subst. constructor; [done|]. apply Forall_app. split.
  - apply Forall_forall. intros x Hx. apply list_elem_of_In, List.filter_In in Hx as [Hx _].
    apply list_elem_of_In in Hx.
    eapply Forall_forall; [|exact Hx]. by apply Forall_removelast.
  - destruct (last (w' :: l)) as [x|] eqn:E; [|done]. constructor; [|done].
    by eapply Forall_last.
Qed.

End Plain.
Create HintDb plain.
#[export] Hint Resolve sall_sfilter sall_drop_while sall_strip sall_after_last sall_sdrop
  sall_substring sall_split sall_join plain_lower Forall_removelast Forall_resolve
  Forall_drop_empty_inner : plain.

(** ** [urllib.parse] on plain inputs *)
Section PlainUrls.
Context `{UrlLib}.
Local Hint Extern 0 => progress unfold plain in * : plain.

Definition plain_split (r : SplitResult) : Prop :=
  plain (scheme r) = true /\ plain (netloc r) = true /\ plain (path r) = true /\
  plain (query r) = true /\ plain (fragment r) = true.

Lemma split_scheme_plain d url s rest :
  split_scheme d url = (s, rest) -> plain d = true -> plain url = true ->
  plain s = true /\ plain rest = true.
Proof.
  unfold split_scheme. intros E Hd Hu.
  destruct (partition ":" url) as [[a f] b] eqn:Ep.
  destruct (sall_partition plain_char _ _ _ _ _ Ep Hu) as [Ha Hb].
  destruct f; [|by simplify_eq]. destruct a as [|c a]; [by simplify_eq|].
  destruct (is_alpha c && _); simplify_eq; auto using plain_lower.
Qed.

(** Without brackets [urlsplit] is total and its parts are bracket-free. *)
Lemma urlsplit_in_plain d url :
  plain d = true -> plain url = true ->
  exists r, urlsplit_in bracketed_ok d url = Ok r /\ plain_split r.
Proof.
  intros Hd Hu. unfold urlsplit_in.
  set (u0 := sfilter _ _).
  assert (plain u0 = true) as Hu0 by (apply sall_sfilter, sall_drop_while, Hu).
  destruct (split_scheme d u0) as [sch u1] eqn:Es.
  destruct (split_scheme_plain _ _ _ _ Es Hd Hu0) as [Hsch Hu1].
  destruct (if startswith "//" u1 then break netloc_end (sdrop 2 u1) else (EmptyString, u1))
    as [nl u2] eqn:En.
  assert (plain nl = true /\ plain u2 = true) as [Hnl Hu2].
  { destruct (startswith "//" u1); [|by simplify_eq].
    eapply sall_break; [exact En|]. by apply sall_sdrop. }
  destruct (plain_no_bracket nl Hnl) as [B1 B2]. unfold mismatched_brackets. rewrite B1, B2. cbn.
  destruct (partition "#" u2) as [[u3 f3] frag] eqn:E3.
  destruct (sall_partition plain_char _ _ _ _ _ E3 Hu2) as [? ?].
  destruct (partition "?" u3) as [[u4 f4] q] eqn:E4.
  destruct (sall_partition plain_char _ _ _ _ _ E4) as [? ?]; [done|].
  eexists. split; [done|]. repeat split; done.
Qed.

Lemma splitparams_plain sch p a b :
  splitparams sch p = (a, b) -> plain p = true -> plain a = true /\ plain b = true.
Proof.
  unfold splitparams. intros E Hp. destruct (in_list sch uses_params); [|by simplify_eq].
  destruct (partition ";" (after_last "/" p)) as [[x f] y] eqn:Ep.
  apply (sall_partition plain_char) in Ep as [??]; [|by apply sall_after_last].
  destruct f; simplify_eq; [|done]. split; [by apply sall_substring|done].
Qed.

Lemma urlunparse_plain sch nl p ps q frag :
  plain sch = true -> plain nl = true -> plain p = true -> plain ps = true ->
  plain q = true -> plain frag = true -> plain (urlunparse sch nl p ps q frag) = true.
Proof.
  unfold urlunparse, urlunsplit, plain. intros.
  repeat match goal with
  | |- context [if ?b then _ else _] => destruct b
  end; rewrite ?sall_app;
  repeat match goal with E : sall plain_char _ = true |- _ => rewrite E; clear E end; done.
Qed.

(** Joining bracket-free URLs is total and gives a bracket-free URL. *)
Lemma urljoin_plain base url :
  plain base = true -> plain url = true ->
  exists u, urljoin bracketed_ok base url = Ok u /\ plain u = true.
Proof.
  intros Hb Hu. unfold urljoin.
  destruct (truthy base); cbn [negb]; [|eauto]. destruct (truthy url); cbn [negb]; [|eauto].
  destruct (urlsplit_in_plain EmptyString base) as (b & -> & Pb); [done|done|].
  destruct Pb as (Pb1 & Pb2 & Pb3 & Pb4 & Pb5).
  destruct (urlsplit_in_plain (scheme b) url) as (u & Eu & Pu); [done|done|].
  cbn [mbind result_bind]. rewrite Eu. cbn [mbind result_bind].
  destruct Pu as (Pu1 & Pu2 & Pu3 & Pu4 & Pu5).
  destruct (splitparams (scheme b) (path b)) as [bpath bparams] eqn:Ebp.
  destruct (splitparams_plain _ _ _ _ Ebp Pb3) as [Hbpath Hbparams].
  destruct (splitparams (scheme u) (path u)) as [upath uparams] eqn:Eup.
  destruct (splitparams_plain _ _ _ _ Eup Pu3) as [Hupath Huparams].
  destruct (negb _ || negb _); [eauto|].
  destruct (in_list (scheme u) uses_netloc && truthy (netloc u)).
  { eexists. split; [done|]. by apply urlunparse_plain. }
  set (nl := if in_list (scheme u) uses_netloc then netloc b else netloc u).
  assert (plain nl = true) by (unfold nl; by destruct (in_list _ _)).
  destruct (negb (truthy upath) && negb (truthy uparams)).
  { eexists. split; [done|]. apply urlunparse_plain; try done. by destruct (truthy (query u)). }
  eexists. split; [done|]. apply urlunparse_plain; try done.
  set (segs := if startswith "/" upath then _ else _).
  assert (Forall (fun w => plain w = true) segs) as Hsegs.
  { unfold segs. destruct (startswith "/" upath); [by apply sall_split|].
    apply Forall_drop_empty_inner, Forall_app. split; [|by apply sall_split].
    assert (Forall (fun w => plain w = true) (split "/" bpath)) by (by apply sall_split).
    destruct (last (split "/" bpath)) as [l|]; [destruct (truthy l)|];
      auto using Forall_removelast. }
  assert (plain (join "/" (resolve_segments segs)) = true).
  { apply sall_join; [done|]. by apply (Forall_resolve (fun w => plain w = true)). }
  by destruct (truthy (join "/" (resolve_segments segs))).
Qed.

End PlainUrls.

(** ** Normalization *)
Section Theorems.
Context `{UrlLib}.

(** The address an href denotes before canonicalization. *)
Definition absolute (href : string) (base : option string) : result string :=
  match base with
  | Some b => if truthy b then urljoin bracketed_ok b (strip href) else Ok (strip href)
  | None => Ok (strip href)
  end.

(** The hrefs refused before any URL is parsed. *)
Definition refused (href : option string) : bool :=
  match href with
  | None => true
  | Some h => negb (truthy (strip h)) || startswith_any SKIP_SCHEME_PREFIXES (lower (strip h))
  end.

Lemma normalize_url_eq href base :
  normalize_url href base =
  if refused href then Ok None
  else match href with
       | None => Ok None
       | Some h =>
           url ← absolute h base;
           parts ← urlsplit bracketed_ok url;
           if negb (crawlable_parts parts) then Ok None
           else except (cleaned ← url_query_cleaner url TRACKING_PARAMS true;
                        canonical ← canonicalize_url cleaned; Ok (or_none canonical))
                       (fun _ => Ok None)
       end.
Proof.
  destruct href as [h|]; [|done]. unfold normalize_url, refused, absolute.
  destruct h as [|c h]; [done|]. cbn [truthy negb].
  destruct (truthy (strip (String c h))); cbn [negb orb]; [|done].
  by destruct (startswith_any _ _).
Qed.

(** The URL that an href stands for: it is not empty, has no skipped scheme,
    its absolute address is one of the web, and [u] is the canonical form of
    that address without its tracking parameters. *)
Definition crawlable (href base : option string) (u : string) : Prop :=
  exists h url parts cleaned, href = Some h /\ strip h <> EmptyString /\
    (forall p, p ∈ SKIP_SCHEME_PREFIXES -> startswith p (lower (strip h)) = false) /\
    absolute h base = Ok url /\ urlsplit bracketed_ok url = Ok parts /\
    (scheme parts = "http" \/ scheme parts = "https") /\ netloc parts <> EmptyString /\
    url_query_cleaner url TRACKING_PARAMS true = Ok cleaned /\ canonicalize_url cleaned = Ok u /\ u <> EmptyString.

(** The URL parser accepts the address. *)
Definition parses (href base : option string) : Prop :=
  forall h, href = Some h -> refused href = false -> is_ok (absolute h base ≫= urlsplit bracketed_ok) = true.

Lemma startswith_any_false l s : startswith_any l s = false <-> forall p, p ∈ l -> startswith p s = false.
Proof.
  unfold startswith_any. rewrite <- not_true_iff_false, existsb_exists. split.
  - intros Hn p Hp. apply not_true_iff_false. intros E. apply Hn. exists p. by rewrite <- list_elem_of_In.
  - intros Hall (p & Hp & E). apply list_elem_of_In, Hall in Hp. congruence.
Qed.
Lemma refused_false h : refused (Some h) = false <->
  strip h <> EmptyString /\ forall p, p ∈ SKIP_SCHEME_PREFIXES -> startswith p (lower (strip h)) = false.
Proof. cbn [refused]. by rewrite orb_false_iff, negb_false_iff, truthy_true, startswith_any_false. Qed.
Lemma crawlable_parts_true parts : crawlable_parts parts = true <->
  (scheme parts = "http" \/ scheme parts = "https") /\ netloc parts <> EmptyString.
Proof.
  unfold crawlable_parts, in_list. rewrite andb_true_iff, truthy_true, bool_decide_eq_true, !elem_of_cons, elem_of_nil. naive_solver.
Qed.
Lemma or_none_some s u : or_none s = Some u <-> s = u /\ u <> EmptyString.
Proof. unfold or_none. destruct (truthy s) eqn:E; rewrite ?truthy_true, ?truthy_false in E; naive_solver. Qed.

(** Hrefs and bases without square brackets parse. *)
Lemma plain_parses href base : plain (default EmptyString href) = true -> plain (default EmptyString base) = true -> parses href base.
Proof.
  intros Hh Hb h -> _. cbn in Hh. assert (exists url, absolute h base = Ok url /\ plain url = true) as (url & -> & Hu).
  { unfold absolute. assert (plain (strip h) = true) by (by apply sall_strip).
    destruct base as [b|]; [destruct (truthy b)|]; eauto using urljoin_plain. }
  cbn [mbind result_bind]. unfold urlsplit. by destruct (urlsplit_in_plain EmptyString url) as (r & -> & _).
Qed.

(** An accepted address is crawlable by its parts and its canonical form. *)
Lemma crawlable_at h base url parts u :
  refused (Some h) = false -> absolute h base = Ok url -> urlsplit bracketed_ok url = Ok parts ->
  crawlable (Some h) base u <-> crawlable_parts parts = true /\
    exists cleaned, url_query_cleaner url TRACKING_PARAMS true = Ok cleaned /\ canonicalize_url cleaned = Ok u /\ u <> EmptyString.
Proof.
  intros R Ha Hs. apply refused_false in R as [? ?]. rewrite crawlable_parts_true. unfold crawlable. split.
  - intros (? & ? & ? & cleaned & [= <-] & _ & _ & Ha' & Hs' & ? & ? & ?). rewrite Ha in Ha'. injection Ha' as <-.
    rewrite Hs in Hs'. injection Hs' as <-. split; [done|by exists cleaned].
  - intros ([? ?] & cleaned & ?). by exists h, url, parts, cleaned.
Qed.

(** C38: The answer of [normalize_url] is exactly the URL the href stands for:
    on every address the URL parser accepts, and it accepts all those without
    square brackets, the function raises nothing and answers [u] when [u] is
    the canonical URL of a crawlable href, and [None] when the href has none. *)
Theorem normalize_url_classifies href base :
  (plain (default EmptyString href) = true -> plain (default EmptyString base) = true -> parses href base) /\
  (parses href base -> exists answer, normalize_url href base = Ok answer /\
     (forall u, answer = Some u <-> crawlable href base u) /\ (answer = None <-> forall u, ~ crawlable href base u)).
Proof.
  split; [apply plain_parses|]. intros Hp.
  assert (exists answer, normalize_url href base = Ok answer /\ forall u, answer = Some u <-> crawlable href base u) as (x & E & Hx).
  2:{ exists x. split; [done|]. split; [done|]. setoid_rewrite <- Hx. destruct x; naive_solver. }
  rewrite normalize_url_eq. destruct (refused href) eqn:R.
  { exists None. split; [done|]. intros u. split; [done|]. intros (h & url & parts & cleaned & -> & ? & ? & _).
    by rewrite (proj2 (refused_false h)) in R. }
  destruct href as [h|]; [|done]. specialize (Hp h eq_refl R).
  destruct (absolute h base) as [url|e] eqn:Ea; [|done]. cbn [mbind result_bind] in *.
  destruct (urlsplit bracketed_ok url) as [parts|e] eqn:Es; [|done]. cbn [mbind result_bind].
  setoid_rewrite (fun u => crawlable_at h base url parts u R Ea Es).
  destruct (crawlable_parts parts); cbn [negb]; [|by exists None; split; [|intros u; split; [|intros [? _]]]].
  destruct (url_query_cleaner url TRACKING_PARAMS true) as [cleaned|e]; cbn [mbind result_bind except];
    [|by exists None; split; [|intros u; split; [|intros (_ & ? & ? & _)]]].
  destruct (canonicalize_url cleaned) as [can|e] eqn:Ec; cbn [mbind result_bind except].
  - exists (or_none can). split; [done|]. intros u. rewrite or_none_some. split.
    + intros [<- ?]. split; [done|by exists cleaned].
    + intros (_ & ? & [= <-] & E & ?). rewrite Ec in E. by injection E.
  - exists None. split; [done|]. intros u. split; [done|]. intros (_ & ? & [= <-] & E & _). by rewrite Ec in E.
Qed.

(** The function raises exactly when joining or splitting the address raises,
    which the code leaves outside its [try]. *)
Theorem normalize_url_raises href base e : normalize_url href base = Raise e <->
  refused href = false /\ exists h, href = Some h /\ (absolute h base ≫= urlsplit bracketed_ok) = Raise e.
Proof.
  rewrite normalize_url_eq. destruct (refused href); [naive_solver|]. destruct href as [h|]; [|naive_solver].
  transitivity ((absolute h base ≫= urlsplit bracketed_ok) = Raise e); [|naive_solver].
  destruct (absolute h base) as [url|e0]; cbn [mbind result_bind]; [|by split; intros [= ->]].
  destruct (urlsplit bracketed_ok url) as [parts|e0]; cbn [mbind result_bind]; [|by split; intros [= ->]].
  split; [|done]. destruct (crawlable_parts parts); [|done]. cbn [negb]. by destruct (_ ≫= _).
Qed.

(** An href and a base without square brackets never make [normalize_url]
    raise, and neither [registered_domain] of such a URL. *)
Theorem normalize_url_total href base :
  plain (default EmptyString href) = true -> plain (default EmptyString base) = true ->
  is_ok (normalize_url href base) = true /\
  is_ok (registered_domain (default EmptyString href)) = true.
Proof.
  intros Hh Hb. split.
  - destruct (normalize_url href base) as [x|e] eqn:E; [done|]. apply normalize_url_raises in E as (R & h & -> & E).
    specialize (plain_parses (Some h) base Hh Hb h eq_refl R). by rewrite E.
  - unfold registered_domain, host_of, urlsplit.
    destruct (urlsplit_in_plain EmptyString (default EmptyString href)) as (r & -> & _); [done..|].
    cbn [mbind result_bind]. destruct (negb _); [done|]. by destruct (truthy _).
Qed.

(** The registrable domain is empty exactly when the URL has no host. *)
Lemma registered_domain_nonempty url h :
  host_of url = Ok h -> exists d, registered_domain url = Ok d /\ (d = EmptyString <-> h = EmptyString).
Proof.
  unfold registered_domain. intros ->. cbn [mbind result_bind].
  destruct (truthy h) eqn:E; cbn [negb].
  - destruct (truthy (extracted_registered_domain h)) eqn:E'; eexists; (split; [done|]);
      rewrite <- !truthy_false; rewrite ?E, ?E'; done.
  - exists EmptyString. by rewrite <- !truthy_false, E.
Qed.

End Theorems.

(** ** Concrete instances *)

(** A stand-in for the third-party functions that changes nothing: enough to
    evaluate the definitions. *)
Definition identity_lib : UrlLib := {|
  bracketed_ok := fun _ => false;
  url_query_cleaner := fun u _ _ => Ok u;
  canonicalize_url := Ok;
  extracted_registered_domain := fun h => h |}.

Lemma normalize_url_total_witness :
  let _ := identity_lib in
  is_ok (normalize_url (Some " ../b?q=1#f") (Some "http://a.example/x/y/")) = true /\
  normalize_url (Some " ../b?q=1#f") (Some "http://a.example/x/y/")
    = Ok (Some "http://a.example/x/b?q=1#f").
Proof.
  cbv zeta. split.
  - exact (proj1 (@normalize_url_total identity_lib (Some " ../b?q=1#f")
                    (Some "http://a.example/x/y/") eq_refl eq_refl)).
  - vm_compute. reflexivity.
Defined.

Lemma normalize_url_classifies_witness :
  let _ := identity_lib in
  crawlable (Some " ../b?q=1#f") (Some "http://a.example/x/y/") "http://a.example/x/b?q=1#f" /\
  (forall u, ~ crawlable (Some "MAILTO:me@a.example") (Some "http://a.example/") u) /\
  (forall u, ~ crawlable (Some "ftp://a.example/x") None u).
Proof.
  cbv zeta.
  destruct (@normalize_url_classifies identity_lib (Some " ../b?q=1#f") (Some "http://a.example/x/y/")) as [P1 C1].
  destruct (@normalize_url_classifies identity_lib (Some "MAILTO:me@a.example") (Some "http://a.example/")) as [P2 C2].
  destruct (@normalize_url_classifies identity_lib (Some "ftp://a.example/x") None) as [P3 C3].
  destruct (C1 (P1 eq_refl eq_refl)) as (x1 & E1 & H1 & _). destruct (C2 (P2 eq_refl eq_refl)) as (x2 & E2 & _ & H2).
  destruct (C3 (P3 eq_refl eq_refl)) as (x3 & E3 & _ & H3).
  vm_compute in E1, E2, E3. injection E1 as <-. injection E2 as <-. injection E3 as <-.
  split; [apply H1; reflexivity|]. split; [apply H2; reflexivity|apply H3; reflexivity].
Defined.

(** The promise of the docstring ("or [None] if not crawlable") fails for an
    address with an unbalanced bracket: whatever the third-party functions do,
    [urlsplit] raises [ValueError] outside the [try]. *)
Lemma normalize_url_malformed `{UrlLib} :
  normalize_url (Some "http://[bad") None = Raise ValueError /\
  normalize_url (Some "http://[bad") (Some "http://a.example/") = Raise ValueError /\
  registered_domain "http://[bad" = Raise ValueError.
Proof. split_and!; reflexivity. Qed.
