(* ===== verification/HtmlParser.v ===== *)
(** * HTML parsing ([crawler/parser/html_parser.py])

    selectolax is third-party: its tree and its queries are the fields of the
    class [Selectolax].  [parse_page] and [extract_text] are translated on top
    of them and of [UrlUtils.normalize_url].

    [parse_page_links]: [parse_page] succeeds exactly when the base joins and
    every anchor normalizes without raising, and then returns, in document
    order, the first anchor of each accepted URL; so one malformed href loses
    the links of the whole page. *)
From S2P Require Import Prelude PyStr Models UrlUtils.
From Stdlib Require Import Ascii.
Local Open Scope Z_scope.

(** [HTMLParser(html)], [css_first], [css], [attributes.get], [text(strip=True)],
    [text(separator, strip=True)], [decompose] (in place: the tree after it),
    [tree.body] and [tree.root]. *)
Class Selectolax := {
  tree : Type;
  node : Type;
  HTMLParser : string -> tree;
  css_first : tree -> string -> option node;
  css : tree -> string -> list node;
  attr : tree -> node -> string -> option string;
  node_text : tree -> node -> string;
  node_text_sep : tree -> node -> string -> string;
  decompose : tree -> node -> tree;
  body : tree -> option node;
  root : tree -> option node }.

Section HtmlParser.
Context `{UrlLib, Selectolax}.

(** The loop of [parse_page] over [tree.css("a[href]")], with [seen] and the
    links collected so far. *)
Fixpoint collect_links (t : tree) (base : string) (anchors : list node)
    (seen : gset string) (links : list Link) : result (list Link) :=
  match anchors with
  | [] => Ok links
  | anchor :: rest =>
      normalized ← normalize_url (attr t anchor "href") (Some base);
      match normalized with
      | None => collect_links t base rest seen links
      | Some u =>
          if negb (truthy u) || bool_decide (u ∈ seen) then collect_links t base rest seen links
          else collect_links t base rest ({[u]} ∪ seen)
                 (links ++ [mkLink u (or_none (node_text t anchor))])
      end
  end.

(** The base of relative links: [<base href>] when there is a non-empty one. *)
Definition base_of (t : tree) (url : string) : result string :=
  match css_first t "base[href]" with
  | Some n =>
      match attr t n "href" with
      | Some h => if truthy h then urljoin bracketed_ok url h else Ok url
      | None => Ok url
      end
  | None => Ok url
  end.

Definition parse_page (url html : string) : result ParsedPage :=
  let t := HTMLParser html in
  base ← base_of t url;
  let title := node_text t <$> css_first t "title" in
  links ← collect_links t base (css t "a[href]") ∅ [];
  Ok (mkParsed url title links EmptyString).

Definition extract_text (html : string) : string :=
  let t := HTMLParser html in
  let t := fold_left decompose (css t "script, style, noscript, template") t in
  match (match body t with Some b => Some b | None => root t end) with
  | None => EmptyString
  | Some b => node_text_sep t b " "
  end.

(** ** Specification of the link extraction *)

(** The (url, text) pairs the anchors denote, in document order. *)
Definition candidates (t : tree) (base : string) (anchors : list node) : list Link :=
  omap (fun a => match normalize_url (attr t a "href") (Some base) with
                 | Ok (Some u) => if truthy u then Some (mkLink u (or_none (node_text t a))) else None
                 | _ => None
                 end) anchors.

(** The first element of each URL, in order. *)
Fixpoint first_of_each (seen : list string) (l : list Link) : list Link :=
  match l with
  | [] => []
  | x :: l' =>
      if bool_decide (link_url x ∈ seen) then first_of_each seen l'
      else x :: first_of_each (link_url x :: seen) l'
  end.

Definition anchors_ok (t : tree) (base : string) (anchors : list node) : Prop :=
  Forall (fun a => is_ok (normalize_url (attr t a "href") (Some base)) = true) anchors.

Lemma first_of_each_perm seen seen' l :
  (forall u, u ∈ seen <-> u ∈ seen') -> first_of_each seen l = first_of_each seen' l.
Proof.
  revert seen seen'. induction l as [|x l IH]; intros seen seen' E; cbn; [done|].
  rewrite (bool_decide_ext _ _ (E (link_url x))). case_bool_decide; [auto|].
  f_equal. apply IH. intros u. by rewrite !elem_of_cons, E.
Qed.

Lemma first_of_each_urls seen l :
  NoDup (link_url <$> first_of_each seen l) /\
  (forall u, u ∈ link_url <$> first_of_each seen l <-> u ∈ link_url <$> l /\ u ∉ seen).
Proof.
  revert seen. induction l as [|x l IH]; intros seen; cbn.
  { split; [constructor|]. set_solver. }
  case_bool_decide as Hx.
  - destruct (IH seen) as [? E]. split; [done|]. intros u. rewrite E, elem_of_cons.
    split; [tauto|]. intros [[->|?] ?]; done.
  - destruct (IH (link_url x :: seen)) as [Hd E]. rewrite fmap_cons. split.
    + constructor; [|done]. rewrite E. intros [_ []]. by left.
    + intros u. rewrite !elem_of_cons, E. rewrite not_elem_of_cons.
      destruct (decide (u = link_url x)) as [->|]; [|tauto]. split; [tauto|auto].
Qed.

Lemma collect_links_spec t base anchors seen links :
  anchors_ok t base anchors ->
  collect_links t base anchors seen links =
  Ok (links ++ first_of_each (elements seen) (candidates t base anchors)).
Proof.
  revert seen links. induction anchors as [|a rest IH]; intros seen links Hok.
  { cbn. by rewrite app_nil_r. }
  inversion Hok as [|?? Ha Hrest]; subst. unfold candidates.
  cbn [collect_links omap list_omap]. fold (candidates t base rest).
  destruct (normalize_url (attr t a "href") (Some base)) as [[u|]|] eqn:E; [| |done];
    cbn [mbind result_bind]; [|by apply IH].
  destruct (truthy u) eqn:Tu; cbn [negb orb]; [|by apply IH].
  cbn [first_of_each link_url].
  rewrite (bool_decide_ext (u ∈ elements seen) (u ∈ seen)) by apply elem_of_elements.
  case_bool_decide; [by apply IH|].
  rewrite IH by done. rewrite <- app_assoc. cbn [app]. do 3 f_equal.
  apply first_of_each_perm. set_solver.
Qed.

Lemma collect_links_raises t base anchors seen links :
  (exists e, collect_links t base anchors seen links = Raise e) <-> ~ anchors_ok t base anchors.
Proof.
  split.
  - intros [e E] Hok. by rewrite collect_links_spec in E.
  - intros H'. revert seen links. induction anchors as [|a rest IH]; intros seen links.
    { destruct H'. constructor. }
    cbn [collect_links].
    destruct (normalize_url (attr t a "href") (Some base)) as [o|e] eqn:E; [|by exists e].
    cbn [mbind result_bind]. assert (~ anchors_ok t base rest) as Hr.
    { intros Hr. apply H'. constructor; [by rewrite E|done]. }
    destruct o as [u|]; [destruct (_ || _)|]; auto.
Qed.

(** C39: [parse_page] succeeds exactly when the base URL joins and every
    [a[href]] normalizes without raising.  The links are then the first anchor
    of each distinct accepted URL in document order: no URL twice, none lost,
    none that is not an anchor's. *)
Theorem parse_page_links url html :
  let t := HTMLParser html in
  (is_ok (parse_page url html) = true <->
     exists base, base_of t url = Ok base /\ anchors_ok t base (css t "a[href]")) /\
  (forall p, parse_page url html = Ok p ->
     exists base, base_of t url = Ok base /\
       pp_url p = url /\ pp_title p = node_text t <$> css_first t "title" /\
       pp_links p = first_of_each [] (candidates t base (css t "a[href]")) /\
       NoDup (link_url <$> pp_links p) /\
       (forall u, u ∈ link_url <$> pp_links p <->
          u <> EmptyString /\
          exists a, a ∈ css t "a[href]" /\ normalize_url (attr t a "href") (Some base) = Ok (Some u))).
Proof.
  intros t. unfold parse_page. fold t.
  destruct (base_of t url) as [base|e] eqn:Eb; cbn [mbind result_bind]; cycle 1.
  { split; [split; [done|by intros (? & ? & _)]|done]. }
  set (anchors := css t "a[href]").
  destruct (decide (Forall (fun a => is_ok (normalize_url (attr t a "href") (Some base)) = true) anchors))
    as [Hok|Hno].
  2:{ destruct (proj2 (collect_links_raises t base anchors ∅ []) Hno) as [e ->].
      split; [split; [done|]|done]. by intros (? & [= <-] & ?). }
  rewrite collect_links_spec by done. cbn [mbind result_bind app].
  split; [split; [eauto|done]|].
  intros p [= <-]. exists base. cbn [pp_url pp_title pp_links].
  destruct (first_of_each_urls [] (candidates t base anchors)) as [Hd Hu].
  rewrite elements_empty. split_and!; try done.
  intros u. rewrite Hu. unfold candidates. rewrite list_elem_of_fmap. split.
  - intros ((l & -> & (a & Ha & E)%list_elem_of_omap) & _).
    destruct (normalize_url _ _) as [[u|]|] eqn:En; try done.
    destruct (truthy u) eqn:Tu; [|done]. simplify_eq. cbn.
    split; [by rewrite <- truthy_true|]. by exists a.
  - intros (Hne & a & Ha & En). split; [|by intros ?%not_elem_of_nil].
    exists (mkLink u (or_none (node_text t a))). split; [done|].
    apply list_elem_of_omap. exists a. split; [done|]. rewrite En.
    by rewrite (proj2 (truthy_true u) Hne).
Qed.

End HtmlParser.

(** ** A concrete document *)

(** A document as the hrefs of its anchors, one per line, the text of an
    anchor being its href: enough to evaluate [parse_page]. *)
Definition line_document : Selectolax := {|
  tree := string; node := string;
  HTMLParser := fun s => s;
  css_first := fun _ _ => None;
  css := fun t sel => if bool_decide (sel = "a[href]") then split "|"%char t else [];
  attr := fun _ n _ => Some n;
  node_text := fun _ n => n;
  node_text_sep := fun _ n _ => n;
  decompose := fun t _ => t;
  body := fun t => Some t;
  root := fun t => Some t |}.

Lemma parse_page_links_witness :
  let _ := identity_lib in let _ := line_document in
  let html := "/b|#x|/a|http://a.example/b" in
  parse_page "http://a.example/" html
    = Ok (mkParsed "http://a.example/" None
            [mkLink "http://a.example/b" (Some "/b"); mkLink "http://a.example/a" (Some "/a")] "") /\
  NoDup (link_url <$> [mkLink "http://a.example/b" (Some "/b"); mkLink "http://a.example/a" (Some "/a")]).
Proof.
  cbv zeta. split; [vm_compute; reflexivity|].
  destruct (proj2 (@parse_page_links identity_lib line_document "http://a.example/"
                     "/b|#x|/a|http://a.example/b") _ eq_refl) as (base & _ & _ & _ & _ & Hd & _).
  exact Hd.
Defined.

(** One unparsable link among good ones loses the page: the exception of
    [normalize_url] leaves [parse_page]. *)
Lemma parse_page_one_bad_href :
  let _ := identity_lib in let _ := line_document in
  parse_page "http://a.example/" "/b|http://[oops|/a" = Raise ValueError.
Proof. reflexivity. Qed.
