(* ===== verification/Bloom.v ===== *)
(** * URL deduplication: the Bloom filter ([crawler/dedup/bloom.py], [seen.py])

    The in-memory filter keeps its bits in a bytearray ([list Z] of bytes, an
    index out of range raising [IndexError]); the Redis filter runs the Lua
    script [_LUA_BLOOM] over a bit string of the server.  MurmurHash3, the
    logarithm and the server's GETBIT/SETBIT are parameters.

    The worker uses either through the protocol [UrlSeen]; the class
    [UrlSeenSpec] states what it relies on and both filters are instances.
    [bloom_refines_bit_set] relates the bytearray to a mathematical set of
    bits, and [redis_bloom_simulates] the two filters to each other. *)
From S2P Require Import Prelude.
Local Open Scope Z_scope.

(** ** Parameters *)

(** [mmh3.hash(data, seed, signed=False)] on the UTF-8 bytes of a string. *)
Class Mmh3 := mmh3_hash : string -> Z -> Z.
(** [math.log] (the platform's libm). *)
Class MathLog := math_log : Q -> Q.

(** The protocol [UrlSeen] and what its clients rely on: an answer on every
    call, [True] exactly for a URL not yet a member, which then is one; no
    member is ever forgotten. *)
Class UrlSeen (S : Type) := seen_check_and_add : string -> act S bool.
Class UrlSeenSpec (S : Type) `{UrlSeen S} := {
  seen_inv : S -> Prop;
  seen_member : S -> string -> bool;
  seen_spec (u : string) (s : S) : seen_inv s ->
    exists s', seen_check_and_add u s = (Ok (negb (seen_member s u)), s') /\ seen_inv s' /\
      seen_member s' u = true /\ (forall v, seen_member s v = true -> seen_member s' v = true) }.

(** ** Sizing and hashing *)
Section Sizing.
Context `{Mmh3, MathLog}.

Definition optimal_m (n : Z) (p : Q) : Z :=
  Z.max 8 (py_ceil (- (inject_Z n * math_log p) / (math_log 2 * math_log 2))).

Definition optimal_k (m n : Z) : Z :=
  Z.max 1 (py_round (inject_Z m / inject_Z n * math_log 2)).

Definition bloom_indices (key : string) (m k : Z) : list Z :=
  let h1 := mmh3_hash key 0 in
  let h2 := Z.lor (mmh3_hash key h1) 1 in
  (fun i => (h1 + Z.of_nat i * h2) mod m) <$> seq 0 (Z.to_nat k).

(** ** [class BloomFilter] *)

Record BloomFilter : Type := mkBloom {
  bf_n : Z; bf_p : Q; bf_m : Z; bf_k : Z; bf_bits : list Z; bf_count : Z }.

Definition new_bloom (expected_insertions : Z) (false_positive_rate : Q) : result BloomFilter :=
  if expected_insertions <=? 0 then Raise ValueError
  else if negb (Qltb 0 false_positive_rate && Qltb false_positive_rate 1) then Raise ValueError
  else
    let m := optimal_m expected_insertions false_positive_rate in
    Ok (mkBloom expected_insertions false_positive_rate m (optimal_k m expected_insertions)
          (replicate (Z.to_nat ((m + 7) / 8)) 0) 0).

(** [bytearray.__getitem__] at a non-negative index. *)
Definition get_byte (bits : list Z) (i : Z) : result Z :=
  match bits !! Z.to_nat i with Some b => Ok b | None => Raise IndexError end.

(** The loop of [check_and_add]. *)
Fixpoint set_bits (indices : list Z) (bits : list Z) (was_absent : bool) : result (bool * list Z) :=
  match indices with
  | [] => Ok (was_absent, bits)
  | idx :: rest =>
      let byte := idx / 8 in
      let mask := Z.shiftl 1 (idx mod 8) in
      b ← get_byte bits byte;
      if Z.land b mask =? 0
      then set_bits rest (<[Z.to_nat byte := Z.lor b mask]> bits) true
      else set_bits rest bits was_absent
  end.

Definition check_and_add (key : string) (f : BloomFilter) : result (bool * BloomFilter) :=
  let* (was_absent, bits) := set_bits (bloom_indices key (bf_m f) (bf_k f)) (bf_bits f) false in
  Ok (was_absent, mkBloom (bf_n f) (bf_p f) (bf_m f) (bf_k f) bits
                    (if was_absent then bf_count f + 1 else bf_count f)).

(** [all(...)] of [__contains__]: stops at the first clear bit. *)
Fixpoint all_set (indices : list Z) (bits : list Z) : result bool :=
  match indices with
  | [] => Ok true
  | idx :: rest =>
      b ← get_byte bits (idx / 8);
      if Z.land (Z.shiftr b (idx mod 8)) 1 =? 0 then Ok false else all_set rest bits
  end.

Definition contains (key : string) (f : BloomFilter) : result bool :=
  all_set (bloom_indices key (bf_m f) (bf_k f)) (bf_bits f).

Definition bloom_len (f : BloomFilter) : Z := bf_count f.

(** [InMemoryUrlSeen] wraps one filter. *)
Record InMemoryUrlSeen : Type := mkSeen { seen_bloom : BloomFilter }.
Definition new_seen (expected_insertions : Z) (rate : Q) : result InMemoryUrlSeen :=
  f ← new_bloom expected_insertions rate; Ok (mkSeen f).
#[export] Instance in_memory_url_seen : UrlSeen InMemoryUrlSeen := fun url s =>
  match check_and_add url (seen_bloom s) with Ok (b, f) => (Ok b, mkSeen f) | Raise e => (Raise e, s) end.

End Sizing.

(** ** [class RedisBloomFilter] *)

(** GETBIT and SETBIT on the strings of a Redis server. *)
Class RedisBits (R : Type) := {
  getbit : string -> Z -> R -> result Z;
  setbit : string -> Z -> Z -> R -> result R }.

(** Their documented behaviour: offsets are below 2^32 (a string has at most
    512 MB), and the server refuses others. *)
Definition bit_offset (i : Z) : Prop := 0 <= i < 2 ^ 32.
Class RedisBitsLaws (R : Type) `{RedisBits R} := {
  getbit_bool key i r : bit_offset i -> getbit key i r = Ok 0 \/ getbit key i r = Ok 1;
  getbit_range key i r : ~ bit_offset i -> is_ok (getbit key i r) = false;
  setbit_ok key i r : bit_offset i -> exists r', setbit key i 1 r = Ok r' /\ getbit key i r' = Ok 1 /\
    forall key' i', bit_offset i' -> (key', i') <> (key, i) -> getbit key' i' r' = getbit key' i' r;
  setbit_range key i r : ~ bit_offset i -> is_ok (setbit key i 1 r) = false }.

Section RedisBloom.
Context `{Mmh3, MathLog, RedisBits R}.

Record RedisBloomFilter : Type := mkRedisBloom { rb_key : string; rb_m : Z; rb_k : Z }.

Definition new_redis_bloom (key : string) (expected_insertions : Z) (rate : Q) : result RedisBloomFilter :=
  (* math.log of a rate that is not positive; m / n *)
  if Qle_bool rate 0 then Raise ValueError
  else if expected_insertions =? 0 then Raise ZeroDivisionError
  else
    let m := optimal_m expected_insertions rate in
    Ok (mkRedisBloom key m (optimal_k m expected_insertions)).

(** [_LUA_BLOOM]: the indices arrive as decimal text, read back by [tonumber].
    An error of a command ends the script; what it has written stays. *)
Fixpoint lua_bloom (key : string) (argv : list Z) (all_set : Z) : act R Z :=
  match argv with
  | [] => aret all_set
  | idx :: rest =>
      let! bit := (fun r => (getbit key idx r, r)) in
      if bit =? 0 then
        let! _ := (fun r => match setbit key idx 1 r with Ok r' => (Ok tt, r') | Raise e => (Raise e, r) end) in
        lua_bloom key rest 0
      else lua_bloom key rest all_set
  end.

Definition redis_check_and_add (f : RedisBloomFilter) (url : string) : act R bool :=
  let! all_set := lua_bloom (rb_key f) (bloom_indices url (rb_m f) (rb_k f)) 1 in aret (all_set =? 0).

(** A filter with the server it talks to, as a [UrlSeen]. *)
#[export] Instance redis_url_seen : UrlSeen (RedisBloomFilter * R) := fun url s =>
  let '(b, r) := redis_check_and_add (fst s) url (snd s) in (b, (fst s, r)).

End RedisBloom.

(** ** Bits of a byte string *)

Definition bit_of (bits : list Z) (i : Z) : bool :=
  Z.testbit (default 0 (bits !! Z.to_nat (i / 8))) (i mod 8).

Lemma land_bit b i : 0 <= i -> (Z.land b (Z.shiftl 1 i) =? 0) = negb (Z.testbit b i).
Proof.
  intros Hi. rewrite Z.shiftl_1_l. destruct (Z.testbit b i) eqn:E; cbn.
  - apply Z.eqb_neq. intros H0.
    assert (Z.testbit (Z.land b (2 ^ i)) i = false) as Hf by by rewrite H0, Z.bits_0.
    by rewrite Z.land_spec, E, Z.pow2_bits_true in Hf.
  - apply Z.eqb_eq, Z.bits_inj'. intros j Hj. rewrite Z.land_spec, Z.bits_0.
    destruct (decide (i = j)) as [->|]; [by rewrite E|].
    rewrite Z.pow2_bits_false by done. apply andb_false_r.
Qed.

Lemma shiftr_bit b i : 0 <= i -> (Z.land (Z.shiftr b i) 1 =? 0) = negb (Z.testbit b i).
Proof.
  intros Hi. change 1 with (Z.shiftl 1 0). rewrite land_bit, Z.shiftr_spec by lia. by rewrite Z.add_0_l.
Qed.

Lemma lor_byte b i : 0 <= b < 256 -> 0 <= i < 8 -> 0 <= Z.lor b (Z.shiftl 1 i) < 256.
Proof.
  intros Hb Hi. rewrite Z.shiftl_1_l. assert (0 <= 2 ^ i) by (apply Z.pow_nonneg; lia).
  split; [apply Z.lor_nonneg; lia|].
  change 256 with (2 ^ 8).
  assert (0 < Z.lor b (2 ^ i)) as Hpos.
  { assert (Z.lor b (2 ^ i) <> 0); [|by pose proof (proj2 (Z.lor_nonneg b (2 ^ i))); lia].
    intros [_ E]%Z.lor_eq_0_iff. assert (2 ^ i <> 0) by (apply Z.pow_nonzero; lia). done. }
  apply Z.log2_lt_pow2; [done|]. rewrite Z.log2_lor by lia. rewrite Z.log2_pow2 by lia.
  apply Z.max_lub_lt; [|lia]. destruct (decide (b = 0)) as [->|]; [cbn; lia|].
  apply Z.log2_lt_pow2; [lia|]. change (2 ^ 8) with 256. lia.
Qed.

(** [j]'s bit after writing bit [i]. *)
Lemma bit_of_insert bits b i j :
  0 <= i -> 0 <= j -> bits !! Z.to_nat (i / 8) = Some b ->
  bit_of (<[Z.to_nat (i / 8) := Z.lor b (Z.shiftl 1 (i mod 8))]> bits) j =
  bool_decide (i = j) || bit_of bits j.
Proof.
  intros Hi Hj Hb. unfold bit_of.
  pose proof (Z.mod_pos_bound i 8 ltac:(lia)). pose proof (Z.mod_pos_bound j 8 ltac:(lia)).
  pose proof (Z.div_pos i 8 ltac:(lia) ltac:(lia)). pose proof (Z.div_pos j 8 ltac:(lia) ltac:(lia)).
  assert (i = 8 * (i / 8) + i mod 8) by (apply Z.div_mod; lia).
  assert (j = 8 * (j / 8) + j mod 8) by (apply Z.div_mod; lia).
  destruct (decide (i / 8 = j / 8)) as [E|E].
  - rewrite <- E, list_lookup_insert_eq by (by eapply lookup_lt_Some). cbn [default from_option id].
    rewrite Hb. cbn [default from_option id]. rewrite Z.lor_spec, Z.shiftl_1_l.
    case_bool_decide as Hij.
    + subst j. rewrite Z.pow2_bits_true by lia. apply orb_true_r.
    + rewrite Z.pow2_bits_false by lia. by rewrite orb_false_r.
  - rewrite list_lookup_insert_ne by lia. rewrite bool_decide_eq_false_2 by congruence. done.
Qed.

Lemma bit_of_empty n i : bit_of (replicate n 0) i = false.
Proof.
  unfold bit_of. destruct (replicate n 0 !! Z.to_nat (i / 8)) as [b|] eqn:E; cbn.
  - apply lookup_replicate in E as [-> _]. apply Z.bits_0.
  - apply Z.bits_0.
Qed.

Section BloomTheorems.
Context `{Mmh3, MathLog}.

(** What every filter built by the constructor satisfies. *)
Record bloom_wf (f : BloomFilter) : Prop := {
  wf_m : 8 <= bf_m f;
  wf_k : 1 <= bf_k f;
  wf_bits : length (bf_bits f) = Z.to_nat ((bf_m f + 7) / 8);
  wf_bytes : Forall (fun b => 0 <= b < 256) (bf_bits f) }.

Lemma new_bloom_wf n p f : new_bloom n p = Ok f -> bloom_wf f /\ bf_count f = 0 /\
  (forall i, bit_of (bf_bits f) i = false).
Proof.
  unfold new_bloom. destruct (n <=? 0); [done|]. destruct (negb _); [done|]. intros [= <-].
  split_and!; [split; cbn|done|intros; apply bit_of_empty].
  - unfold optimal_m. lia.
  - unfold optimal_k. lia.
  - by rewrite length_replicate.
  - apply Forall_replicate. lia.
Qed.

Lemma bloom_indices_range key m k i : 8 <= m -> i ∈ bloom_indices key m k -> 0 <= i < m.
Proof. intros Hm (j & -> & _)%list_elem_of_fmap. apply Z.mod_pos_bound. lia. Qed.

Lemma byte_index m i : 0 <= i < m -> (Z.to_nat (i / 8) < Z.to_nat ((m + 7) / 8))%nat.
Proof.
  intros Hi. assert (i / 8 < (m + 7) / 8); [|pose proof (Z.div_pos i 8); lia].
  apply Z.div_lt_upper_bound; [lia|].
  pose proof (Z.div_mod (m + 7) 8). pose proof (Z.mod_pos_bound (m + 7) 8). lia.
Qed.

Lemma set_bits_spec m idxs bits w :
  length bits = Z.to_nat ((m + 7) / 8) -> Forall (fun b => 0 <= b < 256) bits ->
  (forall i, i ∈ idxs -> 0 <= i < m) ->
  exists bits', set_bits idxs bits w = Ok (w || negb (forallb (bit_of bits) idxs), bits') /\
    length bits' = length bits /\ Forall (fun b => 0 <= b < 256) bits' /\
    (forall j, 0 <= j -> bit_of bits' j = bool_decide (j ∈ idxs) || bit_of bits j).
Proof.
  revert bits w. induction idxs as [|i idxs IH]; intros bits w Hlen Hby Hin.
  { exists bits. cbn. rewrite orb_false_r. split_and!; done. }
  assert (0 <= i < m) as Hi by (apply Hin; by left).
  destruct (lookup_lt_is_Some_2 bits (Z.to_nat (i / 8))) as [b Hb].
  { rewrite Hlen. by apply byte_index. }
  assert (0 <= b < 256) by by eapply Forall_lookup_1 in Hby.
  pose proof (Z.mod_pos_bound i 8 ltac:(lia)) as Hm8.
  assert (Z.testbit b (i mod 8) = bit_of bits i) as Hbit by (unfold bit_of; by rewrite Hb).
  cbn [set_bits]. unfold get_byte. rewrite Hb. cbn [mbind result_bind].
  rewrite land_bit, Hbit by lia. cbn [forallb].
  destruct (bit_of bits i) eqn:Ebit; cbn [negb andb].
  - destruct (IH bits w) as (bits' & -> & ? & ? & Hj); [done|done|set_solver|].
    exists bits'. split_and!; [done..|]. intros j Hj0. rewrite Hj by done.
    destruct (decide (j = i)) as [->|]; [rewrite Ebit; by rewrite !orb_true_r|].
    f_equal. apply bool_decide_ext. set_solver.
  - destruct (IH (<[Z.to_nat (i / 8) := Z.lor b (Z.shiftl 1 (i mod 8))]> bits) true)
      as (bits' & -> & Hl & ? & Hj).
    + by rewrite length_insert.
    + apply Forall_insert; [done|]. by apply lor_byte.
    + set_solver.
    + exists bits'. split_and!; [by rewrite orb_true_r|by rewrite Hl, length_insert|done|].
      intros j Hj0. rewrite Hj, bit_of_insert by (done || lia).
      destruct (bit_of bits j); [by rewrite !orb_true_r|]. rewrite !orb_false_r.
      repeat case_bool_decide; set_solver.
Qed.

Lemma all_set_spec m idxs bits :
  length bits = Z.to_nat ((m + 7) / 8) -> (forall i, i ∈ idxs -> 0 <= i < m) ->
  all_set idxs bits = Ok (forallb (bit_of bits) idxs).
Proof.
  intros Hlen. induction idxs as [|i idxs IH]; intros Hin; [done|].
  destruct (lookup_lt_is_Some_2 bits (Z.to_nat (i / 8))) as [b Hb].
  { rewrite Hlen. apply byte_index, Hin. by left. }
  pose proof (Z.mod_pos_bound i 8 ltac:(lia)) as Hm8.
  assert (Z.testbit b (i mod 8) = bit_of bits i) as Hbit by (unfold bit_of; by rewrite Hb).
  cbn [all_set forallb]. unfold get_byte. rewrite Hb. cbn [mbind result_bind].
  rewrite shiftr_bit, Hbit by lia. destruct (bit_of bits i); cbn [negb andb]; [|done].
  apply IH. set_solver.
Qed.

(** *** One operation *)

(** The filter's bits as a predicate on a key: all of its indices are set. *)
Definition mem (f : BloomFilter) (key : string) : bool :=
  forallb (bit_of (bf_bits f)) (bloom_indices key (bf_m f) (bf_k f)).

Lemma contains_wf f key : bloom_wf f -> contains key f = Ok (mem f key).
Proof.
  intros [Hm _ Hl _]. unfold contains, mem. eapply all_set_spec; [done|].
  intros i. by apply bloom_indices_range.
Qed.

Lemma check_and_add_wf f key : bloom_wf f ->
  exists f', check_and_add key f = Ok (negb (mem f key), f') /\ bloom_wf f' /\
    bf_m f' = bf_m f /\ bf_k f' = bf_k f /\
    bf_count f' = bf_count f + (if mem f key then 0 else 1) /\
    (forall j, 0 <= j -> bit_of (bf_bits f') j =
       bool_decide (j ∈ bloom_indices key (bf_m f) (bf_k f)) || bit_of (bf_bits f) j).
Proof.
  intros [Hm Hk Hl Hb]. unfold check_and_add.
  destruct (set_bits_spec (bf_m f) (bloom_indices key (bf_m f) (bf_k f)) (bf_bits f) false)
    as (bits' & -> & ? & ? & ?); [done|done|intros i; by apply bloom_indices_range|].
  cbn [rbind orb]. fold (mem f key). eexists. split; [reflexivity|]. cbn. split_and!; try done.
  - split; cbn; congruence.
  - destruct (mem f key); cbn; lia.
Qed.

(** [mem] only grows when bits are added. *)
Lemma mem_mono f f' key :
  bloom_wf f -> bf_m f' = bf_m f -> bf_k f' = bf_k f ->
  (forall j, 0 <= j -> bit_of (bf_bits f) j = true -> bit_of (bf_bits f') j = true) ->
  mem f key = true -> mem f' key = true.
Proof.
  intros [Hm _ _ _] Em Ek Hbits. unfold mem. rewrite Em, Ek, !forallb_forall.
  intros Hall i Hi. apply Hbits; [|by apply Hall].
  apply list_elem_of_In in Hi. by apply bloom_indices_range in Hi; [lia|].
Qed.

(** *** Histories *)

(** A sequence of [check_and_add] calls and its answers. *)
Fixpoint run_adds (keys : list string) (f : BloomFilter) : result (list bool * BloomFilter) :=
  match keys with
  | [] => Ok ([], f)
  | key :: rest =>
      let* (b, f1) := check_and_add key f in
      let* (bs, f2) := run_adds rest f1 in
      Ok (b :: bs, f2)
  end.

(** The abstract filter: a set of bit positions. *)
Definition index_set (m k : Z) (key : string) : gset Z := list_to_set (bloom_indices key m k).
Fixpoint set_adds (m k : Z) (keys : list string) (S : gset Z) : list bool * gset Z :=
  match keys with
  | [] => ([], S)
  | key :: rest =>
      let '(bs, S') := set_adds m k rest (index_set m k key ∪ S) in
      (negb (bool_decide (index_set m k key ⊆ S)) :: bs, S')
  end.

Definition implements (f : BloomFilter) (S : gset Z) : Prop :=
  bloom_wf f /\ forall j, 0 <= j -> bit_of (bf_bits f) j = bool_decide (j ∈ S).

Lemma implements_mem f S key : implements f S ->
  mem f key = bool_decide (index_set (bf_m f) (bf_k f) key ⊆ S).
Proof.
  intros [Hwf Hbits]. unfold mem. apply eq_bool_prop_intro.
  rewrite !Is_true_true, forallb_forall, bool_decide_eq_true. unfold index_set.
  rewrite elem_of_subseteq. setoid_rewrite elem_of_list_to_set. split; intros Hs i Hi.
  - assert (0 <= i) by (apply bloom_indices_range in Hi; [lia|apply Hwf]).
    apply list_elem_of_In, Hs in Hi. by rewrite Hbits, bool_decide_eq_true in Hi.
  - apply list_elem_of_In in Hi.
    rewrite Hbits, bool_decide_eq_true; [by apply Hs|].
    apply bloom_indices_range in Hi; [lia|apply Hwf].
Qed.

Lemma run_adds_spec keys f S : implements f S ->
  exists f', run_adds keys f = Ok (fst (set_adds (bf_m f) (bf_k f) keys S), f') /\
    implements f' (snd (set_adds (bf_m f) (bf_k f) keys S)) /\
    bf_m f' = bf_m f /\ bf_k f' = bf_k f /\
    bf_count f' = bf_count f +
      Z.of_nat (count_occ bool_dec (fst (set_adds (bf_m f) (bf_k f) keys S)) true).
Proof.
  revert f S. induction keys as [|key keys IH]; intros f S Hi; cbn [run_adds set_adds].
  { exists f. cbn. split_and!; auto with lia; apply Hi. }
  destruct (check_and_add_wf f key (proj1 Hi)) as (f1 & -> & Hwf1 & Em & Ek & Ec & Hb1).
  cbn [rbind]. destruct (IH f1 (index_set (bf_m f) (bf_k f) key ∪ S)) as (f2 & E & Hi2 & Em2 & Ek2 & Ec2).
  { split; [done|]. intros j Hj. rewrite Hb1, (proj2 Hi) by done. unfold index_set.
    apply eq_bool_prop_intro. rewrite !Is_true_true, orb_true_iff, !bool_decide_eq_true. set_solver. }
  rewrite Em, Ek in *. rewrite E. cbn [rbind].
  destruct (set_adds (bf_m f) (bf_k f) keys _) as [bs S'] eqn:Es. cbn [fst snd] in *.
  exists f2. rewrite (implements_mem _ _ _ Hi) in *. split_and!; try done; [congruence..|].
  rewrite Ec2, Ec. destruct (bool_decide (_ ⊆ S)); cbn [negb count_occ];
    destruct (bool_dec _ _); try done; lia.
Qed.

Lemma set_adds_snd m k keys S :
  snd (set_adds m k keys S) = ⋃ (index_set m k <$> keys) ∪ S.
Proof.
  revert S. induction keys as [|key keys IH]; intros S; cbn; [set_solver|].
  specialize (IH (index_set m k key ∪ S)). destruct (set_adds _ _ _ _) as [bs S']. cbn in *.
  rewrite IH. set_solver.
Qed.

(** Refinement of the bytearray filter by a set of bits.  Whatever keys
    are added to a fresh filter, no call raises; each answer is [True] exactly
    when the key's indices are not all in the set built so far; afterwards
    [in] tests inclusion in the union of the added keys' indices (which does
    not depend on their order), and [len] counts the [True] answers. *)
Theorem bloom_refines_bit_set n p f keys :
  new_bloom n p = Ok f ->
  let m := bf_m f in let k := bf_k f in
  exists answers f',
    run_adds keys f = Ok (answers, f') /\ answers = fst (set_adds m k keys ∅) /\
    (forall key, contains key f' = Ok (bool_decide (index_set m k key ⊆ ⋃ (index_set m k <$> keys)))) /\
    bloom_len f' = Z.of_nat (count_occ bool_dec answers true).
Proof.
  intros Hn m k. destruct (new_bloom_wf _ _ _ Hn) as (Hwf & Hc & Hb).
  destruct (run_adds_spec keys f ∅) as (f' & E & Hi & Em & Ek & Ec).
  { split; [done|]. intros j _. rewrite Hb. by rewrite bool_decide_eq_false_2 by set_solver. }
  eexists _, f'. split; [exact E|]. split; [done|]. split.
  - intros key. rewrite contains_wf by apply Hi. rewrite (implements_mem _ _ _ Hi), Em, Ek.
    rewrite set_adds_snd. do 2 f_equal. by rewrite union_empty_r_L.
  - unfold bloom_len. rewrite Ec, Hc. lia.
Qed.

(** No false negatives, and no filter is ever saturated into an error:
    after any history on a fresh filter, a key that was added is found, and
    adding it again answers [False] and changes neither the bits nor the
    count. *)
Theorem bloom_no_false_negatives n p f keys answers f' key :
  new_bloom n p = Ok f -> run_adds keys f = Ok (answers, f') -> key ∈ keys ->
  contains key f' = Ok true /\ check_and_add key f' = Ok (false, f').
Proof.
  intros Hn Hrun Hkey. destruct (new_bloom_wf _ _ _ Hn) as (Hwf & _ & Hb).
  destruct (run_adds_spec keys f ∅) as (f2 & E & Hi & Em & Ek & _).
  { split; [done|]. intros j _. rewrite Hb. by rewrite bool_decide_eq_false_2 by set_solver. }
  rewrite Hrun in E. injection E as -> <-.
  assert (mem f' key = true) as Hm.
  { rewrite (implements_mem _ _ _ Hi), Em, Ek, set_adds_snd. apply bool_decide_eq_true.
    intros i Hx. apply elem_of_union_l, elem_of_union_list.
    exists (index_set (bf_m f) (bf_k f) key). split; [|done]. by apply list_elem_of_fmap_2. }
  split; [by rewrite contains_wf, Hm by apply Hi|].
  unfold check_and_add. assert (forall idxs w, forallb (bit_of (bf_bits f')) idxs = true ->
    (forall i, i ∈ idxs -> 0 <= i < bf_m f') -> set_bits idxs (bf_bits f') w = Ok (w, bf_bits f')) as Hset.
  { destruct Hi as [[H8 _ Hl _] _]. induction idxs as [|i idxs IH]; intros w Hall Hr; [done|].
    cbn in Hall. apply andb_true_iff in Hall as [Hbi Hall].
    pose proof (Z.mod_pos_bound i 8 ltac:(lia)) as Hm8.
    destruct (lookup_lt_is_Some_2 (bf_bits f') (Z.to_nat (i / 8))) as [b Hbb].
    { rewrite Hl. apply byte_index, Hr. by left. }
    cbn [set_bits]. unfold get_byte. rewrite Hbb. cbn [mbind result_bind].
    rewrite land_bit by lia. unfold bit_of in Hbi. rewrite Hbb in Hbi. cbn in Hbi. rewrite Hbi.
    cbn [negb]. apply IH; [done|set_solver]. }
  rewrite Hset; [|done|intros i; apply bloom_indices_range, Hi].
  cbn. by destruct f'.
Qed.

#[export] Instance in_memory_seen_spec : UrlSeenSpec InMemoryUrlSeen.
Proof.
  refine {| seen_inv := fun s => bloom_wf (seen_bloom s);
            seen_member := fun s u => mem (seen_bloom s) u |}.
  intros u [f] Hwf. cbn in *.
  destruct (check_and_add_wf f u Hwf) as (f' & E & Hwf' & Em & Ek & _ & Hb).
  exists (mkSeen f'). unfold seen_check_and_add, in_memory_url_seen. cbn. rewrite E. cbn.
  split_and!; try done.
  - unfold mem. rewrite Em, Ek. apply forallb_forall. intros i Hi%list_elem_of_In.
    rewrite Hb; [by rewrite bool_decide_eq_true_2|]. apply bloom_indices_range in Hi; [lia|apply Hwf].
  - intros v. apply mem_mono; [done..|]. intros j Hj Hjb. rewrite Hb, Hjb by done. apply orb_true_r.
Defined.

End BloomTheorems.

(** ** The Redis filter *)
Section RedisTheorems.
Context `{Mmh3, MathLog, RedisBitsLaws R}.

Definition server_bit (key : string) (r : R) (i : Z) : bool :=
  match getbit key i r with Ok b => b =? 1 | Raise _ => false end.

Lemma lua_bloom_spec key idxs w r : Forall bit_offset idxs ->
  exists r', lua_bloom key idxs w r = (Ok (if forallb (server_bit key r) idxs then w else 0), r') /\
    (forall i, bit_offset i -> server_bit key r' i = bool_decide (i ∈ idxs) || server_bit key r i) /\
    (forall key' i, key' <> key -> bit_offset i -> getbit key' i r' = getbit key' i r).
Proof.
  revert w r. induction idxs as [|i idxs IH]; intros w r Hi; [by exists r|].
  apply Forall_cons in Hi as [Hi Hidxs]. cbn [lua_bloom forallb]. unfold abind, server_bit at 1.
  destruct (getbit_bool key i r Hi) as [E|E]; rewrite E; cbn [Z.eqb andb].
  - destruct (setbit_ok key i r Hi) as (r1 & -> & E1 & Hne1). destruct (IH 0 r1) as (r' & -> & Hb & Ho); [done|].
    exists r'. split_and!; [by destruct (forallb _ _)| |].
    + intros j Hj. rewrite Hb by done. unfold server_bit. destruct (decide (j = i)) as [->|Hne].
      * rewrite E1. rewrite (bool_decide_eq_true_2 (i ∈ i :: idxs)) by left. by rewrite orb_true_r.
      * rewrite Hne1 by (done || congruence). f_equal. apply bool_decide_ext. set_solver.
    + intros key' j Hk Hj. rewrite Ho by done. apply Hne1; [done|congruence].
  - destruct (IH w r) as (r' & -> & Hb & Ho); [done|].
    exists r'. split_and!; [done| |done]. intros j Hj. rewrite Hb by done.
    destruct (decide (j = i)) as [->|Hne].
    + unfold server_bit. rewrite E. by rewrite !orb_true_r.
    + f_equal. apply bool_decide_ext. set_solver.
Qed.

(** An index beyond the server's offsets makes the script raise. *)
Lemma lua_bloom_raises key idxs w r i : i ∈ idxs -> ~ bit_offset i -> is_ok (fst (lua_bloom key idxs w r)) = false.
Proof.
  intros Hin Hi. revert w r Hin. induction idxs as [|j idxs IH]; intros w r Hin; [by apply elem_of_nil in Hin|].
  cbn [lua_bloom]. unfold abind. apply elem_of_cons in Hin as [<-|Hin].
  - pose proof (getbit_range key i r Hi). by destruct (getbit key i r).
  - destruct (getbit key j r) as [b|e]; [|done]. destruct (b =? 0); [|by apply IH].
    destruct (setbit key j 1 r); [by apply IH|done].
Qed.

Lemma indices_offsets key m k : 8 <= m <= 2 ^ 32 -> Forall bit_offset (bloom_indices key m k).
Proof. intros Hm. apply Forall_forall. intros i Hi. apply bloom_indices_range in Hi; unfold bit_offset; lia. Qed.

Lemma redis_check_and_add_spec fb url r : 8 <= rb_m fb <= 2 ^ 32 ->
  exists r', redis_check_and_add fb url r =
      (Ok (negb (forallb (server_bit (rb_key fb) r) (bloom_indices url (rb_m fb) (rb_k fb)))), r') /\
    (forall i, bit_offset i -> server_bit (rb_key fb) r' i =
       bool_decide (i ∈ bloom_indices url (rb_m fb) (rb_k fb)) || server_bit (rb_key fb) r i) /\
    (forall key' i, key' <> rb_key fb -> bit_offset i -> getbit key' i r' = getbit key' i r).
Proof.
  intros Hm. unfold redis_check_and_add, abind.
  destruct (lua_bloom_spec (rb_key fb) (bloom_indices url (rb_m fb) (rb_k fb)) 1 r)
    as (r' & -> & Hb & Ho); [by apply indices_offsets|].
  exists r'. split; [by destruct (forallb _ _)|done].
Qed.

Fixpoint redis_run_adds (f : RedisBloomFilter) (keys : list string) : act R (list bool) :=
  match keys with
  | [] => aret []
  | key :: rest =>
      let! b := redis_check_and_add f key in
      let! bs := redis_run_adds f rest in aret (b :: bs)
  end.

Lemma redis_run_adds_spec fb f r keys :
  bloom_wf f -> bf_m f <= 2 ^ 32 -> rb_m fb = bf_m f -> rb_k fb = bf_k f ->
  (forall i, bit_offset i -> server_bit (rb_key fb) r i = bit_of (bf_bits f) i) ->
  exists answers f' r',
    run_adds keys f = Ok (answers, f') /\ redis_run_adds fb keys r = (Ok answers, r') /\
    (forall i, bit_offset i -> server_bit (rb_key fb) r' i = bit_of (bf_bits f') i) /\
    (forall key' i, key' <> rb_key fb -> bit_offset i -> getbit key' i r' = getbit key' i r).
Proof.
  revert f r. induction keys as [|key keys IH]; intros f r Hwf Hm Em Ek Hsim.
  { by exists [], f, r. }
  cbn [run_adds redis_run_adds]. unfold abind.
  destruct (check_and_add_wf f key Hwf) as (f1 & -> & Hwf1 & Em1 & Ek1 & _ & Hb1).
  destruct (redis_check_and_add_spec fb key r) as (r1 & -> & Hr1 & Ho1); [rewrite Em; split; [apply Hwf|done]|].
  rewrite Em, Ek in *.
  assert (forallb (server_bit (rb_key fb) r) (bloom_indices key (bf_m f) (bf_k f)) = mem f key) as ->.
  { unfold mem. pose proof (indices_offsets key (bf_m f) (bf_k f) ltac:(split; [apply Hwf|done])) as Hoff.
    apply eq_bool_prop_intro. rewrite !Is_true_true, !forallb_forall.
    split; intros Hall i Hi; specialize (Hall i Hi); apply list_elem_of_In in Hi;
      rewrite Forall_forall in Hoff; specialize (Hoff i Hi); by rewrite Hsim in *. }
  destruct (IH f1 r1) as (bs & f2 & r2 & E1 & E2 & Hs & Ho); [done|congruence..| |].
  { intros i Hi. rewrite Hr1, Hb1, Hsim by (done || apply Hi). done. }
  cbn [rbind]. rewrite E1, E2. cbn [rbind]. eexists _, f2, r2. split_and!; [done..|].
  intros key' i Hk Hi. by rewrite Ho, Ho1.
Qed.

(** C34: the Redis filter and the in-memory one, sized by the same settings to at
    most the 2^32 bits that a Redis string has, give the same answers to any
    sequence of calls, none of which raises, if the server's bits under the
    filter's key start clear; bits under other keys are never touched. *)
Theorem redis_bloom_simulates key n p f r urls :
  new_bloom n p = Ok f -> bf_m f <= 2 ^ 32 -> (forall i, bit_offset i -> getbit key i r = Ok 0) ->
  exists fb answers f' r',
    new_redis_bloom key n p = Ok fb /\ run_adds urls f = Ok (answers, f') /\
    redis_run_adds fb urls r = (Ok answers, r') /\
    (forall i, bit_offset i -> server_bit key r' i = bit_of (bf_bits f') i) /\
    (forall key' i, key' <> key -> bit_offset i -> getbit key' i r' = getbit key' i r).
Proof.
  intros Hn Hm Hclear. destruct (new_bloom_wf _ _ _ Hn) as (Hwf & _ & Hb).
  unfold new_bloom in Hn. destruct (Z.leb_spec n 0) as [|Hn0]; [done|].
  destruct (Qltb_spec 0 p) as [Hp|]; [|done]. destruct (Qltb p 1); [|done]. injection Hn as <-. cbn [bf_m] in Hm.
  exists (mkRedisBloom key (optimal_m n p) (optimal_k (optimal_m n p) n)).
  destruct (redis_run_adds_spec (mkRedisBloom key (optimal_m n p) (optimal_k (optimal_m n p) n))
    (mkBloom n p (optimal_m n p) (optimal_k (optimal_m n p) n) (replicate (Z.to_nat ((optimal_m n p + 7) / 8)) 0) 0) r urls)
    as (answers & f' & r' & E1 & E2 & Hrest); [done..| |].
  - intros i Hi. rewrite Hb. unfold server_bit. cbn. by rewrite Hclear.
  - exists answers, f', r'. split; [|split; [exact E1|split; [exact E2|exact Hrest]]]. unfold new_redis_bloom.
    destruct (Qleb_spec p 0); [lra|]. destruct (Z.eqb_spec n 0); [lia|done].
Qed.

(** A larger filter raises for every URL that has an index beyond, where the
    in-memory filter of the same size answers. *)
Theorem redis_bloom_too_large fb f url r i :
  bloom_wf f -> rb_m fb = bf_m f -> rb_k fb = bf_k f -> i ∈ bloom_indices url (rb_m fb) (rb_k fb) -> 2 ^ 32 <= i ->
  is_ok (fst (redis_check_and_add fb url r)) = false /\ is_ok (check_and_add url f) = true.
Proof.
  intros Hwf Em Ek Hin Hi. destruct (check_and_add_wf f url Hwf) as (f' & -> & _). split; [|done].
  unfold redis_check_and_add, abind. pose proof (lua_bloom_raises (rb_key fb) _ 1 r i Hin ltac:(unfold bit_offset; lia)) as Hr.
  by destruct (lua_bloom _ _ _ r) as [[x|e] r'].
Qed.

#[export] Instance redis_seen_spec : UrlSeenSpec (RedisBloomFilter * R).
Proof.
  refine {| seen_inv := fun s => 8 <= rb_m (fst s) <= 2 ^ 32;
            seen_member := fun s u => forallb (server_bit (rb_key (fst s)) (snd s))
                                        (bloom_indices u (rb_m (fst s)) (rb_k (fst s))) |}.
  intros u [fb r] Hm. cbn [fst snd] in *.
  destruct (redis_check_and_add_spec fb u r Hm) as (r' & E & Hb & _).
  pose proof (fun u => indices_offsets u (rb_m fb) (rb_k fb) Hm) as Hoff. setoid_rewrite Forall_forall in Hoff.
  exists (fb, r'). unfold seen_check_and_add, redis_url_seen. cbn [fst snd]. rewrite E.
  split; [done|]. split; [exact Hm|]. split.
  - apply forallb_forall. intros i Hi%list_elem_of_In. rewrite Hb by (by eapply Hoff). by rewrite bool_decide_eq_true_2.
  - intros v Hv. rewrite forallb_forall in *. intros i Hi.
    rewrite Hb; [|by eapply Hoff, list_elem_of_In]. rewrite Hv by done. apply orb_true_r.
Defined.

End RedisTheorems.

(** ** Concrete instances *)

(** [ln 2] and [ln 0.01] to fifteen digits; a hash made of the string's
    characters; a server as a finite map. *)
Definition table_log : MathLog := fun x =>
  if Qeq_bool x 2 then 693147180559945 # 1000000000000000
  else (-4605170185988091) # 1000000000000000.
Definition sum_hash : Mmh3 := fun s seed =>
  foldr (fun c acc => (Z.of_nat (Ascii.nat_of_ascii c) + 31 * acc) mod 2 ^ 32) seed
    (String.list_ascii_of_string s).
Definition in_range {T} (i : Z) (x : T) : result T :=
  if decide (0 <= i < 2 ^ 32) then Ok x else Raise (OtherError "bit offset is not an integer or out of range").
Definition map_bits : RedisBits (gmap (string * Z) Z) := {|
  getbit := fun key i r => in_range i (if decide (r !! (key, i) = Some 1) then 1 else 0);
  setbit := fun key i b r => in_range i (<[(key, i) := b]> r) |}.
Lemma map_bits_laws : @RedisBitsLaws _ map_bits.
Proof.
  split; unfold bit_offset; cbn [getbit setbit map_bits]; unfold in_range.
  - intros key i r Hi. rewrite decide_True by done. case_decide; auto.
  - intros key i r Hi. by rewrite decide_False.
  - intros key i r Hi. rewrite decide_True by done. eexists. split; [done|].
    rewrite !decide_True by (done || apply lookup_insert_eq). split; [done|].
    intros key' i' Hi' Hne. rewrite !(decide_True (P := 0 <= i' < 2 ^ 32)) by done. by rewrite lookup_insert_ne by congruence.
  - intros key i r Hi. by rewrite decide_False.
Qed.

(** At a rate of one per cent a filter for 450 million URLs is beyond the
    server's offsets. *)
Example filter_too_large : let _ := table_log in 2 ^ 32 < optimal_m 450000000 (1 # 100).
Proof. vm_compute. reflexivity. Qed.

(** The default settings give 9585059 bits and 7 hash functions. *)
Example default_sizing : let _ := table_log in
  optimal_m 1000000 (1 # 100) = 9585059 /\ optimal_k 9585059 1000000 = 7.
Proof. vm_compute. done. Qed.

Definition small_bloom : BloomFilter :=
  Eval vm_compute in match @new_bloom table_log 10 (1 # 100) with Ok f => f | _ => mkBloom 0 0 0 0 [] 0 end.
Definition small_bloom_after : BloomFilter :=
  Eval vm_compute in match @run_adds sum_hash ["a"; "b"; "a"] small_bloom with
                     | Ok (_, f) => f | _ => small_bloom end.

Lemma bloom_refines_bit_set_witness :
  @new_bloom table_log 10 (1 # 100) = Ok small_bloom /\
  exists answers f', @run_adds sum_hash ["a"; "b"; "a"] small_bloom = Ok (answers, f') /\
    bloom_len f' = Z.of_nat (count_occ bool_dec answers true).
Proof.
  split; [vm_compute; reflexivity|].
  destruct (@bloom_refines_bit_set sum_hash table_log 10 (1 # 100) small_bloom ["a"; "b"; "a"])
    as (answers & f' & E & _ & _ & Hl); [vm_compute; reflexivity|].
  exists answers, f'. split; [exact E|exact Hl].
Defined.

Lemma bloom_no_false_negatives_witness :
  @run_adds sum_hash ["a"; "b"; "a"] small_bloom = Ok ([true; true; false], small_bloom_after) /\
  @contains sum_hash "b" small_bloom_after = Ok true.
Proof.
  split; [vm_compute; reflexivity|].
  apply (@bloom_no_false_negatives sum_hash table_log 10 (1 # 100) small_bloom ["a"; "b"; "a"]
           [true; true; false] small_bloom_after "b").
  - vm_compute. reflexivity.
  - vm_compute. reflexivity.
  - right. left.
Defined.

Lemma redis_bloom_simulates_witness :
  exists fb answers f' r',
    @new_redis_bloom table_log "bloom:seen" 10 (1 # 100) = Ok fb /\
    @run_adds sum_hash ["a"; "b"; "a"] small_bloom = Ok (answers, f') /\
    @redis_run_adds sum_hash _ map_bits fb ["a"; "b"; "a"] ∅ = (Ok answers, r').
Proof.
  destruct (@redis_bloom_simulates sum_hash table_log _ map_bits map_bits_laws "bloom:seen" 10 (1 # 100)
              small_bloom ∅ ["a"; "b"; "a"]) as (fb & answers & f' & r' & E0 & E1 & E2 & _).
  - vm_compute. reflexivity.
  - vm_compute. discriminate.
  - intros i Hi. cbn [getbit map_bits]. unfold in_range. rewrite decide_True by exact Hi. rewrite lookup_empty.
    rewrite decide_False; [reflexivity|discriminate].
  - exists fb, answers, f', r'. split; [exact E0|]. split; [exact E1|exact E2].
Defined.
