(* ===== verification/SimHash.v ===== *)
(** * SimHash fingerprints ([crawler/dedup/simhash.py])

    [simhash_text], [hamming_distance] and [band_values] are executable; the
    64-bit blake2b digest of a token is the parameter [token_hash].

    [simhash_majority]: bit [i] of a fingerprint is the strict majority vote of
    the token occurrences.  [hamming_metric]: the distance counts differing
    bits and is a metric.  [band_pigeonhole] is the promise of the
    [band_values] docstring. *)
From S2P Require Import Prelude PyStr.
From Stdlib Require Import Ascii.
Local Open Scope Z_scope.

(** [_token_hash]: blake2b with an 8-byte digest, read as a big-endian
    integer. *)
Class TokenHash := token_hash : string -> Z.

(** [re.findall(r"\w+", s)] on ASCII: the maximal runs of word characters;
    [cur] is the run being read, reversed. *)
Fixpoint word_runs (s : string) (cur : string) : list string :=
  match s with
  | EmptyString => if truthy cur then [String.rev cur] else []
  | String c s' =>
      if is_word c then word_runs s' (String c cur)
      else if truthy cur then String.rev cur :: word_runs s' EmptyString
      else word_runs s' EmptyString
  end.
Definition TOKEN_RE_findall (s : string) : list string := word_runs s EmptyString.

(** [Counter(tokens)]: (token, occurrences) in order of first occurrence. *)
Fixpoint counter_add (t : string) (c : list (string * Z)) : list (string * Z) :=
  match c with
  | [] => [(t, 1)]
  | (u, n) :: c' => if bool_decide (t = u) then (u, n + 1) :: c' else (u, n) :: counter_add t c'
  end.
Definition Counter (tokens : list string) : list (string * Z) :=
  fold_left (fun c t => counter_add t c) tokens [].

Section SimHash.
Context `{TokenHash}.

(** The inner loop: vote every bit of one token's hash. *)
Definition vote (vector : list Z) (tw : string * Z) : list Z :=
  let h := token_hash (fst tw) in
  imap (fun i v => if Z.land (Z.shiftr h (Z.of_nat i)) 1 =? 0 then v - snd tw else v + snd tw) vector.

Definition simhash_text (text : string) (bits : nat) : Z :=
  let tokens := TOKEN_RE_findall (lower text) in
  if bool_decide (tokens = []) then 0
  else
    let vector := fold_left vote (Counter tokens) (replicate bits 0) in
    fold_left (fun fp i => if 0 <? default 0 (vector !! i) then Z.lor fp (Z.shiftl 1 (Z.of_nat i)) else fp)
      (seq 0 bits) 0.

End SimHash.

(** [int.bit_count]: the ones of the absolute value. *)
Fixpoint pos_bit_count (p : positive) : Z :=
  match p with xH => 1 | xO p' => pos_bit_count p' | xI p' => 1 + pos_bit_count p' end.
Definition bit_count (z : Z) : Z :=
  match Z.abs z with Zpos p => pos_bit_count p | _ => 0 end.

Definition hamming_distance (a b : Z) : Z := bit_count (Z.lxor a b).

(** [bits // 0] raises; a negative number of bands shifts by a negative count. *)
Definition band_values (fingerprint bands bits : Z) : result (list Z) :=
  if bands =? 0 then Raise ZeroDivisionError
  else
    let band_size := bits / bands in
    if band_size <? 0 then Raise ValueError
    else
      let mask := Z.shiftl 1 band_size - 1 in
      Ok ((fun b => Z.land (Z.shiftr fingerprint (Z.of_nat b * band_size)) mask)
          <$> seq 0 (Z.to_nat bands)).

(** ** The vote *)
Section Vote.
Context `{TokenHash}.

(** The specification: occurrences voting for and against bit [i]. *)
Definition votes_for (i : nat) (tokens : list string) : Z :=
  Z.of_nat (length (filter (fun t => Z.testbit (token_hash t) (Z.of_nat i) = true) tokens)).

(** The signed weight of bit [i] in a counter. *)
Fixpoint weight (i : nat) (c : list (string * Z)) : Z :=
  match c with
  | [] => 0
  | (t, n) :: c' => (if Z.testbit (token_hash t) (Z.of_nat i) then n else - n) + weight i c'
  end.

Lemma weight_counter_add i t c :
  weight i (counter_add t c) = weight i c + (if Z.testbit (token_hash t) (Z.of_nat i) then 1 else -1).
Proof.
  induction c as [|[u n] c IH]; cbn [counter_add weight]; [destruct (Z.testbit _ _); lia|].
  case_bool_decide as E; cbn [weight]; [subst u|rewrite IH]; repeat destruct (Z.testbit _ _); lia.
Qed.

Lemma weight_Counter i tokens :
  weight i (Counter tokens) = 2 * votes_for i tokens - Z.of_nat (length tokens).
Proof.
  unfold Counter. enough (forall c, weight i (fold_left (fun c t => counter_add t c) tokens c) =
    weight i c + (2 * votes_for i tokens - Z.of_nat (length tokens))) as -> by (cbn; lia).
  unfold votes_for. induction tokens as [|t tokens IH]; intros c; [cbn; lia|].
  cbn [fold_left]. rewrite IH, weight_counter_add, filter_cons.
  destruct (Z.testbit (token_hash t) (Z.of_nat i)) eqn:E.
  - rewrite decide_True by done. cbn [length]. lia.
  - rewrite decide_False by done. cbn [length]. lia.
Qed.

Lemma shiftr_land_1 h i : (Z.land (Z.shiftr h (Z.of_nat i)) 1 =? 0) = negb (Z.testbit h (Z.of_nat i)).
Proof.
  change 1 with (Z.ones 1). rewrite Z.land_ones by lia. change (2 ^ 1) with 2.
  rewrite <- Z.bit0_mod, Z.shiftr_spec by lia. rewrite Z.add_0_l.
  by destruct (Z.testbit h (Z.of_nat i)).
Qed.

Lemma vote_lookup i vector tw v :
  vector !! i = Some v ->
  vote vector tw !! i =
    Some (v + (if Z.testbit (token_hash (fst tw)) (Z.of_nat i) then snd tw else - snd tw)).
Proof.
  intros Hv. unfold vote. rewrite list_lookup_imap, Hv. cbn [fmap option_fmap option_map].
  rewrite shiftr_land_1. destruct (Z.testbit _ _); cbn [negb]; f_equal; lia.
Qed.

Lemma votes_lookup i c vector v :
  vector !! i = Some v -> fold_left vote c vector !! i = Some (v + weight i c).
Proof.
  revert vector v. induction c as [|[t n] c IH]; intros vector v Hv; cbn [fold_left weight];
    [rewrite Hv; f_equal; lia|].
  rewrite (IH _ _ (vote_lookup _ _ (t, n) _ Hv)). cbn [fst snd]. f_equal. lia.
Qed.

(** Setting the bits selected by [p]. *)
Lemma fold_bits (p : nat -> bool) n j :
  0 <= j ->
  Z.testbit (fold_left (fun fp i => if p i then Z.lor fp (Z.shiftl 1 (Z.of_nat i)) else fp)
               (seq 0 n) 0) j
  = (j <? Z.of_nat n) && p (Z.to_nat j).
Proof.
  intros Hj. induction n as [|n IH].
  { cbn. rewrite Z.bits_0. symmetry. apply andb_false_iff. left. apply Z.ltb_ge. lia. }
  rewrite seq_S, fold_left_app. cbn [fold_left Nat.add].
  assert (j <? Z.of_nat (S n) = (j <? Z.of_nat n) || (j =? Z.of_nat n)) as ->.
  { destruct (Z.ltb_spec j (Z.of_nat (S n))), (Z.ltb_spec j (Z.of_nat n)),
      (Z.eqb_spec j (Z.of_nat n)); cbn; try done; lia. }
  destruct (p n) eqn:Ep.
  - rewrite Z.lor_spec, IH, Z.shiftl_1_l, Z.pow2_bits_eqb by lia.
    destruct (Z.eqb_spec (Z.of_nat n) j) as [<-|Hne].
    + rewrite Nat2Z.id, Ep, Z.eqb_refl, orb_true_r. by rewrite orb_true_r.
    + rewrite orb_false_r. destruct (Z.eqb_spec j (Z.of_nat n)); [lia|]. by rewrite orb_false_r.
  - rewrite IH. destruct (Z.eqb_spec j (Z.of_nat n)) as [->|Hne].
    + rewrite Nat2Z.id, Ep. by rewrite !andb_false_r.
    + by rewrite orb_false_r.
Qed.

Lemma fold_bits_nonneg (p : nat -> bool) l fp :
  0 <= fp -> 0 <= fold_left (fun fp i => if p i then Z.lor fp (Z.shiftl 1 (Z.of_nat i)) else fp) l fp.
Proof.
  revert fp. induction l as [|i l IH]; intros fp Hfp; cbn; [done|].
  apply IH. destruct (p i); [|done]. apply Z.lor_nonneg. split; [done|].
  rewrite Z.shiftl_1_l. apply Z.pow_nonneg. lia.
Qed.

(** A non-negative number without bits from [n] on is below [2 ^ n]. *)
Lemma bits_below z n : 0 <= z -> 0 <= n -> (forall j, n <= j -> Z.testbit z j = false) -> z < 2 ^ n.
Proof.
  intros Hz Hn Hb. destruct (decide (z = 0)) as [->|Hne]; [by apply Z.pow_pos_nonneg|].
  apply Z.log2_lt_pow2; [lia|]. destruct (Z.lt_ge_cases (Z.log2 z) n) as [|Hge]; [done|].
  pose proof (Z.bit_log2 z). rewrite Hb in * by lia. intuition lia.
Qed.

Lemma simhash_bit text bits j :
  0 <= j ->
  let tokens := TOKEN_RE_findall (lower text) in
  Z.testbit (simhash_text text bits) j =
  (j <? Z.of_nat bits) && (Z.of_nat (length tokens) <? 2 * votes_for (Z.to_nat j) tokens).
Proof.
  intros Hj tokens. unfold simhash_text. fold tokens. case_bool_decide as E.
  { rewrite E, Z.bits_0. cbn. by rewrite andb_false_r. }
  set (vec := fold_left vote _ _). rewrite (fold_bits (fun i => 0 <? default 0 (vec !! i))) by done.
  destruct (Z.ltb_spec j (Z.of_nat bits)) as [Hlt|]; cbn [andb]; [|done].
  assert (vec !! Z.to_nat j = Some (0 + weight (Z.to_nat j) (Counter tokens))) as ->.
  { apply votes_lookup, lookup_replicate_2. lia. }
  cbn [default from_option id]. rewrite weight_Counter.
  destruct (Z.ltb_spec 0 (0 + (2 * votes_for (Z.to_nat j) tokens - Z.of_nat (length tokens)))),
    (Z.ltb_spec (Z.of_nat (length tokens)) (2 * votes_for (Z.to_nat j) tokens)); try done; lia.
Qed.

Lemma simhash_range text bits : 0 <= simhash_text text bits < 2 ^ Z.of_nat bits.
Proof.
  assert (0 <= simhash_text text bits) as Hnn.
  { unfold simhash_text. case_bool_decide; [done|].
    by apply (fold_bits_nonneg (fun i => 0 <? default 0 (_ !! i))). }
  split; [done|]. apply bits_below; [done|lia|]. intros j Hj. rewrite simhash_bit by lia.
  by destruct (Z.ltb_spec j (Z.of_nat bits)); [lia|].
Qed.

(** The fingerprint is in [0, 2^bits) and bit [i < bits] is set exactly
    when more than half of the token occurrences hash to a one at [i];
    consequently it depends only on the multiset of lower-cased tokens. *)
Theorem simhash_majority text bits :
  let tokens := TOKEN_RE_findall (lower text) in
  0 <= simhash_text text bits < 2 ^ Z.of_nat bits /\
  (forall i, (i < bits)%nat ->
     (Z.testbit (simhash_text text bits) (Z.of_nat i) = true <->
      Z.of_nat (length tokens) < 2 * votes_for i tokens)) /\
  (forall text', TOKEN_RE_findall (lower text') ≡ₚ tokens ->
     simhash_text text' bits = simhash_text text bits).
Proof.
  cbv zeta. split; [apply simhash_range|]. split.
  - intros i Hi. rewrite simhash_bit by lia. rewrite Nat2Z.id.
    destruct (Z.ltb_spec (Z.of_nat i) (Z.of_nat bits)); [|lia]. cbn [andb]. apply Z.ltb_lt.
  - intros text' Hp. apply Z.bits_inj'. intros j Hj. rewrite !simhash_bit by done.
    f_equal. unfold votes_for. by rewrite Hp.
Qed.

End Vote.

(** ** Hamming distance *)

(** The positions below [n] where two numbers differ. *)
Definition differing (n : nat) (a b : Z) : list nat :=
  filter (fun i => Z.testbit a (Z.of_nat i) <> Z.testbit b (Z.of_nat i)) (seq 0 n).

Lemma bit_count_step z : 0 <= z -> bit_count z = Z.b2z (Z.odd z) + bit_count (Z.div2 z).
Proof. intros Hz. destruct z as [|[p|p|]|p]; try done; lia. Qed.

Lemma bit_count_ones n z : 0 <= z < 2 ^ Z.of_nat n ->
  bit_count z = Z.of_nat (length (filter (fun i => Z.testbit z (Z.of_nat i) = true) (seq 0 n))).
Proof.
  revert z. induction n as [|n IH]; intros z Hz.
  { replace z with 0 by (cbn in Hz; lia). done. }
  rewrite bit_count_step by lia. cbn [seq]. rewrite <- fmap_S_seq, filter_cons.
  rewrite list_filter_fmap, (IH (Z.div2 z)); cycle 1.
  { rewrite Z.div2_div. rewrite Nat2Z.inj_succ, Z.pow_succ_r in Hz by lia.
    split; [apply Z.div_pos; lia|]. apply Z.div_lt_upper_bound; lia. }
  assert (filter (fun i => Z.testbit z (Z.of_nat (S i)) = true) (seq 0 n) =
          filter (fun i => Z.testbit (Z.div2 z) (Z.of_nat i) = true) (seq 0 n)) as Ef.
  { apply list_filter_iff. intros i. rewrite Z.div2_spec, Z.shiftr_spec by lia.
    by replace (Z.of_nat i + 1) with (Z.of_nat (S i)) by lia. }
  change (Z.of_nat 0) with 0. rewrite Z.bit0_odd.
  rewrite <- Ef. case_decide as E; cbn [length]; rewrite length_fmap.
  - rewrite E. cbn [Z.b2z]. lia.
  - apply not_true_is_false in E. rewrite E. cbn [Z.b2z]. lia.
Qed.

Lemma lxor_range n a b : 0 <= a < 2 ^ Z.of_nat n -> 0 <= b < 2 ^ Z.of_nat n ->
  0 <= Z.lxor a b < 2 ^ Z.of_nat n.
Proof.
  intros Ha Hb. assert (0 <= Z.lxor a b) by (apply Z.lxor_nonneg; lia). split; [done|].
  apply bits_below; [done|lia|]. intros j Hj. rewrite Z.lxor_spec.
  assert (forall z, 0 <= z < 2 ^ Z.of_nat n -> Z.testbit z j = false) as Hz.
  { intros z Hz. destruct (decide (z = 0)) as [->|]; [apply Z.bits_0|].
    apply Z.bits_above_log2; [lia|]. eapply Z.lt_le_trans; [|exact Hj].
    apply Z.log2_lt_pow2; lia. }
  by rewrite !Hz.
Qed.

Lemma hamming_differing n a b :
  0 <= a < 2 ^ Z.of_nat n -> 0 <= b < 2 ^ Z.of_nat n ->
  hamming_distance a b = Z.of_nat (length (differing n a b)).
Proof.
  intros Ha Hb. unfold hamming_distance, differing.
  rewrite (bit_count_ones n) by by apply lxor_range. do 2 f_equal. apply list_filter_iff.
  intros i. rewrite Z.lxor_spec. destruct (Z.testbit a _), (Z.testbit b _); cbn; naive_solver.
Qed.

Lemma pos_bit_count_pos p : 0 < pos_bit_count p.
Proof. induction p; cbn; lia. Qed.

Lemma differing_nil n a b :
  0 <= a < 2 ^ Z.of_nat n -> 0 <= b < 2 ^ Z.of_nat n -> differing n a b = [] -> a = b.
Proof.
  intros Ha Hb E. assert (bit_count (Z.lxor a b) = 0) as H0.
  { change (hamming_distance a b = 0). by rewrite (hamming_differing n), E. }
  apply Z.lxor_eq. assert (0 <= Z.lxor a b) by (apply Z.lxor_nonneg; lia).
  destruct (Z.lxor a b) as [|p|p] eqn:Ex; [done| |lia]. exfalso.
  pose proof (pos_bit_count_pos p). change (pos_bit_count p = 0) in H0. lia.
Qed.

(** On fingerprints of [n] bits the distance is the number of differing
    bits; it is symmetric, at most [n], zero exactly on equal fingerprints, and
    satisfies the triangle inequality. *)
Theorem hamming_metric n a b c :
  0 <= a < 2 ^ Z.of_nat n -> 0 <= b < 2 ^ Z.of_nat n -> 0 <= c < 2 ^ Z.of_nat n ->
  hamming_distance a b = Z.of_nat (length (differing n a b)) /\
  hamming_distance a b = hamming_distance b a /\
  0 <= hamming_distance a b <= Z.of_nat n /\
  (hamming_distance a b = 0 <-> a = b) /\
  hamming_distance a c <= hamming_distance a b + hamming_distance b c.
Proof.
  intros Ha Hb Hc. split; [by apply hamming_differing|].
  split; [unfold hamming_distance; by rewrite Z.lxor_comm|].
  rewrite !(hamming_differing n) by done. split_and!; [lia| | |].
  - unfold differing. pose proof (length_filter (fun i : nat =>
      Z.testbit a (Z.of_nat i) <> Z.testbit b (Z.of_nat i)) (seq 0 n)). rewrite length_seq in *. lia.
  - split.
    + intros E. apply (differing_nil n); [done..|]. apply nil_length_inv. lia.
    + intros ->. unfold differing. destruct (filter _ _) as [|x l] eqn:E; [done|].
      assert (x ∈ x :: l) as Hx by left. rewrite <- E in Hx. by apply list_elem_of_filter in Hx as [[] _].
  - rewrite <- Nat2Z.inj_add, <- Nat2Z.inj_le, <- length_app. unfold differing.
    apply submseteq_length, NoDup_submseteq; [apply NoDup_filter, NoDup_seq|].
    intros i. rewrite elem_of_app, !list_elem_of_filter.
    destruct (Z.testbit a _), (Z.testbit b _), (Z.testbit c _); naive_solver.
Qed.

(** ** Bands *)

(** The [b]-th band of a fingerprint. *)
Definition band (fp band_size : Z) (b : nat) : Z :=
  Z.land (Z.shiftr fp (Z.of_nat b * band_size)) (Z.shiftl 1 band_size - 1).

Lemma band_values_eq fp bands bits :
  0 < bands -> 0 <= bits -> band_values fp bands bits = Ok (band fp (bits / bands) <$> seq 0 (Z.to_nat bands)).
Proof.
  intros Hb Hbits. unfold band_values. destruct (Z.eqb_spec bands 0); [lia|].
  destruct (Z.ltb_spec (bits / bands) 0) as [Hneg|]; [|done].
  pose proof (Z.div_pos bits bands). lia.
Qed.

Lemma band_testbit fp s b j : 0 <= s -> 0 <= j ->
  Z.testbit (band fp s b) j = (j <? s) && Z.testbit fp (Z.of_nat b * s + j).
Proof.
  intros Hs Hj. unfold band. replace (Z.shiftl 1 s - 1) with (Z.ones s) by (unfold Z.ones; lia).
  rewrite Z.land_spec, Z.shiftr_spec, Z.testbit_ones_nonneg by lia.
  rewrite andb_comm. by rewrite (Z.add_comm j).
Qed.

(** Two fingerprints whose [b]-th bands differ differ at a bit of that band. *)
Lemma band_differs n a b s i :
  0 < s -> (Z.of_nat (S i) * s <= Z.of_nat n) -> band a s i <> band b s i ->
  exists j, j ∈ differing n a b /\ Z.of_nat j / s = Z.of_nat i.
Proof.
  intros Hs Hle Hne.
  destruct (decide (Exists (fun j => Z.testbit a (Z.of_nat j) <> Z.testbit b (Z.of_nat j))
                      (seq (Z.to_nat (Z.of_nat i * s)) (Z.to_nat s)))) as [Hex|Hno].
  - apply Exists_exists in Hex as (j & Hj & Hd). apply elem_of_seq in Hj.
    assert (Z.of_nat i * s <= Z.of_nat j < Z.of_nat i * s + s) by lia.
    exists j. split.
    + unfold differing. apply list_elem_of_filter. split; [done|]. apply elem_of_seq. nia.
    + symmetry. apply (Z.div_unique_pos _ _ _ (Z.of_nat j - Z.of_nat i * s)); lia.
  - destruct Hne. apply Z.bits_inj'. intros j Hj. rewrite !band_testbit by lia.
    destruct (Z.ltb_spec j s) as [Hlt|]; cbn [andb]; [|done].
    destruct (Bool.bool_dec (Z.testbit a (Z.of_nat i * s + j)) (Z.testbit b (Z.of_nat i * s + j)))
      as [|Hd]; [done|]. destruct Hno. apply Exists_exists.
    exists (Z.to_nat (Z.of_nat i * s + j)). split; [apply elem_of_seq; lia|].
    by rewrite Z2Nat.id by lia.
Qed.

Lemma band_pigeonhole_raw n a b bands :
  0 < bands -> 0 <= a < 2 ^ Z.of_nat n -> 0 <= b < 2 ^ Z.of_nat n ->
  hamming_distance a b < bands ->
  exists i, (i < Z.to_nat bands)%nat /\ band a (Z.of_nat n / bands) i = band b (Z.of_nat n / bands) i.
Proof.
  intros Hbands Ha Hb Hd. set (s := Z.of_nat n / bands).
  assert (0 <= s) by (apply Z.div_pos; lia).
  destruct (decide (Exists (fun i => band a s i = band b s i) (seq 0 (Z.to_nat bands)))) as [Hex|Hno].
  { apply Exists_exists in Hex as (i & Hi%elem_of_seq & E). exists i. split; [lia|done]. }
  exfalso. destruct (decide (s = 0)) as [Hs0|].
  { apply Hno, Exists_exists. exists 0%nat. split; [apply elem_of_seq; lia|].
    unfold band. rewrite Hs0. cbn. by rewrite !Z.land_0_r. }
  rewrite (hamming_differing n) in Hd by done.
  assert (Z.to_nat bands <= length (differing n a b))%nat; [|lia].
  rewrite <- (length_seq (Z.to_nat bands) 0), <- (length_fmap (fun j => Z.to_nat (Z.of_nat j / s)) (differing n a b)).
  apply submseteq_length, NoDup_submseteq; [apply NoDup_seq|].
  intros i Hi. destruct (band_differs n a b s i) as (j & Hj & Ej).
  - lia.
  - apply elem_of_seq in Hi. assert (bands * s <= Z.of_nat n) by (apply Z.mul_div_le; lia). nia.
  - intros E. apply Hno, Exists_exists. by exists i.
  - apply list_elem_of_fmap. exists j. split; [|done]. by rewrite Ej, Nat2Z.id.
Qed.

(** The promise of [band_values]: it returns [bands] values, and two
    fingerprints of [bits] bits at Hamming distance below [bands] share the
    value of at least one band, whether or not [bands] divides [bits]. *)
Theorem band_pigeonhole n a b bands :
  0 < bands -> 0 <= a < 2 ^ Z.of_nat n -> 0 <= b < 2 ^ Z.of_nat n ->
  exists va vb,
    band_values a bands (Z.of_nat n) = Ok va /\ band_values b bands (Z.of_nat n) = Ok vb /\
    Z.of_nat (length va) = bands /\ length vb = length va /\
    (hamming_distance a b < bands -> exists i v, va !! i = Some v /\ vb !! i = Some v).
Proof.
  intros Hbands Ha Hb. eexists _, _.
  split; [apply band_values_eq; lia|]. split; [apply band_values_eq; lia|].
  rewrite !length_fmap, length_seq. split_and!; [lia|done|].
  intros Hd. destruct (band_pigeonhole_raw n a b bands) as (i & Hi & E); [done..|].
  exists i, (band a (Z.of_nat n / bands) i). rewrite !list_lookup_fmap, lookup_seq_lt by done. cbn.
  by rewrite E.
Qed.

(** ** Concrete instances *)

Definition length_hash : TokenHash := fun t => Z.of_nat (String.length t).

Example tokens_of_text : TOKEN_RE_findall (lower "Hello, big_World  42!") = ["hello"; "big_world"; "42"].
Proof. reflexivity. Qed.

Example simhash_small : let _ := length_hash in simhash_text "aa bbb CCC" 8 = 3.
Proof. reflexivity. Qed.

Lemma hamming_metric_witness :
  hamming_distance 12 10 = 2 /\ hamming_distance 12 7 <= hamming_distance 12 10 + hamming_distance 10 7.
Proof.
  split; [reflexivity|].
  apply (hamming_metric 4 12 10 7); split; vm_compute; congruence.
Defined.

Lemma band_pigeonhole_witness :
  exists va vb, band_values 255 4 (Z.of_nat 64) = Ok va /\ band_values 254 4 (Z.of_nat 64) = Ok vb /\
    exists i v, va !! i = Some v /\ vb !! i = Some v.
Proof.
  destruct (band_pigeonhole 64 255 254 4) as (va & vb & E1 & E2 & _ & _ & Hs).
  - lia.
  - split; vm_compute; congruence.
  - split; vm_compute; congruence.
  - exists va, vb. split; [exact E1|]. split; [exact E2|]. apply Hs. vm_compute. reflexivity.
Defined.
