(* ===== verification/Dedup.v ===== *)
(** * Near-duplicate content detection ([crawler/dedup/dedup_service.py])

    [is_duplicate] of both implementations: LSH buckets keyed by (band, value)
    are searched for a fingerprint within the Hamming threshold; a fingerprint
    without one is added to its buckets.  The in-memory index is a finite map;
    the Redis index is a server's sets (SMEMBERS, SADD, EXPIRE, a parameter)
    under the keys [namespace:band:value].

    [lsh_equals_scan]: when the threshold is below the number of bands the
    index answers as a scan over every registered fingerprint would.
    [redis_lsh_simulates]: the Redis index gives the in-memory answers while
    no bucket expires.  The worker uses either through [ContentDedup]. *)
From S2P Require Import Prelude PyStr Config SimHash.
From Stdlib Require Import Ascii.
Local Open Scope Z_scope.

(** The protocol [ContentDedup]. *)
Class ContentDedup (S : Type) := is_duplicate : Z -> S -> result (bool * S).

(** [enumerate(values)]. *)
Definition enumerate {A} (l : list A) : list (Z * A) := imap (fun i x => (Z.of_nat i, x)) l.

(** ** [class InMemoryContentDedup] *)

Record InMemoryContentDedup : Type := mkDedup {
  cd_bands : Z; cd_bits : Z; cd_threshold : Z; cd_buckets : gmap (Z * Z) (list Z) }.

Definition new_dedup (bands bits threshold : Z) : InMemoryContentDedup := mkDedup bands bits threshold ∅.

Definition bucket (buckets : gmap (Z * Z) (list Z)) (bv : Z * Z) : list Z := default [] (buckets !! bv).

(** [candidates]: what shares a band. *)
Definition candidates (buckets : gmap (Z * Z) (list Z)) (values : list Z) : gset Z :=
  fold_left (fun acc bv => acc ∪ list_to_set (bucket buckets bv)) (enumerate values) ∅.

(** [any(hamming_distance(fingerprint, other) <= threshold)]. *)
Definition close_to (fingerprint threshold : Z) (others : list Z) : bool :=
  existsb (fun other => hamming_distance fingerprint other <=? threshold) others.

(** [setdefault((band, value), []).append(fingerprint)] for every band. *)
Definition register (fingerprint : Z) (values : list Z) (buckets : gmap (Z * Z) (list Z)) :
    gmap (Z * Z) (list Z) :=
  fold_left (fun b bv => <[bv := bucket b bv ++ [fingerprint]]> b) (enumerate values) buckets.

#[export] Instance in_memory_dedup : ContentDedup InMemoryContentDedup := fun fingerprint d =>
  let* values := band_values fingerprint (cd_bands d) (cd_bits d) in
  if close_to fingerprint (cd_threshold d) (elements (candidates (cd_buckets d) values))
  then Ok (true, d)
  else Ok (false, mkDedup (cd_bands d) (cd_bits d) (cd_threshold d)
                    (register fingerprint values (cd_buckets d))).

(** ** [class RedisContentDedup] *)

Class RedisSets (R : Type) := {
  smembers : string -> R -> list string;
  sadd : string -> string -> R -> R;
  expire : string -> Z -> R -> R }.

(** Documented behaviour, while no key reaches its time to live. *)
Class RedisSetsLaws (R : Type) `{RedisSets R} := {
  smembers_sadd k m r x : x ∈ smembers k (sadd k m r) <-> x = m \/ x ∈ smembers k r;
  smembers_sadd_ne k k' m r : k <> k' -> smembers k (sadd k' m r) = smembers k r;
  smembers_expire k k' t r : smembers k (expire k' t r) = smembers k r }.

Record RedisContentDedup : Type := mkRedisDedup {
  rd_bands : Z; rd_bits : Z; rd_threshold : Z; rd_namespace : string; rd_ttl_seconds : Z }.

Definition bucket_key (d : RedisContentDedup) (band value : Z) : string :=
  rd_namespace d +:+ ":" +:+ pretty band +:+ ":" +:+ pretty value.

(** [int(m) for m in members]. *)
Fixpoint ints_of (members : list string) : result (list Z) :=
  match members with
  | [] => Ok []
  | m :: rest => let* z := int_of_text m in let* zs := ints_of rest in Ok (z :: zs)
  end.

Section Redis.
Context `{RedisSets R}.

Fixpoint redis_candidates (d : RedisContentDedup) (values : list (Z * Z)) (acc : gset Z) (r : R) :
    result (gset Z) :=
  match values with
  | [] => Ok acc
  | (band, value) :: rest =>
      let* zs := ints_of (smembers (bucket_key d band value) r) in
      redis_candidates d rest (acc ∪ list_to_set zs) r
  end.

Definition redis_register (d : RedisContentDedup) (fingerprint : Z) (values : list (Z * Z)) (r : R) : R :=
  fold_left (fun r bv =>
      let key := bucket_key d (fst bv) (snd bv) in
      expire key (rd_ttl_seconds d) (sadd key (pretty fingerprint) r)) values r.

#[export] Instance redis_dedup : ContentDedup (RedisContentDedup * R) := fun fingerprint dr =>
  let '(d, r) := dr in
  let* values := band_values fingerprint (rd_bands d) (rd_bits d) in
  let* cands := redis_candidates d (enumerate values) ∅ r in
  if close_to fingerprint (rd_threshold d) (elements cands) then Ok (true, (d, r))
  else Ok (false, (d, redis_register d fingerprint (enumerate values) r)).

End Redis.

(** ** [content_dedup_from_settings] *)
Definition content_dedup_from_settings {R} (settings : Settings) (redis : option R) :
    (RedisContentDedup * R) + InMemoryContentDedup :=
  let bands := simhash_lsh_bands (dedup settings) in
  let threshold := simhash_hamming_threshold (dedup settings) in
  match redis with
  | Some r => inl (mkRedisDedup bands 64 threshold "lsh" (7 * 24 * 3600), r)
  | None => inr (new_dedup bands 64 threshold)
  end.

(** ** The index *)

Lemma enumerate_lookup {A} (l : list A) i x :
  (i, x) ∈ enumerate l <-> exists n, i = Z.of_nat n /\ l !! n = Some x.
Proof.
  unfold enumerate. rewrite list_elem_of_lookup. setoid_rewrite list_lookup_imap. split.
  - intros (n & E). destruct (l !! n) eqn:En; cbn in E; [|done]. simplify_eq. eauto.
  - intros (n & -> & E). exists n. by rewrite E.
Qed.

Lemma enumerate_NoDup {A} (l : list A) : NoDup (enumerate l).
Proof.
  apply NoDup_alt. unfold enumerate. intros i j x. rewrite !list_lookup_imap.
  destruct (l !! i), (l !! j); cbn; intros; simplify_eq. lia.
Qed.

Lemma bucket_insert b bv l bv' :
  bucket (<[bv := l]> b) bv' = if decide (bv' = bv) then l else bucket b bv'.
Proof.
  unfold bucket. case_decide as E; [subst; by rewrite lookup_insert_eq|by rewrite lookup_insert_ne].
Qed.

Lemma register_bucket fp l b bv : NoDup l ->
  bucket (fold_left (fun b bv => <[bv := bucket b bv ++ [fp]]> b) l b) bv =
  bucket b bv ++ (if decide (bv ∈ l) then [fp] else []).
Proof.
  intros Hd. revert b. induction Hd as [|x l Hx Hd IH]; intros b; cbn [fold_left].
  { rewrite decide_False by apply not_elem_of_nil. by rewrite app_nil_r. }
  rewrite IH, bucket_insert. destruct (decide (bv = x)) as [->|Hne].
  - rewrite (decide_False (P := x ∈ l)) by done. rewrite decide_True by by left. by rewrite app_nil_r.
  - destruct (decide (bv ∈ l)).
    + by rewrite decide_True by by right.
    + rewrite decide_False by (rewrite elem_of_cons; tauto). done.
Qed.

Lemma candidates_elem b values x :
  x ∈ candidates b values <-> exists bv, bv ∈ enumerate values /\ x ∈ bucket b bv.
Proof.
  unfold candidates. generalize (enumerate values). intros l.
  enough (forall acc, x ∈ fold_left (fun acc bv => acc ∪ list_to_set (bucket b bv)) l acc <->
    x ∈ acc \/ exists bv, bv ∈ l /\ x ∈ bucket b bv) as E by (rewrite E; set_solver).
  induction l as [|bv l IH]; intros acc; cbn [fold_left]; [set_solver|].
  rewrite IH, elem_of_union, elem_of_list_to_set. setoid_rewrite elem_of_cons. naive_solver.
Qed.

Lemma close_to_spec fp t l :
  close_to fp t l = true <-> exists other, other ∈ l /\ hamming_distance fp other <= t.
Proof.
  unfold close_to. rewrite existsb_exists. setoid_rewrite list_elem_of_In. by setoid_rewrite Z.leb_le.
Qed.

(** Abstract index: the registered fingerprints, in order. *)
Definition scan (fp threshold : Z) (registered : list Z) : bool * list Z :=
  if close_to fp threshold registered then (true, registered) else (false, registered ++ [fp]).

(** The buckets hold exactly the registered fingerprints of each band. *)
Definition indexed (d : InMemoryContentDedup) (registered : list Z) : Prop :=
  0 < cd_bands d /\ 0 <= cd_bits d /\
  Forall (fun fp => 0 <= fp < 2 ^ cd_bits d) registered /\
  forall b v, bucket (cd_buckets d) (b, v) =
    filter (fun fp => 0 <= b < cd_bands d /\ band fp (cd_bits d / cd_bands d) (Z.to_nat b) = v) registered.

Lemma values_lookup fp bands bits values b v :
  0 < bands -> 0 <= bits -> band_values fp bands bits = Ok values ->
  (b, v) ∈ enumerate values <-> 0 <= b < bands /\ band fp (bits / bands) (Z.to_nat b) = v.
Proof.
  intros Hb Hbits. rewrite band_values_eq by done. intros [= <-]. rewrite enumerate_lookup.
  setoid_rewrite list_lookup_fmap_Some. setoid_rewrite lookup_seq. split.
  - intros (n & -> & y & -> & -> & Hn). rewrite Nat2Z.id. split; [lia|done].
  - intros (Hr & <-). exists (Z.to_nat b). split; [lia|]. exists (Z.to_nat b). split_and!; [done|lia|lia].
Qed.

Lemma indexed_close d registered fp values :
  indexed d registered -> cd_threshold d < cd_bands d -> 0 <= fp < 2 ^ cd_bits d ->
  band_values fp (cd_bands d) (cd_bits d) = Ok values ->
  close_to fp (cd_threshold d) (elements (candidates (cd_buckets d) values)) =
  close_to fp (cd_threshold d) registered.
Proof.
  intros (Hb & Hbits & Hall & Hbk) Ht Hfp Hv. apply eq_bool_prop_intro.
  rewrite !Is_true_true, !close_to_spec. setoid_rewrite elem_of_elements.
  setoid_rewrite candidates_elem. split; intros (other & Hin & Hd); exists other; (split; [|done]).
  - destruct Hin as ([b v] & _ & Ho). rewrite Hbk in Ho. by apply list_elem_of_filter in Ho as [_ ?].
  - assert (0 <= other < 2 ^ cd_bits d) as Ho by by eapply Forall_forall in Hall.
    rewrite <- (Z2Nat.id (cd_bits d)) in Hfp, Ho by done.
    destruct (band_pigeonhole_raw _ _ _ (cd_bands d) Hb Hfp Ho ltac:(lia)) as (i & Hi & E).
    rewrite Z2Nat.id in E by done.
    exists (Z.of_nat i, band fp (cd_bits d / cd_bands d) i). split.
    + eapply values_lookup; [done..|]. rewrite Nat2Z.id. split; [lia|done].
    + rewrite Hbk. apply list_elem_of_filter. rewrite Nat2Z.id. split; [split; [lia|done]|done].
Qed.

Lemma indexed_register d registered fp values :
  indexed d registered -> 0 <= fp < 2 ^ cd_bits d ->
  band_values fp (cd_bands d) (cd_bits d) = Ok values ->
  indexed (mkDedup (cd_bands d) (cd_bits d) (cd_threshold d) (register fp values (cd_buckets d)))
          (registered ++ [fp]).
Proof.
  intros (Hb & Hbits & Hall & Hbk) Hfp Hv. split_and!; cbn; [done..| |].
  { apply Forall_app. split; [done|]. by constructor. }
  intros b v. unfold register. rewrite register_bucket by apply enumerate_NoDup.
  rewrite Hbk, filter_app. f_equal. rewrite filter_cons, filter_nil.
  pose proof (values_lookup fp _ _ _ b v Hb Hbits Hv) as E.
  destruct (decide ((b, v) ∈ enumerate values)); case_decide; tauto.
Qed.

Lemma indexed_step d registered fp :
  indexed d registered -> cd_threshold d < cd_bands d -> 0 <= fp < 2 ^ cd_bits d ->
  exists d', is_duplicate fp d = Ok (fst (scan fp (cd_threshold d) registered), d') /\
    indexed d' (snd (scan fp (cd_threshold d) registered)) /\
    cd_bands d' = cd_bands d /\ cd_bits d' = cd_bits d /\ cd_threshold d' = cd_threshold d.
Proof.
  intros Hi Ht Hfp. unfold is_duplicate, in_memory_dedup, scan.
  pose proof (band_values_eq fp (cd_bands d) (cd_bits d)) as Hv.
  destruct Hi as (Hb & Hbits & Hrest). rewrite Hv by done. cbn [rbind].
  rewrite (indexed_close d registered) by (done || by apply Hv).
  destruct (close_to fp (cd_threshold d) registered); cbn [fst snd].
  - by exists d.
  - eexists. split; [done|]. split; [|done]. apply indexed_register; [done..|]. by apply Hv.
Qed.

(** A sequence of [is_duplicate] calls. *)
Section Runs.
Context {St : Type} `{ContentDedup St}.
Fixpoint run_dedup (fps : list Z) (s : St) : result (list bool * St) :=
  match fps with
  | [] => Ok ([], s)
  | fp :: rest =>
      let* (b, s1) := is_duplicate fp s in
      let* (bs, s2) := run_dedup rest s1 in
      Ok (b :: bs, s2)
  end.
End Runs.

Fixpoint run_scan (threshold : Z) (fps registered : list Z) : list bool :=
  match fps with
  | [] => []
  | fp :: rest => let '(b, reg) := scan fp threshold registered in b :: run_scan threshold rest reg
  end.

Lemma run_dedup_scan fps d registered :
  indexed d registered -> cd_threshold d < cd_bands d ->
  Forall (fun fp => 0 <= fp < 2 ^ cd_bits d) fps ->
  exists d', run_dedup fps d = Ok (run_scan (cd_threshold d) fps registered, d').
Proof.
  revert d registered. induction fps as [|fp fps IH]; intros d registered Hi Ht Hf; [by exists d|].
  inversion Hf as [|?? Hfp Hfps]; subst. cbn [run_dedup run_scan].
  destruct (indexed_step d registered fp Hi Ht Hfp) as (d1 & -> & Hi1 & Eb & Ebits & Et).
  destruct (scan fp (cd_threshold d) registered) as [b reg]. cbn [fst snd rbind] in *.
  destruct (IH d1 reg Hi1) as (d2 & E); [by rewrite Et, Eb|by rewrite Ebits|].
  exists d2. rewrite E, Et. done.
Qed.

(** C35: with the threshold below the number of bands (3 and 4 by default), any
    sequence of fingerprints of [bits] bits gets from the LSH index exactly
    the answers of a scan comparing with every fingerprint registered so far,
    and no call raises. *)
Theorem lsh_equals_scan bands bits threshold fps :
  0 < bands -> 0 <= bits -> threshold < bands ->
  Forall (fun fp => 0 <= fp < 2 ^ bits) fps ->
  exists d', run_dedup fps (new_dedup bands bits threshold) = Ok (run_scan threshold fps [], d').
Proof.
  intros Hb Hbits Ht Hf. apply (run_dedup_scan fps (new_dedup bands bits threshold) []); [|done..].
  split_and!; cbn; [done..|constructor|]. intros b v. done.
Qed.

(** ** The Redis index *)
Section RedisTheorems.
Context `{RedisSetsLaws R}.

Lemma bucket_key_inj d b v b' v' : bucket_key d b v = bucket_key d b' v' -> b = b' /\ v = v'.
Proof.
  unfold bucket_key. intros E%append_inj_l.
  change (":" +:+ ?x) with (String ":" x) in E. injection E as E.
  assert (forall b v : Z, partition ":" (pretty b +:+ String ":" (pretty v)) = (pretty b, true, pretty v)) as Hp.
  { intros ??. apply partition_sep, sall_pretty_check. done. }
  change (":" +:+ ?x) with (String ":" x) in E. pose proof (Hp b v) as P. rewrite E, Hp in P.
  injection P as P1 P2. split; by apply (inj pretty).
Qed.

(** The server's sets hold the printed fingerprints of the buckets. *)
Definition mirrors (d : RedisContentDedup) (r : R) (b : gmap (Z * Z) (list Z)) : Prop :=
  forall band value x, x ∈ smembers (bucket_key d band value) r <->
    exists fp, x = pretty fp /\ fp ∈ bucket b (band, value).

Lemma ints_of_pretty members (P : Z -> Prop) :
  (forall x, x ∈ members <-> exists fp, x = pretty fp /\ P fp) ->
  exists zs, ints_of members = Ok zs /\ forall z, z ∈ zs <-> P z.
Proof.
  intros HP. assert (forall l, Forall (fun x => exists fp : Z, x = pretty fp) l ->
    exists zs, ints_of l = Ok zs /\ forall z, z ∈ zs <-> pretty z ∈ l) as Hl.
  { clear. induction 1 as [|x l [fp ->] Hl (zs & E & Hz)].
    { exists []. split; [done|]. intros z. by rewrite !elem_of_nil. }
    cbn. rewrite int_of_text_pretty, E. cbn. exists (fp :: zs). split; [done|].
    intros z. rewrite !elem_of_cons, Hz. split; (intros [E'|]; [left|by right]); [by subst|by apply (inj pretty)]. }
  destruct (Hl members) as (zs & E & Hz).
  { apply Forall_forall. intros x (fp & -> & _)%HP. eauto. }
  exists zs. split; [done|]. intros z. rewrite Hz, HP. split; [|eauto].
  intros (fp & E' & Hfp). apply (inj pretty) in E'. by subst.
Qed.

Lemma redis_candidates_spec d b r values acc :
  mirrors d r b -> exists s, redis_candidates d values acc r = Ok s /\
    forall x, x ∈ s <-> x ∈ acc \/ exists bv, bv ∈ values /\ x ∈ bucket b bv.
Proof.
  intros Hm. revert acc. induction values as [|[band value] values IH]; intros acc; cbn.
  { exists acc. set_solver. }
  destruct (ints_of_pretty _ _ (Hm band value)) as (zs & -> & Hz). cbn [rbind].
  destruct (IH (acc ∪ list_to_set zs)) as (s & -> & Hs). exists s. split; [done|].
  intros x. rewrite Hs, elem_of_union, elem_of_list_to_set, Hz. setoid_rewrite elem_of_cons. naive_solver.
Qed.

Lemma redis_register_spec d b r fp l : mirrors d r b ->
  mirrors d (redis_register d fp l r) (fold_left (fun b bv => <[bv := bucket b bv ++ [fp]]> b) l b).
Proof.
  revert b r. induction l as [|[bd vl] l IH]; intros b r Hm; [done|]. cbn. apply IH.
  intros band value x. rewrite smembers_expire, bucket_insert. case_decide as E.
  - injection E as -> ->. pose proof (Hm bd vl x) as Hx. rewrite smembers_sadd, Hx. setoid_rewrite elem_of_app. set_solver.
  - rewrite smembers_sadd_ne by (intros ?%bucket_key_inj; naive_solver). apply Hm.
Qed.

Lemma redis_step d m r fp :
  mirrors d r (cd_buckets m) -> rd_bands d = cd_bands m -> rd_bits d = cd_bits m ->
  rd_threshold d = cd_threshold m ->
  match is_duplicate fp m with
  | Ok (b, m') => exists r', is_duplicate fp (d, r) = Ok (b, (d, r')) /\ mirrors d r' (cd_buckets m') /\
      cd_bands m' = cd_bands m /\ cd_bits m' = cd_bits m /\ cd_threshold m' = cd_threshold m
  | Raise e => is_duplicate fp (d, r) = Raise e
  end.
Proof.
  intros Hm Eb Ebits Et. unfold is_duplicate, in_memory_dedup, redis_dedup. rewrite Eb, Ebits, Et.
  destruct (band_values fp (cd_bands m) (cd_bits m)) as [values|e]; cbn [rbind]; [|done].
  destruct (redis_candidates_spec d _ r (enumerate values) ∅ Hm) as (s & -> & Hs). cbn [rbind].
  assert (s = candidates (cd_buckets m) values) as ->.
  { apply leibniz_equiv. intros x. rewrite Hs, candidates_elem. set_solver. }
  destruct (close_to _ _ _); eexists; (split; [done|]); [done|]. split; [|done].
  by apply redis_register_spec.
Qed.

(** On an index whose buckets are empty on the server, [RedisContentDedup]
    answers (and raises) as [InMemoryContentDedup] with the same parameters,
    for any sequence of fingerprints, as long as no bucket expires. *)
Theorem redis_lsh_simulates bands bits threshold ns ttl r fps :
  let d := mkRedisDedup bands bits threshold ns ttl in
  (forall band value, smembers (bucket_key d band value) r = []) ->
  match run_dedup fps (new_dedup bands bits threshold) with
  | Ok (bs, _) => exists r', run_dedup fps (d, r) = Ok (bs, (d, r'))
  | Raise e => run_dedup fps (d, r) = Raise e
  end.
Proof.
  intros d Hempty.
  enough (forall m r, mirrors d r (cd_buckets m) -> rd_bands d = cd_bands m -> rd_bits d = cd_bits m ->
    rd_threshold d = cd_threshold m ->
    match run_dedup fps m with
    | Ok (bs, _) => exists r', run_dedup fps (d, r) = Ok (bs, (d, r'))
    | Raise e => run_dedup fps (d, r) = Raise e
    end) as Hrun.
  { apply Hrun; [|done..]. intros b v x. rewrite Hempty. cbn. set_solver. }
  clear r Hempty. induction fps as [|fp fps IH]; intros m r Hm Eb Ebits Et; cbn [run_dedup]; [by exists r|].
  pose proof (redis_step d m r fp Hm Eb Ebits Et) as Hs.
  destruct (is_duplicate fp m) as [[b m1]|e]; cbn [rbind]; [|by rewrite Hs].
  destruct Hs as (r1 & -> & Hm1 & E1 & E2 & E3). cbn [rbind].
  specialize (IH m1 r1 Hm1 ltac:(congruence) ltac:(congruence) ltac:(congruence)).
  destruct (run_dedup fps m1) as [[bs m2]|e]; cbn [rbind].
  - destruct IH as (r2 & ->). by exists r2.
  - by rewrite IH.
Qed.

End RedisTheorems.

(** ** Concrete instances *)

Lemma lsh_equals_scan_witness :
  exists d', run_dedup [255; 254; 2 ^ 40; 255] (new_dedup 4 64 3) =
    Ok ([false; true; false; true], d').
Proof.
  destruct (lsh_equals_scan 4 64 3 [255; 254; 2 ^ 40; 255]) as (d' & E).
  - lia.
  - lia.
  - lia.
  - repeat (constructor; [split; vm_compute; congruence|]). constructor.
  - exists d'. exact E.
Defined.

Definition map_sets : RedisSets (gmap string (list string)) := {|
  smembers := fun k r => default [] (r !! k);
  sadd := fun k m r => <[k := m :: default [] (r !! k)]> r;
  expire := fun _ _ r => r |}.
Lemma map_sets_laws : @RedisSetsLaws _ map_sets.
Proof.
  split; intros; cbn; [|by rewrite lookup_insert_ne|done].
  rewrite lookup_insert_eq. apply elem_of_cons.
Qed.

Lemma redis_lsh_simulates_witness :
  let d := mkRedisDedup 4 64 3 "lsh" 604800 in
  exists r', @run_dedup _ (@redis_dedup _ map_sets) [255; 254; 2 ^ 40] (d, ∅)
    = Ok ([false; true; false], (d, r')).
Proof.
  exact (@redis_lsh_simulates _ map_sets map_sets_laws 4 64 3 "lsh" 604800 ∅ [255; 254; 2 ^ 40]
           (fun _ _ => eq_refl)).
Defined.

(** With at least as many tolerated bits as bands the index may miss a near
    duplicate that a scan finds: one differing bit in each band. *)
Example lsh_misses_beyond_bands :
  let fps := [0; 2 ^ 0 + 2 ^ 16 + 2 ^ 32 + 2 ^ 48] in
  (exists d', run_dedup fps (new_dedup 4 64 4) = Ok ([false; false], d')) /\
  run_scan 4 fps [] = [false; true].
Proof. split; [eexists; reflexivity|reflexivity]. Qed.
