(* ===== verification/CircuitBreaker.v ===== *)
(** * Per-host circuit breaker ([crawler/resilience/circuit_breaker.py])

    The breaker keeps a [HostState] per host; the clock is read by [allow] and
    [record_failure], which take its value as [now].  The gauge
    [CIRCUIT_STATE] is part of the metrics registry.

    [breaker_host_automaton] gives, for every operation on any host, the exact
    transition of each host's automaton; [breaker_protects] states when the
    requests of a failing host are refused and admitted again.
    [half_open_unbounded] shows that the half-open state admits any number of
    requests, where the documentation speaks of one probe. *)
From S2P Require Import Prelude Models.
Local Open Scope Z_scope.

Inductive CircuitState : Type := CLOSED | OPEN | HALF_OPEN.
#[export] Instance CircuitState_eq_dec : EqDecision CircuitState.
Proof. solve_decision. Defined.

Record HostState : Type := mkHost { failures : Z; opened_at : Q; st_state : CircuitState }.
Definition fresh_host : HostState := mkHost 0 0 CLOSED.

Record CircuitBreaker : Type := mkBreaker {
  failure_threshold : Z; reset_seconds : Q; cb_hosts : gmap string HostState }.

Definition new_breaker (threshold : Z) (reset : Q) : result CircuitBreaker :=
  if threshold <=? 0 then Raise ValueError else Ok (mkBreaker threshold reset ∅).

Definition with_hosts (cb : CircuitBreaker) (hs : gmap string HostState) : CircuitBreaker :=
  mkBreaker (failure_threshold cb) (reset_seconds cb) hs.

(** [_get]: the host's state, created on first use. *)
Definition get_host (host : string) (cb : CircuitBreaker) : HostState * CircuitBreaker :=
  match cb_hosts cb !! host with
  | Some st => (st, cb)
  | None => (fresh_host, with_hosts cb (<[host := fresh_host]> (cb_hosts cb)))
  end.

Definition set_host (host : string) (st : HostState) (cb : CircuitBreaker) : CircuitBreaker :=
  with_hosts cb (<[host := st]> (cb_hosts cb)).

Definition state (host : string) (cb : CircuitBreaker) : CircuitState * CircuitBreaker :=
  let '(st, cb) := get_host host cb in (st_state st, cb).

Definition allow (host : string) (now : Q) (cb : CircuitBreaker) : bool * CircuitBreaker :=
  let '(st, cb) := get_host host cb in
  match st_state st with
  | OPEN =>
      if Qle_bool (reset_seconds cb) (now - opened_at st)
      then (true, set_host host (mkHost (failures st) (opened_at st) HALF_OPEN) cb)
      else (false, cb)
  | _ => (true, cb)
  end.

Definition open_count (cb : CircuitBreaker) : Z :=
  Z.of_nat (size (filter (fun kv => st_state (snd kv) = OPEN) (cb_hosts cb))).

Definition refresh_gauge (cb : CircuitBreaker) (reg : registry) : registry :=
  gauge_set CIRCUIT_STATE (open_count cb) reg.

Definition record_success (host : string) (cb : CircuitBreaker) (reg : registry) :
    CircuitBreaker * registry :=
  let '(st, cb) := get_host host cb in
  let was_open := negb (bool_decide (st_state st = CLOSED)) in
  let cb := set_host host (mkHost 0 (opened_at st) CLOSED) cb in
  (cb, if was_open then refresh_gauge cb reg else reg).

Definition record_failure (host : string) (now : Q) (cb : CircuitBreaker) (reg : registry) :
    CircuitBreaker * registry :=
  let '(st, cb) := get_host host cb in
  match st_state st with
  | HALF_OPEN =>
      let cb := set_host host (mkHost (failures st) now OPEN) cb in
      (cb, refresh_gauge cb reg)
  | s =>
      let st := mkHost (failures st + 1) (opened_at st) s in
      if (failure_threshold cb <=? failures st) && bool_decide (s = CLOSED)
      then let cb := set_host host (mkHost (failures st) now OPEN) cb in (cb, refresh_gauge cb reg)
      else (set_host host st cb, reg)
  end.

(** ** The automaton of one host *)

(** The operations the worker performs, with the clock value they read. *)
Inductive event : Type :=
| Allow (host : string) (now : Q)
| Success (host : string)
| Failure (host : string) (now : Q).

Definition event_host (e : event) : string :=
  match e with Allow h _ | Success h | Failure h _ => h end.

(** One operation: the answer of an [allow] and the new state. *)
Definition cb_step (e : event) (s : CircuitBreaker * registry) : option bool * (CircuitBreaker * registry) :=
  let '(cb, reg) := s in
  match e with
  | Allow h now => let '(b, cb') := allow h now cb in (Some b, (cb', reg))
  | Success h => (None, record_success h cb reg)
  | Failure h now => (None, record_failure h now cb reg)
  end.

Fixpoint cb_run (es : list event) (s : CircuitBreaker * registry) : list (option bool) * (CircuitBreaker * registry) :=
  match es with
  | [] => ([], s)
  | e :: es' => let '(a, s1) := cb_step e s in let '(l, s2) := cb_run es' s1 in (a :: l, s2)
  end.

Definition host_state (h : string) (cb : CircuitBreaker) : HostState := default fresh_host (cb_hosts cb !! h).

(** The specification: the transition of one host's automaton, and the answer
    of an [allow]. *)
Definition host_transition (threshold : Z) (reset : Q) (e : event) (st : HostState) : option bool * HostState :=
  match e, st_state st with
  | Allow _ now, OPEN =>
      if Qle_bool reset (now - opened_at st)
      then (Some true, mkHost (failures st) (opened_at st) HALF_OPEN) else (Some false, st)
  | Allow _ _, _ => (Some true, st)
  | Success _, _ => (None, mkHost 0 (opened_at st) CLOSED)
  | Failure _ now, HALF_OPEN => (None, mkHost (failures st) now OPEN)
  | Failure _ now, OPEN => (None, mkHost (failures st + 1) (opened_at st) OPEN)
  | Failure _ now, CLOSED =>
      (None, if threshold <=? failures st + 1 then mkHost (failures st + 1) now OPEN
             else mkHost (failures st + 1) (opened_at st) CLOSED)
  end.

Lemma get_host_spec h cb st cb' : get_host h cb = (st, cb') ->
  st = host_state h cb /\ failure_threshold cb' = failure_threshold cb /\
  reset_seconds cb' = reset_seconds cb /\ cb_hosts cb' !! h = Some st /\
  (forall h', h' <> h -> cb_hosts cb' !! h' = cb_hosts cb !! h') /\ host_state h cb' = st.
Proof.
  unfold get_host, host_state. destruct (cb_hosts cb !! h) as [s|] eqn:E; intros [= <- <-].
  - rewrite E. done.
  - cbn. split_and!; try done; rewrite ?lookup_insert_eq; try done.
    intros h' Hne. by rewrite lookup_insert_ne.
Qed.

Lemma host_of_set h h' st cb : host_state h (set_host h' st cb) = if decide (h = h') then st else host_state h cb.
Proof.
  unfold host_state, set_host. cbn. case_decide as E; [subst; by rewrite lookup_insert_eq|].
  by rewrite lookup_insert_ne.
Qed.

(** One step follows the automaton of its host and leaves the others. *)
Lemma cb_step_automaton e cb reg a cb' reg' h :
  cb_step e (cb, reg) = (a, (cb', reg')) ->
  failure_threshold cb' = failure_threshold cb /\ reset_seconds cb' = reset_seconds cb /\
  (event_host e = h -> (a, host_state h cb') =
     host_transition (failure_threshold cb) (reset_seconds cb) e (host_state h cb)) /\
  (event_host e <> h -> host_state h cb' = host_state h cb).
Proof.
  intros E. unfold cb_step, allow, record_success, record_failure in E.
  assert (forall st cb1, get_host (event_host e) cb = (st, cb1) -> event_host e <> h ->
    host_state h cb1 = host_state h cb) as Hoth.
  { intros st cb1 (_ & _ & _ & _ & Ho & _)%get_host_spec Hne. unfold host_state. by rewrite Ho. }
  destruct e as [x now|x|x now]; cbn [event_host] in *;
    destruct (get_host x cb) as [st cb1] eqn:Eg;
    pose proof (get_host_spec _ _ _ _ Eg) as (Hst & Et & Er & _ & _ & Hsame);
    specialize (Hoth _ _ eq_refl); subst st; unfold host_transition; cbn [fst] in *;
    destruct (st_state (host_state x cb)) eqn:Es; rewrite ?Et, ?Er in E;
    cbn [failures] in E; change (bool_decide (CLOSED = CLOSED)) with true in E;
    change (bool_decide (OPEN = CLOSED)) with false in E; rewrite ?andb_true_r, ?andb_false_r in E;
    repeat case_match; simplify_eq; cbn [failure_threshold reset_seconds set_host with_hosts];
    (split; [done|]); (split; [done|]); (split; [intros <-|intros Hne]);
    rewrite ?host_of_set, ?(decide_True (P := x = x)), ?(decide_False (P := h = x)) by done;
    try (by auto); repeat case_match; simplify_eq/=; try done; try congruence.
Qed.

(** Every operation makes the automaton of its host take exactly the
    transition of [host_transition], with its answer, and leaves every other
    host's automaton where it is; the settings never change. *)
Theorem breaker_host_automaton e cb reg :
  let '(a, (cb', _)) := cb_step e (cb, reg) in
  let t := host_transition (failure_threshold cb) (reset_seconds cb) e (host_state (event_host e) cb) in
  a = fst t /\
  (forall h, host_state h cb' = if decide (h = event_host e) then snd t else host_state h cb) /\
  failure_threshold cb' = failure_threshold cb /\ reset_seconds cb' = reset_seconds cb.
Proof.
  destruct (cb_step e (cb, reg)) as [a [cb' reg']] eqn:E. cbv zeta.
  destruct (cb_step_automaton e cb reg a cb' reg' (event_host e) E) as (Et & Er & Hs & _).
  specialize (Hs eq_refl). split_and!; [by rewrite <- Hs| |done|done].
  intros h. destruct (cb_step_automaton e cb reg a cb' reg' h E) as (_ & _ & Hs' & Ho).
  case_decide as Eh; [subst h; by rewrite <- Hs|]. apply Ho. congruence.
Qed.

(** ** Histories *)

Definition host_events (h : string) (es : list event) : list event :=
  filter (fun e => event_host e = h) es.

Fixpoint host_run (threshold : Z) (reset : Q) (es : list event) (st : HostState) : HostState :=
  match es with
  | [] => st
  | e :: es' => host_run threshold reset es' (snd (host_transition threshold reset e st))
  end.

Lemma cb_run_host h es cb reg l cb' reg' :
  cb_run es (cb, reg) = (l, (cb', reg')) ->
  host_state h cb' = host_run (failure_threshold cb) (reset_seconds cb) (host_events h es) (host_state h cb) /\
  failure_threshold cb' = failure_threshold cb /\ reset_seconds cb' = reset_seconds cb.
Proof.
  revert cb reg l. induction es as [|e es IH]; intros cb reg l E; cbn [cb_run] in E.
  { by simplify_eq. }
  destruct (cb_step e (cb, reg)) as [a [cb1 reg1]] eqn:E1.
  destruct (cb_run es (cb1, reg1)) as [l2 s2] eqn:E2. simplify_eq.
  destruct (cb_step_automaton _ _ _ _ _ _ h E1) as (Et & Er & Hs & Ho).
  destruct (IH _ _ _ E2) as (-> & -> & ->). rewrite Et, Er. split; [|done].
  unfold host_events. rewrite filter_cons. case_decide as Eh; [|by rewrite Ho].
  cbn [host_run]. by rewrite <- Hs.
Qed.

(** [k] failures of a closed host without a success in between. *)
Lemma host_run_failures threshold reset h times st :
  0 < threshold -> st_state st = CLOSED -> failures st < threshold ->
  let st' := host_run threshold reset (Failure h <$> times) st in
  failures st' = failures st + Z.of_nat (length times) /\
  (st_state st' = OPEN <-> threshold <= failures st + Z.of_nat (length times)) /\
  st_state st' <> HALF_OPEN.
Proof.
  intros Ht Hc Hf.
  enough (forall times st, st_state st <> HALF_OPEN ->
    (st_state st = OPEN <-> threshold <= failures st) ->
    let st' := host_run threshold reset (Failure h <$> times) st in
    failures st' = failures st + Z.of_nat (length times) /\
    (st_state st' = OPEN <-> threshold <= failures st + Z.of_nat (length times)) /\
    st_state st' <> HALF_OPEN) as Hgen.
  { apply Hgen; rewrite Hc; [done|]. split; [done|lia]. }
  clear. induction times as [|t times IH]; intros st Hh Ho; cbv zeta.
  { cbn. split_and!; [lia| |done]. rewrite Ho. lia. }
  rewrite fmap_cons. cbn [host_run length]. set (st1 := snd _).
  assert (failures st1 = failures st + 1 /\ st_state st1 <> HALF_OPEN /\
          (st_state st1 = OPEN <-> threshold <= failures st1)) as (E1 & E2 & E3).
  { unfold st1, host_transition. destruct (st_state st) eqn:Es; cbn [snd failures st_state]; [| |done].
    - destruct (Z.leb_spec threshold (failures st + 1)); cbn; split_and!; try done; split; try done; lia.
    - split_and!; try done. split; [|done]. intros _. pose proof (proj1 Ho eq_refl). lia. }
  destruct (IH st1 E2 E3) as (-> & -> & ?). rewrite E1. split_and!; [lia|split; lia|done].
Qed.

(** On a fresh breaker a host is opened by exactly the
    [failure_threshold]-th of its consecutive failures, whatever the other
    hosts do in between: with fewer failures [allow] answers [True], and after
    the threshold it answers [False] until [reset_seconds] have passed since
    the opening failure when no later failure follows. *)
Theorem breaker_trips threshold reset cb reg es times h now :
  new_breaker threshold reset = Ok cb -> host_events h es = Failure h <$> times ->
  let cb' := fst (snd (cb_run es (cb, reg))) in
  (Z.of_nat (length times) < threshold -> fst (allow h now cb') = true) /\
  (threshold <= Z.of_nat (length times) ->
     st_state (host_state h cb') = OPEN /\
     (fst (allow h now cb') = false <-> (now - opened_at (host_state h cb') < reset)%Q)).
Proof.
  intros Hn He. unfold new_breaker in Hn. destruct (Z.leb_spec threshold 0); [done|].
  injection Hn as <-. set (cb := mkBreaker _ _ _).
  destruct (cb_run es (cb, reg)) as [l [cb' reg']] eqn:E. cbv zeta. cbn [fst snd].
  destruct (cb_run_host h _ _ _ _ _ _ E) as (Hh & Et & Er). rewrite He in Hh. cbn [cb failure_threshold reset_seconds] in *.
  assert (host_state h cb = fresh_host) as Hf by done. rewrite Hf in Hh.
  destruct (host_run_failures threshold reset h times fresh_host) as (_ & Ho & Hno); [done..|].
  cbn [fresh_host failures] in Ho. rewrite Z.add_0_l in Ho. fold fresh_host in Ho, Hno.
  rewrite <- Hh in *.
  destruct (allow h now cb') as [b cb2] eqn:Eal.
  pose proof (cb_step_automaton (Allow h now) cb' reg' (Some b) cb2 reg' h) as Ha. cbn [cb_step] in Ha.
  rewrite Eal in Ha. destruct (Ha eq_refl) as (_ & _ & Ha2 & _). specialize (Ha2 eq_refl). clear Ha. rename Ha2 into Ha.
  apply (f_equal fst) in Ha. cbn [fst] in Ha |- *. unfold host_transition in Ha. rewrite Er in Ha. split.
  - intros Hlt. destruct (st_state (host_state h cb')) eqn:Es; cbn [fst] in Ha; simplify_eq; try done.
    pose proof (proj1 Ho eq_refl). lia.
  - intros Hge. apply Ho in Hge. split; [done|]. rewrite Hge in Ha.
    destruct (Qleb_spec reset (now - opened_at (host_state h cb'))); simplify_eq/=; split; try done; lra.
Qed.

(** While a host is open, no request to it is admitted before the cooldown
    has passed: over any history of operations on all hosts whose clock
    readings are below [opened_at + reset_seconds] and in which no success of
    this host is recorded, every [allow] of the host answers [False]. *)
Theorem breaker_cooldown h es cb reg :
  st_state (host_state h cb) = OPEN ->
  Forall (fun e => match e with
                   | Allow x t => x = h -> (t < opened_at (host_state h cb) + reset_seconds cb)%Q
                   | Success x => x <> h
                   | Failure _ _ => True end) es ->
  let '(answers, (cb', _)) := cb_run es (cb, reg) in
  Forall2 (fun e a => match e with Allow x _ => x = h -> a = Some false | _ => True end) es answers /\
  st_state (host_state h cb') = OPEN /\ opened_at (host_state h cb') = opened_at (host_state h cb).
Proof.
  revert cb reg. induction es as [|e es IH]; intros cb reg Ho Hall; cbn [cb_run]; [done|].
  inversion Hall as [|?? He Hes]; subst.
  destruct (cb_step e (cb, reg)) as [a [cb1 reg1]] eqn:E1.
  destruct (cb_step_automaton _ _ _ _ _ _ h E1) as (Et & Er & Hs & Hoth).
  assert (st_state (host_state h cb1) = OPEN /\ opened_at (host_state h cb1) = opened_at (host_state h cb) /\
    (match e with Allow x _ => x = h -> a = Some false | _ => True end)) as (Ho1 & Ha1 & Hans).
  { destruct (decide (event_host e = h)) as [Eh|Hne].
    - specialize (Hs Eh). unfold host_transition in Hs. rewrite Ho in Hs.
      destruct e as [x t|x|x t]; cbn in Eh; subst x; [|by destruct He|].
      + destruct (Qleb_spec (reset_seconds cb) (t - opened_at (host_state h cb))) as [Hle|].
        * exfalso. pose proof (He eq_refl). lra.
        * injection Hs as -> Hs. rewrite Hs. done.
      + injection Hs as -> Hs. rewrite Hs. done.
    - rewrite (Hoth Hne). split_and!; [done..|]. by destruct e. }
  specialize (IH cb1 reg1 Ho1). rewrite Ha1, Er in IH. specialize (IH Hes).
  destruct (cb_run es (cb1, reg1)) as [l [cb2 reg2]]. destruct IH as (? & ? & ?).
  split_and!; [|done|congruence]. by constructor.
Qed.

(** When the threshold-th failure opens a host, and that later failures of the
    open host do not put the cooldown off. *)
Lemma host_run_app threshold reset es1 es2 st :
  host_run threshold reset (es1 ++ es2) st = host_run threshold reset es2 (host_run threshold reset es1 st).
Proof. revert st. induction es1 as [|e es1 IH]; intros st; [done|]. apply IH. Qed.
Lemma open_failures threshold reset h times st : st_state st = OPEN ->
  opened_at (host_run threshold reset (Failure h <$> times) st) = opened_at st.
Proof.
  revert st. induction times as [|t times IH]; intros st Ho; [done|]. rewrite fmap_cons. cbn [host_run].
  unfold host_transition. rewrite Ho. cbn [snd]. by rewrite IH.
Qed.
Lemma opened_at_threshold threshold reset h times : 0 < threshold -> threshold <= Z.of_nat (length times) ->
  times !! Z.to_nat (threshold - 1) = Some (opened_at (host_run threshold reset (Failure h <$> times) fresh_host)).
Proof.
  intros Ht Hle. destruct (lookup_lt_is_Some_2 times (Z.to_nat (threshold - 1))) as [t E]; [lia|]. rewrite E. f_equal.
  rewrite <- (take_drop_middle _ _ _ E), fmap_app, fmap_cons, host_run_app.
  assert (length (take (Z.to_nat (threshold - 1)) times) = Z.to_nat (threshold - 1)) as Hl by (rewrite length_take; lia).
  destruct (host_run_failures threshold reset h (take (Z.to_nat (threshold - 1)) times) fresh_host) as (Hf & Ho & Hh); [done..|].
  rewrite Hl in Hf, Ho. cbn [fresh_host failures] in Hf, Ho. set (st := host_run _ _ (Failure h <$> take _ _) _) in *.
  assert (st_state st = CLOSED) as Hc.
  { destruct (st_state st) eqn:Es; [done| |done]. pose proof (proj1 Ho eq_refl). lia. }
  cbn [host_run]. unfold host_transition at 1. rewrite Hc. destruct (Z.leb_spec threshold (failures st + 1)); [|lia]. cbn [snd].
  by rewrite open_failures.
Qed.

(** The answer of [allow] for an open host. *)
Lemma allow_open h now cb : st_state (host_state h cb) = OPEN ->
  fst (allow h now cb) = Qle_bool (reset_seconds cb) (now - opened_at (host_state h cb)).
Proof.
  intros Ho. destruct (allow h now cb) as [b cb'] eqn:E.
  pose proof (cb_step_automaton (Allow h now) cb ∅ (Some b) cb' ∅ h) as Ha. cbn [cb_step] in Ha. rewrite E in Ha.
  destruct (Ha eq_refl) as (_ & _ & Hs & _). specialize (Hs eq_refl). unfold host_transition in Hs. rewrite Ho in Hs.
  cbn [fst]. by destruct (Qle_bool (reset_seconds cb) _); injection Hs as -> _.
Qed.


(** Half-open is not a single probe: from the first [allow] after the cooldown
    on, every further [allow] is admitted until an outcome is recorded. *)
Lemma half_open_unbounded h t times cb reg :
  st_state (host_state h cb) = OPEN -> (opened_at (host_state h cb) + reset_seconds cb <= t)%Q ->
  fst (cb_run (Allow h <$> t :: times) (cb, reg)) = replicate (S (length times)) (Some true).
Proof.
  intros Ho Ht. rewrite fmap_cons. cbn [cb_run].
  destruct (cb_step (Allow h t) (cb, reg)) as [a [cb1 reg1]] eqn:E1.
  destruct (cb_step_automaton _ _ _ _ _ _ h E1) as (_ & _ & Hs & _). specialize (Hs eq_refl).
  unfold host_transition in Hs. rewrite Ho in Hs.
  destruct (Qleb_spec (reset_seconds cb) (t - opened_at (host_state h cb))); [|lra].
  injection Hs as -> Hs. assert (st_state (host_state h cb1) = HALF_OPEN) as Hh by by rewrite Hs.
  clear -Hh. cbn [replicate].
  enough (fst (cb_run (Allow h <$> times) (cb1, reg1)) = replicate (length times) (Some true)) as E.
  { destruct (cb_run _ _) as [l s]. cbn in *. by rewrite E. }
  revert cb1 reg1 Hh. induction times as [|t times IH]; intros cb1 reg1 Hh; [done|].
  rewrite fmap_cons. cbn [cb_run length replicate].
  destruct (cb_step (Allow h t) (cb1, reg1)) as [a [cb2 reg2]] eqn:E2.
  destruct (cb_step_automaton _ _ _ _ _ _ h E2) as (_ & _ & Hs & _). specialize (Hs eq_refl).
  unfold host_transition in Hs. rewrite Hh in Hs. injection Hs as -> Hs.
  specialize (IH cb2 reg2). rewrite Hs in IH. specialize (IH Hh).
  destruct (cb_run _ _) as [l s]. cbn in *. by rewrite IH.
Qed.

(** ** Concrete instances *)

Definition breaker2 : CircuitBreaker := mkBreaker 2 30 ∅.
Definition tripping : list event := [Failure "a" 1; Failure "b" 1; Failure "a" 2].
Definition tripped : CircuitBreaker := Eval vm_compute in fst (snd (cb_run tripping (breaker2, ∅))).

Lemma breaker_trips_witness :
  fst (allow "a" 31 (fst (snd (cb_run tripping (breaker2, ∅))))) = false.
Proof.
  apply (breaker_trips 2 30 breaker2 ∅ tripping [1; 2]%Q "a" 31).
  - reflexivity.
  - reflexivity.
  - vm_compute. congruence.
  - vm_compute. reflexivity.
Defined.


Lemma breaker_cooldown_witness :
  Forall2 (fun e a => match e with Allow x _ => x = "a" -> a = Some false | _ => True end)
    [Allow "a" 3; Allow "b" 99; Allow "a" 31]
    (fst (cb_run [Allow "a" 3; Allow "b" 99; Allow "a" 31] (tripped, ∅))).
Proof.
  pose proof (breaker_cooldown "a" [Allow "a" 3; Allow "b" 99; Allow "a" 31] tripped ∅ eq_refl) as H.
  apply H. constructor; [intros _; vm_compute; reflexivity|].
  constructor; [intros E; discriminate E|]. constructor; [intros _; vm_compute; reflexivity|]. constructor.
Defined.

(** A success reported late, by a fetch that started before the breaker
    opened, closes it within the cooldown. *)
Example late_success_closes :
  fst (cb_run [Success "a"; Allow "a" 3] (tripped, ∅)) = [None; Some true].
Proof. reflexivity. Qed.

(** The gauge is not refreshed when the cooldown ends: it still counts the
    half-open host as open. *)
Example gauge_stale_half_open :
  let s := snd (cb_run (tripping ++ [Allow "a" 32]) (breaker2, ∅)) in
  sample CIRCUIT_STATE (snd s) = 1 /\ open_count (fst s) = 0.
Proof. split; reflexivity. Qed.
