(* ===== verification/Budget.v ===== *)
(** * Per-domain crawl budgets ([crawler/resilience/budget.py])

    The worker charges a budget through the protocol [DomainBudget].  The
    in-memory budget is a finite map of pages used; the Redis budget is an
    INCRBY counter of a server, whose commands may fail ([RedisCounters], a
    parameter with its documented laws).

    [budget_spec] gives every answer of the in-memory budget over any history;
    [redis_budget_simulates] shows that the Redis budget grants the same
    requests when every request costs one, as the worker's do. *)
From S2P Require Import Prelude PyStr Models.
Local Open Scope Z_scope.

(** The protocol: the answer, the new budget and the metrics. *)
Class DomainBudget (B : Type) := {
  try_consume : string -> Z -> B -> registry -> bool * B * registry;
  remaining : string -> B -> result Z }.

Record InMemoryDomainBudget : Type := mkBudget { mb_limit : Z; mb_used : gmap string Z }.

Definition used (domain : string) (b : InMemoryDomainBudget) : Z := default 0 (mb_used b !! domain).

#[export] Instance in_memory_budget : DomainBudget InMemoryDomainBudget := {|
  try_consume := fun domain cost b reg =>
    if mb_limit b <=? 0 then (true, b, reg)
    else
      let u := used domain b in
      if mb_limit b <? u + cost then (false, b, inc BUDGET_EXHAUSTED 1 reg)
      else (true, mkBudget (mb_limit b) (<[domain := u + cost]> (mb_used b)), reg);
  remaining := fun domain b =>
    if mb_limit b <=? 0 then Ok (-1) else Ok (Z.max 0 (mb_limit b - used domain b)) |}.

(** INCRBY and GET on a Redis server; [None] when the command fails. *)
Class RedisCounters (R : Type) := {
  incrby : string -> Z -> R -> option Z * R;
  rget : string -> R -> option (option string) }.

Record RedisDomainBudget : Type := mkRedisBudget { rd_budget_namespace : string; rd_limit : Z }.

Definition budget_key (b : RedisDomainBudget) (domain : string) : string :=
  rd_budget_namespace b +:+ ":" +:+ domain.

(** [int(raw) if raw is not None else 0], outside the [try]. *)
Definition counter_value (raw : option string) : result Z :=
  match raw with Some s => int_of_text s | None => Ok 0 end.

#[export] Instance redis_budget `{RedisCounters R} : DomainBudget (RedisDomainBudget * R) := {|
  try_consume := fun domain cost br reg =>
    let '(b, r) := br in
    if rd_limit b <=? 0 then (true, br, reg)
    else
      match incrby (budget_key b domain) cost r with
      | (None, r') => (true, (b, r'), reg)
      | (Some u, r') =>
          if rd_limit b <? u then (false, (b, r'), inc BUDGET_EXHAUSTED 1 reg) else (true, (b, r'), reg)
      end;
  remaining := fun domain br =>
    let '(b, r) := br in
    if rd_limit b <=? 0 then Ok (-1)
    else match rget (budget_key b domain) r with
         | None => Ok (-1)
         | Some raw => let* used := counter_value raw in Ok (Z.max 0 (rd_limit b - used))
         end |}.

(** ** Histories of requests *)

Fixpoint run_budget `{DomainBudget B} (reqs : list (string * Z)) (b : B) (reg : registry) :
    list bool * (B * registry) :=
  match reqs with
  | [] => ([], (b, reg))
  | (domain, cost) :: rest =>
      let '(a, b1, reg1) := try_consume domain cost b reg in
      let '(l, s) := run_budget rest b1 reg1 in (a :: l, s)
  end.

(** The specification: a request is granted when the granted costs of its
    domain so far leave room for it. *)
Fixpoint spec_answers (limit : Z) (reqs : list (string * Z)) (u : string -> Z) : list bool :=
  match reqs with
  | [] => []
  | (domain, cost) :: rest =>
      if u domain + cost <=? limit
      then true :: spec_answers limit rest (fun d => if decide (d = domain) then u domain + cost else u d)
      else false :: spec_answers limit rest u
  end.

(** The costs granted to a domain. *)
Fixpoint granted (domain : string) (reqs : list (string * Z)) (answers : list bool) : Z :=
  match reqs, answers with
  | (d, cost) :: rest, a :: answers' =>
      (if a && bool_decide (d = domain) then cost else 0) + granted domain rest answers'
  | _, _ => 0
  end.

Lemma spec_answers_ext limit reqs u u' :
  (forall d, u d = u' d) -> spec_answers limit reqs u = spec_answers limit reqs u'.
Proof.
  revert u u'. induction reqs as [|[d c] reqs IH]; intros u u' E; [done|]. cbn. rewrite E.
  destruct (u' d + c <=? limit); f_equal; apply IH; [|done].
  intros x. case_decide; [done|apply E].
Qed.

Lemma used_insert d d' n b :
  used d (mkBudget (mb_limit b) (<[d' := n]> (mb_used b))) = if decide (d = d') then n else used d b.
Proof.
  unfold used. cbn. case_decide as E; [subst; by rewrite lookup_insert_eq|by rewrite lookup_insert_ne].
Qed.

Lemma run_budget_spec reqs b reg : 0 < mb_limit b ->
  let '(l, (b', reg')) := run_budget reqs b reg in
  l = spec_answers (mb_limit b) reqs (fun d => used d b) /\
  mb_limit b' = mb_limit b /\ (forall d, used d b' = used d b + granted d reqs l) /\
  sample BUDGET_EXHAUSTED reg' = sample BUDGET_EXHAUSTED reg + Z.of_nat (count_occ bool_dec l false).
Proof.
  revert b reg. induction reqs as [|[d c] reqs IH]; intros b reg Hl.
  { cbn. split_and!; [done|done|intros; lia|lia]. }
  cbn [run_budget try_consume in_memory_budget spec_answers].
  destruct (Z.leb_spec (mb_limit b) 0); [lia|].
  destruct (Z.ltb_spec (mb_limit b) (used d b + c)), (Z.leb_spec (used d b + c) (mb_limit b)); try lia.
  - specialize (IH b (inc BUDGET_EXHAUSTED 1 reg) Hl).
    destruct (run_budget reqs b _) as [l [b' reg']]. destruct IH as (-> & ? & Hu & Hs).
    cbn [granted andb]. split_and!; [done|done|intros; rewrite Hu; lia|].
    rewrite Hs, sample_inc. cbn [count_occ]. destruct (bool_dec false false); [lia|done].
  - set (b1 := mkBudget _ _). specialize (IH b1 reg Hl).
    destruct (run_budget reqs b1 _) as [l [b' reg']]. destruct IH as (E & ? & Hu & Hs).
    cbn [granted andb]. split_and!; [|done| |].
    + rewrite E. f_equal. apply spec_answers_ext. intros x. unfold b1. rewrite used_insert. by case_decide.
    + intros x. rewrite Hu. unfold b1. rewrite used_insert.
      case_decide; subst; [rewrite bool_decide_eq_true_2 by done|rewrite bool_decide_eq_false_2 by congruence]; lia.
    + rewrite Hs. cbn [count_occ]. destruct (bool_dec true false); [done|lia].
Qed.

Lemma granted_bound limit reqs u d :
  u d <= limit -> Forall (fun r => 0 <= snd r) reqs ->
  u d + granted d reqs (spec_answers limit reqs u) <= limit.
Proof.
  revert u. induction reqs as [|[x c] reqs IH]; intros u Hu Hc; cbn [spec_answers]; [cbn; lia|].
  inversion Hc; subst. destruct (Z.leb_spec (u x + c) limit).
  - cbn [granted andb]. set (u' := fun y => _).
    specialize (IH u'). unfold u' in IH at 1 2. case_bool_decide as E.
    + subst x. rewrite decide_True in IH by done. specialize (IH ltac:(lia) ltac:(done)). lia.
    + rewrite decide_False in IH by congruence. specialize (IH ltac:(lia) ltac:(done)). lia.
  - cbn [granted andb]. specialize (IH u ltac:(lia) ltac:(done)). lia.
Qed.

(** On a fresh in-memory budget with a positive limit, over any history of
    requests with non-negative costs: a request is granted exactly when the
    costs granted to its domain so far plus its own stay within the limit, so
    no domain is ever granted more than the limit; [remaining] is what is left
    of it, and the exhaustion counter counts the refusals.  A limit of zero or
    less grants everything. *)
Theorem budget_spec limit reqs reg :
  Forall (fun r => 0 <= snd r) reqs ->
  let '(l, (b', reg')) := run_budget reqs (mkBudget limit ∅) reg in
  if limit <=? 0 then l = replicate (length reqs) true /\ (forall d, remaining d b' = Ok (-1))
  else l = spec_answers limit reqs (fun _ => 0) /\
    (forall d, granted d reqs l <= limit /\ remaining d b' = Ok (limit - granted d reqs l)) /\
    sample BUDGET_EXHAUSTED reg' = sample BUDGET_EXHAUSTED reg + Z.of_nat (count_occ bool_dec l false).
Proof.
  intros Hc. destruct (Z.leb_spec limit 0) as [Hle|Hlt].
  - assert (run_budget reqs (mkBudget limit ∅) reg = (replicate (length reqs) true, (mkBudget limit ∅, reg))) as ->.
    { clear Hc. induction reqs as [|[d c] reqs IH]; [done|]. cbn [run_budget try_consume in_memory_budget mb_limit].
      destruct (Z.leb_spec limit 0); [|lia]. by rewrite IH. }
    split; [done|]. intros d. cbn. by destruct (Z.leb_spec limit 0); [|lia].
  - pose proof (run_budget_spec reqs (mkBudget limit ∅) reg Hlt) as Hr.
    destruct (run_budget reqs (mkBudget limit ∅) reg) as [l [b' reg']].
    destruct Hr as (El & Eb & Hu & Hs). cbn [mb_limit] in *. split; [done|]. split; [|done].
    intros d. assert (used d (mkBudget limit ∅) = 0) as U0 by done.
    pose proof (granted_bound limit reqs (fun d => used d (mkBudget limit ∅)) d) as Hg.
    cbv beta in Hg. rewrite <- El, U0 in Hg. specialize (Hg ltac:(lia) Hc).
    split; [lia|]. cbn [remaining in_memory_budget]. rewrite Eb, Hu, U0.
    destruct (Z.leb_spec limit 0); [lia|]. f_equal. lia.
Qed.

(** ** The Redis budget *)

(** INCRBY adds to the counter (absent is 0) and returns it; no failure. *)
Class RedisCountersLaws (R : Type) `{RedisCounters R} := {
  counter : string -> R -> Z;
  incrby_ok k n r : exists r', incrby k n r = (Some (counter k r + n), r') /\
    counter k r' = counter k r + n /\ (forall k', k' <> k -> counter k' r' = counter k' r) }.

Section RedisBudget.
Context `{RedisCountersLaws R}.

Lemma budget_key_inj b d d' : budget_key b d = budget_key b d' -> d = d'.
Proof. unfold budget_key. intros E%append_inj_l. by injection E. Qed.

(** Requests of cost one (the only cost the worker uses) get from the Redis
    budget the answers of the in-memory one with the same limit, when the
    server answers and its counters start at zero, whatever the order and the
    domains. *)
Theorem redis_budget_simulates ns limit domains r reg :
  (forall d, counter (budget_key (mkRedisBudget ns limit) d) r = 0) ->
  fst (run_budget ((fun d => (d, 1)) <$> domains) (mkRedisBudget ns limit, r) reg) =
  fst (run_budget ((fun d => (d, 1)) <$> domains) (mkBudget limit ∅) reg).
Proof.
  intros Hz. set (b := mkRedisBudget ns limit) in *.
  enough (forall domains m r reg reg', mb_limit m = limit ->
    (forall d, (counter (budget_key b d) r = used d m /\ used d m <= limit) \/
               (limit <= used d m /\ limit < counter (budget_key b d) r)) ->
    fst (run_budget ((fun d => (d, 1)) <$> domains) (b, r) reg) =
    fst (run_budget ((fun d => (d, 1)) <$> domains) m reg')) as Hgen.
  { destruct (Z.leb_spec limit 0) as [Hle|Hlt].
    - clear Hgen Hz. revert r reg. generalize (mkBudget limit ∅), (eq_refl : mb_limit (mkBudget limit ∅) = limit).
      intros m Hm. induction domains as [|d domains IH]; intros r reg; [done|].
      rewrite fmap_cons. cbn [run_budget try_consume redis_budget in_memory_budget b rd_limit].
      rewrite Hm. destruct (Z.leb_spec limit 0); [|lia]. specialize (IH r reg). unfold b in IH.
      destruct (run_budget _ _ _), (run_budget _ _ _). cbn in *. by rewrite IH.
    - apply Hgen; [done|]. intros d. left. rewrite Hz. change (used d (mkBudget limit ∅)) with 0. lia. }
  clear r reg Hz domains.
  induction domains as [|d domains IH]; intros m r reg reg' Hm Hinv; [done|].
  rewrite fmap_cons. cbn [run_budget try_consume redis_budget in_memory_budget b rd_limit]. fold b. rewrite Hm.
  destruct (Z.leb_spec limit 0).
  { specialize (IH m r reg reg' Hm Hinv). unfold b in *.
    destruct (run_budget _ _ _), (run_budget _ _ _). cbn in *. by rewrite IH. }
  destruct (incrby_ok (budget_key b d) 1 r) as (r' & -> & Hr' & Ho).
  pose proof (Hinv d) as Hd.
  destruct (Z.ltb_spec limit (counter (budget_key b d) r + 1)) as [Hx|Hx],
    (Z.ltb_spec limit (used d m + 1)) as [Hy|Hy]; try lia.
  - specialize (IH m r' (inc BUDGET_EXHAUSTED 1 reg) (inc BUDGET_EXHAUSTED 1 reg') Hm).
    destruct (run_budget _ (b, r') _), (run_budget _ m _). cbn [fst] in *. rewrite IH; [done|].
    intros x. destruct (decide (x = d)) as [->|Hne]; [rewrite Hr'; lia|].
    rewrite Ho; [apply Hinv|]. intros ?%budget_key_inj. done.
  - specialize (IH (mkBudget limit (<[d := used d m + 1]> (mb_used m))) r' reg reg' eq_refl).
    destruct (run_budget _ (b, r') _), (run_budget _ (mkBudget _ _) _). cbn [fst] in *. rewrite IH; [done|].
    intros x. rewrite <- Hm, used_insert. case_decide as E; [subst; rewrite Hr'; lia|].
    rewrite Ho; [rewrite Hm; apply Hinv|]. intros ?%budget_key_inj. done.
Qed.

End RedisBudget.

(** ** Concrete instances *)

Lemma budget_spec_witness :
  let reqs := [("a", 1); ("a", 1); ("b", 1); ("a", 1); ("b", 2)] in
  fst (run_budget reqs (mkBudget 2 ∅) ∅) = spec_answers 2 reqs (fun _ => 0) /\
  spec_answers 2 reqs (fun _ => 0) = [true; true; true; false; false].
Proof.
  split; [|reflexivity].
  pose proof (budget_spec 2 [("a", 1); ("a", 1); ("b", 1); ("a", 1); ("b", 2)] ∅) as H.
  apply H. repeat (constructor; [cbn; lia|]). constructor.
Defined.

Definition map_counters : RedisCounters (gmap string Z) := {|
  incrby := fun k n r => let v := default 0 (r !! k) + n in (Some v, <[k := v]> r);
  rget := fun k r => Some (pretty <$> r !! k) |}.
Definition map_counters_laws : @RedisCountersLaws _ map_counters.
Proof.
  refine (@Build_RedisCountersLaws _ map_counters (fun k r => default 0 (r !! k)) _).
  intros k n r. eexists. split; [reflexivity|]. split; [by rewrite lookup_insert_eq|].
  intros k' Hne. by rewrite lookup_insert_ne.
Defined.

Lemma redis_budget_simulates_witness :
  fst (@run_budget _ (@redis_budget _ map_counters) [("a", 1); ("a", 1); ("a", 1)]
         (mkRedisBudget "budget:domain" 2, ∅) ∅) = [true; true; false].
Proof.
  exact (@redis_budget_simulates _ map_counters map_counters_laws "budget:domain" 2 ["a"; "a"; "a"] ∅ ∅
           (fun _ => eq_refl)).
Defined.

(** For costs above one the two differ: a refused request still consumes the
    Redis counter. *)
Example redis_budget_cost_two : let _ := map_counters in
  fst (run_budget [("a", 4); ("a", 2); ("a", 1)] (mkBudget 5 ∅) ∅) = [true; false; true] /\
  fst (@run_budget _ (@redis_budget _ map_counters) [("a", 4); ("a", 2); ("a", 1)]
         (mkRedisBudget "budget:domain" 5, ∅) ∅) = [true; false; false].
Proof. split; reflexivity. Qed.
