(* ===== verification/Backpressure.v ===== *)
(** * Global back-pressure ([crawler/resilience/backpressure.py])

    [asyncio.Semaphore] as a counter; the tasks that use [async with
    Backpressure] as a transition system: a task waits, enters when the
    counter is positive, and leaves.  [backpressure_bound]: never more than
    [limit] tasks inside, [in_flight] counts them, and a free slot admits any
    waiting task. *)
From S2P Require Import Prelude.
Local Open Scope Z_scope.

Record Backpressure : Type := mkPressure { limit : Z; sem_value : Z }.

Definition new_backpressure (limit : Z) : result Backpressure :=
  if limit <=? 0 then Raise ValueError else Ok (mkPressure limit limit).

Definition in_flight (b : Backpressure) : Z := limit b - sem_value b.

(** [__aenter__]: [Semaphore.acquire], blocked ([None]) at zero. *)
Definition aenter (b : Backpressure) : option Backpressure :=
  if 0 <? sem_value b then Some (mkPressure (limit b) (sem_value b - 1)) else None.

(** [__aexit__]: [Semaphore.release], on every way out of the body. *)
Definition aexit (b : Backpressure) : Backpressure := mkPressure (limit b) (sem_value b + 1).

(** The tasks waiting at [async with] and those inside its body. *)
Record system : Type := mkSystem { pressure : Backpressure; waiting : gset nat; inside : gset nat }.

Inductive step : system -> system -> Prop :=
| step_arrive t s : t ∉ waiting s -> t ∉ inside s ->
    step s (mkSystem (pressure s) ({[t]} ∪ waiting s) (inside s))
| step_enter t s b : t ∈ waiting s -> aenter (pressure s) = Some b ->
    step s (mkSystem b (waiting s ∖ {[t]}) ({[t]} ∪ inside s))
| step_leave t s : t ∈ inside s ->
    step s (mkSystem (aexit (pressure s)) (waiting s) (inside s ∖ {[t]})).

Definition initial (b : Backpressure) : system := mkSystem b ∅ ∅.

Definition inv (n : Z) (s : system) : Prop :=
  limit (pressure s) = n /\ in_flight (pressure s) = Z.of_nat (size (inside s)) /\
  0 <= sem_value (pressure s) /\ waiting s ## inside s.

Lemma inv_step n s s' : inv n s -> step s s' -> inv n s'.
Proof.
  intros (Hl & Hf & Hs & Hd) Hst. unfold in_flight in *.
  destruct Hst as [t s Ht1 Ht2|t s b Ht Ha|t s Ht]; unfold inv, in_flight; cbn in *.
  - split_and!; [done..|set_solver].
  - unfold aenter in Ha. destruct (Z.ltb_spec 0 (sem_value (pressure s))); simplify_eq/=.
    rewrite size_union by set_solver. rewrite size_singleton. split_and!; [done|lia|lia|set_solver].
  - assert (inside s = {[t]} ∪ inside s ∖ {[t]}) as E by (apply union_difference_L; set_solver).
    rewrite E, size_union, size_singleton in Hf by set_solver.
    split_and!; [done|lia|lia|set_solver].
Qed.

Lemma inv_reachable n s s' : rtc step s s' -> inv n s -> inv n s'.
Proof. apply rtc_invariant. eauto using inv_step. Qed.

(** In every reachable state of a back-pressure of [n] slots, [in_flight]
    is the number of tasks inside, between 0 and [n]; and when fewer than [n]
    are inside, any waiting task can enter. *)
Theorem backpressure_bound n b s :
  new_backpressure n = Ok b -> rtc step (initial b) s ->
  in_flight (pressure s) = Z.of_nat (size (inside s)) /\
  0 <= in_flight (pressure s) <= n /\
  (in_flight (pressure s) < n -> forall t, t ∈ waiting s ->
     exists s', step s s' /\ t ∈ inside s' /\ inside s ⊆ inside s').
Proof.
  unfold new_backpressure. destruct (Z.leb_spec n 0); intros [= <-] Hr.
  assert (inv n s) as (Hl & Hf & Hs & _).
  { apply (inv_reachable n _ _ Hr). unfold inv, in_flight, initial.
    cbn [pressure inside waiting limit sem_value].
    rewrite size_empty. split_and!; [done|lia|lia|set_solver]. }
  split; [done|]. unfold in_flight in *. split; [lia|]. intros Hlt t Ht.
  eexists. split; [eapply (step_enter t s); [done|]|].
  - unfold aenter. destruct (Z.ltb_spec 0 (sem_value (pressure s))); [done|lia].
  - cbn. set_solver.
Qed.

Lemma backpressure_bound_witness :
  in_flight (mkPressure 2 1) = 1 /\
  exists s', step (mkSystem (mkPressure 2 1) {[8%nat]} {[7%nat]}) s' /\ (8%nat) ∈ inside s'.
Proof.
  destruct (backpressure_bound 2 (mkPressure 2 2) (mkSystem (mkPressure 2 1) {[8%nat]} {[7%nat]}))
    as (E & _ & Hp).
  - reflexivity.
  - eapply rtc_l.
    { apply (step_arrive 7%nat); vm_compute; intros X; inversion X. }
    eapply rtc_l.
    { apply (step_arrive 8%nat); [|vm_compute; intros X; inversion X].
      cbn. intros X. apply elem_of_union in X as [X|X]; [|by apply elem_of_empty in X].
      apply elem_of_singleton in X. discriminate X. }
    eapply rtc_l.
    { apply (step_enter 7%nat _ (mkPressure 2 1)); [|reflexivity]. cbn.
      apply elem_of_union_r, elem_of_union_l, elem_of_singleton. reflexivity. }
    match goal with |- rtc _ ?a ?b => replace a with b; [apply rtc_refl|] end.
    vm_compute. reflexivity.
  - split; [reflexivity|]. destruct (Hp ltac:(reflexivity) 8%nat) as (s' & Hst & Hi & _).
    + cbn. apply elem_of_singleton. reflexivity.
    + exists s'. split; [exact Hst|exact Hi].
Defined.
