(* ===== verification/RateLimit.v ===== *)
(** * Per-host rate limiting ([crawler/ratelimit/])

    The token bucket of [LocalRateLimiter] and the one of [token_bucket.lua]
    with its client [RedisRateLimiter].  Times are exact rationals (seconds);
    [asyncio.sleep(w)] returns after at least [w] seconds, the excess of the
    [i]-th sleep being the parameter [over i].  The per-host lock of the local
    limiter makes the iterations of one [acquire] contiguous (its concurrent
    callers are in [Acquirers]); the Lua script is atomic.

    [local_rate_bound] and [call_grants_bound]: over any window at most
    [capacity + rate * window] requests of a host are granted.
    [local_acquire_returns] and [redis_acquire_returns]: [acquire] returns
    after at most one sleep.  [lua_clock_skew] shows that the bound of the
    shared bucket needs the workers' clocks to agree. *)
From S2P Require Import Prelude PyStr Models.
Local Open Scope Z_scope.

(** [min(capacity, tokens + elapsed * refill)], common to both buckets. *)
Definition refill (capacity tokens elapsed rate : Q) : Q := py_min capacity (tokens + elapsed * rate).

(** ** [class LocalRateLimiter] *)

Record LocalRateLimiter : Type := mkLocal { ll_capacity : Q; ll_state : gmap string (Q * Q) }.

(** One iteration of the loop at clock reading [now]: the wait, or [None] when
    the request is granted. *)
Definition local_try (host : string) (rate now : Q) (l : LocalRateLimiter) : option Q * LocalRateLimiter :=
  let '(tokens, ts) := default (ll_capacity l, now) (ll_state l !! host) in
  let tokens := refill (ll_capacity l) tokens (now - ts) rate in
  if Qle_bool 1 tokens
  then (None, mkLocal (ll_capacity l) (<[host := (tokens - 1, now)%Q]> (ll_state l)))
  else (Some ((1 - tokens) / rate)%Q, mkLocal (ll_capacity l) (<[host := (tokens, now)]> (ll_state l))).

(** [acquire]: the time it returns at, with at most [fuel] iterations. *)
Fixpoint local_acquire_loop (fuel : nat) (host : string) (rate now : Q) (over : nat -> Q) (i : nat)
    (l : LocalRateLimiter) (reg : registry) : option (Q * LocalRateLimiter * registry) :=
  match fuel with
  | O => None
  | S fuel' =>
      match local_try host rate now l with
      | (None, l') => Some (now, l', reg)
      | (Some wait, l') =>
          local_acquire_loop fuel' host rate (now + wait + over i) over (S i) l' (inc RATE_LIMIT_WAITS 1 reg)
      end
  end.

Definition local_acquire (fuel : nat) (host : string) (rate now : Q) (over : nat -> Q)
    (l : LocalRateLimiter) (reg : registry) : option (Q * LocalRateLimiter * registry) :=
  if Qle_bool rate 0 then Some (now, l, reg) else local_acquire_loop fuel host rate now over 0 l reg.

(** ** [token_bucket.lua] *)

(** The hash commands of the server on a bucket's two fields, and the key's
    time to live. *)
Class RedisBuckets (R : Type) := {
  hmget : string -> R -> option (Q * Z);
  hset : string -> Q -> Z -> R -> R;
  pexpire : string -> Z -> R -> R }.

(** What the commands do at the moment they run: fields keep the numbers
    written to them, and a positive time to live changes no field yet.  A state
    in which time passes, and keys are dropped at their deadlines, is
    [Expiry.ExpiringBuckets]; results from these laws alone are about calls
    between which no key of theirs expires. *)
Class RedisBucketsLaws (R : Type) `{RedisBuckets R} := {
  hmget_hset k t ts r : hmget k (hset k t ts r) = Some (t, ts);
  hmget_hset_ne k k' t ts r : k <> k' -> hmget k (hset k' t ts r) = hmget k r;
  hmget_pexpire k k' ms r : 0 < ms -> hmget k (pexpire k' ms r) = hmget k r }.

Section Lua.
Context `{RedisBuckets R}.

(** The script: [(allowed, wait_ms)]. *)
Definition token_bucket (key : string) (capacity refill_per_sec : Q) (now_ms : Z) (requested : Q)
    (ttl_ms : Z) (r : R) : Z * Z * R :=
  let '(tokens, ts) := default (capacity, now_ms) (hmget key r) in
  let elapsed := (inject_Z (Z.max 0 (now_ms - ts)) / 1000)%Q in
  let tokens := refill capacity tokens elapsed refill_per_sec in
  let '(tokens, allowed, wait_ms) :=
    if Qle_bool requested tokens then ((tokens - requested)%Q, 1, 0)
    else (tokens, 0, py_ceil ((requested - tokens) / refill_per_sec * 1000)) in
  (allowed, wait_ms, pexpire key ttl_ms (hset key tokens now_ms r)).

(** ** [class RedisRateLimiter] *)

Record RedisRateLimiter : Type := mkRedisLimiter {
  rl_capacity : Q; rl_ttl_ms : Z; rl_max_wait_seconds : Q }.

Definition default_redis_limiter : RedisRateLimiter := mkRedisLimiter 1 3600000 10.

(** [acquire] at time [now] (seconds); [up i] tells whether the [i]-th script
    call reaches the server, a failing one letting the request through. *)
Fixpoint redis_acquire_loop (fuel : nat) (l : RedisRateLimiter) (host : string) (rate now : Q)
    (up : nat -> bool) (over : nat -> Q) (i : nat) (r : R) (reg : registry) : option (Q * R * registry) :=
  match fuel with
  | O => None
  | S fuel' =>
      let now_ms := py_int (now * 1000) in
      if up i then
        let '(allowed, wait_ms, r') :=
          token_bucket ("rl:" +:+ host) (rl_capacity l) rate now_ms 1 (rl_ttl_ms l) r in
        if allowed =? 1 then Some (now, r', reg)
        else redis_acquire_loop fuel' l host rate
               (now + py_min (inject_Z wait_ms / 1000) (rl_max_wait_seconds l) + over i)
               up over (S i) r' (inc RATE_LIMIT_WAITS 1 reg)
      else Some (now, r, reg)
  end.

Definition redis_acquire (fuel : nat) (l : RedisRateLimiter) (host : string) (rate now : Q)
    (up : nat -> bool) (over : nat -> Q) (r : R) (reg : registry) : option (Q * R * registry) :=
  if Qle_bool rate 0 then Some (now, r, reg) else redis_acquire_loop fuel l host rate now up over 0 r reg.

End Lua.

(** ** The bucket *)

Lemma refill_le_capacity c t e r : (refill c t e r <= c)%Q.
Proof. unfold refill. qsolve. Qed.

Lemma refill_nonneg c t e r : (0 <= c)%Q -> (0 <= t)%Q -> (0 <= e)%Q -> (0 <= r)%Q -> (0 <= refill c t e r)%Q.
Proof. intros. unfold refill. pose proof (Qmult_le_0_compat e r). qsolve; nra. Qed.

Lemma refill_le c t e r rmax : (0 <= e)%Q -> (r <= rmax)%Q -> (refill c t e r <= t + e * rmax)%Q.
Proof. intros. unfold refill. assert (e * r <= e * rmax)%Q by nra. qsolve. Qed.

(** After [e >= (1 - t) / r] seconds a bucket of capacity at least one holds a
    token. *)
Lemma refill_enough c t e r : (1 <= c)%Q -> (0 < r)%Q -> ((1 - t) / r <= e)%Q -> (1 <= refill c t e r)%Q.
Proof.
  intros Hc Hr He. unfold refill. assert (1 - t <= e * r)%Q; [|qsolve].
  apply (Qmult_le_compat_r _ _ r) in He; [|lra].
  assert ((1 - t) / r * r == 1 - t)%Q as E by (field; intros E; lra). lra.
Qed.

(** A trial: host, refill rate and clock reading (seconds). *)
Record trial : Type := mkTrial { tr_host : string; tr_rate : Q; tr_now : Q }.

Fixpoint run_trials (ts : list trial) (l : LocalRateLimiter) : list bool * LocalRateLimiter :=
  match ts with
  | [] => ([], l)
  | t :: ts' =>
      let '(w, l1) := local_try (tr_host t) (tr_rate t) (tr_now t) l in
      let '(bs, l2) := run_trials ts' l1 in
      (match w with None => true | Some _ => false end :: bs, l2)
  end.

(** The granted trials of a host. *)
Fixpoint grants (h : string) (ts : list trial) (bs : list bool) : Z :=
  match ts, bs with
  | t :: ts', b :: bs' => (if b && bool_decide (tr_host t = h) then 1 else 0) + grants h ts' bs'
  | _, _ => 0
  end.

(** Clock readings never go back, and stay in [t0, t1]; the rates of [h] are
    at most [rmax]. *)
Fixpoint timed (h : string) (rmax t0 t1 : Q) (ts : list trial) : Prop :=
  match ts with
  | [] => (t0 <= t1)%Q
  | t :: ts' => (t0 <= tr_now t)%Q /\ (tr_host t = h -> 0 <= tr_rate t /\ tr_rate t <= rmax)%Q /\
                timed h rmax (tr_now t) t1 ts'
  end.

Lemma timed_le h rmax t0 t1 ts : timed h rmax t0 t1 ts -> (t0 <= t1)%Q.
Proof. revert t0. induction ts as [|t ts IH]; intros t0; cbn; [done|]. intros (? & _ & ?%IH). lra. Qed.

(** The host's bucket as seen at time [now]. *)
Definition tokens_at (l : LocalRateLimiter) (h : string) (now : Q) : Q * Q :=
  default (ll_capacity l, now) (ll_state l !! h).

Lemma local_try_spec host rate now l w l' :
  local_try host rate now l = (w, l') ->
  let t := refill (ll_capacity l) (fst (tokens_at l host now)) (now - snd (tokens_at l host now)) rate in
  ll_capacity l' = ll_capacity l /\
  (forall h, h <> host -> ll_state l' !! h = ll_state l !! h) /\
  ((1 <= t)%Q /\ w = None /\ ll_state l' !! host = Some ((t - 1)%Q, now) \/
   (t < 1)%Q /\ w = Some ((1 - t) / rate)%Q /\ ll_state l' !! host = Some (t, now)).
Proof.
  unfold local_try, tokens_at. destruct (default _ _) as [tok ts]. cbn [fst snd].
  destruct (Qleb_spec 1 (refill (ll_capacity l) tok (now - ts) rate)); intros [= <- <-]; cbn;
    (split; [done|]); (split; [intros; by rewrite lookup_insert_ne|]); rewrite lookup_insert_eq;
    [by left|right; split_and!; [lra|done|done]].
Qed.

(** The potential argument: the grants to come are paid by the tokens held and
    by the refill until the end of the window. *)
Lemma grants_bound h rmax t1 ts l t0 tok last :
  (0 <= rmax)%Q -> (0 <= ll_capacity l)%Q -> timed h rmax t0 t1 ts ->
  (ll_state l !! h = Some (tok, last) /\ last <= t0 \/
   ll_state l !! h = None /\ tok == ll_capacity l /\ last == t0)%Q -> (0 <= tok)%Q ->
  (inject_Z (grants h ts (fst (run_trials ts l))) <= tok + rmax * (t1 - last))%Q.
Proof.
  intros Hr. revert l t0 tok last. induction ts as [|t ts IH]; intros l t0 tok last Hc Ht Hl Htok; cbn [run_trials].
  { cbn [timed] in Ht. cbn. change (inject_Z 0) with 0%Q. assert (last <= t1)%Q by (destruct Hl as [[_ ?]|(_ & _ & ?)]; lra). nra. }
  destruct Ht as (Ht0 & Hrate & Ht).
  destruct (local_try (tr_host t) (tr_rate t) (tr_now t) l) as [w l'] eqn:Ew.
  destruct (local_try_spec _ _ _ _ _ _ Ew) as (Ec & Ho & Hcase). cbv zeta in Hcase.
  specialize (IH l' (tr_now t)). rewrite Ec in IH.
  destruct (run_trials ts l') as [bs l2]. cbn [fst grants] in *. clear Ew.
  destruct (decide (tr_host t = h)) as [Eh|Hne]; cycle 1.
  { rewrite bool_decide_eq_false_2 by done. rewrite andb_false_r, Z.add_0_l.
    rewrite <- (Ho h) in Hl by congruence.
    destruct Hl as [[El Hle]|(El & Et & Ela)].
    - apply IH; [done..| |done]. left. split; [done|lra].
    - pose proof (timed_le _ _ _ _ _ Ht). eapply Qle_trans; [apply (IH tok (tr_now t)); [done..| |done]|nra].
      right. split_and!; [done|done|apply Qeq_refl]. }
  rewrite bool_decide_eq_true_2, andb_true_r by done. destruct (Hrate Eh) as [Hr0 Hr1]. subst h.
  set (T := refill _ _ _ _) in *.
  assert (0 <= T /\ T + rmax * (t1 - tr_now t) <= tok + rmax * (t1 - last))%Q as [HT0 HT].
  { unfold T, tokens_at. destruct Hl as [[-> Hle]|(-> & Et & Ela)]; cbn [default from_option id fst snd].
    - split; [apply refill_nonneg; lra|].
      pose proof (refill_le (ll_capacity l) tok (tr_now t - last) (tr_rate t) rmax ltac:(lra) Hr1). lra.
    - split; [apply refill_nonneg; lra|].
      pose proof (refill_le_capacity (ll_capacity l) (ll_capacity l) (tr_now t - tr_now t) (tr_rate t)).
      assert (0 <= rmax * (tr_now t - last))%Q by (apply Qmult_le_0_compat; lra). lra. }
  destruct Hcase as [(H1 & -> & El)|(H1 & -> & El)].
  - specialize (IH (T - 1)%Q (tr_now t) Hc Ht). rewrite inject_Z_plus.
    assert (inject_Z (grants (tr_host t) ts bs) <= T - 1 + rmax * (t1 - tr_now t))%Q; [|change (inject_Z 1) with 1%Q; lra].
    apply IH; [left; split; [done|lra]|lra].
  - specialize (IH T (tr_now t) Hc Ht). rewrite Z.add_0_l.
    assert (inject_Z (grants (tr_host t) ts bs) <= T + rmax * (t1 - tr_now t))%Q; [|lra].
    apply IH; [left; split; [done|lra]|done].
Qed.

(** Politeness of the local limiter: starting from an unused host, over any
    sequence of trials of any hosts whose clock readings lie in [t0, t1] and
    never go back, at most [capacity + rmax * (t1 - t0)] trials of the host
    are granted, [rmax] bounding its refill rates. *)
Theorem local_rate_bound h rmax t0 t1 ts l :
  ll_state l !! h = None -> (0 <= ll_capacity l)%Q -> (0 <= rmax)%Q -> timed h rmax t0 t1 ts ->
  (inject_Z (grants h ts (fst (run_trials ts l))) <= ll_capacity l + rmax * (t1 - t0))%Q.
Proof.
  intros Hn Hc Hr Ht. eapply grants_bound; [done..| |done]. right. split_and!; [done|apply Qeq_refl..].
Qed.

(** With a capacity of at least one token, [acquire] returns after at most
    two iterations, however much the sleep oversleeps: at once when the rate
    is not positive or a token is there, and otherwise after one sleep of at
    most [1 / rate] seconds plus the excess; a wait is counted once. *)
Theorem local_acquire_returns host rate now over l reg :
  (1 <= ll_capacity l)%Q -> (0 <= over 0%nat)%Q ->
  (forall tok ts, ll_state l !! host = Some (tok, ts) -> 0 <= tok /\ ts <= now)%Q ->
  exists finish l' reg', local_acquire 2 host rate now over l reg = Some (finish, l', reg') /\
    (now <= finish)%Q /\
    (finish == now /\ reg' = reg \/
     0 < rate /\ finish <= now + 1 / rate + over 0%nat /\ reg' = inc RATE_LIMIT_WAITS 1 reg)%Q.
Proof.
  intros Hc Hov Hst. unfold local_acquire.
  destruct (Qleb_spec rate 0) as [Hr|Hr].
  { exists now, l, reg. split; [done|]. split; [lra|]. left. split; [lra|done]. }
  apply Qnot_le_lt in Hr. cbn [local_acquire_loop].
  destruct (local_try host rate now l) as [w l1] eqn:E1.
  destruct (local_try_spec _ _ _ _ _ _ E1) as (Ec1 & _ & [(Ht & -> & El1)|(Ht & -> & El1)]).
  { exists now, l1, reg. split; [done|]. split; [lra|]. left. split; [lra|done]. }
  set (t := refill _ _ _ _) in *.
  assert (0 <= t)%Q as Ht0.
  { unfold t, tokens_at. destruct (ll_state l !! host) as [[tok ts]|] eqn:Es; cbn [default from_option id fst snd].
    - destruct (Hst _ _ eq_refl). apply refill_nonneg; lra.
    - apply refill_nonneg; lra. }
  assert (0 <= (1 - t) / rate)%Q as Hw0 by (apply Qle_shift_div_l; lra).
  assert ((1 - t) / rate <= 1 / rate)%Q as Hw1.
  { unfold Qdiv. apply Qmult_le_compat_r; [lra|]. apply Qlt_le_weak, Qinv_lt_0_compat, Hr. }
  set (now1 := (now + (1 - t) / rate + over 0%nat)%Q).
  destruct (local_try host rate now1 l1) as [w2 l2] eqn:E2.
  destruct (local_try_spec _ _ _ _ _ _ E2) as (_ & _ & Hcase). cbv zeta in Hcase.
  unfold tokens_at in Hcase. rewrite El1, Ec1 in Hcase. cbn [default from_option id fst snd] in Hcase.
  pose proof (refill_enough (ll_capacity l) t (now1 - now) rate Hc Hr ltac:(unfold now1; lra)) as Hen.
  destruct Hcase as [(_ & -> & _)|(Hlt & _)]; [|lra].
  exists now1, l2, (inc RATE_LIMIT_WAITS 1 reg). split; [done|]. unfold now1. split; [lra|]. right.
  split_and!; [done|lra|done].
Qed.

(** A capacity below one never grants: [acquire] would loop for ever. *)
Lemma local_acquire_starves fuel host rate now over l reg :
  (ll_capacity l < 1)%Q -> (0 < rate)%Q -> local_acquire fuel host rate now over l reg = None.
Proof.
  intros Hc Hr. unfold local_acquire. destruct (Qleb_spec rate 0); [lra|]. generalize 0%nat as i. revert now l reg Hc.
  induction fuel as [|fuel IH]; intros now l reg Hc i; [done|]. cbn [local_acquire_loop].
  destruct (local_try host rate now l) as [w l1] eqn:E1.
  destruct (local_try_spec _ _ _ _ _ _ E1) as (Ec1 & _ & [(Ht & -> & El1)|(Ht & -> & El1)]).
  - pose proof (refill_le_capacity (ll_capacity l) (tokens_at l host now).1 (now - (tokens_at l host now).2) rate). lra.
  - apply IH. by rewrite Ec1.
Qed.

(** ** The shared bucket *)
Section LuaTheorems.
Context `{RedisBucketsLaws R}.

Lemma token_bucket_spec key c rate now_ms ttl r allowed wait_ms r' : 0 < ttl ->
  token_bucket key c rate now_ms 1 ttl r = (allowed, wait_ms, r') ->
  let '(tok, ts) := default (c, now_ms) (hmget key r) in
  let t := refill c tok (inject_Z (Z.max 0 (now_ms - ts)) / 1000) rate in
  (forall k, k <> key -> hmget k r' = hmget k r) /\
  ((1 <= t)%Q /\ allowed = 1 /\ wait_ms = 0 /\ hmget key r' = Some ((t - 1)%Q, now_ms) \/
   (t < 1)%Q /\ allowed = 0 /\ wait_ms = py_ceil ((1 - t) / rate * 1000) /\ hmget key r' = Some (t, now_ms)).
Proof.
  intros Httl. unfold token_bucket. destruct (default _ _) as [tok ts].
  destruct (Qleb_spec 1 (refill c tok (inject_Z (Z.max 0 (now_ms - ts)) / 1000) rate)); intros [= <- <- <-];
    (split; [intros; by rewrite hmget_pexpire, hmget_hset_ne|]); rewrite hmget_pexpire, hmget_hset by done;
    [by left|right; split_and!; [lra|done..]].
Qed.

(** A call of the script by some worker: key, refill rate, the worker's clock
    in milliseconds. *)
Record call : Type := mkCall { cl_key : string; cl_rate : Q; cl_now : Z }.

Fixpoint run_calls (c : Q) (ttl : Z) (cs : list call) (r : R) : list bool * R :=
  match cs with
  | [] => ([], r)
  | x :: cs' =>
      let '(allowed, _, r1) := token_bucket (cl_key x) c (cl_rate x) (cl_now x) 1 ttl r in
      let '(bs, r2) := run_calls c ttl cs' r1 in ((allowed =? 1) :: bs, r2)
  end.

Fixpoint call_grants (k : string) (cs : list call) (bs : list bool) : Z :=
  match cs, bs with
  | x :: cs', b :: bs' => (if b && bool_decide (cl_key x = k) then 1 else 0) + call_grants k cs' bs'
  | _, _ => 0
  end.

Fixpoint calls_timed (k : string) (rmax : Q) (t0 t1 : Z) (cs : list call) : Prop :=
  match cs with
  | [] => t0 <= t1
  | x :: cs' => t0 <= cl_now x /\ (cl_key x = k -> 0 <= cl_rate x /\ cl_rate x <= rmax)%Q /\
                calls_timed k rmax (cl_now x) t1 cs'
  end.

Definition seconds (ms : Z) : Q := (inject_Z ms / 1000)%Q.

Lemma seconds_le a b : a <= b -> (seconds a <= seconds b)%Q.
Proof.
  intros Hle. unfold seconds, Qdiv. apply Qmult_le_compat_r; [|discriminate]. by rewrite <- Zle_Qle.
Qed.

Lemma seconds_sub a b : (seconds (a - b) == seconds a - seconds b)%Q.
Proof. unfold seconds, Z.sub. rewrite inject_Z_plus, inject_Z_opp. field. Qed.

Lemma seconds_nonneg a : 0 <= a -> (0 <= seconds a)%Q.
Proof.
  intros Ha. apply Qle_trans with (seconds 0); [|by apply seconds_le]. vm_compute. discriminate.
Qed.

Lemma call_grants_bound k c rmax t1 cs ttl r t0 tok last :
  0 < ttl -> (0 <= rmax)%Q -> (0 <= c)%Q -> calls_timed k rmax t0 t1 cs ->
  hmget k r = Some (tok, last) /\ last <= t0 \/ hmget k r = None /\ (tok == c)%Q /\ last = t0 -> (0 <= tok)%Q ->
  (inject_Z (call_grants k cs (fst (run_calls c ttl cs r))) <= tok + rmax * (seconds t1 - seconds last))%Q.
Proof.
  intros Httl Hr Hc. revert r t0 tok last. induction cs as [|x cs IH]; intros r t0 tok last Ht Hl Htok; cbn [run_calls].
  { cbn [calls_timed] in Ht. cbn. change (inject_Z 0) with 0%Q.
    assert (seconds last <= seconds t1)%Q by (apply seconds_le; destruct Hl as [[_ ?]|(_ & _ & ?)]; lia).
    assert (0 <= rmax * (seconds t1 - seconds last))%Q by (apply Qmult_le_0_compat; lra). lra. }
  destruct Ht as (Ht0 & Hrate & Ht).
  destruct (token_bucket (cl_key x) c (cl_rate x) (cl_now x) 1 ttl r) as [[allowed wait] r'] eqn:Ew.
  apply token_bucket_spec in Ew; [|done].
  specialize (IH r' (cl_now x)).
  destruct (run_calls c ttl cs r') as [bs l2]. cbn [fst call_grants] in *.
  destruct (decide (cl_key x = k)) as [Eh|Hne]; cycle 1.
  { rewrite bool_decide_eq_false_2 by done. rewrite andb_false_r, Z.add_0_l.
    destruct (default _ _) as [? ?]. destruct Ew as (Ho & _). rewrite <- (Ho k) in Hl by congruence.
    destruct Hl as [[El Hle]|(El & Et & ->)].
    - apply IH; [done| |done]. left. split; [done|lia].
    - pose proof (seconds_le _ _ Ht0).
      assert (0 <= rmax * (seconds (cl_now x) - seconds t0))%Q by (apply Qmult_le_0_compat; lra).
      eapply Qle_trans; [apply (IH tok (cl_now x)); [done| |done]|lra]. by right. }
  rewrite bool_decide_eq_true_2, andb_true_r by done. destruct (Hrate Eh) as [Hr0 Hr1]. subst k.
  assert (exists T, (0 <= T /\ T + rmax * (seconds t1 - seconds (cl_now x)) <= tok + rmax * (seconds t1 - seconds last))%Q /\
    ((1 <= T)%Q /\ allowed = 1 /\ hmget (cl_key x) r' = Some ((T - 1)%Q, cl_now x) \/
     (T < 1)%Q /\ allowed = 0 /\ hmget (cl_key x) r' = Some (T, cl_now x))) as (T & [HT0 HT] & Hcase).
  { destruct Hl as [[El Hle]|(El & Et & ->)]; rewrite El in Ew; cbn [default from_option id] in Ew;
      destruct Ew as (_ & Hcase); eexists; (split; [|destruct Hcase as [(?&?&?&?)|(?&?&?&?)]; [left|right]; eauto]).
    - rewrite Z.max_r by lia. fold (seconds (cl_now x - last)).
      pose proof (seconds_nonneg (cl_now x - last) ltac:(lia)). pose proof (seconds_sub (cl_now x) last).
      split; [apply refill_nonneg; lra|].
      pose proof (refill_le c tok (seconds (cl_now x - last)) (cl_rate x) rmax ltac:(lra) Hr1). nra.
    - rewrite Z.sub_diag. split; [apply refill_nonneg; [done|done|discriminate|done]|].
      pose proof (refill_le_capacity c c (inject_Z (Z.max 0 0) / 1000) (cl_rate x)).
      pose proof (seconds_le _ _ Ht0).
      assert (0 <= rmax * (seconds (cl_now x) - seconds t0))%Q by (apply Qmult_le_0_compat; lra). lra. }
  clear Ew. destruct Hcase as [(H1 & -> & El)|(H1 & -> & El)]; cbn [Z.eqb Pos.eqb].
  - specialize (IH (T - 1)%Q (cl_now x) Ht). rewrite inject_Z_plus. change (inject_Z 1) with 1%Q.
    enough (inject_Z (call_grants (cl_key x) cs bs) <= T - 1 + rmax * (seconds t1 - seconds (cl_now x)))%Q by lra.
    apply IH; [left; split; [done|lia]|lra].
  - specialize (IH T (cl_now x) Ht). rewrite Z.add_0_l.
    enough (inject_Z (call_grants (cl_key x) cs bs) <= T + rmax * (seconds t1 - seconds (cl_now x)))%Q by lra.
    apply IH; [left; split; [done|lia]|done].
Qed.

(** [RedisRateLimiter.acquire] never loops on an outage and returns after
    at most one sleep when it is alone on the key: at once if the rate is not
    positive, the script fails, or a token is there; otherwise after the wait
    the script computed (here [1 / rate] seconds fit in [max_wait_seconds]).
    The bucket does not expire during the sleep. *)
Theorem redis_acquire_returns l host rate now up over r reg :
  0 < rl_ttl_ms l -> (1 <= rl_capacity l)%Q -> (0 <= now)%Q -> (0 <= over 0%nat)%Q ->
  (0 < rate -> seconds (py_ceil (1 / rate * 1000)) <= rl_max_wait_seconds l)%Q ->
  (forall tok ts, hmget ("rl:" +:+ host) r = Some (tok, ts) -> 0 <= tok)%Q ->
  exists finish r' reg', redis_acquire 2 l host rate now up over r reg = Some (finish, r', reg') /\
    (now <= finish)%Q /\
    (Qle_bool rate 0 || negb (up 0%nat) = true -> finish = now /\ r' = r /\ reg' = reg).
Proof.
  intros Httl Hc Hnow Hov Hmax Hst. unfold redis_acquire.
  destruct (Qleb_spec rate 0) as [Hr|Hr]; [exists now, r, reg; split; [done|]; split; [lra|done]|].
  apply Qnot_le_lt in Hr. cbn [redis_acquire_loop orb].
  destruct (up 0%nat) eqn:Eu; cbn [negb]; [|exists now, r, reg; split; [done|]; split; [lra|done]].
  set (key := "rl:" +:+ host) in *. set (n0 := py_int (now * 1000)).
  destruct (token_bucket key _ rate n0 1 _ r) as [[allowed wait] r1] eqn:E1. apply token_bucket_spec in E1; [|done].
  destruct (default (rl_capacity l, n0) (hmget key r)) as [tok ts] eqn:Ed. destruct E1 as (_ & Hcase).
  set (t := refill _ _ _ _) in *.
  destruct Hcase as [(Ht & -> & -> & E1)|(Ht & -> & -> & E1)]; cbn [Z.eqb Pos.eqb].
  { exists now, r1, reg. split; [done|]. split; [lra|done]. }
  assert (0 <= t)%Q as Ht0.
  { unfold t. assert (0 <= tok)%Q.
    { destruct (hmget key r) as [[a b]|] eqn:Er; cbn in Ed; simplify_eq; [by eapply Hst|lra]. }
    apply refill_nonneg; [lra|done|apply seconds_nonneg; lia|lra]. }
  set (w := py_ceil ((1 - t) / rate * 1000)). specialize (Hmax Hr).
  assert (0 <= (1 - t) / rate)%Q as Hw0 by (apply Qle_shift_div_l; lra).
  assert ((1 - t) / rate <= 1 / rate)%Q as Hw1.
  { unfold Qdiv. apply Qmult_le_compat_r; [lra|]. apply Qlt_le_weak, Qinv_lt_0_compat, Hr. }
  assert (0 <= w) as Hw by (apply (Qceiling_resp_le 0); lra).
  assert (seconds w <= rl_max_wait_seconds l)%Q as Hwm.
  { eapply Qle_trans; [|exact Hmax]. apply seconds_le. unfold w, py_ceil. apply Qceiling_resp_le. lra. }
  assert (py_min (inject_Z w / 1000) (rl_max_wait_seconds l) == seconds w)%Q as Hsleep.
  { fold (seconds w). qsolve. }
  set (now1 := (now + _ + over 0%nat)%Q).
  assert (now + seconds w <= now1)%Q as Hn1 by (unfold now1; lra).
  pose proof (seconds_nonneg w Hw) as Hsw.
  destruct (up 1%nat) eqn:Eu1; [|exists now1, r1, (inc RATE_LIMIT_WAITS 1 reg); split; [done|]; split; [lra|done]].
  set (n1 := py_int (now1 * 1000)).
  assert (n0 + w <= n1) as Hn01.
  { unfold n0, n1, py_int. destruct (Qltb_spec (now * 1000) 0); [lra|]. destruct (Qltb_spec (now1 * 1000) 0); [lra|].
    rewrite <- (Qfloor_Z (Qfloor (now * 1000) + w)). apply Qfloor_resp_le. rewrite inject_Z_plus.
    pose proof (Qfloor_le (now * 1000)). assert (seconds w * 1000 == inject_Z w)%Q by (unfold seconds; field). lra. }
  destruct (token_bucket key _ rate n1 1 _ r1) as [[allowed2 wait2] r2] eqn:E2. apply token_bucket_spec in E2; [|done].
  rewrite E1 in E2. cbn [default from_option id] in E2. destruct E2 as (_ & Hcase).
  assert ((1 - t) / rate <= inject_Z (Z.max 0 (n1 - n0)) / 1000)%Q as Hel.
  { rewrite Z.max_r by lia. fold (seconds (n1 - n0)). pose proof (seconds_le w (n1 - n0) ltac:(lia)).
    pose proof (Qle_ceiling ((1 - t) / rate * 1000)) as Hce. fold (py_ceil ((1 - t) / rate * 1000)) in Hce. fold w in Hce.
    assert (seconds w * 1000 == inject_Z w)%Q by (unfold seconds; field). lra. }
  pose proof (refill_enough (rl_capacity l) t _ rate Hc Hr Hel) as Hen.
  destruct Hcase as [(_ & -> & _ & _)|(Hlt & _)]; [|lra]. cbn [Z.eqb Pos.eqb].
  exists now1, r2, (inc RATE_LIMIT_WAITS 1 reg). split; [done|]. split; [lra|done].
Qed.

End LuaTheorems.

(** ** Concrete instances *)

Definition map_buckets : RedisBuckets (gmap string (Q * Z)) := {|
  hmget := fun k r => r !! k; hset := fun k t ts r => <[k := (t, ts)]> r; pexpire := fun _ _ r => r |}.
Lemma map_buckets_laws : @RedisBucketsLaws _ map_buckets.
Proof. split; intros; cbn; [by rewrite lookup_insert_eq|by rewrite lookup_insert_ne|done]. Qed.

Definition two_hosts : list trial :=
  [mkTrial "a" 1 0; mkTrial "b" 5 0; mkTrial "a" 1 (1 # 2); mkTrial "a" 1 1; mkTrial "a" 1 2].

Lemma local_rate_bound_witness :
  (inject_Z (grants "a" two_hosts (fst (run_trials two_hosts (mkLocal 1 ∅)))) <= 1 + 1 * (2 - 0))%Q /\
  grants "a" two_hosts (fst (run_trials two_hosts (mkLocal 1 ∅))) = 3.
Proof.
  split; [|vm_compute; reflexivity].
  apply (local_rate_bound "a" 1 0 2 two_hosts (mkLocal 1 ∅)); [reflexivity|discriminate|discriminate|].
  cbn. repeat split; try discriminate.
Defined.

Lemma local_acquire_returns_witness :
  exists finish l' reg',
    local_acquire 2 "a" (1 # 2) 10 (fun _ => 1 # 4) (mkLocal 1 {[ "a" := (0, 9)%Q ]}) ∅ = Some (finish, l', reg') /\
    (10 <= finish)%Q.
Proof.
  destruct (local_acquire_returns "a" (1 # 2) 10 (fun _ => 1 # 4) (mkLocal 1 {[ "a" := (0, 9)%Q ]}) ∅)
    as (finish & l' & reg' & E & Hf & _).
  - discriminate.
  - discriminate.
  - intros tok ts E. cbn in E. injection E as <- <-. split; discriminate.
  - exists finish, l', reg'. split; [exact E|exact Hf].
Defined.

Definition skewed : list call := [mkCall "rl:a" 1 100000; mkCall "rl:a" 1 90000; mkCall "rl:a" 1 100000].
Lemma redis_acquire_returns_witness :
  exists finish r' reg',
    @redis_acquire _ map_buckets 2 default_redis_limiter "a" (1 # 2) 100 (fun _ => true) (fun _ => 0%Q)
      {[ "rl:a" := (0%Q, 100000) ]} ∅ = Some (finish, r', reg') /\ (100 <= finish)%Q.
Proof.
  destruct (@redis_acquire_returns _ map_buckets map_buckets_laws default_redis_limiter "a" (1 # 2) 100
              (fun _ => true) (fun _ => 0%Q) {[ "rl:a" := (0%Q, 100000) ]} ∅)
    as (finish & r' & reg' & E & Hf & _).
  - reflexivity.
  - discriminate.
  - discriminate.
  - discriminate.
  - intros _. vm_compute. discriminate.
  - intros tok ts E. cbn in E. injection E as <- <-. discriminate.
  - exists finish, r', reg'. split; [exact E|exact Hf].
Defined.

(** A worker whose clock is ten seconds behind rewinds the shared bucket's
    timestamp, so that the next reading of the other worker refills it: two
    grants at the same instant of the first worker's clock. *)
Lemma lua_clock_skew :
  fst (@run_calls _ map_buckets 1 3600000 skewed ∅) = [true; false; true].
Proof. reflexivity. Qed.
