(* ===== verification/Acquirers.v ===== *)
(** * Concurrent callers of the local limiter ([crawler/ratelimit/local.py])

    Many tasks call [LocalRateLimiter.acquire] at the same time, for many hosts.
    Each takes its host's [asyncio.Lock] and keeps it while it sleeps; the
    others of the host wait in the lock's line, and any of them may be
    cancelled.  A step is a stretch between two awaits, and time passes between
    the steps, by any amount: a sleep may end late.

    [acquirers_rate_bound]: in every window of time a host is granted at most
    [capacity + rate * window] requests, in the order of arrival, whatever the
    schedule.  [acquirers_wait_bound]: how long a call takes when the event loop
    is never later than [late] seconds; [slots_bound_wait]: the same under the
    semaphore of [Politeness.slot]. *)
From Stdlib Require Import Qminmax.
From S2P Require Import Prelude PyStr Models RateLimit.
Local Open Scope Z_scope.

(** ** [asyncio.Lock]

    [_locked], and the waiting tasks in their order; the second component is set
    when the future of a waiter has its result, to the time that happened. *)
Record Lock : Type := mkLock { lk_locked : bool; lk_waiters : list (nat * option Q) }.
Definition new_lock : Lock := mkLock false [].

(** Taken at once ([true]), or queued. *)
Definition lock_acquire (t : nat) (k : Lock) : bool * Lock :=
  match lk_locked k, lk_waiters k with
  | false, [] => (true, mkLock true [])
  | locked, ws => (false, mkLock locked (ws ++ [(t, None)]))
  end.
Definition wake_up_first (now : Q) (ws : list (nat * option Q)) : list (nat * option Q) :=
  match ws with (t, None) :: ws => (t, Some now) :: ws | ws => ws end.
Definition lock_release (now : Q) (k : Lock) : Lock := mkLock false (wake_up_first now (lk_waiters k)).
Definition without (t : nat) (ws : list (nat * option Q)) : list (nat * option Q) := filter (fun w => w.1 <> t) ws.
(** The woken waiter runs, and takes the lock. *)
Definition lock_resume (t : nat) (k : Lock) : Lock := mkLock true (without t (lk_waiters k)).
(** A waiter is cancelled: it wakes the next one if the lock is free. *)
Definition lock_cancel (now : Q) (t : nat) (k : Lock) : Lock :=
  let ws := without t (lk_waiters k) in
  mkLock (lk_locked k) (if lk_locked k then ws else wake_up_first now ws).

(** ** The callers *)

(** Where a call is suspended: at the lock, or in its sleep with the lock held. *)
Inductive stage : Type := Queued | Asleep (until : Q).
(** A call, with the time it was made at and the calls before it at that time. *)
Record acquirer : Type := mkAcquirer {
  aq_host : string; aq_rate : Q; aq_since : Q; aq_ahead : nat; aq_stage : stage }.
Definition at_stage (st : stage) (a : acquirer) : acquirer :=
  mkAcquirer (aq_host a) (aq_rate a) (aq_since a) (aq_ahead a) st.

(** The clock, the limiter with its locks, the calls, the metrics, and what
    happened: the calls that came to a lock, the granted ones, and those that a
    rate of zero or less lets pass without the lock. *)
Record callers : Type := mkCallers {
  cl_now : Q; cl_limiter : LocalRateLimiter; cl_locks : gmap string Lock; cl_tasks : gmap nat acquirer; cl_reg : registry;
  cl_arrivals : list (string * nat); cl_grants : list (string * nat * Q); cl_unlimited : list (string * nat * Q) }.

(** [_lock]. *)
Definition lock_of (host : string) (s : callers) : Lock := default new_lock (cl_locks s !! host).
Definition in_line (k : Lock) : nat := ((if lk_locked k then 1 else 0) + length (lk_waiters k))%nat.

(** An iteration of the loop, with the lock [k] held: return, or sleep. *)
Definition iterate (t : nat) (a : acquirer) (k : Lock) (s : callers) : callers :=
  let now := cl_now s in
  match local_try (aq_host a) (aq_rate a) now (cl_limiter s) with
  | (None, l) =>
      mkCallers now l (<[aq_host a := lock_release now k]> (cl_locks s)) (delete t (cl_tasks s)) (cl_reg s)
        (cl_arrivals s) (cl_grants s ++ [(aq_host a, t, now)]) (cl_unlimited s)
  | (Some wait, l) =>
      mkCallers now l (<[aq_host a := k]> (cl_locks s)) (<[t := at_stage (Asleep (now + wait)) a]> (cl_tasks s))
        (inc RATE_LIMIT_WAITS 1 (cl_reg s)) (cl_arrivals s) (cl_grants s) (cl_unlimited s)
  end.

(** [acquire] up to its first suspension. *)
Definition arrive (t : nat) (host : string) (rate : Q) (s : callers) : callers :=
  if Qle_bool rate 0 then
    mkCallers (cl_now s) (cl_limiter s) (cl_locks s) (cl_tasks s) (cl_reg s) (cl_arrivals s) (cl_grants s)
      (cl_unlimited s ++ [(host, t, cl_now s)])
  else
    let a := mkAcquirer host rate (cl_now s) (in_line (lock_of host s)) Queued in
    let s' := mkCallers (cl_now s) (cl_limiter s) (cl_locks s) (cl_tasks s) (cl_reg s)
                (cl_arrivals s ++ [(host, t)]) (cl_grants s) (cl_unlimited s) in
    match lock_acquire t (lock_of host s) with
    | (true, k) => iterate t a k s'
    | (false, k) =>
        mkCallers (cl_now s) (cl_limiter s) (<[host := k]> (cl_locks s)) (<[t := a]> (cl_tasks s)) (cl_reg s)
          (cl_arrivals s') (cl_grants s) (cl_unlimited s)
    end.

Definition resume (t : nat) (a : acquirer) (s : callers) : callers := iterate t a (lock_resume t (lock_of (aq_host a) s)) s.
Definition wake (t : nat) (a : acquirer) (s : callers) : callers := iterate t a (lock_of (aq_host a) s) s.

(** CancelledError at the suspension point; [async with] releases the lock. *)
Definition cancel (t : nat) (a : acquirer) (s : callers) : callers :=
  let k := lock_of (aq_host a) s in
  let k' := match aq_stage a with Queued => lock_cancel (cl_now s) t k | Asleep _ => lock_release (cl_now s) k end in
  mkCallers (cl_now s) (cl_limiter s) (<[aq_host a := k']> (cl_locks s)) (delete t (cl_tasks s)) (cl_reg s)
    (cl_arrivals s) (cl_grants s) (cl_unlimited s).

Definition tick (d : Q) (s : callers) : callers :=
  mkCallers (cl_now s + d) (cl_limiter s) (cl_locks s) (cl_tasks s) (cl_reg s) (cl_arrivals s) (cl_grants s) (cl_unlimited s).

(** Since when a suspended call could go on. *)
Definition ready_since (s : callers) (t : nat) (r : Q) : Prop :=
  exists a, cl_tasks s !! t = Some a /\
    match aq_stage a with
    | Queued => (t, Some r) ∈ lk_waiters (lock_of (aq_host a) s)
    | Asleep u => r = u
    end.

Inductive call_step (rates : string -> Q -> Prop) : callers -> callers -> Prop :=
| call_tick d s : (0 <= d)%Q -> call_step rates s (tick d s)
| call_arrive t host rate s : cl_tasks s !! t = None -> rates host rate -> call_step rates s (arrive t host rate s)
| call_resume t a r s : cl_tasks s !! t = Some a -> aq_stage a = Queued -> (t, Some r) ∈ lk_waiters (lock_of (aq_host a) s) ->
    call_step rates s (resume t a s)
| call_wake t a u s : cl_tasks s !! t = Some a -> aq_stage a = Asleep u -> (u <= cl_now s)%Q -> call_step rates s (wake t a s)
| call_cancel t a s : cl_tasks s !! t = Some a -> call_step rates s (cancel t a s).

(** A loop that runs what is ready within [late] seconds, and one that may be
    as late as it likes ([None]). *)
Definition punctual (late : option Q) (s : callers) : Prop :=
  forall e t r, late = Some e -> ready_since s t r -> (cl_now s <= r + e)%Q.
Definition scheduled (rates : string -> Q -> Prop) (late : option Q) (s s' : callers) : Prop :=
  call_step rates s s' /\ punctual late s'.

Definition new_callers (capacity : Q) (now : Q) (reg : registry) : callers :=
  mkCallers now (mkLocal capacity ∅) ∅ ∅ reg [] [] [].

(** The calls of a host, and its grants within a window. *)
Definition of_host (h : string) (l : list (string * nat)) : list nat := snd <$> filter (fun x => x.1 = h) l.
Definition in_window (h : string) (t0 t1 : Q) (g : string * nat * Q) : bool :=
  bool_decide (g.1.1 = h) && Qle_bool t0 g.2 && Qle_bool g.2 t1.
Definition granted (h : string) (t0 t1 : Q) (gs : list (string * nat * Q)) : Z := Z.of_nat (length (List.filter (in_window h t0 t1) gs)).

(** ** Windows of grants *)

#[local] Arguments of_host : simpl never.
#[local] Arguments granted : simpl never.

Lemma granted_snoc h t0 t1 gs g : granted h t0 t1 (gs ++ [g]) = granted h t0 t1 gs + Z.b2z (in_window h t0 t1 g).
Proof.
  unfold granted. rewrite List.filter_app, length_app. cbn [List.filter]. destruct (in_window h t0 t1 g); cbn [length Z.b2z]; lia.
Qed.
Lemma of_host_snoc h l x : of_host h (l ++ [x]) = of_host h l ++ (if decide (x.1 = h) then [x.2] else []).
Proof. unfold of_host. rewrite filter_app, fmap_app. f_equal. by case_decide; [rewrite filter_cons_True|rewrite filter_cons_False]. Qed.

Section Bucket.
Variables (h : string) (capacity rmax : Q).

(** What the bucket says about the grants so far. *)
Record bucket_ok (now : Q) (l : LocalRateLimiter) (gs : list (string * nat * Q)) : Prop := {
  bk_capacity : ll_capacity l = capacity;
  bk_windows t0 t1 : (t0 <= t1)%Q -> (inject_Z (granted h t0 t1 gs) <= capacity + rmax * (t1 - t0))%Q;
  bk_fresh : ll_state l !! h = None -> forall t0 t1, granted h t0 t1 gs = 0;
  bk_level tok ts : ll_state l !! h = Some (tok, ts) ->
    (0 <= tok /\ ts <= now)%Q /\
    (forall t0 t1, t0 <= ts -> inject_Z (granted h t0 t1 gs) + tok <= capacity + rmax * (ts - t0))%Q /\
    (forall t0 t1, (ts < t0)%Q -> granted h t0 t1 gs = 0) }.

Hypothesis capacity_nonneg : (0 <= capacity)%Q.

Lemma bucket_later now now' l gs : (now <= now')%Q -> bucket_ok now l gs -> bucket_ok now' l gs.
Proof.
  intros Hle [Hc Hw Hf Hl]. split; [done..|]. intros tok ts E. destruct (Hl tok ts E) as ([? ?] & ? & ?). split_and!; [done|lra|done|done].
Qed.

Lemma bucket_other now host rate l w l' gs t : host <> h -> local_try host rate now l = (w, l') -> bucket_ok now l gs ->
  bucket_ok now l' (match w with None => gs ++ [(host, t, now)] | Some _ => gs end).
Proof.
  intros Hne Ew [Hc Hw Hf Hl]. destruct (local_try_spec _ _ _ _ _ _ Ew) as (Ec & Ho & _).
  assert (forall t0 t1, granted h t0 t1 (match w with None => gs ++ [(host, t, now)] | Some _ => gs end) = granted h t0 t1 gs) as Eg.
  { intros t0 t1. destruct w; [done|]. rewrite granted_snoc. unfold in_window. cbn. rewrite bool_decide_eq_false_2 by done. cbn. lia. }
  specialize (Ho h ltac:(congruence)). split; [congruence| | |]; setoid_rewrite Eg; [done|by rewrite Ho|rewrite Ho; done].
Qed.

(** The tokens a try of [h] finds. *)
Definition found (now rate : Q) (l : LocalRateLimiter) : Q :=
  refill (ll_capacity l) (fst (tokens_at l h now)) (now - snd (tokens_at l h now)) rate.

Lemma found_bounds now rate l gs : bucket_ok now l gs -> (0 <= rate <= rmax)%Q ->
  (0 <= found now rate l <= capacity)%Q /\
  forall t0 t1, (t0 <= now -> inject_Z (granted h t0 t1 gs) + found now rate l <= capacity + rmax * (now - t0))%Q.
Proof.
  intros [Hc Hw Hf Hl] Hr. unfold found, tokens_at. rewrite Hc.
  destruct (ll_state l !! h) as [[tok ts]|] eqn:E; cbn [default from_option id fst snd].
  - destruct (Hl tok ts eq_refl) as ([? ?] & Hn & Hz). pose proof (refill_le_capacity capacity tok (now - ts) rate).
    split; [split; [apply refill_nonneg; lra|done]|]. intros t0 t1 Ht0.
    destruct (Qlt_le_dec ts t0) as [Hlt|Hle].
    + rewrite Hz by done. change (inject_Z 0) with 0%Q. assert (0 <= rmax * (now - t0))%Q by nra. lra.
    + specialize (Hn t0 t1 Hle). pose proof (refill_le capacity tok (now - ts) rate rmax ltac:(lra) ltac:(lra)). lra.
  - pose proof (refill_le_capacity capacity capacity (now - now) rate). split; [split; [apply refill_nonneg; lra|done]|].
    intros t0 t1 Ht0. rewrite Hf by done. change (inject_Z 0) with 0%Q. assert (0 <= rmax * (now - t0))%Q by nra. lra.
Qed.

Lemma bucket_same now rate l w l' gs t : local_try h rate now l = (w, l') -> (0 <= rate <= rmax)%Q -> bucket_ok now l gs ->
  bucket_ok now l' (match w with None => gs ++ [(h, t, now)] | Some _ => gs end).
Proof.
  intros Ew Hr Hb. destruct (found_bounds now rate l gs Hb Hr) as [[Hf0 Hfc] Hfw].
  destruct (local_try_spec _ _ _ _ _ _ Ew) as (Ec & _ & Hcase). cbv zeta in Hcase. fold (found now rate l) in Hcase.
  destruct Hb as [Hc Hw Hf Hl].
  assert (forall t0 t1, (now < t0)%Q -> granted h t0 t1 gs = 0) as Hz.
  { intros t0 t1 Ht0. destruct (ll_state l !! h) as [[tok ts]|] eqn:E; [|by apply Hf]. destruct (Hl tok ts eq_refl) as (? & _ & Hz). apply Hz. lra. }
  destruct Hcase as [(H1 & -> & El)|(H1 & -> & El)].
  - assert (forall t0 t1, granted h t0 t1 (gs ++ [(h, t, now)]) = granted h t0 t1 gs + Z.b2z (Qle_bool t0 now && Qle_bool now t1)) as Eg.
    { intros t0 t1. rewrite granted_snoc. unfold in_window. cbn. by rewrite bool_decide_eq_true_2. }
    split; [congruence| |congruence|]; setoid_rewrite Eg.
    + intros t0 t1 H01. specialize (Hw t0 t1 H01). destruct (Qleb_spec t0 now) as [Ht0|]; [|cbn; rewrite Z.add_0_r; done].
      destruct (Qleb_spec now t1) as [Ht1|]; [|cbn; rewrite Z.add_0_r; done]. cbn [andb Z.b2z]. rewrite inject_Z_plus.
      specialize (Hfw t0 t1 Ht0). change (inject_Z 1) with 1%Q. assert (rmax * (now - t0) <= rmax * (t1 - t0))%Q by nra. lra.
    + rewrite El. intros tok ts [= <- <-]. split; [lra|]. split.
      * intros t0 t1 Ht0. specialize (Hfw t0 t1 Ht0). rewrite inject_Z_plus.
        destruct (Qle_bool t0 now && Qle_bool now t1); cbn [Z.b2z]; [change (inject_Z 1) with 1%Q|change (inject_Z 0) with 0%Q]; lra.
      * intros t0 t1 Ht0. rewrite Hz by done. destruct (Qleb_spec t0 now); [lra|done].
  - split; [congruence|done|congruence|]. rewrite El. intros tok ts [= <- <-]. split; [lra|]. split; [|done].
    intros t0 t1 Ht0. by apply Hfw.
Qed.

End Bucket.

(** ** Deadlines *)

(** The time one call in front costs: its sleep, and the loop's delay before
    it is woken and before it wakes up; the promise to a call. *)
Definition service (rmin late : Q) : Q := 1 / rmin + 2 * late.
Definition deadline (rmin late : Q) (a : acquirer) : Q :=
  aq_since a + inject_Z (Z.of_nat (S (aq_ahead a))) * service rmin late.

(** The waiters [ws] are called with a deadline of [b] and one service each. *)
Fixpoint lined (rmin late : Q) (tasks : gmap nat acquirer) (b : Q) (ws : list (nat * option Q)) : Prop :=
  match ws with
  | [] => True
  | w :: ws => (exists a, tasks !! w.1 = Some a /\ b + service rmin late <= deadline rmin late a)%Q /\
      lined rmin late tasks (b + service rmin late) ws
  end.

Section Lined.
Context (rmin late : Q).

Lemma lined_mono tasks b b' ws : (b' <= b)%Q -> lined rmin late tasks b ws -> lined rmin late tasks b' ws.
Proof.
  revert b b'. induction ws as [|w ws IH]; intros b b' Hb; cbn; [done|]. intros [(a & Ea & Ha) Hws]. split.
  - exists a. split; [done|lra].
  - eapply IH; [|exact Hws]. lra.
Qed.
Lemma lined_tasks tasks tasks' b ws : (forall x a, x ∈ ws.*1 -> tasks !! x = Some a -> tasks' !! x = Some a) ->
  lined rmin late tasks b ws -> lined rmin late tasks' b ws.
Proof.
  revert b. induction ws as [|w ws IH]; intros b Hx; cbn; [done|]. intros [(a & Ea & Ha) Hws]. split.
  - exists a. split; [apply Hx; [left|done]|done].
  - apply IH; [|done]. intros x c Hin. apply Hx. by right.
Qed.
Lemma lined_names tasks b ws ws' : ws.*1 = ws'.*1 -> lined rmin late tasks b ws -> lined rmin late tasks b ws'.
Proof.
  revert b ws'. induction ws as [|w ws IH]; intros b [|w' ws']; cbn; [done..|]. intros [= Ew Ews] [Ha Hws].
  split; [by rewrite <- Ew|by apply IH].
Qed.
Lemma lined_snoc tasks b ws w a : lined rmin late tasks b ws -> tasks !! w.1 = Some a ->
  (b + inject_Z (Z.of_nat (S (length ws))) * service rmin late <= deadline rmin late a)%Q ->
  lined rmin late tasks b (ws ++ [w]).
Proof.
  revert b. induction ws as [|v ws IH]; intros b; cbn [lined app length].
  - intros _ Ea Hd. split; [|done]. exists a. split; [done|]. change (inject_Z (Z.of_nat 1)) with 1%Q in Hd. lra.
  - intros [Hv Hws] Ea Hd. split; [done|]. apply IH; [done|done|].
    rewrite (Nat2Z.inj_succ (S (length ws))), <- Z.add_1_r, inject_Z_plus in Hd. change (inject_Z 1) with 1%Q in Hd. lra.
Qed.
Lemma lined_without tasks b t ws : (0 <= service rmin late)%Q -> lined rmin late tasks b ws -> lined rmin late tasks b (without t ws).
Proof.
  intros Hs. revert b. induction ws as [|w ws IH]; intros b; [done|]. cbn [lined]. intros [Ha Hws]. unfold without.
  rewrite filter_cons. case_decide.
  - cbn [lined]. split; [done|]. by apply IH.
  - apply IH. eapply lined_mono; [|exact Hws]. lra.
Qed.
End Lined.

(** ** The line of a host *)

Definition line (hold : option nat) (ws : list (nat * option Q)) : list nat := option_list hold ++ ws.*1.
#[local] Arguments line : simpl never.
Definition unwoken (ws : list (nat * option Q)) : Prop := Forall (fun w => w.2 = None) ws.

Lemma without_names t ws : (without t ws).*1 = filter (fun x => x <> t) ws.*1.
Proof. induction ws as [|w ws IH]; [done|]. unfold without in *. rewrite filter_cons, fmap_cons, filter_cons. by case_decide; cbn; rewrite IH. Qed.
Lemma without_cons t w ws : t ∉ ws.*1 -> without t ((t, w) :: ws) = ws.
Proof.
  intros Hn. unfold without. rewrite filter_cons_False by (cbn; tauto). induction ws as [|v ws IH]; [done|].
  rewrite fmap_cons in Hn. apply not_elem_of_cons in Hn as [Hv Hn]. rewrite filter_cons_True by done. by rewrite IH.
Qed.
Lemma without_unwoken t ws : unwoken ws -> unwoken (without t ws).
Proof. intros Hu. apply Forall_forall. intros w Hw. apply list_elem_of_filter in Hw as [_ Hw]. by apply (proj1 (Forall_forall _ _) Hu). Qed.
Lemma wake_names now ws : (wake_up_first now ws).*1 = ws.*1.
Proof. by destruct ws as [|[t [r|]] ws]. Qed.

Section Line.
Context (rates : string -> Q -> Prop) (late : option Q) (h : string) (rmin capacity : Q).

(** [hold] has the lock and sleeps; or the lock is free and the first of the
    line, if any, was woken. *)
Record line_ok (hold : option nat) (ws : list (nat * option Q)) (s : callers) : Prop := {
  ln_lock : lock_of h s = mkLock (bool_decide (is_Some hold)) ws;
  ln_nodup : NoDup (line hold ws);
  ln_tasks t a : cl_tasks s !! t = Some a -> aq_host a = h -> t ∈ line hold ws /\ rates h (aq_rate a) /\ (0 < aq_rate a)%Q;
  ln_waits t : t ∈ ws.*1 -> exists a, cl_tasks s !! t = Some a /\ aq_host a = h /\ aq_stage a = Queued;
  ln_fifo : (of_host h (fst <$> cl_grants s) ++ line hold ws) `sublist_of` of_host h (cl_arrivals s);
  ln_hold t : hold = Some t -> unwoken ws /\ exists a u tok ts, cl_tasks s !! t = Some a /\ aq_host a = h /\ aq_stage a = Asleep u /\
    ll_state (cl_limiter s) !! h = Some (tok, ts) /\ (u == ts + (1 - tok) / aq_rate a)%Q /\
    forall e, late = Some e -> (u + e <= cl_now s + service rmin e /\ u + e <= deadline rmin e a)%Q /\ lined rmin e (cl_tasks s) (u + e) ws;
  ln_free : hold = None -> forall w ws', ws = w :: ws' -> unwoken ws' /\ exists r, w.2 = Some r /\ (r <= cl_now s)%Q /\
    forall e, late = Some e -> lined rmin e (cl_tasks s) r ws }.

(** [t] has taken the lock and is about to try, with [ws] behind it. *)
Record turn_ok (t : nat) (a : acquirer) (ws : list (nat * option Q)) (s : callers) : Prop := {
  tn_host : aq_host a = h;
  tn_rate : rates h (aq_rate a) /\ (0 < aq_rate a)%Q;
  tn_nodup : NoDup (t :: ws.*1);
  tn_tasks x b : cl_tasks s !! x = Some b -> aq_host b = h -> x ∈ t :: ws.*1 /\ rates h (aq_rate b) /\ (0 < aq_rate b)%Q;
  tn_waits x : x ∈ ws.*1 -> exists b, cl_tasks s !! x = Some b /\ aq_host b = h /\ aq_stage b = Queued;
  tn_unwoken : unwoken ws;
  tn_fifo : (of_host h (fst <$> cl_grants s) ++ t :: ws.*1) `sublist_of` of_host h (cl_arrivals s);
  tn_time e : late = Some e -> lined rmin e (cl_tasks s) (cl_now s) ws /\
    ((1 <= found h (cl_now s) (aq_rate a) (cl_limiter s))%Q \/
     (cl_now s + 1 / rmin + e <= deadline rmin e a)%Q /\ lined rmin e (cl_tasks s) (cl_now s + 1 / rmin + e) ws) }.

Hypothesis timely : forall e, late = Some e -> (0 <= e /\ 0 < rmin)%Q /\ forall r, rates h r -> (rmin <= r)%Q.

Lemma service_pos e : late = Some e -> (0 <= e /\ 0 < rmin /\ 0 < 1 / rmin /\ e <= service rmin e)%Q.
Proof.
  intros He. destruct (timely e He) as [[? Hr] _]. assert (0 < 1 / rmin)%Q by (apply Qlt_shift_div_l; lra). unfold service. split_and!; lra.
Qed.

(** A sleep is at most [1 / rmin] long. *)
Lemma sleep_bound e rate x : late = Some e -> rates h rate -> (0 <= x)%Q -> ((1 - x) / rate <= 1 / rmin)%Q.
Proof.
  intros He Hr Hx. destruct (timely e He) as [[? Hpos] Hmin]. specialize (Hmin rate Hr). apply Qle_shift_div_r; [lra|].
  assert (1 <= 1 / rmin * rate)%Q; [|lra]. assert (1 / rmin * rmin == 1)%Q as E by (field; lra).
  assert (0 <= (1 / rmin) * (rate - rmin))%Q; [|lra]. apply Qmult_le_0_compat; [|lra]. apply Qle_shift_div_l; lra.
Qed.

Lemma turn_iterate t a ws s rmax : (forall r, rates h r -> (r <= rmax)%Q) -> (0 <= capacity)%Q ->
  bucket_ok h capacity rmax (cl_now s) (cl_limiter s) (cl_grants s) -> turn_ok t a ws s ->
  let s' := iterate t a (mkLock true ws) s in
  bucket_ok h capacity rmax (cl_now s') (cl_limiter s') (cl_grants s') /\ exists hold ws', line_ok hold ws' s'.
Proof.
  intros Hmax Hc Hb [Hh [Hra Hpos] Hnd Ht Hw Hu Hf Htime]. cbv zeta. unfold iterate. rewrite !Hh.
  assert (0 <= aq_rate a <= rmax)%Q as Hrm by (specialize (Hmax _ Hra); lra).
  pose proof (found_bounds h capacity rmax Hc (cl_now s) (aq_rate a) _ _ Hb Hrm) as [[Hf0 _] _].
  destruct (local_try h (aq_rate a) (cl_now s) (cl_limiter s)) as [w l] eqn:Ew.
  pose proof (bucket_same h capacity rmax Hc _ _ _ _ _ _ t Ew Hrm Hb) as Hb'.
  destruct (local_try_spec _ _ _ _ _ _ Ew) as (_ & _ & Hcase). cbv zeta in Hcase. fold (found h (cl_now s) (aq_rate a) (cl_limiter s)) in Hcase.
  pose proof (NoDup_cons_1_1 _ _ Hnd) as Hnt. pose proof (NoDup_cons_1_2 _ _ Hnd) as Hnd'.
  destruct w as [wait|]; cbn; (split; [done|]).
  - destruct Hcase as [(_ & ? & _)|(H1 & [= ->] & El)]; [done|]. exists (Some t), ws. split; cbn.
    + unfold lock_of. cbn. by rewrite lookup_insert_eq.
    + done.
    + intros x b. rewrite lookup_insert_Some. intros [[<- <-]|[_ Hx]] Hbh; [split; [left|done]|by eapply Ht].
    + intros x Hx. destruct (Hw x Hx) as (b & ? & ? & ?). exists b. rewrite lookup_insert_ne by congruence. done.
    + done.
    + intros x [= <-]. split; [done|]. eexists _, _, _, _. rewrite lookup_insert_eq. split_and!; [done..|apply Qeq_refl|].
      intros e He. destruct (service_pos e He) as (? & ? & ? & ?). destruct (Htime e He) as [_ [Hfound|[Hd Hl]]]; [lra|].
      pose proof (sleep_bound e (aq_rate a) _ He Hra Hf0) as Hs. unfold deadline in *. cbn. split; [unfold service in *; split; lra|].
      eapply (lined_tasks _ _ (cl_tasks s)); [|eapply lined_mono; [|exact Hl]; lra].
      intros y b Hy. by rewrite lookup_insert_ne by congruence.
    + done.
  - destruct Hcase as [(H1 & _ & El)|(_ & ? & _)]; [|done]. exists None, (wake_up_first (cl_now s) ws). split; cbn.
    + unfold lock_of. cbn. by rewrite lookup_insert_eq.
    + unfold line. cbn. by rewrite wake_names.
    + intros x b. rewrite lookup_delete_Some. intros [Hne Hx] Hbh. destruct (Ht x b Hx Hbh) as [Hin ?]. split; [|done].
      unfold line. cbn. rewrite wake_names. by apply elem_of_cons in Hin as [->|].
    + intros x. rewrite wake_names. intros Hx. destruct (Hw x Hx) as (b & ? & ? & ?). exists b. rewrite lookup_delete_ne by congruence. done.
    + rewrite fmap_app. change [(h, t, cl_now s)].*1 with [(h, t)]. rewrite of_host_snoc. cbn [fst snd]. rewrite decide_True by done.
      unfold line. cbn. by rewrite wake_names, <- app_assoc.
    + done.
    + intros _ w ws' E. destruct ws as [|[x r] ws]; [done|]. pose proof Hu as Hu'. apply Forall_cons in Hu' as [Er Hu']. cbn in Er. subst r.
      cbn in E. injection E as <- <-. split; [done|]. exists (cl_now s). split; [done|]. split; [apply Qle_refl|]. intros e He.
      destruct (Htime e He) as [Hl _]. apply (lined_names _ _ _ _ ((x, None) :: ws)); [done|].
      eapply lined_tasks; [|exact Hl]. intros y b Hy. by rewrite lookup_delete_ne by congruence.
Qed.

(** What another host's call, or the passing of time, leaves alone. *)
Lemma line_frame hold ws s s' : line_ok hold ws s -> lock_of h s' = lock_of h s ->
  (forall t a, aq_host a = h -> cl_tasks s' !! t = Some a <-> cl_tasks s !! t = Some a) ->
  ll_state (cl_limiter s') !! h = ll_state (cl_limiter s) !! h -> (cl_now s <= cl_now s')%Q ->
  of_host h (fst <$> cl_grants s') = of_host h (fst <$> cl_grants s) -> of_host h (cl_arrivals s') = of_host h (cl_arrivals s) ->
  line_ok hold ws s'.
Proof.
  intros [L1 L2 L3 L4 L5 L6 L7] El Et Eb En Eg Ea.
  assert (forall e b, lined rmin e (cl_tasks s) b ws -> lined rmin e (cl_tasks s') b ws) as Hl.
  { intros e b. apply lined_tasks. intros x a Hx E. destruct (L4 x Hx) as (a' & E' & Hh & _). rewrite E in E'. injection E' as <-. by apply Et. }
  split.
  - by rewrite El.
  - done.
  - intros t a E Hh. apply (L3 t a); [by apply Et|done].
  - intros t Hx. destruct (L4 t Hx) as (a & ? & ? & ?). exists a. split; [by apply Et|done].
  - by rewrite Eg, Ea.
  - intros t E. destruct (L6 t E) as [Hu (a & u & tok & ts & ? & ? & ? & ? & ? & Hd)]. split; [done|]. exists a, u, tok, ts.
    split_and!; [by apply Et|done|done|congruence|done|]. intros e He. destruct (Hd e He) as [[? ?] ?]. split; [lra|by apply Hl].
  - intros E w ws' Ew. destruct (L7 E w ws' Ew) as [Hu (r & ? & ? & Hd)]. split; [done|]. exists r. split_and!; [done|lra|].
    intros e He. by apply Hl, Hd.
Qed.

Variable rmax : Q.
Hypothesis rate_max : forall r, rates h r -> (r <= rmax)%Q.
Hypothesis capacity_nonneg : (0 <= capacity)%Q.
Hypothesis roomy : forall e, late = Some e -> (1 <= capacity)%Q.

Definition callers_ok (s : callers) : Prop :=
  bucket_ok h capacity rmax (cl_now s) (cl_limiter s) (cl_grants s) /\ exists hold ws, line_ok hold ws s.

Lemma iterate_elsewhere t a k s : aq_host a <> h -> (forall b, cl_tasks s !! t = Some b -> aq_host b <> h) ->
  callers_ok s -> callers_ok (iterate t a k s).
Proof.
  intros Hne Ht [Hb (hold & ws & Hl)]. unfold callers_ok, iterate.
  destruct (local_try (aq_host a) (aq_rate a) (cl_now s) (cl_limiter s)) as [w l] eqn:Ew.
  pose proof (bucket_other h capacity rmax _ _ _ _ _ _ _ t Hne Ew Hb) as Hb'.
  destruct (local_try_spec _ _ _ _ _ _ Ew) as (_ & Ho & _). specialize (Ho h ltac:(congruence)).
  destruct w as [wait|]; cbn; (split; [done|]); exists hold, ws; (eapply line_frame; [exact Hl|..]); cbn.
  - unfold lock_of. cbn. by rewrite lookup_insert_ne.
  - intros x b Hbh. rewrite lookup_insert_Some. split; [intros [[<- <-]|[_ Hx]]; [done|done]|].
    intros Hx. right. split; [|done]. intros <-. by apply (Ht b).
  - done.
  - apply Qle_refl.
  - done.
  - done.
  - unfold lock_of. cbn. by rewrite lookup_insert_ne.
  - intros x b Hbh. rewrite lookup_delete_Some. split; [by intros [_ Hx]|]. intros Hx. split; [|done]. intros <-. by apply (Ht b).
  - done.
  - apply Qle_refl.
  - rewrite fmap_app. change [(aq_host a, t, cl_now s)].*1 with [(aq_host a, t)]. rewrite of_host_snoc. cbn [fst snd].
    rewrite decide_False by done. apply app_nil_r.
  - done.
Qed.

Lemma of_host_own l t : of_host h (l ++ [(h, t)]) = of_host h l ++ [t].
Proof. rewrite of_host_snoc. cbn [fst snd]. by rewrite decide_True. Qed.
Lemma of_host_other l host t : host <> h -> of_host h (l ++ [(host, t)]) = of_host h l.
Proof. intros Hne. rewrite of_host_snoc. cbn [fst]. rewrite decide_False by done. apply app_nil_r. Qed.

Lemma passed_ok s gs : callers_ok s ->
  callers_ok (mkCallers (cl_now s) (cl_limiter s) (cl_locks s) (cl_tasks s) (cl_reg s) (cl_arrivals s) (cl_grants s) gs).
Proof.
  intros [Hb (hold & ws & Hl)]. split; [done|]. exists hold, ws. eapply line_frame; [exact Hl|done..| |done|done]. apply Qle_refl.
Qed.

Lemma arrive_elsewhere t host rate s : host <> h -> cl_tasks s !! t = None -> callers_ok s -> callers_ok (arrive t host rate s).
Proof.
  intros Hne Ht Hs. unfold arrive. destruct (Qle_bool rate 0); [by apply passed_ok|].
  pose proof (of_host_other (cl_arrivals s) host t Hne) as Ea. destruct (lock_acquire t (lock_of host s)) as [[] k].
  - apply iterate_elsewhere; [done|cbn; congruence|]. destruct Hs as [Hb (hold & ws & Hl)]. split; [done|]. exists hold, ws.
    eapply line_frame; [exact Hl|done..| |done|exact Ea]. apply Qle_refl.
  - destruct Hs as [Hb (hold & ws & Hl)]. split; [done|]. exists hold, ws. eapply line_frame; [exact Hl|..]; cbn.
    + unfold lock_of. cbn. by rewrite lookup_insert_ne.
    + intros x b Hbh. rewrite lookup_insert_Some. split; [intros [[<- <-]|[_ Hx]]; [done|done]|].
      intros Hx. right. split; [|done]. intros <-. congruence.
    + done.
    + apply Qle_refl.
    + done.
    + exact Ea.
Qed.

(** A new caller of the host, first as one that found the lock free. *)
Definition newcomer (rate : Q) (s : callers) : acquirer := mkAcquirer h rate (cl_now s) (in_line (lock_of h s)) Queued.

Lemma arrive_first t rate s : rates h rate -> (0 < rate)%Q -> line_ok None [] s ->
  turn_ok t (newcomer rate s) []
    (mkCallers (cl_now s) (cl_limiter s) (cl_locks s) (cl_tasks s) (cl_reg s) (cl_arrivals s ++ [(h, t)]) (cl_grants s) (cl_unlimited s)).
Proof.
  intros Hr Hpos [L1 L2 L3 L4 L5 L6 L7]. split; cbn.
  - done.
  - done.
  - apply NoDup_singleton.
  - intros x b Ex Hbh. destruct (L3 x b Ex Hbh) as [Hin _]. by apply elem_of_nil in Hin.
  - intros x Hx. by apply elem_of_nil in Hx.
  - constructor.
  - rewrite of_host_own. apply sublist_app; [|done]. by rewrite <- (app_nil_r (of_host h (cl_grants s).*1)).
  - intros e He. split; [done|]. right. split; [|done]. destruct (service_pos e He) as (? & ? & ? & ?). unfold deadline, service in *.
    cbn [newcomer aq_since aq_ahead]. rewrite L1. cbn [in_line lk_locked lk_waiters bool_decide length Nat.add].
    rewrite bool_decide_eq_false_2 by (by intros []). change (inject_Z _) with 1%Q. lra.
Qed.

Lemma not_in_line t hold ws s : line_ok hold ws s -> cl_tasks s !! t = None -> t ∉ line hold ws.
Proof.
  intros [L1 L2 L3 L4 L5 L6 L7] Ht. unfold line. rewrite elem_of_app. intros [Hx|Hx].
  - destruct hold as [x|]; [|by apply elem_of_nil in Hx]. apply list_elem_of_singleton in Hx as ->.
    destruct (L6 x eq_refl) as [_ (a & ? & ? & ? & Ex & _)]. congruence.
  - destruct (L4 t Hx) as (a & Ex & _). congruence.
Qed.

(** Then as one that did not. *)
Lemma arrive_queued t rate hold ws s : rates h rate -> (0 < rate)%Q -> cl_tasks s !! t = None -> line_ok hold ws s ->
  (hold = None -> ws <> []) ->
  line_ok hold (ws ++ [(t, None)])
    (mkCallers (cl_now s) (cl_limiter s) (<[h := mkLock (bool_decide (is_Some hold)) (ws ++ [(t, None)])]> (cl_locks s))
       (<[t := newcomer rate s]> (cl_tasks s)) (cl_reg s) (cl_arrivals s ++ [(h, t)]) (cl_grants s) (cl_unlimited s)).
Proof.
  intros Hr Hpos Ht Hl Hempty. pose proof (not_in_line t hold ws s Hl Ht) as Hnt. destruct Hl as [L1 L2 L3 L4 L5 L6 L7].
  assert (line hold (ws ++ [(t, None)]) = line hold ws ++ [t]) as Eline by (unfold line; by rewrite fmap_app, app_assoc).
  assert (forall e b, lined rmin e (cl_tasks s) b ws ->
    (b + inject_Z (Z.of_nat (S (length ws))) * service rmin e <= deadline rmin e (newcomer rate s))%Q ->
    lined rmin e (<[t:=newcomer rate s]> (cl_tasks s)) b (ws ++ [(t, None)])) as Hsnoc.
  { intros e b Hl Hd. apply (lined_snoc _ _ _ _ _ _ (newcomer rate s)); [|apply lookup_insert_eq|done]. eapply lined_tasks; [|exact Hl].
    intros x c Hx Ex. rewrite lookup_insert_ne by congruence. done. }
  unfold deadline in Hsnoc. cbn [newcomer aq_since aq_ahead] in Hsnoc. rewrite L1 in Hsnoc. unfold in_line in Hsnoc. cbn [lk_locked lk_waiters] in Hsnoc.
  split; cbn.
  - unfold lock_of. cbn. by rewrite lookup_insert_eq.
  - rewrite Eline. apply NoDup_app. split_and!; [done| |apply NoDup_singleton]. intros x Hx ->%list_elem_of_singleton. done.
  - intros x b. rewrite Eline, lookup_insert_Some. intros [[<- <-]|[_ Ex]] Hbh; [split; [apply elem_of_app; right; by apply list_elem_of_singleton|done]|].
    destruct (L3 x b Ex Hbh) as [? ?]. split; [apply elem_of_app; by left|done].
  - intros x. rewrite fmap_app, elem_of_app. intros [Hx| ->%list_elem_of_singleton]; [|exists (newcomer rate s); by rewrite lookup_insert_eq].
    destruct (L4 x Hx) as (b & Ex & ?). exists b. rewrite lookup_insert_ne by congruence. done.
  - rewrite Eline, of_host_own, app_assoc. by apply sublist_app.
  - intros x Ex. destruct (L6 x Ex) as [Hu (b & u & tok & ts & Eb & ? & ? & ? & ? & Hd)]. split; [by apply Forall_app; split; [|constructor]|].
    exists b, u, tok, ts. rewrite lookup_insert_ne by congruence. split_and!; [done..|]. intros e He. destruct (Hd e He) as [[Hu1 Hu2] Hl].
    split; [done|]. apply Hsnoc; [done|]. rewrite Ex. rewrite bool_decide_eq_true_2 by done. cbn [Nat.add].
    rewrite (Nat2Z.inj_succ (S (length ws))), <- Z.add_1_r, inject_Z_plus. change (inject_Z 1) with 1%Q. lra.
  - intros Eh w ws' Ew. destruct ws as [|w0 ws]; [by destruct (Hempty Eh)|]. injection Ew as <- <-.
    destruct (L7 Eh w0 ws eq_refl) as [Hu (r & Er & Hle & Hd)]. split; [by apply Forall_app; split; [|constructor]|].
    exists r. split_and!; [done|done|]. intros e He. apply (Hsnoc e r); [by apply Hd|]. rewrite Eh.
    rewrite bool_decide_eq_false_2 by (by intros []). cbn [Nat.add]. lra.
Qed.

Lemma arrive_ok t host rate s : cl_tasks s !! t = None -> rates host rate -> callers_ok s -> callers_ok (arrive t host rate s).
Proof.
  intros Ht Hr Hs. destruct (decide (host = h)) as [->|Hne]; [|by apply arrive_elsewhere].
  unfold arrive. destruct (Qleb_spec rate 0) as [|Hpos%Qnot_le_lt]; [by apply passed_ok|].
  fold (newcomer rate s). destruct Hs as [Hb (hold & ws & Hl)]. pose proof (ln_lock _ _ _ Hl) as L1.
  destruct hold as [x|]; [|destruct ws as [|w ws]]; rewrite L1; cbn.
  - split; [done|]. exists (Some x), (ws ++ [(t, None)]). by apply arrive_queued.
  - apply (turn_iterate t (newcomer rate s) [] _ rmax); [done|done|done|by apply arrive_first].
  - split; [done|]. exists None, ((w :: ws) ++ [(t, None)]). by apply arrive_queued.
Qed.

Lemma tick_ok d s : (0 <= d)%Q -> callers_ok s -> callers_ok (tick d s).
Proof.
  intros Hd [Hb (hold & ws & Hl)]. split.
  - eapply bucket_later; [|exact Hb]. cbn. lra.
  - exists hold, ws. eapply line_frame; [exact Hl|done..| |done|done]. cbn. lra.
Qed.

(** A task that waits with its future done is the first of a free lock. *)
Lemma woken_first t a r hold ws s : line_ok hold ws s -> cl_tasks s !! t = Some a -> aq_host a = h ->
  (t, Some r) ∈ ws -> hold = None /\ exists ws', ws = (t, Some r) :: ws'.
Proof.
  intros Hl Ht Hh Hin. destruct hold as [x|].
  - destruct (ln_hold _ _ _ Hl x eq_refl) as [Hu _]. by apply (proj1 (Forall_forall _ _) Hu) in Hin.
  - split; [done|]. destruct ws as [|w ws]; [by apply elem_of_nil in Hin|].
    destruct (ln_free _ _ _ Hl eq_refl w ws eq_refl) as [Hu _].
    apply elem_of_cons in Hin as [<-|Hin]; [by eexists|]. by apply (proj1 (Forall_forall _ _) Hu) in Hin.
Qed.

Lemma asleep_holds t a u hold ws s : line_ok hold ws s -> cl_tasks s !! t = Some a -> aq_host a = h -> aq_stage a = Asleep u -> hold = Some t.
Proof.
  intros Hl Ht Hh Hu. destruct (ln_tasks _ _ _ Hl t a Ht Hh) as [Hin _]. unfold line in Hin. apply elem_of_app in Hin as [Hin|Hin].
  - destruct hold; [by apply list_elem_of_singleton in Hin as ->|by apply elem_of_nil in Hin].
  - destruct (ln_waits _ _ _ Hl t Hin) as (b & Eb & _ & Hq). congruence.
Qed.

Lemma resume_turn t a r ws s : line_ok None ((t, Some r) :: ws) s -> punctual late s -> cl_tasks s !! t = Some a -> aq_host a = h ->
  aq_stage a = Queued -> turn_ok t a ws s.
Proof.
  intros [L1 L2 L3 L4 L5 L6 L7] Hp Ht Hh Hq. destruct (L7 eq_refl _ _ eq_refl) as [Hu (r' & [= <-] & Hr & Hd)]. split; try done.
  - by destruct (L3 t a Ht Hh).
  - intros x Hx. apply L4. by right.
  - intros e He. destruct (Hd e He) as [(a' & Ea' & Hda) Hl]. cbn in Ea'. rewrite Ht in Ea'. injection Ea' as <-.
    assert (cl_now s <= r + e)%Q as Hn.
    { apply (Hp e t); [done|]. exists a. split; [done|]. rewrite Hq, Hh, L1. left. }
    destruct (service_pos e He) as (? & ? & ? & ?). split; [eapply lined_mono; [|exact Hl]; lra|]. right.
    unfold service in *. split; [lra|]. eapply lined_mono; [|exact Hl]. lra.
Qed.

Lemma wake_turn t a u ws s : bucket_ok h capacity rmax (cl_now s) (cl_limiter s) (cl_grants s) -> line_ok (Some t) ws s -> punctual late s ->
  cl_tasks s !! t = Some a -> aq_stage a = Asleep u -> (u <= cl_now s)%Q -> turn_ok t a ws s.
Proof.
  intros Hb [L1 L2 L3 L4 L5 L6 L7] Hp Ht Hs Hle. destruct (L6 t eq_refl) as [Hu (a' & u' & tok & ts & Ea & Hh & Hs' & Eb & Eu & Hd)].
  rewrite Ht in Ea. injection Ea as <-. rewrite Hs in Hs'. injection Hs' as <-. destruct (L3 t a Ht Hh) as (_ & Hr & Hpos). split; try done.
  intros e He. destruct (Hd e He) as [[Hu1 Hu2] Hl]. assert (cl_now s <= u + e)%Q as Hn.
  { apply (Hp e t); [done|]. exists a. by rewrite Hs. }
  split; [by eapply lined_mono; [|exact Hl]|]. left. unfold found, tokens_at. rewrite (bk_capacity _ _ _ _ _ _ Hb), Eb.
  cbn [default from_option id fst snd]. apply refill_enough; [by eapply roomy|done|lra].
Qed.

Lemma resume_ok t a r s : callers_ok s -> punctual late s -> cl_tasks s !! t = Some a -> aq_stage a = Queued ->
  (t, Some r) ∈ lk_waiters (lock_of (aq_host a) s) -> callers_ok (resume t a s).
Proof.
  intros Hs Hp Ht Hq Hin. unfold resume. destruct (decide (aq_host a = h)) as [Hh|Hne].
  - destruct Hs as [Hb (hold & ws & Hl)]. rewrite Hh, (ln_lock _ _ _ Hl) in *. cbn [lk_waiters] in Hin.
    destruct (woken_first t a r hold ws s Hl Ht Hh Hin) as [-> (ws' & ->)].
    unfold lock_resume. cbn [lk_waiters]. rewrite without_cons by exact (NoDup_cons_1_1 _ _ (ln_nodup _ _ _ Hl)).
    apply (turn_iterate t a ws' s rmax); [done|done|done|by eapply resume_turn].
  - apply iterate_elsewhere; [done|congruence|done].
Qed.

Lemma wake_ok t a u s : callers_ok s -> punctual late s -> cl_tasks s !! t = Some a -> aq_stage a = Asleep u -> (u <= cl_now s)%Q ->
  callers_ok (wake t a s).
Proof.
  intros Hs Hp Ht Hu Hle. unfold wake. destruct (decide (aq_host a = h)) as [Hh|Hne].
  - destruct Hs as [Hb (hold & ws & Hl)]. pose proof (asleep_holds t a u hold ws s Hl Ht Hh Hu) as ->.
    rewrite Hh, (ln_lock _ _ _ Hl). rewrite bool_decide_eq_true_2 by done.
    apply (turn_iterate t a ws s rmax); [done|done|done|by eapply wake_turn].
  - apply iterate_elsewhere; [done|congruence|done].
Qed.

(** What both kinds of cancellation leave of the line: the task is gone, the
    others are as they were. *)
Lemma cancelled_line t hold hold' ws ws' k s s' : line_ok hold ws s ->
  cl_locks s' = <[h := k]> (cl_locks s) -> k = mkLock (bool_decide (is_Some hold')) ws' -> cl_tasks s' = delete t (cl_tasks s) ->
  cl_grants s' = cl_grants s -> cl_arrivals s' = cl_arrivals s -> line hold' ws' = filter (fun x => x <> t) (line hold ws) ->
  (forall x, x ∈ ws'.*1 -> x ∈ ws.*1) ->
  (forall x, hold' = Some x -> unwoken ws' /\ exists a u tok ts, cl_tasks s' !! x = Some a /\ aq_host a = h /\ aq_stage a = Asleep u /\
    ll_state (cl_limiter s') !! h = Some (tok, ts) /\ (u == ts + (1 - tok) / aq_rate a)%Q /\
    forall e, late = Some e -> (u + e <= cl_now s' + service rmin e /\ u + e <= deadline rmin e a)%Q /\ lined rmin e (cl_tasks s') (u + e) ws') ->
  (hold' = None -> forall w ws'', ws' = w :: ws'' -> unwoken ws'' /\ exists r, w.2 = Some r /\ (r <= cl_now s')%Q /\
    forall e, late = Some e -> lined rmin e (cl_tasks s') r ws') ->
  line_ok hold' ws' s'.
Proof.
  intros [L1 L2 L3 L4 L5 L6 L7] Ek -> Et Eg Ea Eline Hin Hh Hf. split; [| | | | |done|done].
  - unfold lock_of. by rewrite Ek, lookup_insert_eq.
  - rewrite Eline. by apply NoDup_filter.
  - intros x b. rewrite Et, Eline. intros [Hne Ex]%lookup_delete_Some Hb. destruct (L3 x b Ex Hb) as [? ?]. split; [|done].
    apply list_elem_of_filter. split; [congruence|done].
  - intros x Hx. destruct (L4 x (Hin x Hx)) as (b & Eb & ?). exists b. split; [|done]. rewrite Et. apply lookup_delete_Some. split; [|done].
    assert (x ∈ line hold' ws') as Hx' by (apply elem_of_app; by right). rewrite Eline in Hx'. apply list_elem_of_filter in Hx' as [? _]. congruence.
  - rewrite Eg, Ea, Eline. etransitivity; [|exact L5]. apply sublist_app; [done|]. apply sublist_filter.
Qed.

Lemma filter_self t (l : list nat) : t ∉ l -> filter (fun x => x <> t) l = l.
Proof. intros Hn. induction l as [|x l IH]; [done|]. apply not_elem_of_cons in Hn as [Hx Hn]. rewrite filter_cons_True by congruence. by rewrite IH. Qed.
Lemma lined_delete e t b ws s : t ∉ ws.*1 -> lined rmin e (cl_tasks s) b ws -> lined rmin e (delete t (cl_tasks s)) b ws.
Proof. intros Hn. apply lined_tasks. intros x c Hx Ex. by rewrite lookup_delete_ne by congruence. Qed.
Lemma lined_woken e tasks now b ws : (now <= b)%Q -> lined rmin e tasks b ws -> lined rmin e tasks now (wake_up_first now ws).
Proof. intros Hle Hl. apply (lined_names _ _ _ _ ws); [by rewrite wake_names|by eapply lined_mono]. Qed.

Lemma cancel_asleep t a u ws s : line_ok (Some t) ws s -> punctual late s -> cl_tasks s !! t = Some a -> aq_host a = h ->
  aq_stage a = Asleep u -> line_ok None (wake_up_first (cl_now s) ws) (cancel t a s).
Proof.
  intros Hl Hp Ht Hh Hs. pose proof (ln_nodup _ _ _ Hl) as Hnd. apply NoDup_cons_1_1 in Hnd as Hnt.
  destruct (ln_hold _ _ _ Hl t eq_refl) as [Hu (a' & u' & tok & ts & Ea & _ & Hs' & Eb & Eu & Hd)].
  rewrite Ht in Ea. injection Ea as <-. rewrite Hs in Hs'. injection Hs' as <-.
  eapply (cancelled_line t (Some t) None ws _ _ s); [exact Hl|..]; unfold cancel; cbn.
  - by rewrite Hh, Hs, (ln_lock _ _ _ Hl).
  - done.
  - done.
  - done.
  - done.
  - unfold line. cbn [option_list app]. rewrite wake_names. change (option_list (Some t) ++ ws.*1) with (t :: ws.*1).
    rewrite filter_cons_False by tauto. by rewrite filter_self.
  - intros x. by rewrite wake_names.
  - done.
  - intros _ w ws'' E. destruct ws as [|[x r] ws]; [done|]. pose proof Hu as Hu'. apply Forall_cons in Hu' as [Er Hu']. cbn in Er. subst r.
    cbn in E. injection E as <- <-. split; [done|]. exists (cl_now s). split_and!; [done|apply Qle_refl|]. intros e He.
    destruct (Hd e He) as [_ Hln]. apply (lined_woken e _ (cl_now s) (u + e) ((x, None) :: ws)); [|by apply lined_delete].
    apply (Hp e t); [done|]. exists a. by rewrite Hs.
Qed.

(** The line of a free lock without one of its tasks: the first is the woken
    one, or is woken now. *)
Lemma cancel_woken t ws s : line_ok None ws s -> punctual late s -> t ∈ ws.*1 ->
  forall w ws'', wake_up_first (cl_now s) (without t ws) = w :: ws'' -> unwoken ws'' /\ exists r, w.2 = Some r /\ (r <= cl_now s)%Q /\
    forall e, late = Some e -> lined rmin e (delete t (cl_tasks s)) r (wake_up_first (cl_now s) (without t ws)).
Proof.
  intros Hl Hp Hin w ws'' E. pose proof (ln_nodup _ _ _ Hl) as Hnd. unfold line in Hnd. cbn in Hnd.
  assert (t ∉ (without t ws).*1) as Hnt by (rewrite without_names; by intros [? _]%list_elem_of_filter).
  destruct ws as [|[x r0] ws]; [by apply elem_of_nil in Hin|]. destruct (ln_free _ _ _ Hl eq_refl _ _ eq_refl) as [Hu (r & Er & Hr & Hd)].
  cbn in Er. subst r0. apply NoDup_cons_1_1 in Hnd as Hx. destruct (decide (x = t)) as [->|Hne].
  - rewrite without_cons in * by done. destruct ws as [|[y q] ws]; [done|]. pose proof Hu as Hu'. apply Forall_cons in Hu' as [Eq Hu'].
    cbn in Eq. subst q. cbn in E. injection E as <- <-. split; [done|]. exists (cl_now s). split_and!; [done|apply Qle_refl|].
    intros e He. destruct (Hd e He) as [_ Hln]. apply (lined_woken e _ (cl_now s) (r + service rmin e) ((y, None) :: ws)); [|by apply lined_delete].
    destruct (service_pos e He) as (? & ? & ? & ?). assert (cl_now s <= r + e)%Q; [|lra].
    apply (Hp e t); [done|]. destruct (ln_waits _ _ _ Hl t) as (a & Ea & Hh & Hq); [left|]. exists a. split; [done|].
    rewrite Hq, Hh, (ln_lock _ _ _ Hl). left.
  - unfold without in *. rewrite filter_cons_True in * by done. fold (without t ws) in *. cbn in E. injection E as <- <-.
    split; [by apply without_unwoken|]. exists r. split_and!; [done|done|]. intros e He. destruct (service_pos e He) as (? & ? & ? & ?).
    apply (lined_delete e t r ((x, Some r) :: without t ws)); [done|].
    pose proof (lined_without rmin e (cl_tasks s) r t _ ltac:(lra) (Hd e He)) as Hw. unfold without in Hw. by rewrite filter_cons_True in Hw.
Qed.

Lemma cancel_waiting t a hold ws s : line_ok hold ws s -> punctual late s -> cl_tasks s !! t = Some a -> aq_host a = h ->
  aq_stage a = Queued -> exists ws', line_ok hold ws' (cancel t a s).
Proof.
  intros Hl Hp Ht Hh Hq.
  assert (option_list hold = filter (fun x => x <> t) (option_list hold)) as Eh.
  { destruct hold as [x|]; [|done]. change (option_list (Some x)) with [x]. rewrite filter_cons_True; [done|]. intros ->.
    destruct (ln_hold _ _ _ Hl t eq_refl) as [_ (b & u & _ & _ & Eb & _ & Hs & _)]. congruence. }
  assert (forall ws', ws'.*1 = (without t ws).*1 -> line hold ws' = filter (fun x => x <> t) (line hold ws)) as Eline.
  { intros ws' E. unfold line. by rewrite E, filter_app, without_names, <- Eh. }
  assert (forall (ws' : list (nat * option Q)) x, ws'.*1 = (without t ws).*1 -> x ∈ ws'.*1 -> x ∈ ws.*1) as Hin.
  { intros ws' x ->. rewrite without_names. by intros [_ Hx]%list_elem_of_filter. }
  assert (forall x, x ∈ (without t ws).*1 -> x <> t) as Hne.
  { intros x. rewrite without_names. by intros [Hx _]%list_elem_of_filter. }
  destruct hold as [x|].
  - exists (without t ws). destruct (ln_hold _ _ _ Hl x eq_refl) as [Hu (b & u & tok & ts & Eb & Hb & Hs & El & Eu & Hd)].
    eapply (cancelled_line t (Some x) (Some x) ws _ _ s); [exact Hl|..]; unfold cancel; cbn.
    + by rewrite Hh, Hq, (ln_lock _ _ _ Hl).
    + done.
    + done.
    + done.
    + done.
    + by apply Eline.
    + intros y. by apply Hin.
    + intros y [= <-]. split; [by apply without_unwoken|]. exists b, u, tok, ts. rewrite lookup_delete_ne by congruence.
      split_and!; [done..|]. intros e He. destruct (Hd e He) as [? Hln]. split; [done|]. destruct (service_pos e He) as (? & ? & ? & ?).
      apply lined_delete; [by intros Hx%Hne|]. apply lined_without; [lra|done].
    + done.
  - exists (wake_up_first (cl_now s) (without t ws)).
    eapply (cancelled_line t None None ws _ _ s); [exact Hl|..]; unfold cancel; cbn.
    + by rewrite Hh, Hq, (ln_lock _ _ _ Hl).
    + done.
    + done.
    + done.
    + done.
    + apply Eline, wake_names.
    + intros y. apply Hin, wake_names.
    + done.
    + intros _ w ws'' E. apply (cancel_woken t ws s Hl Hp); [|done].
      destruct (ln_tasks _ _ _ Hl t a Ht Hh) as [Hx _]. exact Hx.
Qed.

Lemma cancel_ok t a s : callers_ok s -> punctual late s -> cl_tasks s !! t = Some a -> callers_ok (cancel t a s).
Proof.
  intros [Hb (hold & ws & Hl)] Hp Ht. split; [done|]. destruct (decide (aq_host a = h)) as [Hh|Hne].
  - destruct (aq_stage a) as [|u] eqn:Es.
    + destruct (cancel_waiting t a hold ws s Hl Hp Ht Hh Es) as [ws' ?]. by exists hold, ws'.
    + pose proof (asleep_holds t a u hold ws s Hl Ht Hh Es) as ->. eexists None, _. by eapply cancel_asleep.
  - exists hold, ws. eapply line_frame; [exact Hl|..]; cbn.
    + unfold lock_of. cbn. by rewrite lookup_insert_ne.
    + intros x b Hbh. rewrite lookup_delete_Some. split; [by intros [_ Hx]|]. intros Hx. split; [|done]. intros <-. congruence.
    + done.
    + apply Qle_refl.
    + done.
    + done.
Qed.

Lemma callers_invariant now reg s : (0 <= rmax)%Q -> rtc (scheduled rates late) (new_callers capacity now reg) s ->
  callers_ok s /\ punctual late s.
Proof.
  intros Hr Hsteps. apply (rtc_invariant (scheduled rates late) (fun s => callers_ok s /\ punctual late s)) with (2 := Hsteps).
  - intros s1 s2 [Hok Hp] [Hst Hp2]. split; [|done]. destruct Hst; [by apply tick_ok|by apply arrive_ok|by eapply resume_ok|by eapply wake_ok|by apply cancel_ok].
  - split; [|by intros e t r _ (a & Ea & _)]. split.
    + split; [done| |done|done]. intros t0 t1 Ht. change (inject_Z (granted h t0 t1 _)) with 0%Q. assert (0 <= rmax * (t1 - t0))%Q by (apply Qmult_le_0_compat; lra). lra.
    + exists None, []. split; try done; [apply NoDup_nil_2|]. intros t Ht. by apply elem_of_nil in Ht.
Qed.

Lemma lined_in e tasks b ws t a : (0 <= service rmin e)%Q -> lined rmin e tasks b ws -> t ∈ ws.*1 -> tasks !! t = Some a ->
  (b + service rmin e <= deadline rmin e a)%Q.
Proof.
  intros Hs. revert b. induction ws as [|w ws IH]; intros b Hl Hin Ht; [by apply elem_of_nil in Hin|].
  destruct Hl as [(c & Ec & Hc) Hl]. rewrite fmap_cons in Hin. apply elem_of_cons in Hin as [->|Hin]; [by rewrite Ht in Ec; injection Ec as <-|].
  specialize (IH _ Hl Hin Ht). lra.
Qed.

(** Some call of the host is ready, or will be, early enough for [a]. *)
Lemma line_moves e t a s : late = Some e -> callers_ok s -> cl_tasks s !! t = Some a -> aq_host a = h ->
  exists x b r, cl_tasks s !! x = Some b /\ aq_host b = h /\ ready_since s x r /\ (r + e <= deadline rmin e a)%Q.
Proof.
  intros He [_ (hold & ws & Hl)] Ht Hh. destruct (service_pos e He) as (? & ? & ? & ?).
  destruct (ln_tasks _ _ _ Hl t a Ht Hh) as [Hin _]. unfold line in Hin. apply elem_of_app in Hin. destruct hold as [x|].
  - destruct (ln_hold _ _ _ Hl x eq_refl) as [_ (b & u & tok & ts & Eb & Hb & Hs & _ & _ & Hd)]. destruct (Hd e He) as [[_ Hu] Hln].
    exists x, b, u. split_and!; [done|done|exists b; by rewrite Hs|]. destruct Hin as [->%list_elem_of_singleton|Hin]; [congruence|].
    pose proof (lined_in e _ _ _ t a ltac:(lra) Hln Hin Ht). lra.
  - destruct Hin as [Hin|Hin]; [by apply elem_of_nil in Hin|]. destruct ws as [|[x q] ws]; [by apply elem_of_nil in Hin|].
    destruct (ln_free _ _ _ Hl eq_refl _ _ eq_refl) as [_ (r & Er & _ & Hd)]. cbn in Er. subst q.
    destruct (ln_waits _ _ _ Hl x) as (b & Eb & Hb & Hq); [left|]. exists x, b, r. split_and!; [done|done| |].
    + exists b. split; [done|]. rewrite Hq, Hb, (ln_lock _ _ _ Hl). left.
    + pose proof (lined_in e _ _ _ t a ltac:(lra) (Hd e He) Hin Ht). lra.
Qed.

End Line.

(** The calls that no lock saw were made with a rate of zero or less. *)
Definition let_pass (rates : string -> Q -> Prop) (s : callers) : Prop :=
  Forall (fun g => exists r, rates g.1.1 r /\ (r <= 0)%Q) (cl_unlimited s).
Lemma iterate_unlimited t a k s : cl_unlimited (iterate t a k s) = cl_unlimited s.
Proof. unfold iterate. by destruct (local_try _ _ _ _) as [[wait|] l]. Qed.
Lemma step_let_pass rates s s' : let_pass rates s -> call_step rates s s' -> let_pass rates s'.
Proof.
  unfold let_pass. intros Hs Hst. destruct Hst as [|t host rate s _ Hr| | |]; [done| |unfold resume; by rewrite iterate_unlimited|unfold wake; by rewrite iterate_unlimited|done].
  unfold arrive. destruct (Qleb_spec rate 0).
  - apply Forall_app. split; [done|]. constructor; [|done]. by exists rate.
  - destruct (lock_acquire _ _) as [[] k]; [by rewrite iterate_unlimited|done].
Qed.
Lemma none_let_pass rates h s : let_pass rates s -> (forall r, rates h r -> (0 < r)%Q) -> of_host h (fst <$> cl_unlimited s) = [].
Proof.
  unfold let_pass, of_host. intros Hs Hpos. induction Hs as [|[[g t] now] l (r & Hr & Hle) _ IH]; [done|].
  rewrite fmap_cons, filter_cons_False; [done|]. cbn in *. intros ->. specialize (Hpos r Hr). lra.
Qed.

(** ** Theorems *)

(** C28: politeness under concurrency.  Whatever the schedule of any number of
    calls for any hosts, with cancellations and late sleeps, at most
    [capacity + rmax * (t1 - t0)] requests of a host are granted in every window
    from [t0] to [t1], [rmax] bounding its refill rates; they are granted in the
    order in which the calls came; of a host's calls one at a time is past the
    lock; and when its rates are positive no other call of it is let pass. *)
Theorem acquirers_rate_bound (rates : string -> Q -> Prop) (h : string) (rmax capacity now : Q) (reg : registry) (s : callers) :
  (0 <= capacity)%Q -> (0 <= rmax)%Q -> (forall r, rates h r -> (r <= rmax)%Q) ->
  rtc (call_step rates) (new_callers capacity now reg) s ->
  (forall t0 t1, (t0 <= t1)%Q -> (inject_Z (granted h t0 t1 (cl_grants s)) <= capacity + rmax * (t1 - t0))%Q) /\
  of_host h (fst <$> cl_grants s) `sublist_of` of_host h (cl_arrivals s) /\
  (forall t a u t' a' u', cl_tasks s !! t = Some a -> aq_host a = h -> aq_stage a = Asleep u ->
    cl_tasks s !! t' = Some a' -> aq_host a' = h -> aq_stage a' = Asleep u' -> t = t') /\
  ((forall r, rates h r -> (0 < r)%Q) -> of_host h (fst <$> cl_unlimited s) = []).
Proof.
  intros Hc Hr Hmax Hs. assert (rtc (scheduled rates None) (new_callers capacity now reg) s) as Hs'.
  { clear - Hs. induction Hs as [|x y z Hxy _ IH]; [apply rtc_refl|]. eapply rtc_l; [|exact IH]. by split. }
  destruct (callers_invariant rates None h 0 capacity ltac:(done) rmax Hmax Hc ltac:(done) now reg s Hr Hs') as [[Hb (hold & ws & Hl)] _].
  split_and!.
  - apply (bk_windows _ _ _ _ _ _ Hb).
  - etransitivity; [|apply (ln_fifo _ _ _ _ _ _ _ Hl)]. by apply sublist_inserts_r.
  - intros t a u t' a' u' Ht Hh Hu Ht' Hh' Hu'. pose proof (asleep_holds _ _ _ _ t a u hold ws s Hl Ht Hh Hu) as E.
    pose proof (asleep_holds _ _ _ _ t' a' u' hold ws s Hl Ht' Hh' Hu'). congruence.
  - apply none_let_pass. apply (rtc_invariant _ _ _ _ (step_let_pass rates) Hs). constructor.
Qed.

(** C29: a call waits for its turn and no longer.  When what is ready runs within
    [late] seconds, a host's rates are at least [rmin] and the capacity is one
    token or more, a call that found [ahead] calls of its host at the lock has
    returned after [(ahead + 1) * (1 / rmin + 2 * late)] seconds, unless it was
    cancelled: as long as it is suspended that time has not passed, and a call
    of the host can go on before it has. *)
Theorem acquirers_wait_bound (rates : string -> Q -> Prop) (h : string) (rmin rmax capacity late now : Q) (reg : registry)
    (s : callers) (t : nat) (a : acquirer) :
  (1 <= capacity)%Q -> (0 < rmin)%Q -> (0 <= late)%Q -> (forall r, rates h r -> (rmin <= r <= rmax)%Q) ->
  rtc (scheduled rates (Some late)) (new_callers capacity now reg) s ->
  cl_tasks s !! t = Some a -> aq_host a = h ->
  let until := (aq_since a + inject_Z (Z.of_nat (S (aq_ahead a))) * (1 / rmin + 2 * late))%Q in
  (cl_now s <= until)%Q /\
  exists x b r, cl_tasks s !! x = Some b /\ aq_host b = h /\ ready_since s x r /\ (r + late <= until)%Q.
Proof.
  intros Hc Hmin Hlate Hr Hs Ht Hh. cbv zeta.
  assert (forall e, Some late = Some e -> (0 <= e /\ 0 < rmin)%Q /\ forall r, rates h r -> (rmin <= r)%Q) as H1.
  { intros e [= <-]. split; [done|]. intros r Hrr. by apply Hr. }
  destruct (callers_invariant rates (Some late) h rmin capacity H1 (Qmax 0 rmax)) with (now := now) (reg := reg) (s := s) as [Hok Hp].
  - intros r Hrr%Hr. pose proof (Q.le_max_r 0 rmax). lra.
  - lra.
  - done.
  - apply Q.le_max_l.
  - done.
  - destruct (line_moves rates (Some late) h rmin capacity H1 (Qmax 0 rmax) late t a s eq_refl Hok Ht Hh) as (x & b & r & Eb & Hb & Hrd & Hd).
    unfold deadline, service in Hd. split; [|by exists x, b, r]. specialize (Hp late x r eq_refl Hrd). lra.
Qed.

(** A call's place in the line is bounded by the longest line there was. *)
Lemma ahead_step rates late h k s s' : scheduled rates late s s' -> (in_line (lock_of h s') <= k)%nat ->
  (forall t a, cl_tasks s !! t = Some a -> aq_host a = h -> (S (aq_ahead a) <= k)%nat) ->
  forall t a, cl_tasks s' !! t = Some a -> aq_host a = h -> (S (aq_ahead a) <= k)%nat.
Proof.
  intros [Hst _] Hk Hold.
  assert (forall t0 a0 l s0, cl_tasks s0 = cl_tasks s -> (aq_host a0 = h -> (S (aq_ahead a0) <= k)%nat) ->
    forall t a, cl_tasks (iterate t0 a0 l s0) !! t = Some a -> aq_host a = h -> (S (aq_ahead a) <= k)%nat) as Hit.
  { intros t0 a0 l s0 E H0 t a. unfold iterate. destruct (local_try _ _ _ _) as [[wait|] l']; cbn; rewrite E.
    - rewrite lookup_insert_Some. intros [[_ <-]|[_ Ha]]; [exact H0|by eapply Hold].
    - rewrite lookup_delete_Some. intros [_ Ha]. by eapply Hold. }
  destruct Hst as [d s Hd|t host rate s Ht Hr|t a r s Ha Hq Hw|t a u s Ha Hq Hu|t a s Ha].
  - exact Hold.
  - revert Hk. unfold arrive. destruct (Qle_bool rate 0); [intros _; exact Hold|].
    destruct (lock_acquire t (lock_of host s)) as [locked l] eqn:El. unfold lock_acquire in El.
    destruct (lock_of host s) as [b ws] eqn:Elock. cbn [lk_locked lk_waiters] in El. destruct locked.
    + destruct b, ws; try done. injection El as <-. unfold iterate. cbn.
      destruct (local_try _ _ _ _) as [[wait|] l'] eqn:Etry; cbn; unfold lock_of; cbn; intros Hk t' a'.
      * rewrite lookup_insert_Some. intros [[_ <-]|[_ Ha]]; [|by eapply Hold]. cbn. intros ->. rewrite lookup_insert_eq in Hk. exact Hk.
      * rewrite lookup_delete_Some. intros [_ Ha]. by eapply Hold.
    + assert (l = mkLock b (ws ++ [(t, None)])) as -> by (destruct b, ws; congruence).
      intros Hk t' a'. cbn. rewrite lookup_insert_Some. intros [[_ <-]|[_ Ha]]; [|by eapply Hold]. cbn. intros ->.
      unfold lock_of in Hk. cbn in Hk. rewrite lookup_insert_eq in Hk. cbn in Hk. unfold in_line in *. cbn in *. rewrite length_app in Hk. cbn in Hk. lia.
  - apply Hit; [done|]. by eapply Hold.
  - apply Hit; [done|]. by eapply Hold.
  - intros t' a'. cbn. rewrite lookup_delete_Some. intros [_ Ha']. by eapply Hold.
Qed.

(** Under [Politeness.slot] at most [k] tasks of a host are past its semaphore,
    so that its line never has more than [k] calls; then no call waits longer
    than [k] services. *)
Theorem slots_bound_wait (rates : string -> Q -> Prop) (h : string) (rmin rmax capacity late now : Q) (reg : registry) (k : nat)
    (s : callers) (t : nat) (a : acquirer) :
  (1 <= capacity)%Q -> (0 < rmin)%Q -> (0 <= late)%Q -> (0 <= rmax)%Q -> (forall r, rates h r -> (rmin <= r <= rmax)%Q) ->
  rtc (fun s s' => scheduled rates (Some late) s s' /\ (in_line (lock_of h s') <= k)%nat) (new_callers capacity now reg) s ->
  cl_tasks s !! t = Some a -> aq_host a = h ->
  (cl_now s <= aq_since a + inject_Z (Z.of_nat k) * (1 / rmin + 2 * late))%Q.
Proof.
  intros Hc Hmin Hlate Hmax Hr Hs Ht Hh.
  assert (forall e, Some late = Some e -> (0 <= e /\ 0 < rmin)%Q /\ forall r, rates h r -> (rmin <= r)%Q) as H1.
  { intros e [= <-]. split; [done|]. intros r Hrr. by apply Hr. }
  assert (rtc (scheduled rates (Some late)) (new_callers capacity now reg) s) as Hs'.
  { clear - Hs. induction Hs as [|x y z [Hxy _] _ IH]; [apply rtc_refl|]. by eapply rtc_l. }
  destruct (callers_invariant rates (Some late) h rmin capacity H1 rmax ltac:(intros r Hrr; by apply Hr) ltac:(lra) ltac:(done) now reg s Hmax Hs') as [Hok Hp].
  destruct (line_moves rates (Some late) h rmin capacity H1 rmax late t a s eq_refl Hok Ht Hh) as (x & b & r & Eb & Hb & Hrd & Hd).
  specialize (Hp late x r eq_refl Hrd). unfold deadline in Hd. fold (service rmin late).
  assert (forall t a, cl_tasks s !! t = Some a -> aq_host a = h -> (S (aq_ahead a) <= k)%nat) as Ha.
  { apply (rtc_invariant _ (fun s => forall t a, cl_tasks s !! t = Some a -> aq_host a = h -> (S (aq_ahead a) <= k)%nat)) with (2 := Hs).
    - intros s1 s2 Hold [Hst Hk]. by eapply ahead_step.
    - intros t' a' E. cbn in E; by rewrite lookup_empty in E. }
  specialize (Ha t a Ht Hh). destruct (service_pos rates (Some late) h rmin H1 late eq_refl) as (_ & _ & _ & Hsv).
  assert (inject_Z (Z.of_nat (S (aq_ahead a))) * service rmin late <= inject_Z (Z.of_nat k) * service rmin late)%Q; [|lra].
  apply Qmult_le_compat_r; [rewrite <- Zle_Qle; lia|lra].
Qed.

(** ** Witnesses: three calls for one host *)

(** [punctual], executable. *)
Definition in_time (e : Q) (s : callers) : bool :=
  forallb (fun ta : nat * acquirer =>
      match aq_stage ta.2 with
      | Asleep u => Qle_bool (cl_now s) (u + e)
      | Queued => forallb (fun w : nat * option Q => negb (Nat.eqb w.1 ta.1) || match w.2 with Some r => Qle_bool (cl_now s) (r + e) | None => true end)
                    (lk_waiters (lock_of (aq_host ta.2) s))
      end) (map_to_list (cl_tasks s)).
Lemma in_time_punctual e s : in_time e s = true -> punctual (Some e) s.
Proof.
  unfold in_time. rewrite forallb_forall. intros Hall e' t r [= <-] (a & Ea & Hr). specialize (Hall (t, a)). cbn [fst snd] in Hall.
  assert (In (t, a) (map_to_list (cl_tasks s))) as Hin by by apply list_elem_of_In, elem_of_map_to_list.
  specialize (Hall Hin). destruct (aq_stage a) as [|u]; [|subst r; by apply Qle_bool_iff].
  rewrite forallb_forall in Hall. specialize (Hall (t, Some r)). cbn [fst snd] in Hall. rewrite Nat.eqb_refl in Hall.
  apply Qle_bool_iff, Hall. by apply list_elem_of_In.
Qed.

Definition one_per_second (_ : string) (r : Q) : Prop := r = 1%Q.
Definition idle : callers := new_callers 1 0 ∅.
Definition first_granted : callers := arrive 1 "a.org" 1 idle.
Definition second_sleeps : callers := arrive 2 "a.org" 1 first_granted.
Definition third_waits : callers := arrive 3 "a.org" 1 second_sleeps.
Definition second : acquirer := mkAcquirer "a.org" 1 0 0 (Asleep 1).
Definition third : acquirer := mkAcquirer "a.org" 1 0 1 Queued.
Definition second_granted : callers := wake 2 second (tick 1 third_waits).
Definition third_sleeps : callers := resume 3 third second_granted.

Lemma third_waits_run : rtc (scheduled one_per_second (Some 0%Q)) idle third_waits.
Proof.
  eapply rtc_l; [split; [by apply (call_arrive _ 1 "a.org" 1)|by apply in_time_punctual; vm_compute]|].
  eapply rtc_l; [split; [by apply (call_arrive _ 2 "a.org" 1)|by apply in_time_punctual; vm_compute]|].
  eapply rtc_l; [split; [by apply (call_arrive _ 3 "a.org" 1)|by apply in_time_punctual; vm_compute]|apply rtc_refl].
Qed.
Lemma third_sleeps_run : rtc (call_step one_per_second) idle third_sleeps.
Proof.
  assert (rtc (call_step one_per_second) idle third_waits) as Hw.
  { generalize third_waits_run. generalize third_waits idle. intros s s' Hs. induction Hs as [|x y z [Hxy _] _ IH]; [apply rtc_refl|].
    by eapply rtc_l. }
  etransitivity; [exact Hw|]. eapply rtc_l; [by apply (call_tick _ 1%Q)|].
  eapply rtc_l; [by apply (call_wake _ 2 second 1%Q); [vm_compute; reflexivity| |]|].
  eapply rtc_l; [|apply rtc_refl]. apply (call_resume _ 3 third 1%Q); [by vm_compute|done|]. vm_compute. left.
Qed.

Lemma acquirers_rate_bound_witness :
  (inject_Z (granted "a.org" 0 1 (cl_grants third_sleeps)) <= 1 + 1 * (1 - 0))%Q /\
  granted "a.org" 0 1 (cl_grants third_sleeps) = 2 /\ of_host "a.org" (cl_arrivals third_sleeps) = [1; 2; 3]%nat.
Proof.
  split.
  - apply (acquirers_rate_bound one_per_second "a.org" 1 1 0 ∅ third_sleeps).
    + discriminate.
    + discriminate.
    + intros r ->. apply Qle_refl.
    + exact third_sleeps_run.
    + discriminate.
  - vm_compute. split; reflexivity.
Defined.

Lemma acquirers_wait_bound_witness :
  (0 <= 0 + inject_Z 2 * (1 / 1 + 2 * 0))%Q /\ cl_tasks third_waits !! 3%nat = Some third.
Proof.
  split.
  - apply (acquirers_wait_bound one_per_second "a.org" 1 1 1 0 0 ∅ third_waits 3 third).
    + discriminate.
    + reflexivity.
    + discriminate.
    + intros r ->. split; apply Qle_refl.
    + exact third_waits_run.
    + vm_compute. reflexivity.
    + reflexivity.
  - vm_compute. reflexivity.
Defined.
