(* ===== verification/Frontier.v ===== *)
(** * The frontier: wire format, in-memory queue, Kafka ([crawler/frontier/])

    [FrontierMessage] with its JSON encoding (a JSON value per message; the
    text layer of [json] is the class [Json]), [MemoryFrontier] on
    [asyncio.Queue], and [KafkaFrontier] over a producer (aiokafka, a
    parameter), partitioned by the ring of [ConsistentHash].

    [message_roundtrip]: nothing is lost on the wire.  [memory_frontier_fifo]:
    every accepted URL is new and is delivered once, in order.
    [kafka_partition]: a domain's messages go to one partition in range. *)
From S2P Require Import Prelude PyStr Config Models ConsistentHash UrlUtils.
Local Open Scope Z_scope.

(** ** JSON values *)

Inductive json : Type :=
| JNull
| JBool (b : bool)
| JInt (z : Z)
| JFloat (q : Q)
| JStr (s : string)
| JList (l : list json)
| JObj (fields : list (string * json)).

(** [json.dumps(...).encode], [json.loads] and [float(str)]. *)
Class Json (bytes : Type) := {
  dumps : json -> bytes;
  loads : bytes -> result json;
  float_of_text : string -> result Q }.
(** What is dumped loads back (distinct keys, finite floats). *)
Class JsonLaws (bytes : Type) `{Json bytes} := loads_dumps (j : json) : loads (dumps j) = Ok j.

(** [obj[k]] and [obj.get(k, d)]. *)
Definition field (k : string) (fields : list (string * json)) : option json :=
  snd <$> List.find (fun kv => bool_decide (fst kv = k)) fields.
Definition getitem (k : string) (obj : json) : result json :=
  match obj with
  | JObj fields => match field k fields with Some v => Ok v | None => Raise KeyError end
  | _ => Raise TypeError
  end.
Definition get_or (k : string) (d : json) (obj : json) : result json :=
  match obj with
  | JObj fields => Ok (default d (field k fields))
  | _ => Raise AttributeError
  end.

(** [int(v)] and [float(v)]. *)
Definition int_of_json (v : json) : result Z :=
  match v with
  | JInt z => Ok z
  | JBool b => Ok (if b then 1 else 0)
  | JFloat q => Ok (py_int q)
  | JStr s => int_of_text s
  | _ => Raise TypeError
  end.
Definition float_of_json `{Json bytes} (v : json) : result Q :=
  match v with
  | JInt z => Ok (inject_Z z)
  | JBool b => Ok (if b then 1%Q else 0%Q)
  | JFloat q => Ok q
  | JStr s => float_of_text s
  | _ => Raise TypeError
  end.

(** Truth value of a decoded value. *)
Definition json_truthy (v : json) : bool :=
  match v with
  | JNull => false | JBool b => b | JInt z => negb (z =? 0) | JFloat q => negb (Qeq_bool q 0)
  | JStr s => truthy s | JList l => negb (bool_decide (length l = 0%nat))
  | JObj l => negb (bool_decide (length l = 0%nat))
  end.

(** ** [class FrontierMessage]

    [url] and [crawl_id] are whatever value was decoded. *)
Record FrontierMessage : Type := mkMessage {
  fm_url : json; fm_depth : Z; fm_crawl_id : json; fm_attempts : Z; fm_not_before : Q }.

Section Messages.
Context `{Json bytes}.

Definition asdict (m : FrontierMessage) : json :=
  JObj [("url", fm_url m); ("depth", JInt (fm_depth m)); ("crawl_id", fm_crawl_id m);
        ("attempts", JInt (fm_attempts m)); ("not_before", JFloat (fm_not_before m))].
Definition to_bytes (m : FrontierMessage) : bytes := dumps (asdict m).

Definition from_bytes (data : bytes) : result FrontierMessage :=
  let* obj := loads data in
  let* url := getitem "url" obj in
  let* d := get_or "depth" (JInt 0) obj in
  let* depth := int_of_json d in
  let* crawl_id := get_or "crawl_id" JNull obj in
  let* a := get_or "attempts" (JInt 0) obj in
  let* attempts := int_of_json a in
  let* n := get_or "not_before" (JFloat 0) obj in
  let* not_before := float_of_json n in
  Ok (mkMessage url depth crawl_id attempts not_before).

End Messages.

Definition json_of_id (i : option Z) : json := match i with Some z => JInt z | None => JNull end.

Definition from_item (i : FrontierItem) : FrontierMessage :=
  mkMessage (JStr (fi_url i)) (fi_depth i) (json_of_id (fi_crawl_id i)) 0 0.

(** [to_item]: [FrontierItem] holds a string and an optional integer; on any
    other decoded value the pipeline fails at its first use of it, which is
    the [TypeError] here. *)
Definition to_item (m : FrontierMessage) : result FrontierItem :=
  match fm_url m, fm_crawl_id m with
  | JStr u, JNull => Ok (mkItem u (fm_depth m) None)
  | JStr u, JInt i => Ok (mkItem u (fm_depth m) (Some i))
  | _, _ => Raise TypeError
  end.

(** [registered_domain(message.url)] on a decoded value: [urlsplit] treats a
    false value as empty and fails to decode any other. *)
Definition message_domain `{UrlLib} (m : FrontierMessage) : result string :=
  match fm_url m with
  | JStr u => registered_domain u
  | v => if json_truthy v then Raise AttributeError else Ok EmptyString
  end.

(** ** [class MemoryFrontier] *)

Record MemoryFrontier : Type := mkMemory {
  mf_queue : list FrontierItem; mf_seen : gset string; mf_unfinished : Z }.
Definition new_memory : MemoryFrontier := mkMemory [] ∅ 0.

Definition mf_add (item : FrontierItem) (f : MemoryFrontier) : bool * MemoryFrontier :=
  if decide (fi_url item ∈ mf_seen f) then (false, f)
  else (true, mkMemory (mf_queue f ++ [item]) ({[fi_url item]} ∪ mf_seen f) (mf_unfinished f + 1)).

(** [get] blocks ([None]) on an empty queue. *)
Definition mf_get (f : MemoryFrontier) : option (FrontierItem * MemoryFrontier) :=
  match mf_queue f with
  | [] => None
  | i :: q => Some (i, mkMemory q (mf_seen f) (mf_unfinished f))
  end.

(** [Queue.task_done]. *)
Definition mf_task_done (f : MemoryFrontier) : result MemoryFrontier :=
  if mf_unfinished f <=? 0 then Raise ValueError
  else Ok (mkMemory (mf_queue f) (mf_seen f) (mf_unfinished f - 1)).

(** [join] returns when this holds. *)
Definition mf_joined (f : MemoryFrontier) : bool := mf_unfinished f =? 0.
Definition qsize (f : MemoryFrontier) : Z := Z.of_nat (length (mf_queue f)).
Definition seen_count (f : MemoryFrontier) : Z := Z.of_nat (size (mf_seen f)).
Definition mf_close (f : MemoryFrontier) : MemoryFrontier := f.

(** ** [kafka_frontier.py] *)

Record Topics : Type := mkTopics { t_frontier : string; t_parsed : string; t_retry : string; t_dlq : string }.
Definition topic_names (s : Settings) : Topics :=
  let prefix := topic_prefix (kafka s) in
  mkTopics (prefix +:+ ".frontier") (prefix +:+ ".parsed") (prefix +:+ ".retry") (prefix +:+ ".dlq").

Record NewTopic : Type := mkNewTopic { nt_name : string; nt_partitions : Z; nt_replication : Z }.

(** [AIOKafkaProducer] and [AIOKafkaAdminClient]. *)
Class Kafka (P A bytes : Type) := {
  make_producer : string -> P;
  producer_start : P -> result P;
  producer_stop : P -> result P;
  send_and_wait : string -> bytes -> string -> option Z -> P -> result P;
  admin_start : string -> result A;
  create_topic : NewTopic -> A -> result A;
  admin_stop : A -> result A }.

(** A broker that accepts everything and keeps it in order. *)
Class BrokerLog (P A bytes : Type) `{Kafka P A bytes} := {
  sent_log : P -> list (string * bytes * string * option Z);
  send_logs topic v key part p : exists p', send_and_wait topic v key part p = Ok p' /\
    sent_log p' = sent_log p ++ [(topic, v, key, part)] }.
Arguments sent_log {P A bytes _ _} _.

Section KafkaFrontier.
Context {P A bytes : Type} `{Kafka P A bytes, Json bytes, UrlLib}.
(** [mmh3.hash], for the ring. *)
Variable hash : string -> Z.

(** [ensure_topics]: a topic that cannot be created is skipped. *)
Definition ensure_topics (s : Settings) : result A :=
  let names := topic_names s in
  let p := partitions (kafka s) in let rf := replication_factor (kafka s) in
  let* admin := admin_start (bootstrap_servers (kafka s)) in
  let new_topics := [mkNewTopic (t_frontier names) p rf; mkNewTopic (t_parsed names) p rf;
                     mkNewTopic (t_retry names) p rf; mkNewTopic (t_dlq names) 1 rf] in
  let admin := fold_left (fun a topic => match create_topic topic a with Ok a' => a' | Raise _ => a end)
                 new_topics admin in
  admin_stop admin.

Record KafkaFrontier : Type := mkKafka {
  kf_settings : Settings; kf_producer : option P; kf_owns_producer : bool; kf_topics : Topics;
  kf_ring : ConsistentHashRing }.

Definition new_frontier (s : Settings) (producer : option P) : result KafkaFrontier :=
  let* r := new_ring hash (pretty <$> seqZ 0 (partitions (kafka s))) (Config.virtual_nodes (sharding s)) in
  Ok (mkKafka s producer (match producer with None => true | Some _ => false end) (topic_names s) r).

Definition set_producer (f : KafkaFrontier) (p : option P) : KafkaFrontier :=
  mkKafka (kf_settings f) p (kf_owns_producer f) (kf_topics f) (kf_ring f).

Definition frontier_start : act KafkaFrontier unit := fun f =>
  match kf_producer f with
  | Some _ => (Ok tt, f)
  | None =>
      let p := make_producer (bootstrap_servers (kafka (kf_settings f))) in
      match producer_start p with
      | Ok p' => (Ok tt, set_producer f (Some p'))
      | Raise e => (Raise e, set_producer f (Some p))
      end
  end.

Definition frontier_stop : act KafkaFrontier unit := fun f =>
  match kf_producer f with
  | Some p =>
      if kf_owns_producer f then
        match producer_stop p with
        | Ok _ => (Ok tt, set_producer f None)
        | Raise e => (Raise e, f)
        end
      else (Ok tt, f)
  | None => (Ok tt, f)
  end.

Definition partition_for (domain : string) (f : KafkaFrontier) : result Z :=
  let* node := ConsistentHash.get hash domain (kf_ring f) in
  match node with Some n => int_of_text n | None => Ok 0 end.

(** [self.producer.send_and_wait(...)]. *)
Definition send (topic : string) (value : bytes) (key : string) (partition : option Z) :
    act (KafkaFrontier * registry) unit := fun fr =>
  let '(f, reg) := fr in
  match kf_producer f with
  | None => (Raise RuntimeError, fr)
  | Some p =>
      match send_and_wait topic value key partition p with
      | Ok p' => (Ok tt, (set_producer f (Some p'), reg))
      | Raise e => (Raise e, fr)
      end
  end.

(** [self.producer] is evaluated before the arguments of the call. *)
Definition require_producer : act (KafkaFrontier * registry) unit := fun fr =>
  match kf_producer (fst fr) with None => (Raise RuntimeError, fr) | Some _ => (Ok tt, fr) end.

Definition add_message (m : FrontierMessage) : act (KafkaFrontier * registry) unit :=
  let! domain := alift (message_domain m) in
  let! _ := require_producer in
  let! fr := aget in
  let! p := alift (partition_for domain (fst fr)) in
  let! _ := send (t_frontier (kf_topics (fst fr))) (to_bytes m) domain (Some p) in
  amodify (fun fr => (fst fr, inc URLS_ENQUEUED 1 (snd fr))).

Definition kf_add (item : FrontierItem) : act (KafkaFrontier * registry) unit := add_message (from_item item).

Definition send_retry (m : FrontierMessage) : act (KafkaFrontier * registry) unit :=
  let! domain := alift (message_domain m) in
  let! fr := aget in
  send (t_retry (kf_topics (fst fr))) (to_bytes m) domain None.

Definition send_dlq (m : FrontierMessage) : act (KafkaFrontier * registry) unit :=
  let! domain := alift (message_domain m) in
  let! fr := aget in
  send (t_dlq (kf_topics (fst fr))) (to_bytes m) domain None.

End KafkaFrontier.
Arguments KafkaFrontier : clear implicits.

(** ** The wire format *)
Section Wire.
Context `{JsonLaws bytes}.

Lemma from_to_bytes (m : FrontierMessage) : from_bytes (to_bytes m) = Ok m.
Proof. destruct m as [url depth cid att nb]. unfold from_bytes, to_bytes. by rewrite loads_dumps. Qed.

(** C40: a message decodes to itself, so a retry keeps its attempts; an item
    survives the trip through a message; a payload with only a URL gets the
    defaults; a payload that is not an object, or has no URL, does not decode. *)
Theorem message_roundtrip (m : FrontierMessage) (i : FrontierItem) (u obj : json) (l : list (string * json)) :
  from_bytes (to_bytes m) = Ok m /\
  (m' ← from_bytes (to_bytes (from_item i)); to_item m') = Ok i /\
  from_bytes (dumps (JObj [("url", u)])) = Ok (mkMessage u 0 JNull 0 0) /\
  (field "url" l = None -> from_bytes (dumps (JObj l)) = Raise KeyError) /\
  ((forall l, obj <> JObj l) -> from_bytes (dumps obj) = Raise TypeError).
Proof.
  split_and!; [apply from_to_bytes| | | |].
  - rewrite from_to_bytes. destruct i as [url depth [c|]]; done.
  - unfold from_bytes. by rewrite loads_dumps.
  - intros E. unfold from_bytes. rewrite loads_dumps. cbn [rbind getitem]. by rewrite E.
  - intros Hne. unfold from_bytes. rewrite loads_dumps. destruct obj as [| | | | | |l']; try done.
    by destruct (Hne l').
Qed.

End Wire.

(** ** The in-memory frontier *)

Inductive mf_op : Type := Add (item : FrontierItem) | Get | TaskDone.

(** The frontier with the items it has accepted, delivered and seen done. *)
Record mf_trace : Type := mkTrace {
  tr_front : MemoryFrontier; tr_accepted : list FrontierItem; tr_delivered : list FrontierItem; tr_done : Z }.

(** One call; a blocked [get] and a raising [task_done] change nothing. *)
Definition mf_step (o : mf_op) (t : mf_trace) : mf_trace :=
  let f := tr_front t in
  match o with
  | Add item =>
      let '(b, f') := mf_add item f in
      mkTrace f' (if b then tr_accepted t ++ [item] else tr_accepted t) (tr_delivered t) (tr_done t)
  | Get =>
      match mf_get f with
      | Some (i, f') => mkTrace f' (tr_accepted t) (tr_delivered t ++ [i]) (tr_done t)
      | None => t
      end
  | TaskDone =>
      match mf_task_done f with
      | Ok f' => mkTrace f' (tr_accepted t) (tr_delivered t) (tr_done t + 1)
      | Raise _ => t
      end
  end.

(** Over any sequence of calls from an empty frontier: the accepted items
    are the delivered ones followed by the queue, in order (FIFO, nothing lost
    or delivered twice); their URLs are distinct and are exactly the seen set,
    so [add] refuses exactly the URLs accepted before; [join] is released
    exactly when [task_done] was called for every accepted item. *)
Theorem memory_frontier_fifo os item :
  let t := fold_left (fun t o => mf_step o t) os (mkTrace new_memory [] [] 0) in
  let f := tr_front t in
  tr_accepted t = tr_delivered t ++ mf_queue f /\
  NoDup (fi_url <$> tr_accepted t) /\
  (forall u, u ∈ mf_seen f <-> u ∈ fi_url <$> tr_accepted t) /\
  (fst (mf_add item f) = true <-> fi_url item ∉ fi_url <$> tr_accepted t) /\
  seen_count f = Z.of_nat (length (tr_accepted t)) /\
  (mf_joined f = true <-> tr_done t = Z.of_nat (length (tr_accepted t))).
Proof.
  set (Inv := fun t => tr_accepted t = tr_delivered t ++ mf_queue (tr_front t) /\
    NoDup (fi_url <$> tr_accepted t) /\
    mf_seen (tr_front t) = list_to_set (fi_url <$> tr_accepted t) /\
    mf_unfinished (tr_front t) + tr_done t = Z.of_nat (length (tr_accepted t))).
  assert (forall o t, Inv t -> Inv (mf_step o t)) as Hstep.
  { intros o [[q seen u] acc del dn] (Ha & Hd & Hs & Hu). unfold Inv in *. cbn in *.
    destruct o as [i| |]; unfold mf_step; cbn [tr_front].
    - unfold mf_add. cbn. case_decide as Hin; cbn; [done|]. subst acc seen.
      rewrite fmap_app, list_to_set_app_L, length_app, app_assoc. cbn. split_and!; [done| |set_solver|lia].
      apply NoDup_app. split_and!; [done| |apply NoDup_singleton].
      intros x Hx ->%list_elem_of_singleton. apply Hin. by apply elem_of_list_to_set.
    - destruct q as [|i q]; cbn; [done|]. split_and!; [by rewrite Ha, <- app_assoc|done..].
    - unfold mf_task_done. cbn. destruct (Z.leb_spec u 0); cbn; [done|]. split_and!; [done..|lia]. }
  assert (forall os t, Inv t -> Inv (fold_left (fun t o => mf_step o t) os t)) as Hrun.
  { clear os. induction os as [|o os IH]; intros t Hi; [done|]. cbn. auto. }
  intros t f. destruct (Hrun os (mkTrace new_memory [] [] 0)) as (Ha & Hd & Hs & Hu).
  { unfold Inv. cbn. split_and!; [done|constructor|done|done]. }
  fold t in Ha, Hd, Hs, Hu. fold f in Ha, Hd, Hs, Hu.
  assert (forall u, u ∈ mf_seen f <-> u ∈ fi_url <$> tr_accepted t) as Hseen.
  { intros u. by rewrite Hs, elem_of_list_to_set. }
  split_and!; [done|done|done| | |].
  - unfold mf_add. rewrite <- Hseen. by case_decide.
  - unfold seen_count. rewrite Hs, size_list_to_set, length_fmap by done. done.
  - unfold mf_joined. rewrite Z.eqb_eq. lia.
Qed.

(** ** The distributed frontier *)
Section KafkaTheorems.
Context {P A bytes : Type} `{Kafka P A bytes, Json bytes, UrlLib}.
Variable hash : string -> Z.
Hypothesis hash_u32 : forall s, 0 <= hash s < 2 ^ 32.

(** The node names the frontier gives to its ring. *)
Definition partition_name (n : Z) (s : string) : Prop := exists i, 0 <= i < n /\ s = pretty i.

Lemma fold_add_node ns r : fold_left (fun r n => add_node hash n r) ns r =
  fold_left (run_ring_op hash) (AddNode <$> ns) r.
Proof. revert r. induction ns as [|n ns IH]; intros r; [done|]. cbn. apply IH. Qed.

Lemma node_set_adds ns S : fold_left node_set_op (AddNode <$> ns) S = list_to_set ns ∪ S.
Proof. revert S. induction ns as [|n ns IH]; intros S; cbn; [set_solver|]. rewrite IH. set_solver. Qed.

Lemma frontier_ring s (producer : option P) (f : KafkaFrontier P) :
  new_frontier hash s producer = Ok f -> 0 < partitions (kafka s) ->
  collision_free hash (Config.virtual_nodes (sharding s)) (partition_name (partitions (kafka s))) ->
  canonical hash (kf_ring f) /\ 0 < virtual_nodes (kf_ring f) /\
  nodes (kf_ring f) = list_to_set (pretty <$> seqZ 0 (partitions (kafka s))).
Proof.
  unfold new_frontier, new_ring. intros E Hp Hc.
  destruct (Z.leb_spec (Config.virtual_nodes (sharding s)) 0) as [|Hv]; [done|].
  injection E as <-. cbn [kf_ring]. rewrite fold_add_node.
  destruct (reachable_canonical hash (partition_name (partitions (kafka s)))
              (Config.virtual_nodes (sharding s)) (AddNode <$> (pretty <$> seqZ 0 (partitions (kafka s)))) Hc)
    as (C & V & N & _).
  { apply Forall_forall. intros o (n & -> & (i & -> & Hi%elem_of_seqZ)%list_elem_of_fmap)%list_elem_of_fmap.
    cbn. exists i. split; [lia|done]. }
  split; [done|]. rewrite V, N, node_set_adds. split; [done|]. set_solver.
Qed.

(** Every URL of a domain is sent to the frontier topic on one partition,
    a number below the partition count, when the partitions' ring points do
    not collide: [partition_for] never raises, and a successful [add_message]
    hands the producer exactly the message's bytes, keyed by its domain, on
    that partition. *)
Theorem kafka_partition s (producer : option P) (f : KafkaFrontier P) domain :
  new_frontier hash s producer = Ok f -> 0 < partitions (kafka s) ->
  collision_free hash (Config.virtual_nodes (sharding s)) (partition_name (partitions (kafka s))) ->
  exists p, partition_for hash domain f = Ok p /\ 0 <= p < partitions (kafka s) /\
    forall m reg f' reg', message_domain m = Ok domain ->
      add_message hash m (f, reg) = (Ok tt, (f', reg')) ->
      exists k k', kf_producer f = Some k /\
        send_and_wait (t_frontier (kf_topics f)) (to_bytes m) domain (Some p) k = Ok k' /\
        f' = set_producer f (Some k') /\ reg' = inc URLS_ENQUEUED 1 reg.
Proof.
  intros Hn Hp Hc. destruct (frontier_ring s producer f Hn Hp Hc) as (C & V & N).
  destruct (get_total hash hash_u32 (kf_ring f) domain C V) as (n & G & Hin).
  { rewrite N. intros E. assert (pretty 0 ∈ (∅ : gset string)) as He; [|set_solver].
    rewrite <- E. apply elem_of_list_to_set, list_elem_of_fmap. exists 0. split; [done|]. apply elem_of_seqZ. lia. }
  rewrite N in Hin. apply elem_of_list_to_set, list_elem_of_fmap in Hin as (p & -> & Hi%elem_of_seqZ).
  assert (partition_for hash domain f = Ok p) as Hpf.
  { unfold partition_for. rewrite G. cbn [rbind]. apply int_of_text_pretty. }
  exists p. split; [done|]. split; [lia|].
  intros m reg f' reg' Hm. unfold add_message, abind, alift. rewrite Hm. unfold require_producer.
  cbn [fst]. destruct (kf_producer f) as [k|] eqn:Ek; [|done]. cbn [aget fst]. rewrite Hpf.
  unfold send. rewrite Ek. destruct (send_and_wait _ _ _ _ k) as [k'|e] eqn:Es; [|done].
  cbn. intros [= <- <-]. by exists k, k'.
Qed.

End KafkaTheorems.

(** ** Concrete instances *)

(** JSON values as their own bytes; a log of what is sent as the cluster. *)
Definition json_bytes : Json json := {|
  dumps := fun j => j; loads := Ok; float_of_text := fun _ => Raise ValueError |}.
Definition json_bytes_laws : @JsonLaws json json_bytes := fun j => eq_refl.

Record sent : Type := mkSent { sn_topic : string; sn_value : json; sn_key : string; sn_partition : option Z }.
Definition log_kafka : Kafka (list sent) (list string) json := {|
  make_producer := fun _ => [];
  producer_start := Ok;
  producer_stop := Ok;
  send_and_wait := fun topic value key part p => Ok (p ++ [mkSent topic value key part]);
  admin_start := fun _ => Ok [];
  create_topic := fun t a => if decide (nt_name t ∈ a) then Raise (OtherError "exists") else Ok (nt_name t :: a);
  admin_stop := Ok |}.

Lemma message_roundtrip_witness :
  let _ := json_bytes in
  from_bytes (to_bytes (mkMessage (JStr "http://a.org/") 2 JNull 1 (5 # 2)))
    = Ok (mkMessage (JStr "http://a.org/") 2 JNull 1 (5 # 2)) /\
  from_bytes (dumps (JObj [("depth", JInt 3)])) = Raise KeyError /\
  from_bytes (dumps (JList [])) = Raise TypeError.
Proof.
  destruct (@message_roundtrip json json_bytes json_bytes_laws
              (mkMessage (JStr "http://a.org/") 2 JNull 1 (5 # 2)) (mkItem "http://a.org/" 0 None)
              JNull (JList []) [("depth", JInt 3)]) as (E1 & _ & _ & E2 & E3).
  split; [exact E1|]. split; [exact (E2 eq_refl)|]. apply E3. intros l E. discriminate E.
Defined.

Definition with_partitions (n vn : Z) (s : Settings) : Settings := {|
  base_url := base_url s; log_level := log_level s; log_json := log_json s; postgres := postgres s;
  redis := redis s;
  kafka := {| bootstrap_servers := bootstrap_servers (kafka s); topic_prefix := topic_prefix (kafka s);
              partitions := n; replication_factor := replication_factor (kafka s);
              consumer_group := consumer_group (kafka s); max_retries := max_retries (kafka s) |};
  fetch := fetch s; politeness := politeness s; crawl := crawl s; dedup := dedup s; frontier := frontier s;
  sharding := {| workers := workers (sharding s); Config.virtual_nodes := vn |};
  storage := storage s; resilience := resilience s; recrawl := recrawl s |}.

Definition log_kafka_log : @BrokerLog (list sent) (list string) json log_kafka.
Proof.
  refine {| sent_log := fun p => (fun s => (sn_topic s, sn_value s, sn_key s, sn_partition s)) <$> p |}.
  intros topic v key part p. eexists. split; [reflexivity|]. by rewrite fmap_app.
Defined.

Definition two_partitions : Settings := with_partitions 2 1 default_settings.
Definition partition_hash (s : string) : Z :=
  if decide (s = "0#0") then 10 else if decide (s = "1#0") then 20 else 15.

Definition demo_frontier : KafkaFrontier (list sent) :=
  Eval vm_compute in
    match @new_frontier (list sent) partition_hash two_partitions (Some []) with
    | Ok f => f
    | Raise _ => mkKafka default_settings None true (topic_names default_settings) (empty_ring 1)
    end.

Lemma kafka_partition_witness :
  exists p, partition_for partition_hash "a.org" demo_frontier = Ok p /\ 0 <= p < 2.
Proof.
  destruct (@kafka_partition (list sent) (list string) json log_kafka json_bytes identity_lib partition_hash
              ltac:(intros s; unfold partition_hash; repeat case_decide; lia)
              two_partitions (Some []) demo_frontier "a.org") as (p & E & Hp & _).
  - vm_compute. reflexivity.
  - vm_compute. reflexivity.
  - intros n m i j (a & Ha & ->) (b & Hb & ->) Hi Hj. change (partitions (kafka two_partitions)) with 2 in *.
    change (Config.virtual_nodes (sharding two_partitions)) with 1 in *.
    assert (i = 0) as -> by lia. assert (j = 0) as -> by lia.
    assert (a = 0 \/ a = 1) as [-> | ->] by lia; assert (b = 0 \/ b = 1) as [-> | ->] by lia;
      vm_compute; intros; try discriminate; split; reflexivity.
  - exists p. split; [exact E|exact Hp].
Defined.
