(* ===== verification/Seeding.v ===== *)
(** * Publishing onto the Kafka frontier ([crawler/cli.py], [crawler/api/service.py])

    The sequence that [_seed] and [_recrawl] of the command line and
    [SqlCrawlService._seed] share: create the topics, open a frontier, send one
    message per URL, and close the frontier on every way out.  [publish] is
    that sequence on what the loop draws its messages from: a message, nothing
    (an uncrawlable seed), or the exception computing it raises.

    [publish_exact]: what is on the topic afterwards and what is returned. *)
From S2P Require Import Prelude PyStr Config Models UrlUtils ConsistentHash Frontier.
Local Open Scope Z_scope.

Section Seeding.
Context {P A bytes : Type} `{K : Kafka P A bytes, J : Json bytes, UL : UrlLib}.
Variable hash : string -> Z.

(** The loop: [count] messages were sent before. *)
Fixpoint send_all (next : list (result (option FrontierMessage))) (count : Z) : act (KafkaFrontier P * registry) Z :=
  match next with
  | [] => aret count
  | n :: rest =>
      let! m := alift n in
      match m with
      | None => send_all rest count
      | Some m => let! _ := add_message hash m in send_all rest (count + 1)
      end
  end.

(** The whole sequence: the count or the exception, with the frontier as the
    loop left it (when there was one) and the metrics. *)
Definition publish (s : Settings) (next : list (result (option FrontierMessage))) (reg : registry) :
    result Z * option (KafkaFrontier P) * registry :=
  match ensure_topics s with
  | Raise e => (Raise e, None, reg)
  | Ok _ =>
      match new_frontier hash s None with
      | Raise e => (Raise e, None, reg)
      | Ok f =>
          match frontier_start f with
          | (Raise e, f) => (Raise e, Some f, reg)
          | (Ok _, f) =>
              let '(r, (f, reg)) := send_all next 0 (f, reg) in
              (* an exception of [stop] replaces the one of the loop *)
              (match frontier_stop f with (Ok _, _) => r | (Raise e, _) => Raise e end, Some f, reg)
          end
      end
  end.

(** ** Its specification *)

(** The records the loop is to send, up to the first URL that raises. *)
Fixpoint planned (f : KafkaFrontier P) (next : list (result (option FrontierMessage))) :
    list (string * bytes * string * option Z) * option exn :=
  match next with
  | [] => ([], None)
  | Raise e :: _ => ([], Some e)
  | Ok None :: rest => planned f rest
  | Ok (Some m) :: rest =>
      match (let* d := message_domain m in let* p := partition_for hash d f in Ok (d, p)) with
      | Raise e => ([], Some e)
      | Ok (d, p) =>
          let '(rs, e) := planned f rest in ((t_frontier (kf_topics f), to_bytes m, d, Some p) :: rs, e)
      end
  end.

Context `{BL : !BrokerLog P A bytes}.

Lemma planned_producer f p next : planned (set_producer f p) next = planned f next.
Proof.
  induction next as [|[[m|]|e] next IH]; cbn [planned]; [done| |done|done]. rewrite IH. done.
Qed.

Lemma send_all_log next count f p reg : kf_producer f = Some p ->
  exists f' p' reg', send_all next count (f, reg) =
      (match snd (planned f next) with
       | None => Ok (count + Z.of_nat (length (fst (planned f next)))) | Some e => Raise e end, (f', reg')) /\
    kf_producer f' = Some p' /\ sent_log p' = sent_log p ++ fst (planned f next) /\
    kf_owns_producer f' = kf_owns_producer f /\
    sample URLS_ENQUEUED reg' = sample URLS_ENQUEUED reg + Z.of_nat (length (fst (planned f next))).
Proof.
  revert count f p reg. induction next as [|[[m|]|e] next IH]; intros count f p reg Hp; cbn [send_all planned].
  - exists f, p, reg. cbn. rewrite app_nil_r. unfold aret. split_and!; try done; [|lia]. by rewrite Z.add_0_r.
  - unfold abind at 1, alift.
    destruct (message_domain m) as [d|e] eqn:Ed; cbn [rbind];
      [|exists f, p, reg; unfold abind at 1, add_message; unfold abind at 1, alift; rewrite Ed; cbn;
        rewrite app_nil_r; split_and!; try done; lia].
    destruct (partition_for hash d f) as [part|e] eqn:Epart; cbn [rbind];
      [|exists f, p, reg; unfold add_message, abind, alift, require_producer, aget; rewrite Ed; cbn [fst snd];
        rewrite Hp; cbn [fst snd]; rewrite Epart; cbn; rewrite app_nil_r; split_and!; try done; lia].
    destruct (send_logs (t_frontier (kf_topics f)) (to_bytes m) d (Some part) p) as (p1 & Es & El).
    destruct (IH (count + 1) (set_producer f (Some p1)) p1 (inc URLS_ENQUEUED 1 reg) eq_refl)
      as (f' & p' & reg' & E & Hp' & Hl & Ho & Hm).
    rewrite planned_producer in E, Hl, Hm. exists f', p', reg'. destruct (planned f next) as [rs x]. cbn [fst snd length] in *.
    split; [|split_and!; [done| |done|]].
    + unfold add_message, abind, alift, require_producer, aget, send, amodify. rewrite Ed. cbn [fst snd]. rewrite Hp. cbn [fst snd].
      rewrite Epart, Hp, Es. cbn [fst snd]. rewrite E. destruct x; [done|].
      by replace (count + 1 + Z.of_nat (length rs)) with (count + Z.of_nat (S (length rs))) by lia.
    + by rewrite Hl, El, <- app_assoc.
    + rewrite Hm. metrics. lia.
  - unfold abind at 1, alift. by apply IH.
  - exists f, p, reg. cbn. rewrite app_nil_r. split_and!; try done. lia.
Qed.

(** Over a broker that accepts every record, publishing puts exactly the
    planned records on the frontier topic, in the order of the URLs, each keyed
    by its domain and on the partition the ring gives it, and counts them; URLs
    that are not crawlable are passed over.  The first URL that raises ends the
    loop with its exception after the records before it were sent, and the
    frontier is closed in any case: an error of closing it is the one that is
    seen. *)
Theorem publish_exact s next reg a f p0 :
  ensure_topics s = Ok a -> new_frontier hash s None = Ok f ->
  producer_start (make_producer (bootstrap_servers (kafka s))) = Ok p0 -> sent_log p0 = [] ->
  exists f' p' reg', kf_producer f' = Some p' /\ sent_log p' = fst (planned f next) /\
    sample URLS_ENQUEUED reg' = sample URLS_ENQUEUED reg + Z.of_nat (length (fst (planned f next))) /\
    publish s next reg =
      (match producer_stop p' with
       | Raise e => Raise e
       | Ok _ => match snd (planned f next) with
                 | None => Ok (Z.of_nat (length (fst (planned f next))))
                 | Some e => Raise e
                 end
       end, Some f', reg').
Proof.
  intros Ea Ef Es Hl0.
  assert (kf_producer f = None /\ kf_owns_producer f = true /\ kf_settings f = s) as (Hn & Ho & Hset).
  { unfold new_frontier in Ef. apply rbind_Ok in Ef as (r & _ & [= <-]). done. }
  destruct (send_all_log next 0 (set_producer f (Some p0)) p0 reg eq_refl) as (f' & p' & reg' & E & Hp & Hl & Ho' & Hm).
  rewrite planned_producer in E, Hl, Hm. rewrite Hl0 in Hl. cbn in Ho'.
  exists f', p', reg'. split_and!; [done|done|done|].
  unfold publish. rewrite Ea, Ef. unfold frontier_start. rewrite Hn, Hset, Es. cbn. rewrite E.
  unfold frontier_stop. rewrite Hp, Ho', Ho. by destruct (producer_stop p').
Qed.

End Seeding.

(** ** Concrete instances *)

Definition seed_message (url : string) : FrontierMessage := mkMessage (JStr url) 0 JNull 0 0.

Lemma publish_exact_witness :
  let next := [Ok (Some (seed_message "http://a.org/")); Ok None; Ok (Some (seed_message "http://b.org/"))] in
  exists f' p' reg',
    @publish (list sent) (list string) json log_kafka json_bytes identity_lib partition_hash two_partitions next ∅
      = (Ok 2, Some f', reg') /\ kf_producer f' = Some p' /\
    (fun s => (sn_key s, sn_partition s)) <$> p' = [("a.org", Some 1); ("b.org", Some 1)].
Proof.
  cbv zeta. set (next := [_; _; _]).
  destruct (@new_frontier (list sent) partition_hash two_partitions None) as [f|e] eqn:Ef; [|vm_compute in Ef; discriminate Ef].
  destruct (@publish_exact (list sent) (list string) json log_kafka json_bytes identity_lib partition_hash log_kafka_log
    two_partitions next ∅ ["crawler.dlq"; "crawler.retry"; "crawler.parsed"; "crawler.frontier"] f []
    ltac:(vm_compute; reflexivity) Ef eq_refl eq_refl) as (f' & p' & reg' & Ep & El & _ & E).
  vm_compute in Ef. injection Ef as <-.
  exists f', p', reg'. split; [|split; [exact Ep|]].
  - rewrite E. vm_compute. reflexivity.
  - clear -El. destruct p' as [|[t1 v1 k1 q1] [|[t2 v2 k2 q2] [|s3 p']]]; vm_compute in El; try discriminate El.
    injection El as _ _ -> -> _ _ -> ->. reflexivity.
Defined.

(** A malformed URL after a good one: the good one was sent, the rest is not. *)
Example publish_stops_at_malformed :
  let '(r, f, _) := @publish (list sent) (list string) json log_kafka json_bytes identity_lib partition_hash two_partitions
    [Ok (Some (seed_message "http://a.org/")); Raise ValueError; Ok (Some (seed_message "http://b.org/"))] ∅ in
  r = Raise ValueError /\ length (default [] (f ≫= kf_producer)) = 1%nat.
Proof. vm_compute. split; reflexivity. Qed.
