(* ===== verification/Robots.v ===== *)
(** * robots.txt and politeness ([crawler/robots/])

    [RobotsCache] over the LRU cache of [Lru], an optional Redis mirror and a
    callable that fetches text; protego, the server and the callable are
    parameters.  [Politeness] on top of it, with its per-host semaphores.

    [robots_parser_memo]: within the TTL an origin is loaded once.
    [robots_single_flight]: concurrent tasks never load an origin at the same
    time.  [politeness_fail_open] and [politeness_delay]: errors allow, and the
    delay is never below the configured one.  [politeness_slots]: at most
    [per_host_concurrency] tasks hold a host. *)
From S2P Require Import Prelude PyStr Config Lru UrlUtils.
Local Open Scope Z_scope.

(** protego, of the rules' text and a user agent. *)
Class Protego := {
  rules : Type;
  protego_parse : string -> result rules;
  can_fetch : rules -> string -> string -> result bool;
  protego_crawl_delay : rules -> string -> result (option Q) }.

(** GET and SET ... EX on a Redis server. *)
Class RedisStrings (R : Type) := {
  str_get : string -> R -> result (option string);
  str_set : string -> string -> Z -> R -> result R }.

(** The [fetch_text] callable, which changes the state [Net] of the network. *)
Class FetchText (Net : Type) := fetch_text : string -> Net -> result (Z * string) * Net.

Section Robots.
Context {R Net : Type} `{UrlLib, Protego, RedisStrings R, FetchText Net}.

(** The cache, the server when there is one, and the network. *)
Record RobotsCache : Type := mkRobots {
  rc_settings : Settings; rc_redis : option R; rc_cache : LruCache string rules; rc_net : Net }.

Definition new_robots (s : Settings) (redis : option R) (net : Net) : result RobotsCache :=
  let* c := Lru.new (robots_cache_size (politeness s))
              (Some (inject_Z (robots_cache_ttl_seconds (politeness s)))) in
  Ok (mkRobots s redis c net).

Definition set_cache (rc : RobotsCache) (c : LruCache string rules) : RobotsCache :=
  mkRobots (rc_settings rc) (rc_redis rc) c (rc_net rc).

Definition origin (url : string) : result string :=
  let* parts := urlsplit bracketed_ok url in
  Ok (scheme parts +:+ "://" +:+ netloc parts).

(** [_load]: the mirrored text, or what the origin serves (nothing unless the
    status is 200), which is then mirrored; no failure escapes. *)
Definition load (o : string) (rc : RobotsCache) : string * RobotsCache :=
  let redis_key := "robots:" +:+ o in
  let cached := match rc_redis rc with
                | Some r => match str_get redis_key r with Ok c => c | Raise _ => None end
                | None => None
                end in
  match cached with
  | Some text => (text, rc)
  | None =>
      let '(res, net) := fetch_text (o +:+ "/robots.txt") (rc_net rc) in
      let '(status, text) := match res with Ok st => st | Raise _ => (0, "") end in
      let robots := if status =? 200 then text else "" in
      let redis :=
        match rc_redis rc with
        | Some r => match str_set redis_key robots (robots_cache_ttl_seconds (politeness (rc_settings rc))) r with
                    | Ok r' => Some r' | Raise _ => Some r end
        | None => None
        end in
      (robots, mkRobots (rc_settings rc) redis (rc_cache rc) net)
  end.

(** [_parser], the lock being free: [now] gives the clock at the three calls of
    the cache. *)
Definition parser (now : nat -> Q) (url : string) : act RobotsCache rules :=
  let! o := alift (origin url) in
  let! rc := aget in
  let '(cached, c) := Lru.get (now 0%nat) o (rc_cache rc) in
  let! _ := amodify (fun rc => set_cache rc c) in
  match cached with
  | Some p => aret p
  | None =>
      let! rc := aget in
      let '(cached, c) := Lru.get (now 1%nat) o (rc_cache rc) in
      let! _ := amodify (fun rc => set_cache rc c) in
      match cached with
      | Some p => aret p
      | None =>
          let! text := (fun rc => let '(t, rc') := load o rc in (Ok t, rc')) in
          let! p := alift (protego_parse text) in
          let! _ := amodify (fun rc => set_cache rc (Lru.put (now 2%nat) o p (rc_cache rc))) in
          aret p
      end
  end.

Definition rc_allowed (now : nat -> Q) (url : string) : act RobotsCache bool :=
  let! p := parser now url in
  let! rc := aget in
  alift (can_fetch p url (user_agent (fetch (rc_settings rc)))).

Definition rc_crawl_delay (now : nat -> Q) (url : string) : act RobotsCache (option Q) :=
  let! p := parser now url in
  let! rc := aget in
  alift (protego_crawl_delay p (user_agent (fetch (rc_settings rc)))).

(** ** [class Politeness] *)

Record Politeness : Type := mkPoliteness {
  po_settings : Settings; po_robots : RobotsCache; po_semaphores : gmap string Z }.

Definition set_robots (p : Politeness) (rc : RobotsCache) : Politeness :=
  mkPoliteness (po_settings p) rc (po_semaphores p).

Definition on_robots {A} (m : act RobotsCache A) : act Politeness A := fun p =>
  let '(r, rc) := m (po_robots p) in (r, set_robots p rc).

Definition allowed (now : nat -> Q) (url : string) : act Politeness bool :=
  let! p := aget in
  if negb (respect_robots (Config.politeness (po_settings p))) then aret true
  else atry (on_robots (rc_allowed now url)) (fun _ => aret true).

Definition effective_delay_ms (now : nat -> Q) (url : string) : act Politeness Z :=
  let! p := aget in
  let delay_ms := default_crawl_delay_ms (Config.politeness (po_settings p)) in
  if respect_robots (Config.politeness (po_settings p)) then
    let! crawl_delay := atry (on_robots (rc_crawl_delay now url)) (fun _ => aret None) in
    aret (match crawl_delay with
          | Some d => Z.max delay_ms (py_int (d * 1000))
          | None => delay_ms
          end)
  else aret delay_ms.

(** [_semaphore(host)]: the host's permits, created on first use. *)
Definition semaphore (host : string) (p : Politeness) : Z :=
  default (per_host_concurrency (fetch (po_settings p))) (po_semaphores p !! host).
Definition set_semaphore (host : string) (n : Z) (p : Politeness) : Politeness :=
  mkPoliteness (po_settings p) (po_robots p) (<[host := n]> (po_semaphores p)).

(** Entering [slot(url)]: the permit is taken ([None]: the task waits), then the
    rate limiter is asked for the host at the refill rate returned ([None]: not
    asked). *)
Definition slot_acquire (url : string) (p : Politeness) : result (option Politeness) :=
  let* host := host_of url in
  Ok (if 0 <? semaphore host p then Some (set_semaphore host (semaphore host p - 1) p) else None).
Definition slot_rate (now : nat -> Q) (url : string) : act Politeness (option Q) :=
  let! delay_ms := effective_delay_ms now url in
  aret (if 0 <? delay_ms then Some (1000 / inject_Z delay_ms)%Q else None).
(** Leaving it. *)
Definition slot_release (host : string) (p : Politeness) : Politeness :=
  set_semaphore host (semaphore host p + 1) p.

End Robots.
Arguments RobotsCache R Net {_}.
Arguments Politeness R Net {_}.

(** ** The cache *)
Section CacheTheorems.
Context {R Net : Type} `{UrlLib, Protego, RedisStrings R, FetchText Net}.

Lemma get_after_put {K V} `{EqDecision K} (now now' : Q) (k : K) (v : V) (c : LruCache K V) :
  0 < capacity c -> (forall t, ttl c = Some t -> now' - now <= t)%Q ->
  exists c', Lru.get now' k (Lru.put now k v c) = (Some v, c').
Proof.
  intros Hc Ht. unfold Lru.get, Lru.put. rewrite put_data, evict_put by done. cbn [data set_data].
  set (l := drop _ (od_del k (data c))).
  assert (k ∉ l.*1) as Hl.
  { intros (x & -> & Hx)%list_elem_of_fmap. apply elem_of_drop_in in Hx.
    apply (od_del_notin x.1 (data c)). by apply list_elem_of_fmap_2. }
  rewrite od_get_snoc by done. unfold expired, set_data. cbn [ttl].
  destruct (ttl c) as [t|] eqn:E; [|by eexists]. cbn.
  specialize (Ht t eq_refl). destruct (Qltb_spec t (now' - now)); [lra|]. by eexists.
Qed.

Lemma parser_hit now url o p c rc :
  origin url = Ok o -> Lru.get (now 0%nat) o (rc_cache rc) = (Some p, c) ->
  parser now url rc = (Ok p, set_cache rc c).
Proof. intros Ho Hg. unfold parser, abind, alift, aget. rewrite Ho. cbn. by rewrite Hg. Qed.

Lemma load_cache o rc t rc' : load o rc = (t, rc') ->
  rc_cache rc' = rc_cache rc /\ rc_settings rc' = rc_settings rc.
Proof.
  unfold load. destruct (match rc_redis rc with Some r => _ | None => None end); [by intros [= <- <-]|].
  destruct (fetch_text _ _) as [res net]. destruct (match res with Ok st => st | Raise _ => _ end).
  by intros [= <- <-].
Qed.

Lemma get_caps {K V} `{EqDecision K} (now : Q) (k : K) (c : LruCache K V) :
  capacity (Lru.get now k c).2 = capacity c /\ ttl (Lru.get now k c).2 = ttl c.
Proof.
  unfold Lru.get. destruct (od_get k (data c)) as [[v t]|]; [|done]. by destruct (expired c now t).
Qed.

Lemma get_miss {K V} `{EqDecision K} (now now' : Q) (k : K) (c c' : LruCache K V) :
  Lru.get now k c = (None, c') -> Lru.get now' k c' = (None, c').
Proof.
  unfold Lru.get. destruct (od_get k (data c)) as [[w s]|] eqn:E.
  - destruct (expired c now s); [|done]. intros [= <-]. cbn.
    by rewrite (proj2 (od_get_None k _)) by apply od_del_notin.
  - intros [= <-]. by rewrite E.
Qed.

(** What a lookup that missed does: one [_load], parsed and stored. *)
Lemma parser_miss now url o c rc :
  origin url = Ok o -> Lru.get (now 0%nat) o (rc_cache rc) = (None, c) ->
  let '(text, rc1) := load o (set_cache rc c) in
  parser now url rc =
    match protego_parse text with
    | Ok p => (Ok p, set_cache rc1 (Lru.put (now 2%nat) o p c))
    | Raise e => (Raise e, rc1)
    end.
Proof.
  intros Ho Hg. destruct (load o (set_cache rc c)) as [text rc1] eqn:El.
  unfold parser, abind, alift, aget, amodify, aret. rewrite Ho. cbn. rewrite Hg. cbn.
  rewrite (get_miss _ _ _ _ _ Hg). cbn. change (set_cache (set_cache rc c) c) with (set_cache rc c). rewrite El. cbn.
  destruct (load_cache _ _ _ _ El) as [Ec _]. destruct (protego_parse text); [|done]. by rewrite Ec.
Qed.

(** An origin's rules are remembered: after a successful lookup that missed
    the cache, asking for any URL of the origin until the TTL has passed
    returns the same rules and touches neither the network nor the server. *)
Theorem robots_parser_memo now now' url url' o rc p rc' :
  0 < capacity (rc_cache rc) -> origin url = Ok o -> origin url' = Ok o ->
  fst (Lru.get (now 0%nat) o (rc_cache rc)) = None -> parser now url rc = (Ok p, rc') ->
  (forall t, ttl (rc_cache rc) = Some t -> now' 0%nat - now 2%nat <= t)%Q ->
  exists c, parser now' url' rc' = (Ok p, set_cache rc' c).
Proof.
  intros Hc Ho Ho' Hm Hp Ht. destruct (Lru.get (now 0%nat) o (rc_cache rc)) as [v c] eqn:Eg.
  cbn in Hm. subst v. pose proof (parser_miss now url o c rc Ho Eg) as Hmiss.
  destruct (load o (set_cache rc c)) as [text rc1] eqn:El. rewrite Hp in Hmiss.
  destruct (protego_parse text) as [q|e]; [|done]. injection Hmiss as <- ->.
  destruct (get_caps (now 0%nat) o (rc_cache rc)) as [Hcap Httl]. rewrite Eg in Hcap, Httl. cbn in Hcap, Httl.
  destruct (get_after_put (now 2%nat) (now' 0%nat) o p c) as (c2 & E2).
  { by rewrite Hcap. } { intros t Et. apply Ht. by rewrite <- Httl. }
  exists c2. by apply (parser_hit _ _ o).
Qed.

(** ** Politeness *)

(** Permission never raises: it is granted without asking when robots are
    not respected, is the verdict of the origin's rules when they can be had,
    and is granted when the origin, the parser or the verdict fails; an
    unreachable or non-200 robots.txt counts as empty rules. *)
Theorem politeness_fail_open now url po :
  let settings := Config.politeness (po_settings po) in
  let lookup := rc_allowed now url (po_robots po) in
  allowed now url po =
    (if respect_robots settings
     then (Ok (match fst lookup with Ok b => b | Raise _ => true end), set_robots po (snd lookup))
     else (Ok true, po)) /\
  (forall o rc, (forall r, rc_redis rc = Some r -> is_ok (str_get ("robots:" +:+ o) r) = false) ->
     (match fst (fetch_text (o +:+ "/robots.txt") (rc_net rc)) with
      | Ok (status, _) => status <> 200 | Raise _ => True end) ->
     fst (load o rc) = "").
Proof.
  split.
  - unfold allowed, abind, aget, atry, on_robots, aret. cbv zeta. cbn.
    destruct (respect_robots _); cbn [negb]; [|done].
    by destruct (rc_allowed now url (po_robots po)) as [[b|e] rc].
  - intros o rc Hr Hf. unfold load.
    assert (match rc_redis rc with
            | Some r => match str_get ("robots:" +:+ o) r with Ok c => c | Raise _ => None end
            | None => None end = None) as ->.
    { destruct (rc_redis rc) as [r|]; [|done]. specialize (Hr r eq_refl). by destruct (str_get _ r). }
    destruct (fetch_text _ _) as [[[status text]|e] net]; cbn in *; [|done].
    by destruct (Z.eqb_spec status 200).
Qed.

(** The delay between fetches of a host is at least the configured one and
    at least its robots.txt crawl-delay (in whole milliseconds), so the limiter
    is asked for a refill rate of at most one token per delay; it is not asked
    only when the delay is not positive. *)
Theorem politeness_delay now url po :
  let settings := Config.politeness (po_settings po) in
  let lookup := rc_crawl_delay now url (po_robots po) in
  exists delay po', effective_delay_ms now url po = (Ok delay, po') /\
    default_crawl_delay_ms settings <= delay /\
    (respect_robots settings = true -> forall d, fst lookup = Ok (Some d) -> py_int (d * 1000) <= delay) /\
    fst (slot_rate now url po) = Ok (if 0 <? delay then Some (1000 / inject_Z delay)%Q else None) /\
    (0 < delay -> (1000 / inject_Z delay * inject_Z delay == 1000)%Q).
Proof.
  cbv zeta. unfold slot_rate, effective_delay_ms, abind, aget, atry, on_robots, aret. cbn.
  assert (forall delay, 0 < delay -> (1000 / inject_Z delay * inject_Z delay == 1000)%Q) as Hinv.
  { intros delay Hd. field. intros E. assert (0 < inject_Z delay)%Q by (unfold Qlt; cbn; lia). lra. }
  destruct (respect_robots _).
  - destruct (rc_crawl_delay now url (po_robots po)) as [[[d|]|e] rc]; eexists _, _; (split; [done|]); cbn.
    + split_and!; [lia| |done|apply Hinv]. intros _ d' [= <-]. lia.
    + by split_and!; [lia| |done|apply Hinv].
    + by split_and!; [lia| |done|apply Hinv].
  - eexists _, _. split; [done|]. by split_and!; [lia| |done|apply Hinv].
Qed.

(** *** Slots *)

(** Tasks holding a slot, with the host of each. *)
Record slots : Type := mkSlots { sl_po : Politeness R Net; sl_holders : gmap nat string }.

Inductive slot_step : slots -> slots -> Prop :=
| slot_enter t url host s po :
    sl_holders s !! t = None -> host_of url = Ok host -> slot_acquire url (sl_po s) = Ok (Some po) ->
    slot_step s (mkSlots po (<[t := host]> (sl_holders s)))
| slot_work t now url s :
    is_Some (sl_holders s !! t) ->
    slot_step s (mkSlots (snd (slot_rate now url (sl_po s))) (sl_holders s))
| slot_leave t host s :
    sl_holders s !! t = Some host ->
    slot_step s (mkSlots (slot_release host (sl_po s)) (delete t (sl_holders s))).

Definition holding (host : string) (s : slots) : Z :=
  Z.of_nat (size (filter (fun kv => kv.2 = host) (sl_holders s))).

Lemma holding_insert (t : nat) h host (m : gmap nat string) : m !! t = None ->
  Z.of_nat (size (filter (fun kv : nat * string => kv.2 = host) (<[t := h]> m))) =
  Z.of_nat (size (filter (fun kv : nat * string => kv.2 = host) m)) + (if decide (h = host) then 1 else 0).
Proof.
  intros Hm. rewrite map_filter_insert. cbn. case_decide.
  - rewrite map_size_insert_None by (rewrite map_lookup_filter_None; by left). lia.
  - rewrite delete_id by done. lia.
Qed.

Lemma semaphore_set host host' n (po : Politeness R Net) :
  semaphore host (set_semaphore host' n po) = if decide (host = host') then n else semaphore host po.
Proof.
  unfold semaphore, set_semaphore. cbn. case_decide; [subst; by rewrite lookup_insert_eq|by rewrite lookup_insert_ne].
Qed.

Lemma slot_rate_same now url (po : Politeness R Net) : let po' := snd (slot_rate now url po) in
  po_settings po' = po_settings po /\ po_semaphores po' = po_semaphores po.
Proof.
  unfold slot_rate, effective_delay_ms, abind, aget, atry, on_robots, aret. cbn.
  destruct (respect_robots _); [|done]. by destruct (rc_crawl_delay now url (po_robots po)) as [[[d|]|e] rc].
Qed.

Definition slot_inv (limit : Z) (s : slots) : Prop :=
  per_host_concurrency (fetch (po_settings (sl_po s))) = limit /\
  forall host, 0 <= semaphore host (sl_po s) /\ semaphore host (sl_po s) + holding host s = limit.

Lemma slot_inv_step limit s s' : slot_inv limit s -> slot_step s s' -> slot_inv limit s'.
Proof.
  intros [Hl Hi] Hst. destruct Hst as [t url host s po Hn Hh Ha|t now url s Hs|t host s Hs].
  - unfold slot_acquire in Ha. rewrite Hh in Ha. cbn in Ha.
    destruct (Z.ltb_spec 0 (semaphore host (sl_po s))); simplify_eq. split; [done|].
    intros h. destruct (Hi h) as [H0' Hsum]. unfold holding in *. cbn [sl_po sl_holders].
    rewrite semaphore_set, holding_insert by done. destruct (decide (h = host)) as [->|Hne].
    + rewrite decide_True by done. lia.
    + rewrite (decide_False (P := host = h)) by congruence. lia.
  - destruct (slot_rate_same now url (sl_po s)) as [Es Ep].
    unfold slot_inv, holding, semaphore. cbn [sl_po sl_holders]. rewrite Es, Ep. by split.
  - split; [done|]. intros h. destruct (Hi h) as [H0' Hsum]. unfold holding in *. cbn [sl_po sl_holders].
    unfold slot_release. rewrite semaphore_set.
    rewrite <- (insert_delete_id _ _ _ Hs), holding_insert in Hsum by apply lookup_delete_eq.
    destruct (decide (h = host)) as [->|Hne].
    + rewrite decide_True in Hsum by done. lia.
    + rewrite (decide_False (P := host = h)) in Hsum by congruence. lia.
Qed.

(** In every reachable state at most [per_host_concurrency] tasks hold the
    slot of a host (their permits and the free ones add up to it), whatever
    other hosts' tasks do; a permit is free exactly when fewer hold it, and
    then a task can enter. *)
Theorem politeness_slots s po host url :
  rtc slot_step (mkSlots po ∅) s -> po_semaphores po = ∅ ->
  0 < per_host_concurrency (fetch (po_settings po)) ->
  0 <= holding host s <= per_host_concurrency (fetch (po_settings po)) /\
  (host_of url = Ok host ->
   (exists po', slot_acquire url (sl_po s) = Ok (Some po')) <->
   holding host s < per_host_concurrency (fetch (po_settings po))).
Proof.
  intros Hr He Hpos. set (limit := per_host_concurrency (fetch (po_settings po))) in *.
  assert (slot_inv limit s) as [_ Hi].
  { assert (slot_inv limit (mkSlots po ∅)) as Hinit.
    { split; [done|]. intros h. unfold semaphore, holding. cbn. rewrite He, lookup_empty, map_filter_empty, map_size_empty.
      cbn. fold limit. lia. }
    eapply rtc_invariant; [|exact Hr|exact Hinit]. eauto using slot_inv_step. }
  destruct (Hi host) as [H0' Hsum]. split; [unfold holding in *; lia|].
  intros Hh. unfold slot_acquire. rewrite Hh. cbn.
  destruct (Z.ltb_spec 0 (semaphore host (sl_po s))).
  - split; [intros; lia|eauto].
  - split; [by intros (? & ?)|lia].
Qed.

(** ** Single flight

    Tasks in [_parser], at its suspension points: waiting for the origin's
    lock, or inside [_load] with the lock held.  Between two of them a task
    runs without interruption. *)
Inductive phase : Type := Waiting | Loading | Finished (p : option rules).

Record flight : Type := mkFlight {
  fl_rc : RobotsCache R Net; fl_locks : gmap string nat; fl_tasks : gmap nat (string * phase) }.

Definition set_task (t : nat) (o : string) (ph : phase) (s : flight) (rc : RobotsCache R Net)
    (locks : gmap string nat) : flight := mkFlight rc locks (<[t := (o, ph)]> (fl_tasks s)).

Inductive flight_step : flight -> flight -> Prop :=
| flight_start t url o now v c s :
    fl_tasks s !! t = None -> origin url = Ok o -> Lru.get now o (rc_cache (fl_rc s)) = (v, c) ->
    flight_step s (set_task t o (match v with Some p => Finished (Some p) | None => Waiting end) s
                     (set_cache (fl_rc s) c) (fl_locks s))
| flight_lock_hit t o now p c s :
    fl_tasks s !! t = Some (o, Waiting) -> fl_locks s !! o = None ->
    Lru.get now o (rc_cache (fl_rc s)) = (Some p, c) ->
    flight_step s (set_task t o (Finished (Some p)) s (set_cache (fl_rc s) c) (fl_locks s))
| flight_lock_miss t o now c s :
    fl_tasks s !! t = Some (o, Waiting) -> fl_locks s !! o = None ->
    Lru.get now o (rc_cache (fl_rc s)) = (None, c) ->
    flight_step s (set_task t o Loading s (set_cache (fl_rc s) c) (<[o := t]> (fl_locks s)))
| flight_loaded t o now text rc p s :
    fl_tasks s !! t = Some (o, Loading) -> load o (fl_rc s) = (text, rc) -> protego_parse text = Ok p ->
    flight_step s (set_task t o (Finished (Some p)) s (set_cache rc (Lru.put now o p (rc_cache rc)))
                     (delete o (fl_locks s)))
| flight_raised t o text rc e s :
    fl_tasks s !! t = Some (o, Loading) -> load o (fl_rc s) = (text, rc) -> protego_parse text = Raise e ->
    flight_step s (set_task t o (Finished None) s rc (delete o (fl_locks s))).

Definition loading (t : nat) (o : string) (s : flight) : Prop := fl_tasks s !! t = Some (o, Loading).

Lemma loading_set t' o' t o ph s rc locks :
  loading t' o' (set_task t o ph s rc locks) <->
  (t' = t /\ o' = o /\ ph = Loading) \/ (t' <> t /\ loading t' o' s).
Proof.
  unfold loading, set_task. cbn. destruct (decide (t = t')) as [->|].
  - rewrite lookup_insert_eq. naive_solver.
  - rewrite lookup_insert_ne by done. naive_solver.
Qed.

Lemma flight_inv_step s s' :
  (forall t o, loading t o s <-> fl_locks s !! o = Some t) -> flight_step s s' ->
  (forall t o, loading t o s' <-> fl_locks s' !! o = Some t).
Proof.
  intros Hi Hst t' o'.
  destruct Hst as [t url o now v c s Ht _ _|t o now p c s Ht Hl _|t o now c s Ht Hl _|t o now text rc p s Ht _ _|t o text rc e s Ht _ _];
    rewrite loading_set; cbn [set_task fl_locks].
  - rewrite <- Hi. unfold loading. destruct v; destruct (decide (t' = t)) as [->|]; rewrite ?Ht; naive_solver.
  - rewrite <- Hi. unfold loading. destruct (decide (t' = t)) as [->|]; rewrite ?Ht; naive_solver.
  - rewrite lookup_insert_Some, <- Hi. unfold loading.
    assert (forall x, ~ loading x o s) as Hno by (intros x ?%Hi; congruence).
    destruct (decide (t' = t)) as [->|]; rewrite ?Ht; split; naive_solver.
  - rewrite lookup_delete_Some, <- Hi. apply Hi in Ht as Hlo. split; [|].
    + intros [(_ & _ & ?)|[Hne Hx]]; [done|]. split; [|done]. intros <-. apply Hi in Hx. congruence.
    + intros [Hne Hx]. right. split; [|done]. intros ->. unfold loading in Hx. congruence.
  - rewrite lookup_delete_Some, <- Hi. apply Hi in Ht as Hlo. split; [|].
    + intros [(_ & _ & ?)|[Hne Hx]]; [done|]. split; [|done]. intros <-. apply Hi in Hx. congruence.
    + intros [Hne Hx]. right. split; [|done]. intros ->. unfold loading in Hx. congruence.
Qed.

(** Where the rules of an origin come from: the cache as it was at first, or a
    text that was loaded for the origin. *)
Definition origin_rules (rc0 : RobotsCache R Net) (o : string) (p : rules) : Prop :=
  (exists at_, (o, (p, at_)) ∈ data (rc_cache rc0)) \/
  exists rc text rc', load o rc = (text, rc') /\ protego_parse text = Ok p.
Definition unparsable (o : string) : Prop := exists (rc : RobotsCache R Net) text rc' e, load o rc = (text, rc') /\ protego_parse text = Raise e.

Lemma od_del_sub {K X} `{EqDecision K} (k : K) (l : list (K * X)) x : x ∈ od_del k l -> x ∈ l.
Proof. unfold od_del. intros [_ ?]%list_elem_of_filter. done. Qed.
Lemma od_get_in {K X} `{EqDecision K} (k : K) (x : X) (l : list (K * X)) : od_get k l = Some x -> (k, x) ∈ l.
Proof.
  induction l as [|[k' z] l IH]; [done|]. cbn. case_decide as Ek; [intros [= ->]; subst; by left|intros ?; right; auto].
Qed.
Lemma move_to_end_sub {K X} `{EqDecision K} (k : K) (l : list (K * X)) x : x ∈ od_move_to_end k l -> x ∈ l.
Proof.
  unfold od_move_to_end. destruct (od_get k l) as [y|] eqn:E; [|done].
  intros [Hx%od_del_sub|Hx%list_elem_of_singleton]%elem_of_app; [done|]. subst x. by apply od_get_in.
Qed.
Lemma get_sub {K V} `{EqDecision K} (now : Q) (k : K) (c : LruCache K V) v c' : Lru.get now k c = (v, c') ->
  (forall x, x ∈ data c' -> x ∈ data c) /\ (forall p, v = Some p -> exists at_, (k, (p, at_)) ∈ data c).
Proof.
  unfold Lru.get. destruct (od_get k (data c)) as [[p at_]|] eqn:E; [|by intros [= <- <-]].
  destruct (expired c now at_); intros [= <- <-]; cbn [set_data data]; (split; [intros x|intros ? [= ->]]).
  - apply od_del_sub.
  - apply move_to_end_sub.
  - exists at_. by apply od_get_in.
Qed.
Lemma evict_sub {X} (cap : Z) (l : list X) x : x ∈ evict cap l -> x ∈ l.
Proof. induction l as [|y l IH]; [done|]. cbn. destruct (_ >? cap); [right; auto|done]. Qed.
Lemma put_sub {K V} `{EqDecision K} (now : Q) (k : K) (v : V) (c : LruCache K V) x :
  x ∈ data (Lru.put now k v c) -> x = (k, (v, now)) \/ x ∈ data c.
Proof.
  unfold Lru.put. rewrite put_data. cbn [set_data data]. intros Hx%evict_sub.
  apply elem_of_app in Hx as [Hx%od_del_sub|Hx%list_elem_of_singleton]; auto.
Qed.
(** What the cache and the finished tasks hold. *)
Definition flight_served (rc0 : RobotsCache R Net) (s : flight) : Prop :=
  (forall o p at_, (o, (p, at_)) ∈ data (rc_cache (fl_rc s)) -> origin_rules rc0 o p) /\
  forall t o x, fl_tasks s !! t = Some (o, Finished x) -> match x with Some p => origin_rules rc0 o p | None => unparsable o end.

Lemma flight_served_step rc0 s s' : flight_served rc0 s -> flight_step s s' -> flight_served rc0 s'.
Proof.
  intros [Hc Ht] Hst.
  assert (forall t o ph (rc : RobotsCache R Net) locks, (forall o p at_, (o, (p, at_)) ∈ data (rc_cache rc) -> origin_rules rc0 o p) ->
    (forall x, ph = Finished x -> match x with Some p => origin_rules rc0 o p | None => unparsable o end) ->
    flight_served rc0 (set_task t o ph s rc locks)) as Hset.
  { intros t o ph rc locks Hrc Hph. split; [exact Hrc|]. intros t' o' x. cbn. destruct (decide (t = t')) as [->|].
    - rewrite lookup_insert_eq. intros [= <- ->]. by apply Hph.
    - rewrite lookup_insert_ne by done. apply Ht. }
  destruct Hst as [t url o now v c s _ _ Hg|t o now p c s _ _ Hg|t o now c s _ _ Hg|t o now text rc p s _ Hl Hp|t o text rc e s _ Hl Hp];
    try (destruct (get_sub _ _ _ _ _ Hg) as [Hsub Hv]); apply Hset; cbn [set_cache rc_cache]; try (intros o' p' at' Hin).
  - eauto.
  - intros x Hx. destruct v as [p|]; [|done]. injection Hx as <-. destruct (Hv p eq_refl). eauto.
  - eauto.
  - intros x [= <-]. destruct (Hv p eq_refl). eauto.
  - eauto.
  - done.
  - apply put_sub in Hin as [[= -> -> ->]|Hin]; [right; eauto|]. rewrite (proj1 (load_cache _ _ _ _ Hl)) in Hin. eauto.
  - intros x [= <-]. right. eauto.
  - rewrite (proj1 (load_cache _ _ _ _ Hl)) in Hin. eauto.
  - intros x [= <-]. by exists (fl_rc s), text, rc, e.
Qed.

Definition locked_by_loader (s : flight) : Prop := forall t o, loading t o s <-> fl_locks s !! o = Some t.
Lemma flight_progress s t o ph : locked_by_loader s -> fl_tasks s !! t = Some (o, ph) -> (forall x, ph <> Finished x) ->
  exists s', flight_step s s'.
Proof.
  intros Hi Ht Hn.
  assert (forall t o, loading t o s -> exists s', flight_step s s') as Hload.
  { intros t1 o1 Hl. destruct (load o1 (fl_rc s)) as [text rc] eqn:El. destruct (protego_parse text) as [p|e] eqn:Ep.
    - eexists. by apply (flight_loaded t1 o1 0%Q text rc p).
    - eexists. by apply (flight_raised t1 o1 text rc e). }
  destruct ph as [| |x]; [|by apply (Hload t o)|by destruct (Hn x)].
  destruct (fl_locks s !! o) as [t'|] eqn:El; [by apply (Hload t' o), Hi|].
  destruct (Lru.get 0%Q o (rc_cache (fl_rc s))) as [[p|] c] eqn:Eg; eexists;
    [by apply (flight_lock_hit t o 0%Q p c)|by apply (flight_lock_miss t o 0%Q c)].
Qed.

(** C25: single flight, in every reachable state of any number of concurrent
    lookups.  Two tasks that load the same origin are one task, which holds the
    origin's lock.  When a load finishes, a task that then takes the lock
    within the TTL gets its rules without loading.  A task that has finished
    has rules of its own origin, from the cache as it was at first or parsed
    from a text loaded for the origin, unless a text loaded for the origin
    could not be parsed: then the task may have raised.  And as long as a task
    has not finished, some task can go on. *)
Theorem robots_single_flight rc s :
  rtc flight_step (mkFlight rc ∅ ∅) s ->
  (forall t1 t2 o, loading t1 o s -> loading t2 o s -> t1 = t2 /\ fl_locks s !! o = Some t1) /\
  (forall t o now p text rc', loading t o s -> load o (fl_rc s) = (text, rc') -> protego_parse text = Ok p ->
     forall now', 0 < capacity (rc_cache rc') -> (forall ttl_, ttl (rc_cache rc') = Some ttl_ -> now' - now <= ttl_)%Q ->
     exists c, Lru.get now' o (rc_cache (set_cache rc' (Lru.put now o p (rc_cache rc')))) = (Some p, c)) /\
  (forall t o x, fl_tasks s !! t = Some (o, Finished x) ->
     match x with Some p => origin_rules rc o p | None => unparsable o end) /\
  (forall t o ph, fl_tasks s !! t = Some (o, ph) -> (forall x, ph <> Finished x) -> exists s', flight_step s s').
Proof.
  intros Hr. assert (locked_by_loader s /\ flight_served rc s) as [Hi [_ Hs]].
  { eapply (rtc_invariant _ (fun s => locked_by_loader s /\ flight_served rc s)); [|exact Hr|].
    - intros x y [H1' H2'] Hst. split; [exact (flight_inv_step _ _ H1' Hst)|by eapply flight_served_step].
    - split; [intros t o; unfold loading; cbn; by rewrite !lookup_empty|]. split; [|done]. cbn. intros o p at_ Hin. left. by exists at_. }
  split_and!; [| |exact Hs|intros t o ph; by apply flight_progress].
  - intros t1 t2 o H1'%Hi H2'%Hi. split; [congruence|done].
  - intros t o now p text rc' _ _ _ now' Hc Ht. cbn. by apply get_after_put.
Qed.

End CacheTheorems.

(** ** Concrete instances *)

Definition toy_protego : Protego := {|
  rules := string; protego_parse := Ok;
  can_fetch := fun r url _ => Ok (negb (PyStr.contains r url) || negb (truthy r));
  protego_crawl_delay := fun _ _ => Ok (Some (5 # 2)) |}.
Definition no_redis : RedisStrings unit := {|
  str_get := fun _ _ => Raise (OtherError "down"); str_set := fun _ _ _ _ => Raise (OtherError "down") |}.
(** A network that counts its requests. *)
Definition counting_net : FetchText nat := fun url n => (Ok (200, "/private"), S n).

Definition toy_robots : @RobotsCache unit nat toy_protego :=
  @mkRobots unit nat toy_protego default_settings (Some tt) (@mkLru string string 100 (Some 3600%Q) []) 0%nat.

Lemma robots_parser_memo_witness :
  exists rc' c,
    @parser unit nat identity_lib toy_protego no_redis counting_net (fun _ => 0%Q) "http://a.org/x" toy_robots = (Ok "/private", rc') /\
    @parser unit nat identity_lib toy_protego no_redis counting_net (fun _ => 60%Q) "http://a.org/y" rc'
      = (Ok "/private", set_cache rc' c).
Proof.
  destruct (@parser unit nat identity_lib toy_protego no_redis counting_net (fun _ => 0%Q) "http://a.org/x" toy_robots)
    as [r rc'] eqn:E.
  assert (r = Ok "/private") as Er by (vm_compute in E; injection E as <- _; reflexivity).
  rewrite Er in E.
  destruct (@robots_parser_memo unit nat identity_lib toy_protego no_redis counting_net (fun _ => 0%Q) (fun _ => 60%Q)
              "http://a.org/x" "http://a.org/y" "http://a.org" toy_robots "/private" rc') as (c & E2).
  - vm_compute. reflexivity.
  - vm_compute. reflexivity.
  - vm_compute. reflexivity.
  - vm_compute. reflexivity.
  - exact E.
  - intros t Et. vm_compute in Et. injection Et as <-. discriminate.
  - exists rc', c. rewrite Er. split; [reflexivity|exact E2].
Defined.

Definition toy_politeness : @Politeness unit nat toy_protego :=
  @mkPoliteness unit nat toy_protego default_settings toy_robots ∅.

Lemma politeness_fail_open_witness :
  fst (@allowed unit nat identity_lib toy_protego no_redis counting_net (fun _ => 0%Q) "http://a.org/private/1" toy_politeness)
    = Ok false /\
  fst (@load unit nat toy_protego no_redis (fun _ n => (Ok (503, "busy"), n)) "http://a.org" toy_robots) = "".
Proof.
  split.
  - rewrite (proj1 (@politeness_fail_open unit nat identity_lib toy_protego no_redis counting_net
               (fun _ => 0%Q) "http://a.org/private/1" toy_politeness)). vm_compute. reflexivity.
  - apply (@politeness_fail_open unit nat identity_lib toy_protego no_redis (fun _ n => (Ok (503, "busy"), n))
             (fun _ => 0%Q) "http://a.org/private/1" toy_politeness).
    + intros r _. reflexivity.
    + vm_compute. discriminate.
Defined.

Lemma politeness_delay_witness :
  exists delay po',
    @effective_delay_ms unit nat identity_lib toy_protego no_redis counting_net (fun _ => 0%Q) "http://a.org/" toy_politeness
      = (Ok delay, po') /\ 2500 <= delay.
Proof.
  destruct (@politeness_delay unit nat identity_lib toy_protego no_redis counting_net (fun _ => 0%Q) "http://a.org/" toy_politeness)
    as (delay & po' & E & _ & Hd & _).
  exists delay, po'. split; [exact E|]. apply (Hd eq_refl (5 # 2)). vm_compute. reflexivity.
Defined.

Lemma politeness_slots_witness :
  0 <= @holding unit nat toy_protego "a.org" (mkSlots toy_politeness ∅) <= 2.
Proof.
  apply (@politeness_slots unit nat identity_lib toy_protego no_redis counting_net
           (mkSlots toy_politeness ∅) toy_politeness "a.org" "http://a.org/").
  - apply rtc_refl.
  - reflexivity.
  - vm_compute. reflexivity.
Defined.

(** Two tasks of one origin: the first holds the lock and loads, the second
    waits. *)
Definition toy_flight : @flight unit nat toy_protego :=
  mkFlight toy_robots {[ "http://a.org" := 1%nat ]}
    (<[1%nat := ("http://a.org", Loading)]> (<[2%nat := ("http://a.org", Waiting)]>
      (<[1%nat := ("http://a.org", Waiting)]> ∅))).

Lemma toy_flight_reachable : rtc (@flight_step unit nat identity_lib toy_protego no_redis counting_net) (mkFlight toy_robots ∅ ∅) toy_flight.
Proof.
  eapply rtc_l.
  { eapply (@flight_start unit nat identity_lib toy_protego no_redis counting_net 1%nat "http://a.org/x" "http://a.org" 0%Q None); reflexivity. }
  eapply rtc_l.
  { eapply (@flight_start unit nat identity_lib toy_protego no_redis counting_net 2%nat "http://a.org/y" "http://a.org" 0%Q None); reflexivity. }
  eapply rtc_l.
  { eapply (@flight_lock_miss unit nat identity_lib toy_protego no_redis counting_net 1%nat "http://a.org" 0%Q); reflexivity. }
  apply rtc_refl.
Qed.
(** The load finishes. *)
Definition toy_loaded : @flight unit nat toy_protego :=
  let rc := snd (@load unit nat toy_protego no_redis counting_net "http://a.org" toy_robots) in
  @set_task unit nat toy_protego 1%nat "http://a.org" (@Finished toy_protego (Some "/private")) toy_flight
    (set_cache rc (Lru.put 0%Q "http://a.org" "/private" (rc_cache rc))) (delete "http://a.org" (fl_locks toy_flight)).
Lemma toy_loaded_reachable : rtc (@flight_step unit nat identity_lib toy_protego no_redis counting_net) (mkFlight toy_robots ∅ ∅) toy_loaded.
Proof.
  eapply rtc_r; [exact toy_flight_reachable|].
  apply (@flight_loaded unit nat identity_lib toy_protego no_redis counting_net 1%nat "http://a.org" 0%Q "/private"); reflexivity.
Qed.

Lemma robots_single_flight_witness :
  (fl_locks toy_flight !! "http://a.org" = Some 1%nat /\ forall t, loading t "http://a.org" toy_flight -> 1%nat = t) /\
  @origin_rules unit nat toy_protego no_redis counting_net toy_robots "http://a.org" "/private" /\
  exists s', @flight_step unit nat identity_lib toy_protego no_redis counting_net toy_loaded s'.
Proof.
  destruct (@robots_single_flight unit nat identity_lib toy_protego no_redis counting_net toy_robots
           toy_flight toy_flight_reachable) as (Hs & _).
  destruct (@robots_single_flight unit nat identity_lib toy_protego no_redis counting_net toy_robots
           toy_loaded toy_loaded_reachable) as (_ & _ & Hf & Hp).
  assert (loading 1%nat "http://a.org" toy_flight) as H1 by reflexivity. split; [split|split].
  - exact (proj2 (Hs 1%nat 1%nat "http://a.org" H1 H1)).
  - intros t Ht. exact (proj1 (Hs 1%nat t "http://a.org" H1 Ht)).
  - exact (Hf 1%nat "http://a.org" (Some "/private") eq_refl).
  - apply (Hp 2%nat "http://a.org" (@Waiting toy_protego)); [reflexivity|discriminate].
Defined.
