(* ===== verification/Gates.v ===== *)
(** * The gates around a fetch ([crawler/pipeline/pipeline.py])

    [async with gate, slot] in [process]: every task that fetches first takes one
    of the global permits ([Backpressure]), then one of its host's ([Robots]),
    waits for the host's rate, fetches, and gives both back, also when it is
    cancelled or raises on the way.  Many tasks do so at once; either gate may be
    absent (a null context).

    [gates_drain]: no schedule leaves the tasks waiting for each other, and what
    they took is given back.  [head_of_line]: a task that only waits for its host
    holds a global permit. *)
From S2P Require Import Prelude PyStr Config Lru UrlUtils Robots Backpressure.
Local Open Scope Z_scope.

(** ** Counting tasks *)
Section Count.
Context {A : Type}.
Definition count_tasks (P : A -> bool) (m : gmap nat A) : Z := Z.of_nat (size (filter (fun kv => P kv.2 = true) m)).
Lemma count_insert P t x m : m !! t = None -> count_tasks P (<[t := x]> m) = count_tasks P m + Z.b2z (P x).
Proof.
  intros Hm. unfold count_tasks. rewrite map_filter_insert. cbn. destruct (P x); cbn [Z.b2z].
  - rewrite decide_True by done. rewrite map_size_insert_None by (rewrite map_lookup_filter_None; by left). lia.
  - rewrite decide_False by done. rewrite delete_id by done. lia.
Qed.
Lemma count_delete P t x m : m !! t = Some x -> count_tasks P (delete t m) = count_tasks P m - Z.b2z (P x).
Proof. intros Hm. rewrite <- (insert_delete_id m t x Hm) at 2. rewrite count_insert by apply lookup_delete_eq. lia. Qed.
Lemma count_update P t x y m : m !! t = Some x -> count_tasks P (<[t := y]> m) = count_tasks P m - Z.b2z (P x) + Z.b2z (P y).
Proof. intros Hm. rewrite <- insert_delete_eq, count_insert by apply lookup_delete_eq. by rewrite (count_delete P t x). Qed.
Lemma count_empty P : count_tasks P ∅ = 0.
Proof. done. Qed.
Lemma count_nonneg P m : 0 <= count_tasks P m.
Proof. unfold count_tasks. lia. Qed.
Lemma count_pos P m : 0 < count_tasks P m <-> exists t x, m !! t = Some x /\ P x = true.
Proof.
  unfold count_tasks. split.
  - intros Hs. destruct (map_choose (filter (fun kv => P kv.2 = true) m)) as (t & x & Hx).
    { intros E. rewrite E, map_size_empty in Hs. done. }
    apply map_lookup_filter_Some in Hx as [Hx HP]. by exists t, x.
  - intros (t & x & Hx & HP). enough (size (filter (fun kv => P kv.2 = true) m) <> 0)%nat by lia.
    intros E%map_size_empty_inv. assert (filter (fun kv => P kv.2 = true) m !! t = Some x) as Hf by by apply map_lookup_filter_Some.
    rewrite E in Hf. done.
Qed.
Lemma count_mono (P Q : A -> bool) m : (forall x, P x = true -> Q x = true) -> count_tasks P m <= count_tasks Q m.
Proof.
  intros HPQ. induction m as [|t x m Hm IH] using map_ind; [done|]. rewrite !count_insert by done.
  specialize (HPQ x). destruct (P x), (Q x); cbn; lia.
Qed.
End Count.

Section Gates.
Context {R Net : Type} `{UrlLib, Protego, RedisStrings R, FetchText Net}.

(** Where a task is: at the global gate, at its host's, waiting for the host's
    rate with both permits, or fetching. *)
Inductive phase : Type := AtGate | AtSlot | InSlot | Fetching.
Record task : Type := mkTask { tk_url : string; tk_host : string; tk_phase : phase }.
Record gates : Type := mkGates { gt_pressure : option Backpressure; gt_po : option (Politeness R Net); gt_tasks : gmap nat task }.

(** The two context managers; [None]: the task has to wait. *)
Definition enter_gate (g : option Backpressure) : option (option Backpressure) :=
  match g with Some b => Some <$> aenter b | None => Some None end.
Definition exit_gate (g : option Backpressure) : option Backpressure := aexit <$> g.
Definition enter_slot (url : string) (po : option (Politeness R Net)) : option (option (Politeness R Net)) :=
  match po with
  | Some po => match slot_acquire url po with Ok (Some po') => Some (Some po') | _ => None end
  | None => Some None
  end.
Definition exit_slot (host : string) (po : option (Politeness R Net)) : option (Politeness R Net) := slot_release host <$> po.
Definition at_rate (now : nat -> Q) (url : string) (po : option (Politeness R Net)) : option (Politeness R Net) :=
  (fun po => snd (slot_rate now url po)) <$> po.

Inductive label : Type := Arrives | Moves | Leaves.
Inductive gate_step : label -> gates -> gates -> Prop :=
| gate_arrive t url host g po ts : ts !! t = None -> host_of url = Ok host ->
    gate_step Arrives (mkGates g po ts) (mkGates g po (<[t := mkTask url host AtGate]> ts))
| gate_enter t url host g g' po ts : ts !! t = Some (mkTask url host AtGate) -> enter_gate g = Some g' ->
    gate_step Moves (mkGates g po ts) (mkGates g' po (<[t := mkTask url host AtSlot]> ts))
| gate_slot_enter t url host g po po' ts : ts !! t = Some (mkTask url host AtSlot) -> enter_slot url po = Some po' ->
    gate_step Moves (mkGates g po ts) (mkGates g po' (<[t := mkTask url host InSlot]> ts))
| gate_rated t now url host g po ts : ts !! t = Some (mkTask url host InSlot) ->
    gate_step Moves (mkGates g po ts) (mkGates g (at_rate now url po) (<[t := mkTask url host Fetching]> ts))
| gate_fetched t url host g po ts : ts !! t = Some (mkTask url host Fetching) ->
    gate_step Moves (mkGates g po ts) (mkGates (exit_gate g) (exit_slot host po) (delete t ts))
(* cancelled, or an exception: what is held is given back *)
| gate_leave_gate t url host g po ts : ts !! t = Some (mkTask url host AtGate) ->
    gate_step Leaves (mkGates g po ts) (mkGates g po (delete t ts))
| gate_leave_slot t url host g po ts : ts !! t = Some (mkTask url host AtSlot) ->
    gate_step Leaves (mkGates g po ts) (mkGates (exit_gate g) po (delete t ts))
| gate_leave_both t url host ph g po ts : ts !! t = Some (mkTask url host ph) -> ph = InSlot \/ ph = Fetching ->
    gate_step Leaves (mkGates g po ts) (mkGates (exit_gate g) (exit_slot host po) (delete t ts)).

(** ** Permits *)

Definition past_gate (x : task) : bool := match tk_phase x with AtGate => false | _ => true end.
Definition in_slot (x : task) : bool := match tk_phase x with InSlot | Fetching => true | _ => false end.
Definition of_host (host : string) (x : task) : bool := in_slot x && bool_decide (tk_host x = host).
(** The free permits and the [c] that are held add up. *)
Definition gate_ok (n c : Z) (g : option Backpressure) : Prop :=
  forall b, g = Some b -> limit b = n /\ 0 <= sem_value b /\ sem_value b + c = n.
Definition slot_ok (k : Z) (c : string -> Z) (po : option (Politeness R Net)) : Prop :=
  forall p, po = Some p -> per_host_concurrency (fetch (po_settings p)) = k /\ forall h, 0 <= semaphore h p /\ semaphore h p + c h = k.

Lemma gate_ok_enter n c g g' : gate_ok n c g -> enter_gate g = Some g' -> gate_ok n (c + 1) g'.
Proof.
  intros Hg. unfold enter_gate, aenter. destruct g as [b|]; [|by intros [= <-]].
  destruct (Z.ltb_spec 0 (sem_value b)); [|done]. intros [= <-] b' [= <-]. destruct (Hg b eq_refl) as (? & ? & ?). cbn. lia.
Qed.
Lemma gate_ok_exit n c g : gate_ok n c g -> gate_ok n (c - 1) (exit_gate g).
Proof. intros Hg. destruct g as [b|]; [|done]. intros b' [= <-]. destruct (Hg b eq_refl) as (? & ? & ?). cbn. lia. Qed.
Lemma gate_ok_eq n c c' g : c = c' -> gate_ok n c g -> gate_ok n c' g.
Proof. by intros ->. Qed.
Lemma slot_ok_ext k c c' po : (forall h, c h = c' h) -> slot_ok k c po -> slot_ok k c' po.
Proof. intros Hc Ho p Ep. destruct (Ho p Ep) as [Hk Hh]. split; [done|]. intros h. by rewrite <- Hc. Qed.
Lemma slot_ok_set k c host n (p : Politeness R Net) (d : Z) : slot_ok k c (Some p) -> 0 <= n -> n = semaphore host p - d ->
  slot_ok k (fun h => c h + if bool_decide (host = h) then d else 0) (Some (set_semaphore host n p)).
Proof.
  intros Ho Hn En p' [= <-]. destruct (Ho p eq_refl) as [Hk Hh]. split; [done|]. intros h. rewrite semaphore_set. specialize (Hh h).
  destruct (decide (h = host)) as [->|Hne]; [rewrite bool_decide_true by done; lia|rewrite bool_decide_eq_false_2 by congruence; lia].
Qed.
Lemma slot_ok_enter k c url host po po' : host_of url = Ok host -> slot_ok k c po -> enter_slot url po = Some po' ->
  slot_ok k (fun h => c h + if bool_decide (host = h) then 1 else 0) po'.
Proof.
  intros Hh Ho. unfold enter_slot, slot_acquire. destruct po as [p|]; [|by intros [= <-]]. rewrite Hh. cbn [rbind].
  destruct (Z.ltb_spec 0 (semaphore host p)); [|done]. intros [= <-]. apply slot_ok_set; [done|lia|lia].
Qed.
Lemma slot_ok_exit k c host po : slot_ok k c po -> slot_ok k (fun h => c h + if bool_decide (host = h) then - (1) else 0) (exit_slot host po).
Proof.
  intros Ho. destruct po as [p|]; [|done]. cbn. unfold slot_release. apply slot_ok_set; [done| |lia].
  destruct (Ho p eq_refl) as [_ Hh]. specialize (Hh host). lia.
Qed.
Lemma slot_ok_rate k c now url po : slot_ok k c po -> slot_ok k c (at_rate now url po).
Proof.
  intros Ho. destruct po as [p|]; [|done]. intros p' [= <-]. destruct (Ho p eq_refl) as [Hk Hh].
  destruct (slot_rate_same now url p) as [Es Ep]. rewrite Es. split; [done|]. intros h. specialize (Hh h). unfold semaphore in *. by rewrite Es, Ep.
Qed.

Record gates_inv (n k : Z) (s : gates) : Prop := {
  gi_gate : gate_ok n (count_tasks past_gate (gt_tasks s)) (gt_pressure s);
  gi_slot : slot_ok k (fun h => count_tasks (of_host h) (gt_tasks s)) (gt_po s);
  gi_host t x : gt_tasks s !! t = Some x -> host_of (tk_url x) = Ok (tk_host x) }.

Lemma host_insert (ts : gmap nat task) t x : host_of (tk_url x) = Ok (tk_host x) ->
  (forall t x, ts !! t = Some x -> host_of (tk_url x) = Ok (tk_host x)) ->
  forall t' x', <[t := x]> ts !! t' = Some x' -> host_of (tk_url x') = Ok (tk_host x').
Proof. intros Hx Hh t' x' [[<- <-]|[_ Ht]]%lookup_insert_Some; [done|]. by eapply Hh. Qed.
Lemma host_delete (ts : gmap nat task) t :
  (forall t x, ts !! t = Some x -> host_of (tk_url x) = Ok (tk_host x)) ->
  forall t' x', delete t ts !! t' = Some x' -> host_of (tk_url x') = Ok (tk_host x').
Proof. intros Hh t' x' [_ Ht]%lookup_delete_Some. by eapply Hh. Qed.

(** The counts after a step. *)
Ltac recount Ht :=
  first [rewrite (count_update _ _ _ _ _ Ht) | rewrite (count_delete _ _ _ _ Ht) | rewrite (count_insert _ _ _ _ Ht)];
  unfold of_host; cbn [past_gate in_slot tk_phase tk_host andb Z.b2z]; repeat case_bool_decide; cbn [Z.b2z]; try lia; try congruence.

Lemma gate_step_inv n k l s s' : gates_inv n k s -> gate_step l s s' -> gates_inv n k s'.
Proof.
  intros [Hg Hp Hh] Hs. destruct Hs as [t url host g po ts Ht Hu|t url host g g' po ts Ht He|t url host g po po' ts Ht He|
    t now url host g po ts Ht|t url host g po ts Ht|t url host g po ts Ht|t url host g po ts Ht|t url host ph g po ts Ht Hph];
    [..|destruct Hph as [-> | ->]]; cbn [gt_pressure gt_po gt_tasks] in *; try pose proof (Hh _ _ Ht) as Hhost; cbn [tk_url tk_host] in *.
  all: split; cbn [gt_pressure gt_po gt_tasks]; [| |by first [apply host_insert|apply host_delete]].
  all: first
    [ eapply gate_ok_eq; [|first [exact Hg|eapply gate_ok_enter; [exact Hg|exact He]|apply gate_ok_exit; exact Hg]]
    | eapply slot_ok_ext; [|first [exact Hp|eapply slot_ok_enter; [exact Hhost|exact Hp|exact He]|apply slot_ok_rate; exact Hp
        |apply slot_ok_exit; exact Hp]]; intros h; cbn beta ]; recount Ht.
Qed.

(** ** Progress *)

(** The moves the tasks still have to make: four from the gate on. *)
Definition work_left (s : gates) : Z :=
  count_tasks (fun _ => true) (gt_tasks s) +
  count_tasks (fun x => match tk_phase x with Fetching => false | _ => true end) (gt_tasks s) +
  count_tasks (fun x => negb (in_slot x)) (gt_tasks s) + count_tasks (fun x => negb (past_gate x)) (gt_tasks s).
Lemma work_left_step l s s' : gate_step l s s' -> l <> Arrives -> work_left s' < work_left s.
Proof.
  intros Hs Hl. destruct Hs as [|t url host g g' po ts Ht He|t url host g po po' ts Ht He|
    t now url host g po ts Ht|t url host g po ts Ht|t url host g po ts Ht|t url host g po ts Ht|t url host ph g po ts Ht Hph]; [done|..].
  all: unfold work_left; cbn [gt_tasks];
    first [rewrite !(count_update _ _ _ _ _ Ht) | rewrite !(count_delete _ _ _ _ Ht)]; unfold in_slot, past_gate; cbn [tk_phase negb Z.b2z]; try lia.
  destruct Hph as [-> | ->]; cbn [negb Z.b2z]; lia.
Qed.
Lemma work_left_bound s : 0 <= work_left s <= 4 * Z.of_nat (size (gt_tasks s)).
Proof.
  assert (forall P, count_tasks P (gt_tasks s) <= Z.of_nat (size (gt_tasks s))) as Hb.
  { intros P. etrans; [apply (count_mono P (fun _ => true)); done|]. unfold count_tasks. rewrite map_filter_id; [done|]. by intros. }
  unfold work_left. pose proof (Hb (fun _ => true)). pose proof (Hb (fun x => match tk_phase x with Fetching => false | _ => true end)).
  pose proof (Hb (fun x => negb (in_slot x))). pose proof (Hb (fun x => negb (past_gate x))).
  pose proof (fun P => count_nonneg P (gt_tasks s)) as Hn. pose proof (Hn (fun _ => true)).
  pose proof (Hn (fun x => match tk_phase x with Fetching => false | _ => true end)).
  pose proof (Hn (fun x => negb (in_slot x))). pose proof (Hn (fun x => negb (past_gate x))). lia.
Qed.

Lemma count_none {A} (P : A -> bool) (m : gmap nat A) : (forall t x, m !! t = Some x -> P x = false) -> count_tasks P m = 0.
Proof.
  intros Hn. pose proof (count_nonneg P m). destruct (decide (0 < count_tasks P m)) as [(t & x & Hx & HP)%count_pos|]; [|lia].
  by rewrite (Hn t x Hx) in HP.
Qed.
Lemma gates_progress n k s : gates_inv n k s -> 0 < n -> 0 < k -> gt_tasks s <> ∅ -> exists s', gate_step Moves s s'.
Proof.
  intros [Hg Hp Hh] Hn Hk Hne. destruct s as [g po ts]. cbn [gt_pressure gt_po gt_tasks] in *.
  destruct (decide (0 < count_tasks in_slot ts)) as [(t & [url host ph] & Ht & Hx)%count_pos|Hslot].
  { destruct ph; try done; [by eexists; eapply (gate_rated t (fun _ => 0%Q))|by eexists; eapply gate_fetched]. }
  assert (forall t x, ts !! t = Some x -> in_slot x = false) as Hout.
  { intros t x Hx. destruct (in_slot x) eqn:E; [|done]. destruct Hslot. apply count_pos. by exists t, x. }
  destruct (decide (0 < count_tasks past_gate ts)) as [(t & [url host ph] & Ht & Hx)%count_pos|Hgate].
  - pose proof (Hout _ _ Ht) as Ho. destruct ph; try done. pose proof (Hh _ _ Ht) as Hhost. cbn in Hhost.
    assert (is_Some (enter_slot url po)) as [po' He]; [|by eexists; eapply gate_slot_enter].
    unfold enter_slot, slot_acquire. destruct po as [p|]; [|by eexists]. rewrite Hhost. cbn [rbind].
    destruct (Hp p eq_refl) as [_ Hs]. specialize (Hs host). rewrite count_none in Hs.
    + destruct (Z.ltb_spec 0 (semaphore host p)); [by eexists|lia].
    + intros t' x Hx'. unfold of_host. by rewrite (Hout _ _ Hx').
  - destruct (map_choose ts Hne) as (t & [url host ph] & Ht). assert (ph = AtGate) as ->.
    { destruct ph; [done|..]; destruct Hgate; apply count_pos; by eexists _, _. }
    assert (is_Some (enter_gate g)) as [g' He]; [|by eexists; eapply gate_enter].
    unfold enter_gate, aenter. destruct g as [b|]; [|by eexists]. destruct (Hg b eq_refl) as (_ & _ & Hsum).
    rewrite count_none in Hsum; [destruct (Z.ltb_spec 0 (sem_value b)); [by eexists|lia]|].
    intros t' x Hx. destruct (past_gate x) eqn:E; [|done]. destruct Hgate. apply count_pos. by exists t', x.
Qed.

Definition any_step (s s' : gates) : Prop := exists l, gate_step l s s'.
Definition settling (s s' : gates) : Prop := exists l, l <> Arrives /\ gate_step l s s'.

(** C27: the tasks get through the gates.  Whatever arrived, moved, was cancelled
    or raised before, as long as a task is left some task can move; once no more
    arrive, the tasks make at most four moves each, whatever the schedule, and
    then all of them are gone; when all are gone every permit is free again.
    Meanwhile at most [limit] tasks are past the global gate and at most
    [per_host_concurrency] at one host. *)
Theorem gates_drain g po s :
  (forall b, g = Some b -> new_backpressure (limit b) = Ok b) ->
  (forall p, po = Some p -> po_semaphores p = ∅ /\ 0 < per_host_concurrency (fetch (po_settings p))) ->
  rtc any_step (mkGates g po ∅) s ->
  (gt_tasks s <> ∅ -> exists s', gate_step Moves s s') /\
  (forall j s', nsteps settling j s s' -> Z.of_nat j <= 4 * Z.of_nat (size (gt_tasks s))) /\
  (exists s', rtc (gate_step Moves) s s' /\ gt_tasks s' = ∅) /\
  (forall b, gt_pressure s = Some b -> count_tasks past_gate (gt_tasks s) <= limit b /\ (gt_tasks s = ∅ -> sem_value b = limit b)) /\
  (forall p host, gt_po s = Some p -> count_tasks (of_host host) (gt_tasks s) <= per_host_concurrency (fetch (po_settings p)) /\
     (gt_tasks s = ∅ -> semaphore host p = per_host_concurrency (fetch (po_settings p)))).
Proof.
  intros Hb Hp Hr. set (n := match g with Some b => limit b | None => 1 end).
  set (k := match po with Some p => per_host_concurrency (fetch (po_settings p)) | None => 1 end).
  assert (0 < n) as Hn.
  { unfold n. destruct g as [b|]; [|done]. specialize (Hb b eq_refl). unfold new_backpressure in Hb. destruct (Z.leb_spec (limit b) 0); [done|lia]. }
  assert (0 < k) as Hk by (unfold k; destruct po as [p|]; [by apply Hp|done]).
  assert (gates_inv n k s) as Hinv.
  { eapply rtc_invariant; [|exact Hr|]; [by intros x y Hx [l Hl]; eapply gate_step_inv|]. split; cbn [gt_pressure gt_po gt_tasks].
    - intros b ->. specialize (Hb b eq_refl). unfold new_backpressure in Hb. destruct (limit b <=? 0); [done|]. injection Hb as <-. subst n. rewrite count_empty. cbn in *. lia.
    - intros p ->. destruct (Hp p eq_refl) as [He _]. subst k. split; [done|]. intros h. unfold semaphore. rewrite He, lookup_empty, count_empty. cbn. subst. destruct (Hp p eq_refl). lia.
    - intros t x Hx. by rewrite lookup_empty in Hx. }
  assert (forall x, gates_inv n k x -> exists s', rtc (gate_step Moves) x s' /\ gt_tasks s' = ∅) as Hdone.
  { intros x. induction x as [x IH] using (well_founded_induction (well_founded_ltof _ (fun x => Z.to_nat (work_left x)))). intros Hx.
    destruct (decide (gt_tasks x = ∅)) as [He|Hne]; [by exists x|]. destruct (gates_progress n k x Hx Hn Hk Hne) as [y Hy].
    pose proof (work_left_step _ _ _ Hy ltac:(done)). pose proof (work_left_bound y).
    destruct (IH y) as (s' & Hs' & He); [unfold ltof; lia|by eapply gate_step_inv|]. exists s'. split; [by eapply rtc_l|done]. }
  pose proof Hinv as [Hig Hip Hih]. split_and!.
  - by apply (gates_progress n k).
  - intros j s' Hj. etrans; [|apply work_left_bound]. clear -Hj. induction Hj as [x|j x y z (l & Hl & Hs) _ IH].
    + apply work_left_bound.
    + pose proof (work_left_step _ _ _ Hs Hl). lia.
  - by apply Hdone.
  - intros b Eb. destruct (Hig b Eb) as (-> & ? & Hsum). split; [lia|]. intros He. rewrite He, count_empty in Hsum. lia.
  - intros p host Ep. destruct (Hip p Ep) as (-> & Hs). specialize (Hs host). split; [lia|]. intros He. rewrite He, count_empty in Hs. lia.
Qed.
End Gates.

(** ** Concrete instances *)
#[local] Existing Instances identity_lib toy_protego no_redis counting_net.
Abbreviation toy_gates := (@gates unit nat toy_protego).
Abbreviation toy_any := (@any_step unit nat identity_lib toy_protego no_redis counting_net).
Definition three_permits : Backpressure := mkPressure 3 3.
Definition at_a : string := "http://a.org/".
Definition task_a (ph : phase) : task := mkTask at_a "a.org" ph.

(** Three tasks of one host, two of them fetching, and one of another host. *)
Definition crowded : toy_gates :=
  mkGates (Some (mkPressure 3 0)) (at_rate (fun _ => 0%Q) at_a (at_rate (fun _ => 0%Q) at_a
      (Some (set_semaphore "a.org" 0 (set_semaphore "a.org" 1 toy_politeness)))))
    (<[4%nat := mkTask "http://b.org/" "b.org" AtGate]> (<[2%nat := task_a Fetching]> (<[1%nat := task_a Fetching]>
      (<[2%nat := task_a InSlot]> (<[1%nat := task_a InSlot]> (<[3%nat := task_a AtSlot]> (<[2%nat := task_a AtSlot]> (<[1%nat := task_a AtSlot]>
      (<[3%nat := task_a AtGate]> (<[2%nat := task_a AtGate]> (<[1%nat := task_a AtGate]> ∅))))))))))).
Lemma crowded_reachable : rtc toy_any (mkGates (Some three_permits) (Some toy_politeness) ∅) crowded.
Proof.
  eapply rtc_l; [exists Arrives; apply (gate_arrive 1 at_a "a.org"); reflexivity|].
  eapply rtc_l; [exists Arrives; apply (gate_arrive 2 at_a "a.org"); reflexivity|].
  eapply rtc_l; [exists Arrives; apply (gate_arrive 3 at_a "a.org"); reflexivity|].
  eapply rtc_l; [exists Moves; eapply (gate_enter 1 at_a "a.org"); reflexivity|].
  eapply rtc_l; [exists Moves; eapply (gate_enter 2 at_a "a.org"); reflexivity|].
  eapply rtc_l; [exists Moves; eapply (gate_enter 3 at_a "a.org"); reflexivity|].
  eapply rtc_l; [exists Moves; eapply (gate_slot_enter 1 at_a "a.org"); reflexivity|].
  eapply rtc_l; [exists Moves; eapply (gate_slot_enter 2 at_a "a.org"); reflexivity|].
  eapply rtc_l; [exists Moves; eapply (gate_rated 1 (fun _ => 0%Q) at_a "a.org"); reflexivity|].
  eapply rtc_l; [exists Moves; eapply (gate_rated 2 (fun _ => 0%Q) at_a "a.org"); reflexivity|].
  apply rtc_once. exists Arrives. apply (gate_arrive 4 "http://b.org/" "b.org"); reflexivity.
Qed.

(** Nobody is at the other host and all its permits are free, yet its task
    cannot start: the third task of the first host holds the last global permit
    while it waits for its host. *)
Example head_of_line : enter_gate (gt_pressure crowded) = None /\
  count_tasks (of_host "b.org") (gt_tasks crowded) = 0 /\ count_tasks in_slot (gt_tasks crowded) = 2 /\
  (semaphore "b.org" <$> gt_po crowded) = Some 2 /\ tk_phase <$> gt_tasks crowded !! 4%nat = Some AtGate.
Proof. vm_compute. done. Qed.

Lemma gates_drain_witness :
  (exists s', rtc (@gate_step unit nat identity_lib toy_protego no_redis counting_net Moves) crowded s' /\ gt_tasks s' = ∅) /\
  forall j s', nsteps (@settling unit nat identity_lib toy_protego no_redis counting_net) j crowded s' -> Z.of_nat j <= 16.
Proof.
  destruct (@gates_drain unit nat identity_lib toy_protego no_redis counting_net (Some three_permits) (Some toy_politeness) crowded)
    as (_ & Hj & Hd & _).
  - intros b E. injection E as <-. reflexivity.
  - intros p E. injection E as <-. split; reflexivity.
  - exact crowded_reachable.
  - split; [exact Hd|]. intros j s' Hr. exact (Hj j s' Hr).
Defined.
