(* ===== verification/Expiry.v ===== *)
(** * Keys that expire

    What the Redis keys' times to live change: the other files' results are for
    a server that keeps its keys.  A [Clocked] server has a clock and a deadline
    per key, and drops a key at its deadline; the classes [Expiring...] state
    what Redis documents for the commands the code uses.

    [bucket_expiry_invisible]: the rate limiter's buckets (one hour,
    [ratelimit/redis_limiter.py]) may expire unnoticed while a full refill takes
    no longer, and [lua_rate_bound] then bounds the requests of a host;
    [slow_host_forgotten] is a host for which it takes longer.
    [lsh_expiry_window]: what the near-duplicate index (seven days,
    [dedup/dedup_service.py]) still finds.  [robots_bounded_age]: how old the
    rules of a host can be ([robots/robots_cache.py]). *)
From S2P Require Import Prelude PyStr Config SimHash Dedup RateLimit Lru UrlUtils Robots.
Local Open Scope Z_scope.

(** A server's clock in milliseconds, the deadline of each key, and time
    passing. *)
Class Clocked (R : Type) := {
  server_ms : R -> Z;
  deadline : string -> R -> option Z;
  advance_to : Z -> R -> R }.
Definition gone `{Clocked R} (k : string) (t : Z) (r : R) : bool :=
  match deadline k r with Some d => d <=? t | None => false end.
Class ClockedLaws (R : Type) `{Clocked R} := {
  advance_ms t r : server_ms r <= t -> server_ms (advance_to t r) = t;
  advance_deadline k t r : server_ms r <= t -> deadline k (advance_to t r) = if gone k t r then None else deadline k r }.
(** What is read of a key is gone with the key. *)
Class Expires {R V : Type} `{Clocked R} (view : string -> R -> V) (absent : V) :=
  expires k t r : server_ms r <= t -> view k (advance_to t r) = if gone k t r then absent else view k r.

(** ** The rate limiter's buckets *)

(** HMGET, HSET and PEXPIRE: writing a field keeps the key's deadline. *)
Class ExpiringBuckets (R : Type) `{RedisBuckets R, Clocked R} := {
  eb_clock :: ClockedLaws R;
  eb_expires :: Expires hmget None;
  eb_hset k t ts r : hmget k (hset k t ts r) = Some (t, ts);
  eb_hset_ne k k' t ts r : k <> k' -> hmget k (hset k' t ts r) = hmget k r;
  eb_hset_deadline k k' t ts r : deadline k (hset k' t ts r) = deadline k r;
  eb_hset_ms k t ts r : server_ms (hset k t ts r) = server_ms r;
  eb_pexpire k k' ms r : 0 < ms -> hmget k (pexpire k' ms r) = hmget k r;
  eb_pexpire_deadline k k' ms r : 0 < ms -> hmget k' r <> None ->
    deadline k (pexpire k' ms r) = if bool_decide (k = k') then Some (server_ms r + ms) else deadline k r;
  eb_pexpire_ms k ms r : server_ms (pexpire k ms r) = server_ms r }.

(** The script up to its writes: the tokens left and the answer. *)
Definition bucket_answer (c rate : Q) (now_ms : Z) (stored : option (Q * Z)) : Q * Z * Z :=
  let '(tokens, ts) := default (c, now_ms) stored in
  let tokens := refill c tokens (inject_Z (Z.max 0 (now_ms - ts)) / 1000) rate in
  if Qle_bool 1 tokens then ((tokens - 1)%Q, 1, 0)
  else (tokens, 0, py_ceil ((1 - tokens) / rate * 1000)).

Lemma token_bucket_eq `{RedisBuckets R} key c rate now_ms ttl (r : R) :
  token_bucket key c rate now_ms 1 ttl r =
  let '(tokens, allowed, wait) := bucket_answer c rate now_ms (hmget key r) in
  (allowed, wait, pexpire key ttl (hset key tokens now_ms r)).
Proof. unfold token_bucket, bucket_answer. destruct (default _ _) as [tok ts]. by destruct (Qle_bool 1 _). Qed.

(** Calls of the script at the times of their clock readings; [tick] is what
    the time that passes does to the server. *)
Section Answers.
Context `{RedisBuckets R}.
Variable tick : Z -> R -> R.
Fixpoint run_answers (c : Q) (ttl : Z) (cs : list call) (r : R) : list (Z * Z) :=
  match cs with
  | [] => []
  | x :: cs' =>
      let '(allowed, wait, r') := token_bucket (cl_key x) c (cl_rate x) (cl_now x) 1 ttl (tick (cl_now x) r) in
      (allowed, wait) :: run_answers c ttl cs' r'
  end.
End Answers.

(** The clocks agree and do not go back; an empty bucket of every rate refills
    within the time to live. *)
Fixpoint refills_in_time (c : Q) (ttl : Z) (t : Z) (cs : list call) : Prop :=
  match cs with
  | [] => True
  | x :: cs' => t <= cl_now x /\ (0 <= cl_rate x)%Q /\ (c <= inject_Z ttl / 1000 * cl_rate x)%Q /\ refills_in_time c ttl (cl_now x) cs'
  end.

Section BucketExpiry.
Context {R P : Type} `{ExpiringBuckets R, RedisBucketsLaws P}.

(** A bucket that has expired is one that would be full. *)
Definition forgets (ttl : Z) (k : string) (r : R) (p : P) : Prop :=
  (hmget k r = hmget k p /\ forall tok ts, hmget k p = Some (tok, ts) -> (0 <= tok)%Q /\ deadline k r = Some (ts + ttl) /\ ts <= server_ms r) \/
  (hmget k r = None /\ exists tok ts, hmget k p = Some (tok, ts) /\ (0 <= tok)%Q /\ ts + ttl <= server_ms r).

Lemma forgets_advance ttl k t (r : R) (p : P) : server_ms r <= t -> forgets ttl k r p -> forgets ttl k (advance_to t r) p.
Proof.
  intros Ht Hf. unfold forgets. rewrite (expires k t r Ht), (advance_ms t r Ht), (advance_deadline k t r Ht). unfold gone.
  destruct Hf as [[E Hk]|(E & tok & ts & Ep & Htok & Hts)].
  - destruct (hmget k p) as [[tok ts]|] eqn:Ep.
    + destruct (Hk tok ts eq_refl) as (Htok & Hd & Hts). rewrite Hd. destruct (Z.leb_spec (ts + ttl) t).
      * right. split; [done|]. by exists tok, ts.
      * left. split; [done|]. intros ?? [= <- <-]. split_and!; [done|done|lia].
    + left. split; [|done]. rewrite E. by destruct (match deadline k r with Some d => d <=? t | None => false end).
  - right. rewrite E. split; [by destruct (match deadline k r with Some d => d <=? t | None => false end)|].
    exists tok, ts. split_and!; [done|done|lia].
Qed.

Lemma bucket_answer_full c rate now_ms tok ts ttl : (0 <= c)%Q -> (0 <= rate)%Q -> (0 <= tok)%Q ->
  (c <= inject_Z ttl / 1000 * rate)%Q -> ts + ttl <= now_ms -> ts <= now_ms ->
  bucket_answer c rate now_ms (Some (tok, ts)) = bucket_answer c rate now_ms None.
Proof.
  intros Hc Hr Htok Hfull Hts Hle. unfold bucket_answer. cbn [default from_option id].
  assert (refill c tok (inject_Z (Z.max 0 (now_ms - ts)) / 1000) rate = c) as ->.
  { unfold refill. assert (c <= tok + inject_Z (Z.max 0 (now_ms - ts)) / 1000 * rate)%Q; [|qsolve].
    rewrite Z.max_r by lia. pose proof (seconds_le ttl (now_ms - ts) ltac:(lia)) as Hs. unfold seconds in Hs.
    assert (inject_Z ttl / 1000 * rate <= inject_Z (now_ms - ts) / 1000 * rate)%Q by (by apply Qmult_le_compat_r). lra. }
  assert (refill c c (inject_Z (Z.max 0 (now_ms - now_ms)) / 1000) rate = c) as ->; [|done].
  unfold refill. rewrite Z.sub_diag. change (inject_Z (Z.max 0 0) / 1000)%Q with (0 # 1000)%Q. qsolve.
Qed.

Lemma bucket_answer_nonneg c rate now_ms stored : (0 <= c)%Q -> (0 <= rate)%Q ->
  (forall tok ts, stored = Some (tok, ts) -> (0 <= tok)%Q) -> (0 <= fst (fst (bucket_answer c rate now_ms stored)))%Q.
Proof.
  intros Hc Hr Hs. unfold bucket_answer. destruct (default (c, now_ms) stored) as [tok ts] eqn:Ed.
  assert (0 <= tok)%Q as Htok.
  { destruct stored as [[? ?]|]; cbn in Ed; injection Ed as <- <-; [by eapply Hs|done]. }
  set (e := (inject_Z (Z.max 0 (now_ms - ts)) / 1000)%Q).
  assert (0 <= e)%Q by (apply (seconds_nonneg (Z.max 0 (now_ms - ts))); lia).
  pose proof (refill_nonneg c tok e rate Hc Htok ltac:(done) Hr).
  destruct (Qleb_spec 1 (refill c tok e rate)); cbn; lra.
Qed.

(** A call of the script on both servers, seen from the bucket [k]. *)
Lemma bucket_step c ttl k x (r : R) (p : P) : (0 <= c)%Q -> 0 < ttl -> server_ms r <= cl_now x -> forgets ttl k r p ->
  (cl_key x = k -> (0 <= cl_rate x)%Q /\ (c <= inject_Z ttl / 1000 * cl_rate x)%Q) ->
  let '(a, w, r') := token_bucket (cl_key x) c (cl_rate x) (cl_now x) 1 ttl (advance_to (cl_now x) r) in
  let '(a', w', p') := token_bucket (cl_key x) c (cl_rate x) (cl_now x) 1 ttl p in
  (cl_key x = k -> a = a' /\ w = w') /\ forgets ttl k r' p' /\ server_ms r' = cl_now x.
Proof.
  intros Hc Ht Hnow Hf Hrate. rewrite !token_bucket_eq. apply (forgets_advance ttl k (cl_now x)) in Hf; [|done].
  pose proof (advance_ms (cl_now x) r Hnow) as Hms. set (r1 := advance_to (cl_now x) r) in *.
  destruct (decide (cl_key x = k)) as [Ek|Hne].
  - destruct (Hrate Ek) as [Hr Hfull]. clear Hrate. subst k.
    assert (bucket_answer c (cl_rate x) (cl_now x) (hmget (cl_key x) r1) = bucket_answer c (cl_rate x) (cl_now x) (hmget (cl_key x) p)
      /\ (0 <= fst (fst (bucket_answer c (cl_rate x) (cl_now x) (hmget (cl_key x) p))))%Q) as [-> Hnn].
    { destruct Hf as [[-> Hk]|(-> & tok & ts & -> & Htok & Hts)].
      - split; [done|]. apply bucket_answer_nonneg; [done..|]. intros tok ts E. by destruct (Hk tok ts E) as (? & _).
      - rewrite (bucket_answer_full c (cl_rate x) (cl_now x) tok ts ttl) by (done || lia).
        split; [done|]. by apply bucket_answer_nonneg. }
    destruct (bucket_answer _ _ _ (hmget (cl_key x) p)) as [[tokens allowed] wait]. cbn [fst] in Hnn. split; [done|].
    split; [|by rewrite eb_pexpire_ms, eb_hset_ms]. left. rewrite eb_pexpire, hmget_pexpire, eb_hset, hmget_hset by done. split; [done|].
    intros tok ts [= <- <-]. rewrite eb_pexpire_deadline, bool_decide_eq_true_2, eb_pexpire_ms, !eb_hset_ms, Hms by (done || by rewrite eb_hset).
    split_and!; [done|done|lia].
  - destruct (bucket_answer _ _ _ (hmget (cl_key x) r1)) as [[tk al] wt], (bucket_answer _ _ _ (hmget (cl_key x) p)) as [[tk' al'] wt'].
    split; [done|]. split; [|by rewrite eb_pexpire_ms, eb_hset_ms]. unfold forgets.
    rewrite eb_pexpire, hmget_pexpire, eb_hset_ne, hmget_hset_ne by done.
    rewrite eb_pexpire_deadline by (done || by rewrite eb_hset). rewrite bool_decide_eq_false_2 by done.
    by rewrite eb_pexpire_ms, eb_hset_ms, eb_hset_deadline.
Qed.

(** The calls of a bucket whose rates refill it within the time to live are
    granted alike, whatever the other buckets do. *)
Definition granted (answers : list (Z * Z)) : list bool := (fun a => fst a =? 1) <$> answers.
Lemma grants_alike c ttl k rmax t0 t1 cs (r : R) (p : P) : (0 <= c)%Q -> 0 < ttl -> server_ms r <= t0 -> calls_timed k rmax t0 t1 cs ->
  (forall x, x ∈ cs -> cl_key x = k -> (c <= inject_Z ttl / 1000 * cl_rate x)%Q) -> forgets ttl k r p ->
  call_grants k cs (granted (run_answers advance_to c ttl cs r)) = call_grants k cs (fst (run_calls c ttl cs p)).
Proof.
  intros Hc Ht. revert t0 r p. induction cs as [|x cs IH]; intros t0 r p Hms Htimed Hfull Hf; [done|].
  destruct Htimed as (Hx & Hrate & Htimed). cbn [run_answers run_calls].
  pose proof (bucket_step c ttl k x r p Hc Ht ltac:(lia) Hf) as Hstep.
  destruct (token_bucket (cl_key x) c (cl_rate x) (cl_now x) 1 ttl (advance_to (cl_now x) r)) as [[a w] r'].
  destruct (token_bucket (cl_key x) c (cl_rate x) (cl_now x) 1 ttl p) as [[a' w'] p'].
  destruct Hstep as (Ha & Hf' & Hms'). { intros Ek. split; [apply (Hrate Ek)|]. apply Hfull; [left|done]. }
  specialize (IH (cl_now x) r' p' ltac:(lia) Htimed (fun y Hy => Hfull y ltac:(by right)) Hf').
  destruct (run_calls c ttl cs p') as [bs p2]. cbn [fst] in IH |- *. cbn [granted fmap list_fmap fst call_grants].
  fold (granted (run_answers advance_to c ttl cs r')). rewrite IH. f_equal.
  case_bool_decide as Ek; [|by rewrite !andb_false_r]. by destruct (Ha Ek) as [-> _].
Qed.

(** C32: The buckets may expire unnoticed.  When the workers' clocks agree with
    the server's and do not go back, and an empty bucket is full again within
    the time to live, the server that drops the buckets at their deadlines
    answers every call of the script as one that keeps them for ever. *)
Theorem bucket_expiry_invisible c ttl cs (r : R) (p : P) : (0 <= c)%Q -> 0 < ttl ->
  (forall k, hmget k r = None) -> (forall k, hmget k p = None) -> refills_in_time c ttl (server_ms r) cs ->
  run_answers advance_to c ttl cs r = run_answers (fun _ p => p) c ttl cs p.
Proof.
  intros Hc Ht Hr Hp. assert (forall k, forgets ttl k r p) as Hf.
  { intros k. left. rewrite Hr, Hp. by split. }
  clear Hr Hp. revert r p Hf. induction cs as [|x cs IH]; intros r p Hf; [done|]. intros (Hnow & Hrate & Hfull & Hcs).
  cbn [run_answers]. pose proof (fun k => bucket_step c ttl k x r p Hc Ht Hnow (Hf k) (fun _ => conj Hrate Hfull)) as Hstep.
  destruct (token_bucket (cl_key x) c (cl_rate x) (cl_now x) 1 ttl (advance_to (cl_now x) r)) as [[a w] r'].
  destruct (token_bucket (cl_key x) c (cl_rate x) (cl_now x) 1 ttl p) as [[a' w'] p'].
  destruct (Hstep (cl_key x)) as (Ha & _ & Hms). destruct (Ha eq_refl) as [-> ->]. f_equal. apply IH; [|by rewrite Hms].
  intros k. apply (Hstep k).
Qed.

End BucketExpiry.

(** C31: politeness of the shared bucket, on a server that drops the keys at
    their deadlines: whichever workers call the script and for whichever hosts,
    if the clock readings agree with the server's, lie in [t0, t1] milliseconds
    and never go back, and the rates of the key refill an empty bucket within
    the time to live, at most [capacity + rmax * (t1 - t0) / 1000] of the key's
    requests are granted on a fresh key; the other keys may expire. *)
Theorem lua_rate_bound {R : Type} `{ExpiringBuckets R} k c rmax t0 t1 cs ttl (r : R) :
  hmget k r = None -> server_ms r <= t0 -> (0 <= c)%Q -> 0 < ttl -> (0 <= rmax)%Q -> calls_timed k rmax t0 t1 cs ->
  (forall x, x ∈ cs -> cl_key x = k -> (c <= inject_Z ttl / 1000 * cl_rate x)%Q) ->
  (inject_Z (call_grants k cs (granted (run_answers advance_to c ttl cs r))) <= c + rmax * (seconds t1 - seconds t0))%Q.
Proof.
  intros Hn Hms Hc Ht Hr Htimed Hfull.
  rewrite (grants_alike (H2 := map_buckets) (H3 := map_buckets_laws) c ttl k rmax t0 t1 cs r ∅ Hc Ht Hms Htimed Hfull).
  - eapply (call_grants_bound (H0 := map_buckets_laws)); [done..| |done]. right. split_and!; [done|apply Qeq_refl|done].
  - left. rewrite Hn. by split.
Qed.

(** ** The near-duplicate index *)

(** SMEMBERS, SADD and EXPIRE: adding a member keeps the set's deadline. *)
Class ExpiringSets (R : Type) `{RedisSets R, Clocked R} := {
  es_clock :: ClockedLaws R;
  es_expires :: Expires smembers [];
  es_sadd k m r x : x ∈ smembers k (sadd k m r) <-> x = m \/ x ∈ smembers k r;
  es_sadd_ne k k' m r : k <> k' -> smembers k (sadd k' m r) = smembers k r;
  es_sadd_deadline k k' m r : deadline k (sadd k' m r) = deadline k r;
  es_sadd_ms k m r : server_ms (sadd k m r) = server_ms r;
  es_expire k k' t r : 0 < t -> smembers k (expire k' t r) = smembers k r;
  es_expire_deadline k k' t r : 0 < t -> smembers k' r <> [] ->
    deadline k (expire k' t r) = if bool_decide (k = k') then Some (server_ms r + 1000 * t) else deadline k r;
  es_expire_ms k t r : server_ms (expire k t r) = server_ms r }.

Section LshExpiry.
Context {R : Type} `{ExpiringSets R}.
Variable d : RedisContentDedup.
Hypothesis Hbands : 0 < rd_bands d.
Hypothesis Hbits : 0 <= rd_bits d.
Hypothesis Hthreshold : rd_threshold d < rd_bands d.
Hypothesis Httl : 0 < rd_ttl_seconds d.

(** Calls of [is_duplicate], each at its time. *)
Fixpoint run_clocked (calls : list (Z * Z)) (r : R) : result (list bool) :=
  match calls with
  | [] => Ok []
  | (now, fp) :: rest =>
      let* (b, dr) := is_duplicate fp (d, advance_to now r) in
      let* bs := run_clocked rest (snd dr) in Ok (b :: bs)
  end.
Fixpoint ordered (t : Z) (calls : list (Z * Z)) : Prop :=
  match calls with [] => True | (now, _) :: rest => t <= now /\ ordered now rest end.

(** What an answer may be, given the calls that have registered their
    fingerprint: a duplicate has one within the threshold, and whatever has one
    that was registered less than the time to live ago is a duplicate. *)
Definition justified (registered : list (Z * Z)) (now fp : Z) (b : bool) : Prop :=
  (b = true -> exists t other, (t, other) ∈ registered /\ hamming_distance fp other <= rd_threshold d) /\
  (forall t other, (t, other) ∈ registered -> hamming_distance fp other <= rd_threshold d ->
     now < t + 1000 * rd_ttl_seconds d -> b = true).
Fixpoint all_justified (registered calls : list (Z * Z)) (bs : list bool) : Prop :=
  match calls, bs with
  | [], [] => True
  | (now, fp) :: calls, b :: bs =>
      justified registered now fp b /\ all_justified (if b then registered else registered ++ [(now, fp)]) calls bs
  | _, _ => False
  end.

Definition in_band (fp band' value : Z) : Prop :=
  0 <= band' < rd_bands d /\ band fp (rd_bits d / rd_bands d) (Z.to_nat band') = value.
Record holds (registered : list (Z * Z)) (r : R) : Prop := {
  ho_past : Forall (fun tf => tf.1 <= server_ms r) registered;
  ho_range : Forall (fun tf => 0 <= tf.2 < 2 ^ rd_bits d) registered;
  ho_members b v x : x ∈ smembers (bucket_key d b v) r -> exists t fp, (t, fp) ∈ registered /\ x = pretty fp;
  ho_kept t fp b v : (t, fp) ∈ registered -> in_band fp b v -> server_ms r < t + 1000 * rd_ttl_seconds d ->
    pretty fp ∈ smembers (bucket_key d b v) r /\
    exists dl, deadline (bucket_key d b v) r = Some dl /\ t + 1000 * rd_ttl_seconds d <= dl }.

Lemma holds_advance registered now r : server_ms r <= now -> holds registered r -> holds registered (advance_to now r).
Proof.
  intros Hn [Hpast Hr Hm Hk]. split; [|done| |].
  - rewrite (advance_ms _ _ Hn). eapply Forall_impl; [exact Hpast|]. cbn. lia.
  - intros b v x. rewrite (expires _ _ _ Hn). destruct (gone _ _ _); [by intros ?%elem_of_nil|apply Hm].
  - intros t fp b v Hin Hb. rewrite (advance_ms _ _ Hn), (expires _ _ _ Hn), (advance_deadline _ _ _ Hn). intros Ht.
    destruct (Hk t fp b v Hin Hb ltac:(lia)) as (Hp & dl & Ed & Hdl). unfold gone. rewrite Ed.
    destruct (Z.leb_spec dl now); [lia|]. split; [done|]. by exists dl.
Qed.

(** The candidates are what the server's sets hold. *)
Lemma candidates_read values acc r : (forall b v x, x ∈ smembers (bucket_key d b v) r -> exists fp : Z, x = pretty fp) ->
  exists s, redis_candidates d values acc r = Ok s /\
    forall x, x ∈ s <-> x ∈ acc \/ exists b v, (b, v) ∈ values /\ pretty x ∈ smembers (bucket_key d b v) r.
Proof.
  intros Hp. revert acc. induction values as [|[b v] values IH]; intros acc; cbn [redis_candidates].
  { exists acc. split; [done|]. intros x. split; [by left|]. intros [?|(b & v & Hn & _)]; [done|by apply elem_of_nil in Hn]. }
  destruct (ints_of_pretty (smembers (bucket_key d b v) r) (fun fp => pretty fp ∈ smembers (bucket_key d b v) r)) as (zs & -> & Hz).
  { intros x. split; [|by intros (fp & -> & ?)]. intros Hx. destruct (Hp b v x Hx) as [fp ->]. by exists fp. }
  cbn [rbind]. destruct (IH (acc ∪ list_to_set zs)) as (s & -> & Hs). exists s. split; [done|].
  intros x. rewrite Hs, elem_of_union, elem_of_list_to_set, Hz. setoid_rewrite elem_of_cons. naive_solver.
Qed.

(** What registering a fingerprint does to the server. *)
Lemma register_server fp l (r : R) : let r' := redis_register d fp l r in
  server_ms r' = server_ms r /\
  (forall b v x, x ∈ smembers (bucket_key d b v) r' <-> x ∈ smembers (bucket_key d b v) r \/ (b, v) ∈ l /\ x = pretty fp) /\
  (forall b v, deadline (bucket_key d b v) r' =
     if bool_decide ((b, v) ∈ l) then Some (server_ms r + 1000 * rd_ttl_seconds d) else deadline (bucket_key d b v) r).
Proof.
  cbv zeta. revert r. induction l as [|[b0 v0] l IH]; intros r; cbn [redis_register fold_left].
  { split; [done|]. split; intros b v; [intros x|]; [set_solver|by rewrite bool_decide_eq_false_2 by apply not_elem_of_nil]. }
  set (key := bucket_key d b0 v0). set (r1 := expire key (rd_ttl_seconds d) (sadd key (pretty fp) r)).
  destruct (IH r1) as (Ems & Hx & Hd). unfold redis_register in *. cbn [fst snd] in *. fold key. fold r1.
  assert (server_ms r1 = server_ms r) as E1 by (unfold r1; by rewrite es_expire_ms, es_sadd_ms).
  assert (forall b v, bucket_key d b v = key <-> (b, v) = (b0, v0)) as Hkey.
  { intros b v. unfold key. split; [by intros [-> ->]%bucket_key_inj|by intros [= -> ->]]. }
  split_and!; [congruence| |].
  - intros b v x. rewrite Hx, elem_of_cons. unfold r1. rewrite es_expire by done. destruct (decide ((b, v) = (b0, v0))) as [E|Hne].
    + rewrite (proj2 (Hkey b v) E), es_sadd. naive_solver.
    + rewrite es_sadd_ne by (by rewrite Hkey). naive_solver.
  - intros b v. rewrite Hd, E1. destruct (decide ((b, v) ∈ l)) as [Hin|Hin].
    + rewrite !bool_decide_eq_true_2; [done|set_solver|done].
    + rewrite (bool_decide_eq_false_2 ((b, v) ∈ l)) by done. unfold r1. rewrite es_expire_deadline, es_sadd_deadline, es_sadd_ms; [|done|].
      * destruct (decide ((b, v) = (b0, v0))) as [E|Hne].
        -- rewrite !bool_decide_eq_true_2; [done|set_solver|by apply Hkey].
        -- rewrite !bool_decide_eq_false_2; [done|set_solver|by rewrite Hkey].
      * intros E. apply (not_elem_of_nil (pretty fp)). rewrite <- E, es_sadd. by left.
Qed.

Lemma duplicate_step registered now fp (r : R) : server_ms r <= now -> holds registered r -> 0 <= fp < 2 ^ rd_bits d ->
  exists b r', is_duplicate fp (d, advance_to now r) = Ok (b, (d, r')) /\ justified registered now fp b /\ server_ms r' = now /\
    holds (if b then registered else registered ++ [(now, fp)]) r'.
Proof.
  intros Hn Hh Hfp. pose proof (holds_advance registered now r Hn Hh) as Hh1. set (r1 := advance_to now r) in *.
  assert (server_ms r1 = now) as Ems by (by apply advance_ms). pose proof Hh1 as [Hpast Hr Hm Hk]. rewrite Ems in Hk, Hpast.
  unfold is_duplicate, redis_dedup. pose proof (band_values_eq fp (rd_bands d) (rd_bits d) Hbands Hbits) as Hv. rewrite Hv. cbn [rbind].
  set (values := band fp (rd_bits d / rd_bands d) <$> seq 0 (Z.to_nat (rd_bands d))) in *.
  assert (forall b v, (b, v) ∈ enumerate values <-> in_band fp b v) as Hin by (intros b v; by eapply values_lookup).
  destruct (candidates_read (enumerate values) ∅ r1) as (s & -> & Hs).
  { intros b v x Hx. destruct (Hm b v x Hx) as (t & f & _ & ->). by exists f. }
  cbn [rbind]. assert (justified registered now fp (close_to fp (rd_threshold d) (elements s))) as Hj.
  { split.
    - intros (other & Ho & Hd)%close_to_spec. apply elem_of_elements, Hs in Ho as [[]%elem_of_empty|(b & v & _ & Ho)].
      destruct (Hm b v _ Ho) as (t & f & Hf & E). apply (inj pretty) in E. subst f. by exists t, other.
    - intros t other Ho Hd Ht. apply close_to_spec. exists other. split; [|done]. apply elem_of_elements, Hs. right.
      assert (0 <= other < 2 ^ rd_bits d) as Hor by (by apply (proj1 (Forall_forall _ _) Hr (t, other))).
      pose proof Hfp as Hfp'. rewrite <- (Z2Nat.id (rd_bits d)) in Hfp', Hor by done.
      destruct (band_pigeonhole_raw _ _ _ (rd_bands d) Hbands Hfp' Hor ltac:(lia)) as (i & Hi & E). rewrite Z2Nat.id in E by done.
      assert (0 <= Z.of_nat i < rd_bands d) as Hib by lia.
      exists (Z.of_nat i), (band fp (rd_bits d / rd_bands d) i). split.
      + apply Hin. unfold in_band. by rewrite Nat2Z.id.
      + apply (Hk t other); [done| |done]. unfold in_band. by rewrite Nat2Z.id. }
  destruct (close_to fp (rd_threshold d) (elements s)); [by exists true, r1|].
  exists false, (redis_register d fp (enumerate values) r1). split; [done|]. split; [done|].
  destruct (register_server fp (enumerate values) r1) as (Ems' & Hx & Hd). split; [congruence|]. rewrite Ems in *. split.
  - rewrite Ems'. apply Forall_app. split; [done|]. constructor; [cbn; lia|done].
  - apply Forall_app. split; [done|]. by constructor.
  - intros b v x. rewrite Hx. intros [(t & f & ? & ->)%Hm|[_ ->]]; [exists t, f|exists now, fp]; (split; [set_solver|done]).
  - intros t f b v [Hf|Hf]%elem_of_app Hb Ht; rewrite Ems' in Ht.
    + destruct (Hk t f b v Hf Hb Ht) as (Hp & dl & Ed & Hdl). split; [rewrite Hx; by left|]. rewrite Hd. case_bool_decide; [|by exists dl].
      eexists. split; [done|]. pose proof (proj1 (Forall_forall _ _) Hpast _ Hf) as Hle. cbn in Hle. lia.
    + apply list_elem_of_singleton in Hf as [= -> ->]. apply Hin in Hb. split; [rewrite Hx; by right|]. rewrite Hd, bool_decide_eq_true_2 by done.
      eexists. split; [done|]. lia.
Qed.

(** C36: The index with buckets that expire.  With the threshold below the number
    of bands, an index that starts empty answers any calls, at times that do
    not go back, without raising; every duplicate it reports is within the
    threshold of a page that was registered, and every page within the
    threshold of one registered less than the time to live ago is reported.
    Between the two it depends on the other pages that share a bucket. *)
Theorem lsh_expiry_window calls (r : R) : (forall k, smembers k r = []) -> ordered (server_ms r) calls ->
  Forall (fun c => 0 <= c.2 < 2 ^ rd_bits d) calls ->
  exists bs, run_clocked calls r = Ok bs /\ all_justified [] calls bs.
Proof.
  intros Hempty. assert (holds [] r) as Hh.
  { split; [by constructor|by constructor| |].
    - intros b v x Hx. rewrite Hempty in Hx. by apply elem_of_nil in Hx.
    - intros t fp b v Hin. by apply elem_of_nil in Hin. }
  clear Hempty. generalize dependent r. generalize (@nil (Z * Z)) as registered.
  induction calls as [|[now fp] calls IH]; intros registered r Hh Ho Hf; [by exists []|].
  destruct Ho as [Hn Ho]. inversion Hf as [|? ? Hfp Hfs]; subst. cbn [snd] in Hfp.
  destruct (duplicate_step registered now fp r Hn Hh Hfp) as (b & r' & E & Hj & Hms & Hh'). rewrite <- Hms in Ho.
  destruct (IH _ r' Hh' Ho Hfs) as (bs & Eb & Hall). exists (b :: bs). cbn [run_clocked]. rewrite E. cbn [rbind snd]. rewrite Eb. done.
Qed.

End LshExpiry.

(** ** The rules of a host *)

(** GET and SET ... EX. *)
Class ExpiringStrings (R : Type) `{RedisStrings R, Clocked R} := {
  ex_clock :: ClockedLaws R;
  ex_expires :: Expires str_get (Ok None);
  ex_set k v t r r' : 0 < t -> str_set k v t r = Ok r' ->
    server_ms r' = server_ms r /\ str_get k r' = Ok (Some v) /\ deadline k r' = Some (server_ms r + 1000 * t) /\
    forall k', k' <> k -> str_get k' r' = str_get k' r /\ deadline k' r' = deadline k' r }.

(** The answers of the network, with their times. *)
Record response : Type := mkResponse { rs_url : string; rs_result : result (Z * string); rs_time : Q }.
#[export] Instance recording {Net : Type} `{FetchText Net} : FetchText (Net * (Q * list response)) := fun url nt =>
  let '(res, net) := fetch_text url (fst nt) in (res, (net, (fst (snd nt), snd (snd nt) ++ [mkResponse url res (fst (snd nt))]))).

(** The rules an answer stands for. *)
Definition text_of (res : result (Z * string)) : string :=
  let '(status, text) := match res with Ok st => st | Raise _ => (0, "") end in if status =? 200 then text else "".
Definition served (log : list response) (o text : string) (t : Q) : Prop :=
  exists x, x ∈ log /\ rs_url x = o +:+ "/robots.txt" /\ text_of (rs_result x) = text /\ rs_time x = t.
Lemma served_app log log' o text t : served log o text t -> served (log ++ log') o text t.
Proof. intros (x & Hx & Hr). exists x. split; [set_solver|done]. Qed.

Section RobotsAge.
Context {R Net : Type} `{UrlLib, Protego, FT : FetchText Net, ES : ExpiringStrings R}.
Abbreviation cache := (RobotsCache R (Net * (Q * list response))).
Abbreviation log rc := (snd (snd (rc_net rc))).
(** How long a load may take. *)
Variable D : Q.

Definition ttl_seconds (rc : cache) : Z := robots_cache_ttl_seconds (politeness (rc_settings rc)).
Record aged (rc : cache) : Prop := {
  ag_ttl : 0 < ttl_seconds rc /\ ttl (rc_cache rc) = Some (inject_Z (ttl_seconds rc));
  ag_redis r o text : rc_redis rc = Some r -> str_get ("robots:" +:+ o) r = Ok (Some text) ->
    exists t dl, served (log rc) o text t /\ deadline ("robots:" +:+ o) r = Some dl /\ (seconds dl <= t + inject_Z (ttl_seconds rc))%Q;
  ag_cache o p stored : (o, (p, stored)) ∈ data (rc_cache rc) ->
    exists text t, served (log rc) o text t /\ protego_parse text = Ok p /\ (stored <= t + inject_Z (ttl_seconds rc) + D)%Q }.

(** A call at time [T] of the server's clock. *)
Definition at_time (T : Z) (rc : cache) : cache :=
  mkRobots (rc_settings rc) (advance_to T <$> rc_redis rc) (rc_cache rc) (fst (rc_net rc), (seconds T, log rc)).
Definition not_before (T : Z) (rc : cache) : Prop := forall r, rc_redis rc = Some r -> server_ms r <= T.

Lemma aged_at_time T rc : not_before T rc -> aged rc -> aged (at_time T rc).
Proof.
  intros Hn [Ht Hr Hc]. split; [done| |done]. intros r' o text Er Eg. unfold at_time in Er. cbn in Er.
  destruct (rc_redis rc) as [r|] eqn:E0; [|done]. injection Er as <-. specialize (Hn r E0).
  rewrite (expires _ _ _ Hn) in Eg. destruct (gone _ _ _) eqn:Eg'; [done|].
  destruct (Hr r o text eq_refl Eg) as (t & dl & Hs & Ed & Hle). exists t, dl.
  rewrite (advance_deadline _ _ _ Hn), Eg'. done.
Qed.

Lemma get_data {K V} `{EqDecision K} now (k : K) (c : LruCache K V) x : x ∈ data (snd (Lru.get now k c)) -> x ∈ data c.
Proof. by apply (get_sub now k c _ _ (surjective_pairing _)). Qed.

(** Looking up keeps the cache's contents. *)
Lemma aged_set_cache rc c : (forall x, x ∈ data c -> x ∈ data (rc_cache rc)) -> ttl c = ttl (rc_cache rc) -> aged rc -> aged (set_cache rc c).
Proof.
  intros Hd Et [[Ht1 Ht2] Hr Hc]. split; [split; [done|by cbn; rewrite Et]|done|]. cbn. intros o p stored Hx. by eapply Hc, Hd.
Qed.

Lemma alive_deadline T (r : R) k dl : server_ms r <= T -> deadline k (advance_to T r) = Some dl -> T < dl.
Proof.
  intros Hn. rewrite (advance_deadline _ _ _ Hn). unfold gone. destruct (deadline k r) as [d|]; [|done].
  destruct (Z.leb_spec d T); [done|]. by intros [= <-].
Qed.
Lemma seconds_add a b : (seconds (a + 1000 * b) == seconds a + inject_Z b)%Q.
Proof. unfold seconds. rewrite inject_Z_plus, inject_Z_mult. field. Qed.

(** A fetched text is mirrored with a new deadline. *)
Lemma mirrored_aged rc o text res net T : aged rc -> (forall r, rc_redis rc = Some r -> server_ms r = T) ->
  fst (snd (rc_net rc)) = seconds T -> text_of res = text ->
  let redis := match rc_redis rc with
               | Some r => match str_set ("robots:" +:+ o) text (ttl_seconds rc) r with Ok r' => Some r' | Raise _ => Some r end
               | None => None
               end in
  let rc' := mkRobots (rc_settings rc) redis (rc_cache rc) (net, (seconds T, log rc ++ [mkResponse (o +:+ "/robots.txt") res (seconds T)])) in
  aged rc' /\ (forall r, redis = Some r -> server_ms r <= T) /\ served (log rc') o text (seconds T).
Proof.
  intros [[Ht1 Ht2] Hr Hc] Hms Htime Htext redis. assert (redis = match rc_redis rc with
    | Some r => match str_set ("robots:" +:+ o) text (ttl_seconds rc) r with Ok r' => Some r' | Raise _ => Some r end
    | None => None end) as Hredis by done. clearbody redis. cbv zeta. cbn [rc_net snd].
  assert (served (log rc ++ [mkResponse (o +:+ "/robots.txt") res (seconds T)]) o text (seconds T)) as Hnow.
  { eexists. split; [apply elem_of_app; right; by left|done]. }
  split_and!; [|intros r Er|done].
  - split; [done| |].
    + cbn [rc_redis rc_net snd]. intros r o' text' Er Eg. rewrite Er in Hredis. destruct (rc_redis rc) as [r0|] eqn:E0; [|done].
      destruct (str_set _ text (ttl_seconds rc) r0) as [r1|e] eqn:Es; injection Hredis as ->.
      * destruct (ex_set _ _ _ _ _ Ht1 Es) as (Hm & Hg & Hd & Ho). destruct (decide (o' = o)) as [->|Hne].
        -- rewrite Hg in Eg. injection Eg as <-. exists (seconds T), (T + 1000 * ttl_seconds rc).
           split; [done|]. rewrite Hd, (Hms r0 eq_refl). split; [done|]. change (ttl_seconds _) with (ttl_seconds rc).
           rewrite seconds_add. lra.
        -- destruct (Ho ("robots:" +:+ o')) as [Eg' Ed']; [by intros ?%append_inj_l|]. rewrite Eg' in Eg.
           destruct (Hr r0 o' text' eq_refl Eg) as (t & dl & Hs & Ed & Hle). exists t, dl. rewrite Ed'.
           split; [by apply served_app|done].
      * destruct (Hr r0 o' text' eq_refl Eg) as (t & dl & Hs & Hrest). exists t, dl. split; [by apply served_app|done].
    + cbn [rc_cache rc_net snd]. intros o' p stored Hx. destruct (Hc o' p stored Hx) as (text' & t & Hs & Hrest).
      exists text', t. split; [by apply served_app|done].
  - rewrite Er in Hredis. destruct (rc_redis rc) as [r0|] eqn:E0; [|done]. specialize (Hms r0 eq_refl).
    destruct (str_set _ text (ttl_seconds rc) r0) as [r1|e] eqn:Es; injection Hredis as ->; [|lia].
    destruct (ex_set _ _ _ _ _ Ht1 Es) as (Hm & _). lia.
Qed.

(** Loading, at the time [T] of the server's clock: the text was served at most
    the time to live ago. *)
Lemma load_aged T o rc c : not_before T rc -> aged rc -> (forall x, x ∈ data c -> x ∈ data (rc_cache rc)) -> ttl c = ttl (rc_cache rc) ->
  let '(text, rc') := load o (set_cache (at_time T rc) c) in
  aged rc' /\ rc_cache rc' = c /\ rc_settings rc' = rc_settings rc /\ (forall r, rc_redis rc' = Some r -> server_ms r <= T) /\
  exists t, served (log rc') o text t /\ (seconds T <= t + inject_Z (ttl_seconds rc))%Q.
Proof.
  intros Hn Ha Hd Et. pose proof (aged_set_cache (at_time T rc) c Hd Et (aged_at_time T rc Hn Ha)) as Ha'.
  set (rc1 := set_cache (at_time T rc) c) in *.
  assert (forall r, rc_redis rc1 = Some r -> exists r0, r = advance_to T r0 /\ server_ms r0 <= T) as Hadv.
  { unfold rc1, at_time. cbn. intros r' Er. destruct (rc_redis rc) as [r|] eqn:E0; [|done]. injection Er as <-.
    exists r. split; [done|]. by apply Hn. }
  assert (forall r, rc_redis rc1 = Some r -> server_ms r = T) as Hms.
  { intros r (r0 & -> & ?)%Hadv. by apply advance_ms. }
  unfold load. destruct (match rc_redis rc1 with Some r => _ | None => None end) as [text|] eqn:Em.
  - destruct (rc_redis rc1) as [r|] eqn:Er; [|done]. destruct (str_get _ r) as [c'|] eqn:Eg; [|done]. subst c'.
    pose proof Ha' as [_ Hr _]. destruct (Hr r o text Er Eg) as (t & dl & Hs & Ed & Hle).
    split_and!; [done..| |]; [intros r' E'; rewrite (Hms r') by congruence; lia|]. exists t. split; [done|].
    destruct (Hadv r eq_refl) as (r0 & -> & H0'). pose proof (seconds_le T dl) as Hsec.
    pose proof (alive_deadline T r0 _ dl H0' Ed). change (ttl_seconds rc1) with (ttl_seconds rc) in Hle.
    assert (seconds T <= seconds dl)%Q by (apply seconds_le; lia). lra.
  - unfold fetch_text at 1, recording. destruct (fetch_text (o +:+ "/robots.txt") (fst (rc_net rc1))) as [res net].
    destruct (match res with Ok st => st | Raise _ => (0, "") end) as [status text] eqn:Est.
    destruct (mirrored_aged rc1 o (if status =? 200 then text else "") res net T Ha' Hms eq_refl ltac:(unfold text_of; by rewrite Est)) as (Ha2 & Hms2 & Hs2).
    cbv beta iota zeta. split_and!; [exact Ha2|done|done|exact Hms2|]. exists (seconds T). split; [exact Hs2|].
    destruct Ha as [[Htt _] _ _]. assert (0 <= inject_Z (ttl_seconds rc))%Q by (rewrite <- (Zle_Qle 0); lia). lra.
Qed.

Lemma parser_settings now url (rc : cache) : rc_settings (snd (parser now url rc)) = rc_settings rc.
Proof.
  destruct (origin url) as [o|e] eqn:Ho; [|unfold parser, abind at 1, alift; by rewrite Ho].
  destruct (Lru.get (now 0%nat) o (rc_cache rc)) as [[p|] c] eqn:Eg; [by rewrite (parser_hit now url o p c rc Ho Eg)|].
  pose proof (parser_miss now url o c rc Ho Eg) as Hm. destruct (load o (set_cache rc c)) as [text rc1] eqn:El.
  apply load_cache in El as [_ Es]. destruct (protego_parse text); by rewrite Hm.
Qed.

(** One call of [_parser] keeps the ages, and the rules it returns were served
    at most twice the time to live before (and the time a load takes). *)
Lemma parser_aged T now url (rc : cache) : not_before T rc -> aged rc -> (seconds T <= now 0%nat)%Q -> (now 0%nat <= now 2%nat <= seconds T + D)%Q ->
  let '(x, rc') := parser now url (at_time T rc) in
  aged rc' /\ not_before T rc' /\
  match x with
  | Ok p => exists o text t, origin url = Ok o /\ served (log rc') o text t /\ protego_parse text = Ok p /\
              (now 0%nat <= t + 2 * inject_Z (ttl_seconds rc) + D)%Q
  | Raise _ => True
  end.
Proof.
  intros Hn Ha HT Hnow. pose proof (aged_at_time T rc Hn Ha) as Ha'.
  assert (not_before T (at_time T rc)) as Hn'.
  { intros r' Er. unfold at_time in Er. cbn in Er. destruct (rc_redis rc) as [r|] eqn:E0; [|done]. injection Er as <-.
    by rewrite advance_ms by by apply Hn. }
  pose proof Ha as [[Httl Hcttl] _ Hc]. assert (0 <= inject_Z (ttl_seconds rc))%Q as Hpos by (rewrite <- (Zle_Qle 0); lia).
  destruct (origin url) as [o|e] eqn:Ho; [|unfold parser, abind at 1, alift; by rewrite Ho].
  destruct (Lru.get (now 0%nat) o (rc_cache rc)) as [v c] eqn:Eg.
  pose proof (fun x => get_data (now 0%nat) o (rc_cache rc) x) as Hd. rewrite Eg in Hd. cbn [snd] in Hd.
  destruct (get_caps (now 0%nat) o (rc_cache rc)) as [_ Et]. rewrite Eg in Et. cbn [snd] in Et.
  pose proof (aged_set_cache (at_time T rc) c Hd Et Ha') as Hac. destruct v as [p|].
  - rewrite (parser_hit now url o p c (at_time T rc) Ho Eg). split; [done|]. split; [exact Hn'|].
    unfold Lru.get in Eg. destruct (od_get o (data (rc_cache rc))) as [[p' stored]|] eqn:Eo; [|done].
    unfold expired in Eg. rewrite Hcttl in Eg. destruct (Qltb_spec (inject_Z (ttl_seconds rc)) (now 0%nat - stored)); [done|].
    injection Eg as -> _. destruct (Hc o p stored (od_get_in _ _ _ Eo)) as (text & t & Hs & Hp & Hle).
    exists o, text, t. split_and!; [done|exact Hs|done|lra].
  - pose proof (parser_miss now url o c (at_time T rc) Ho Eg) as Hmiss.
    pose proof (load_aged T o rc c Hn Ha Hd Et) as Hl. destruct (load o (set_cache (at_time T rc) c)) as [text rc1] eqn:El.
    destruct Hl as (Ha1 & Ec1 & Es1 & Hn1 & t & Hs & Hle). destruct (protego_parse text) as [p|e] eqn:Ep; rewrite Hmiss; [|done].
    split_and!; [|exact Hn1|].
    + destruct Ha1 as [[Ht1 Ht2] Hr1 Hc1]. split; [split; [done|]|done|].
      * change (ttl_seconds (set_cache rc1 _)) with (ttl_seconds rc1). rewrite <- Ht2, Ec1. done.
      * cbn [rc_cache set_cache rc_net snd]. intros o' p' stored [E|Hx]%put_sub.
        -- injection E as -> -> ->. exists text, t. split; [done|]. split; [done|].
           assert (ttl_seconds (set_cache rc1 (put (now 2%nat) o p c)) = ttl_seconds rc) as -> by (unfold ttl_seconds; cbn; by rewrite Es1). lra.
        -- apply Hc1. by rewrite Ec1.
    + exists o, text, t. split_and!; [done|exact Hs|done|lra].
Qed.

(** The calls a worker makes, one after the other. *)
Inductive asks : cache -> cache -> Prop :=
| asks_one T now url rc : not_before T rc -> (seconds T <= now 0%nat)%Q -> (now 0%nat <= now 2%nat <= seconds T + D)%Q ->
    asks rc (snd (parser now url (at_time T rc))).

(** C26: How old the rules of a host can be.  After any calls of a worker that
    starts with an empty cache and a server without mirrored rules, the rules
    a call goes by are those of an answer of the origin itself that is at most
    twice the configured time to live old (plus the time a load takes): once
    for the server's copy and once for the worker's own. *)
Theorem robots_bounded_age T now url (rc rc1 rc2 : cache) p :
  data (rc_cache rc) = [] -> 0 < ttl_seconds rc -> ttl (rc_cache rc) = Some (inject_Z (ttl_seconds rc)) ->
  (forall r o, rc_redis rc = Some r -> str_get ("robots:" +:+ o) r = Ok None) ->
  rtc asks rc rc1 -> not_before T rc1 -> (seconds T <= now 0%nat)%Q -> (now 0%nat <= now 2%nat <= seconds T + D)%Q ->
  parser now url (at_time T rc1) = (Ok p, rc2) ->
  exists o text t, origin url = Ok o /\ served (log rc2) o text t /\ protego_parse text = Ok p /\
    (now 0%nat <= t + 2 * inject_Z (ttl_seconds rc) + D)%Q.
Proof.
  intros Hd Ht Htl Hr Hasks Hn HT Hnow Hp.
  assert (aged rc1 /\ ttl_seconds rc1 = ttl_seconds rc) as [Ha <-].
  { apply (rtc_invariant asks (fun x => aged x /\ ttl_seconds x = ttl_seconds rc) rc rc1); [|done|].
    - intros x y [Hx Et] Hs. destruct Hs as [T' now' url' x Hn' HT' Hnow'].
      pose proof (parser_aged T' now' url' x Hn' Hx HT' Hnow') as Hy.
      pose proof (parser_settings now' url' (at_time T' x)) as Hset.
      destruct (parser now' url' (at_time T' x)) as [v y]. split; [apply Hy|]. rewrite <- Et. unfold ttl_seconds. cbn in Hset |- *. by rewrite Hset.
    - split; [|done]. split; [done| |].
      + intros r o text Er Eg. rewrite (Hr r o Er) in Eg. done.
      + rewrite Hd. intros o q stored Hx. by apply elem_of_nil in Hx. }
  pose proof (parser_aged T now url rc1 Hn Ha HT Hnow) as Hy. rewrite Hp in Hy. apply Hy.
Qed.

End RobotsAge.

(** ** A server with a clock *)

Record server (V : Type) : Type := mkServer { sv_ms : Z; sv_keys : gmap string (V * option Z) }.
Arguments mkServer {V}.
Arguments sv_ms {V}.
Arguments sv_keys {V}.

Section Server.
Context {V : Type}.
Definition live (t : Z) (e : V * option Z) : option (V * option Z) :=
  match snd e with Some d => if d <=? t then None else Some e | None => Some e end.
Definition value (k : string) (r : server V) : option V := fst <$> sv_keys r !! k.
Definition write (k : string) (v : V) (d : option Z) (r : server V) : server V :=
  mkServer (sv_ms r) (<[k := (v, d)]> (sv_keys r)).
Definition set_deadline (k : string) (ms : Z) (r : server V) : server V :=
  mkServer (sv_ms r) (alter (fun e => (fst e, Some (sv_ms r + ms))) k (sv_keys r)).

#[local] Instance server_clock : Clocked (server V) := {|
  server_ms := sv_ms;
  deadline := fun k r => e ← sv_keys r !! k; snd e;
  advance_to := fun t r => mkServer t (omap (live t) (sv_keys r)) |}.

Lemma live_lookup t (r : server V) k : omap (live t) (sv_keys r) !! k = if gone k t r then None else sv_keys r !! k.
Proof.
  rewrite lookup_omap. unfold gone, live. cbn [deadline server_clock]. destruct (sv_keys r !! k) as [[v [d|]]|]; cbn; [|done..].
  by destruct (d <=? t).
Qed.
#[local] Instance server_clock_laws : ClockedLaws (server V).
Proof. split; [done|]. intros k t r _. cbn [deadline server_clock advance_to sv_keys]. rewrite live_lookup. by destruct (gone k t r). Qed.
#[local] Instance value_expires : Expires (R := server V) value None.
Proof. intros k t r _. unfold value at 1. cbn [advance_to server_clock sv_keys]. rewrite live_lookup. by destruct (gone k t r). Qed.

Lemma value_write k v d (r : server V) : value k (write k v d r) = Some v.
Proof. unfold value, write. cbn. by rewrite lookup_insert_eq. Qed.
Lemma value_write_ne k k' v d (r : server V) : k <> k' -> value k (write k' v d r) = value k r.
Proof. intros Hne. unfold value, write. cbn. by rewrite lookup_insert_ne. Qed.
Lemma deadline_write k k' v d (r : server V) : deadline k (write k' v d r) = if bool_decide (k = k') then d else deadline k r.
Proof. cbn. case_bool_decide as E; [subst; by rewrite lookup_insert_eq|by rewrite lookup_insert_ne]. Qed.
Lemma value_set_deadline k k' ms (r : server V) : value k (set_deadline k' ms r) = value k r.
Proof.
  unfold value, set_deadline. cbn [sv_keys]. destruct (decide (k = k')) as [->|]; [|by rewrite lookup_alter_ne].
  rewrite lookup_alter_eq. by destruct (sv_keys r !! k').
Qed.
Lemma deadline_set_deadline k k' ms (r : server V) : is_Some (value k' r) ->
  deadline k (set_deadline k' ms r) = if bool_decide (k = k') then Some (sv_ms r + ms) else deadline k r.
Proof.
  unfold value, set_deadline. cbn. intros [v Hv]. case_bool_decide as E; [subst|by rewrite lookup_alter_ne].
  rewrite lookup_alter_eq. by destruct (sv_keys r !! k').
Qed.
End Server.

(** Its hashes, sets and strings. *)
#[local] Existing Instances server_clock server_clock_laws value_expires.
#[local] Instance server_buckets : RedisBuckets (server (Q * Z)) := {|
  hmget := value;
  hset := fun k t ts r => write k (t, ts) (deadline k r) r;
  pexpire := set_deadline |}.
#[local] Instance server_expiring_buckets : ExpiringBuckets (server (Q * Z)).
Proof.
  split; cbn [hmget hset pexpire server_buckets]; intros.
  - exact _.
  - exact _.
  - apply value_write.
  - by apply value_write_ne.
  - rewrite deadline_write. case_bool_decide; [by subst|done].
  - done.
  - apply value_set_deadline.
  - apply deadline_set_deadline. by apply not_eq_None_Some.
  - done.
Qed.

Definition members (k : string) (r : server (list string)) : list string := default [] (value k r).
#[local] Instance server_sets : RedisSets (server (list string)) := {|
  smembers := members;
  sadd := fun k m r => write k (m :: members k r) (deadline k r) r;
  expire := fun k t r => set_deadline k (1000 * t) r |}.
#[local] Instance server_expiring_sets : ExpiringSets (server (list string)).
Proof.
  split; cbn [smembers sadd expire server_sets]; intros; unfold members.
  - exact _.
  - intros k t r Ht. rewrite (value_expires k t r Ht). by destruct (gone k t r).
  - rewrite value_write. cbn. by rewrite elem_of_cons.
  - by rewrite value_write_ne.
  - rewrite deadline_write. case_bool_decide; [by subst|done].
  - done.
  - by rewrite value_set_deadline.
  - apply deadline_set_deadline. unfold members in *. by destruct (value k' r).
  - done.
Qed.

#[local] Instance server_strings : RedisStrings (server string) := {|
  str_get := fun k r => Ok (value k r);
  str_set := fun k v t r => if 0 <? t then Ok (write k v (Some (sv_ms r + 1000 * t)) r) else Raise (OtherError "invalid expire time") |}.
#[local] Instance server_expiring_strings : ExpiringStrings (server string).
Proof.
  split; cbn [str_get str_set server_strings].
  - exact _.
  - intros k t r Ht. rewrite (value_expires k t r Ht). by destruct (gone k t r).
  - intros k v t r r' Ht. rewrite (proj2 (Z.ltb_lt 0 t) Ht). intros [= <-]. split; [done|]. rewrite value_write, deadline_write.
    rewrite bool_decide_eq_true_2 by done. split_and!; [done..|]. intros k' Hne. rewrite value_write_ne, deadline_write by done.
    by rewrite bool_decide_eq_false_2.
Qed.

(** ** Witnesses *)

(** Two hosts over two hours, one request a second and one a minute. *)
Definition patient : list call :=
  [mkCall "rl:a" 1 0; mkCall "rl:b" (1 # 60) 500; mkCall "rl:a" 1 700; mkCall "rl:a" 1 3600700; mkCall "rl:b" (1 # 60) 7200000].
Lemma bucket_expiry_invisible_witness :
  run_answers advance_to 1 3600000 patient (mkServer 0 ∅ : server (Q * Z)) =
    @run_answers _ map_buckets (fun _ p => p) 1 3600000 patient ∅ /\
  map fst (run_answers advance_to 1 3600000 patient (mkServer 0 ∅ : server (Q * Z))) = [1; 1; 0; 1; 1].
Proof.
  split; [|vm_compute; reflexivity].
  apply (@bucket_expiry_invisible (server (Q * Z)) _ _ _ server_expiring_buckets map_buckets map_buckets_laws).
  - discriminate.
  - reflexivity.
  - intros k. reflexivity.
  - intros k. reflexivity.
  - cbn. repeat split; try discriminate; lia.
Defined.

(** Two hosts: the bucket of the first expires once, full; that of the second,
    with a crawl-delay of two hours, expires before it is full. *)
Definition mixed_rates : list call :=
  [mkCall "rl:a" 1 100000; mkCall "rl:a" 1 100000; mkCall "rl:b" (1 # 7200) 100500; mkCall "rl:a" 1 101000;
   mkCall "rl:b" (1 # 7200) 4000000; mkCall "rl:a" 1 4000000].
Lemma lua_rate_bound_witness :
  let answers := run_answers advance_to 1 3600000 mixed_rates (mkServer 0 ∅ : server (Q * Z)) in
  (inject_Z (call_grants "rl:a" mixed_rates (granted answers)) <= 1 + 1 * (seconds 4000000 - seconds 100000))%Q /\
  granted answers = [true; false; true; true; true; true].
Proof.
  split; [|vm_compute; reflexivity].
  apply (@lua_rate_bound (server (Q * Z)) _ _ server_expiring_buckets "rl:a" 1 1 100000 4000000 mixed_rates 3600000 (mkServer 0 ∅)).
  - reflexivity.
  - cbn. lia.
  - discriminate.
  - reflexivity.
  - discriminate.
  - cbn. repeat split; try discriminate; lia.
  - intros x Hx Ek. repeat (apply elem_of_cons in Hx as [->|Hx]; [first [discriminate Ek|vm_compute; discriminate]|]).
    apply elem_of_nil in Hx. contradiction Hx.
Defined.

(** A host with a crawl-delay of two hours: its bucket refills in two hours and
    expires in one, so the second request of an hour later is let through, where
    a server that kept the bucket would make it wait. *)
Definition slow : list call := [mkCall "rl:a" (1 # 7200) 0; mkCall "rl:a" (1 # 7200) 3600000].
Example slow_host_forgotten :
  run_answers advance_to 1 (rl_ttl_ms default_redis_limiter) slow (mkServer 0 ∅ : server (Q * Z)) = [(1, 0); (1, 0)] /\
  @run_answers _ map_buckets (fun _ p => p) 1 (rl_ttl_ms default_redis_limiter) slow ∅ = [(1, 0); (0, 3600000)].
Proof. split; vm_compute; reflexivity. Qed.

(** Eight bits in four bands: a page, its near duplicate an hour later, and the
    same page ten days later. *)
Definition byte_index : RedisContentDedup := mkRedisDedup 4 8 2 "simhash" 604800.
Definition three_pages : list (Z * Z) := [(0, 90); (3600000, 91); (864000000, 90)].
Lemma lsh_expiry_window_witness :
  exists bs, run_clocked byte_index three_pages (mkServer 0 ∅ : server (list string)) = Ok bs /\
    all_justified byte_index [] three_pages bs /\ bs = [false; true; false].
Proof.
  destruct (@lsh_expiry_window (server (list string)) server_sets _ server_expiring_sets byte_index
              ltac:(reflexivity) ltac:(discriminate) ltac:(reflexivity) ltac:(reflexivity) three_pages (mkServer 0 ∅)) as (bs & E & Hj).
  - intros k. reflexivity.
  - cbn. repeat split; lia.
  - repeat constructor; cbn; lia.
  - exists bs. split; [exact E|]. split; [exact Hj|]. vm_compute in E. injection E as <-. reflexivity.
Defined.

(** An origin whose rules are read once by a first worker and, an hour later, by
    a second call of the same one. *)
Definition one_net : FetchText unit := fun url n => (Ok (200, "/private"), n).
Abbreviation aged_cache := (@RobotsCache (server string) (unit * (Q * list response)) toy_protego).
Definition fresh_cache : aged_cache :=
  @mkRobots (server string) (unit * (Q * list response)) toy_protego default_settings (Some (mkServer 0 ∅))
    (@mkLru string string 100 (Some 3600%Q) []) (tt, (0%Q, [])).
Definition asked (T : Z) (url : string) (rc : aged_cache) : result string * aged_cache :=
  @parser (server string) (unit * (Q * list response)) identity_lib toy_protego server_strings (@recording unit one_net)
    (fun _ => seconds T) url (@at_time (server string) unit toy_protego server_clock T rc).

Lemma robots_bounded_age_witness :
  exists o text t, @origin identity_lib "http://a.org/y" = Ok o /\
    served (snd (snd (rc_net (snd (asked 3000000 "http://a.org/y" (snd (asked 1000 "http://a.org/x" fresh_cache))))))) o text t /\
    (seconds 3000000 <= t + 2 * inject_Z (ttl_seconds fresh_cache) + 0)%Q.
Proof.
  destruct (@robots_bounded_age (server string) unit identity_lib toy_protego one_net server_strings server_clock server_expiring_strings
              0%Q 3000000 (fun _ => seconds 3000000) "http://a.org/y" fresh_cache
              (snd (asked 1000 "http://a.org/x" fresh_cache))
              (snd (asked 3000000 "http://a.org/y" (snd (asked 1000 "http://a.org/x" fresh_cache)))) "/private")
    as (o & text & t & Ho & Hs & _ & Hle).
  - reflexivity.
  - reflexivity.
  - reflexivity.
  - intros r o E. cbn in E. injection E as <-. reflexivity.
  - apply rtc_once.
    apply (@asks_one (server string) unit identity_lib toy_protego one_net server_strings server_clock 0%Q 1000
             (fun _ => seconds 1000) "http://a.org/x" fresh_cache); [|discriminate|split; discriminate].
    intros r E. cbn in E. injection E as <-. discriminate.
  - intros r E. vm_compute in E. injection E as <-. discriminate.
  - discriminate.
  - split; discriminate.
  - vm_compute. reflexivity.
  - exists o, text, t. split; [exact Ho|]. split; [exact Hs|exact Hle].
Defined.
