(* ===== verification/Fetcher.v ===== *)
(** * The downloader ([crawler/fetcher/fetcher.py])

    [Fetcher] over an aiohttp session (a parameter): one request with its
    metrics, the body cap, and the retry loop with its backoff.

    [fetch_outcome]: which attempts are made, what is slept between them and
    which result comes back.  [fetch_gauge]: the in-flight gauge is restored on
    every way out.  [fetch_body_cap]: the body is a prefix of the content, cut
    at [max_page_bytes]; [fetch_short_read] shows that it can be a shorter one
    than the cap allows. *)
From S2P Require Import Prelude PyStr Config Models.
Local Open Scope Z_scope.

(** What a request ends in: a response, an [aiohttp.ClientError] or a timeout
    (its [repr]), or another exception. *)
Record response (content : Type) : Type := mkResponse {
  rs_status : Z; rs_url : string; rs_headers : list (string * string); rs_content : content }.
Arguments mkResponse {_}.
Arguments rs_status {_}.
Arguments rs_url {_}.
Arguments rs_headers {_}.
Arguments rs_content {_}.

Inductive outcome (content : Type) : Type :=
| Responded (r : response content)
| Failed (error : string)
| Crashed (e : exn).
Arguments Responded {_}.
Arguments Failed {_}.
Arguments Crashed {_}.

(** A session: its construction, its requests (the outcome and the seconds it
    took), [content.read(n)] and [close]. *)
Class Aiohttp (Session content : Type) := {
  make_session : Settings -> Session;
  session_get : string -> option (list (string * string)) -> Session -> outcome content * Q * Session;
  content_read : Z -> content -> string;
  session_close : Session -> result Session;
  (** all the bytes the server sends *)
  content_bytes : content -> string }.
(** [read(n)] is documented to return up to [n] bytes of the stream. *)
Class AiohttpLaws (Session content : Type) `{Aiohttp Session content} :=
  content_read_prefix n (c : content) : 0 <= n ->
    startswith (content_read n c) (content_bytes c) = true /\
    Z.of_nat (String.length (content_read n c)) <= n.

(** [body[:n]]. *)
Definition scut (n : Z) (s : string) : string := String.substring 0 (Z.to_nat n) s.

(** [dict(headers)] of a multidict, and its case-insensitive [get]. *)
Fixpoint dict_set (k v : string) (d : list (string * string)) : list (string * string) :=
  match d with
  | [] => [(k, v)]
  | (k', v') :: d' => if decide (k = k') then (k, v) :: d' else (k', v') :: dict_set k v d'
  end.
Definition dict_of (l : list (string * string)) : list (string * string) :=
  fold_left (fun d kv => dict_set (fst kv) (snd kv) d) l [].
Definition ci_get (name : string) (l : list (string * string)) : option string :=
  snd <$> List.find (fun kv => bool_decide (lower (fst kv) = lower name)) l.

(** [min(2**attempt * 0.25, 5.0)]: the product turns the integer into a float,
    which is exact below [2 ** 1024] and an error from there on. *)
Definition delay (attempt : nat) : Q := py_min (inject_Z (2 ^ Z.of_nat attempt) * (1 # 4)) 5.
Definition overflow : exn := OtherError "OverflowError".
Definition backoff (attempt : nat) : result Q := if Z.of_nat attempt <? 1024 then Ok (delay attempt) else Raise overflow.

Section Fetcher.
Context `{Aiohttp Session content}.

(** The object, the metrics and the sleeps so far. *)
Record Fetcher : Type := mkFetcher {
  fe_settings : Settings; fe_session : option Session; fe_owns_session : bool }.
Record fetch_state : Type := mkFetchState { fs_fetcher : Fetcher; fs_reg : registry; fs_sleeps : list Q }.

Definition new_fetcher (s : Settings) (session : option Session) : Fetcher :=
  mkFetcher s session (match session with None => true | Some _ => false end).

Definition aenter (f : Fetcher) : Fetcher :=
  match fe_session f with
  | None => mkFetcher (fe_settings f) (Some (make_session (fe_settings f))) (fe_owns_session f)
  | Some _ => f
  end.

(** [close], and [__aexit__] which calls it. *)
Definition close (f : Fetcher) : result Fetcher :=
  match fe_session f with
  | Some s =>
      if fe_owns_session f then
        let* _ := session_close s in Ok (mkFetcher (fe_settings f) None (fe_owns_session f))
      else Ok f
  | None => Ok f
  end.

Definition on_reg (g : registry -> registry) : act fetch_state unit :=
  amodify (fun s => mkFetchState (fs_fetcher s) (g (fs_reg s)) (fs_sleeps s)).

(** [self.session.get(...)]: the property raises when there is no session. *)
Definition request (url : string) (headers : option (list (string * string))) :
    act fetch_state (outcome content * Q) := fun s =>
  let f := fs_fetcher s in
  match fe_session f with
  | None => (Ok (Crashed RuntimeError, 0%Q), s)
  | Some ses =>
      let '(o, elapsed, ses') := session_get url headers ses in
      (Ok (o, elapsed), mkFetchState (mkFetcher (fe_settings f) (Some ses') (fe_owns_session f)) (fs_reg s) (fs_sleeps s))
  end.

Definition error_result (url : string) (elapsed : Q) (error : option string) : FetchResult :=
  mkFetch url url 0 [] "" None elapsed error.

(** At most [max_bytes] of what [read(max_bytes + 1)] returns. *)
Definition capped_body (max_bytes : Z) (c : content) : string :=
  let body := content_read (max_bytes + 1) c in
  if max_bytes <? Z.of_nat (String.length body) then scut max_bytes body else body.

Definition fetch_once (url : string) (headers : option (list (string * string))) : act fetch_state FetchResult :=
  let! s := aget in
  let max_bytes := max_page_bytes (fetch (fe_settings (fs_fetcher s))) in
  let! _ := on_reg (inc ACTIVE_FETCHES 1) in
  let! (o, elapsed) := request url headers in
  match o with
  | Responded resp =>
      let body := capped_body max_bytes (rs_content resp) in
      let! _ := on_reg (inc FETCH_LATENCY 1) in
      let! _ := on_reg (inc BYTES_DOWNLOADED (Z.of_nat (String.length body))) in
      let! _ := on_reg (inc (PAGES_FETCHED (status_class (rs_status resp)) "ok") 1) in
      let! _ := on_reg (inc ACTIVE_FETCHES (-1)) in
      aret (mkFetch url (rs_url resp) (rs_status resp) (dict_of (rs_headers resp)) body
              (ci_get "Content-Type" (rs_headers resp)) elapsed None)
  | Failed error =>
      let! _ := on_reg (inc FETCH_LATENCY 1) in
      let! _ := on_reg (inc (PAGES_FETCHED "error" "error") 1) in
      let! _ := on_reg (inc ACTIVE_FETCHES (-1)) in
      aret (error_result url elapsed (Some error))
  | Crashed e =>
      let! _ := on_reg (inc ACTIVE_FETCHES (-1)) in
      araise e
  end.

Definition sleep (d : Q) : act fetch_state unit :=
  amodify (fun s => mkFetchState (fs_fetcher s) (fs_reg s) (fs_sleeps s ++ [d])).

(** The loop [for attempt in range(retries + 1)]: [n] attempts are left. *)
Fixpoint fetch_loop (n attempt : nat) (retries : Z) (url : string) (headers : option (list (string * string)))
    (last_error : option string) : act fetch_state FetchResult :=
  match n with
  | O => aret (error_result url 0 last_error)
  | S n' =>
      let! r := fetch_once url headers in
      match fr_error r with
      | None => aret r
      | Some e =>
          let! _ := if Z.of_nat attempt <? retries then let! d := alift (backoff attempt) in sleep d else aret tt in
          fetch_loop n' (S attempt) retries url headers (Some e)
      end
  end.

Definition fetch_url (url : string) (headers : option (list (string * string))) : act fetch_state FetchResult :=
  let! s := aget in
  let retries := Config.retries (fetch (fe_settings (fs_fetcher s))) in
  fetch_loop (Z.to_nat (retries + 1)) 0 retries url headers None.

End Fetcher.
Arguments Fetcher : clear implicits.
Arguments fetch_state : clear implicits.

Section FetchTheorems.
Context `{Aiohttp Session content}.

(** The session after [k] requests, and the outcome of request [k]. *)
Fixpoint session_after (k : nat) (url : string) (headers : option (list (string * string))) (s : Session) : Session :=
  match k with
  | O => s
  | S k' => snd (session_get url headers (session_after k' url headers s))
  end.
Definition outcome_at (k : nat) (url : string) (headers : option (list (string * string))) (s : Session) :
    outcome content := fst (fst (session_get url headers (session_after k url headers s))).

Definition failed (o : outcome content) : Prop := exists e, o = Failed e.

Lemma fetch_once_spec url headers s ses :
  fe_session (fs_fetcher s) = Some ses ->
  let max_bytes := max_page_bytes (fetch (fe_settings (fs_fetcher s))) in
  let '(o, elapsed, ses') := session_get url headers ses in
  exists reg, snd (fetch_once url headers s) =
      mkFetchState (mkFetcher (fe_settings (fs_fetcher s)) (Some ses') (fe_owns_session (fs_fetcher s))) reg (fs_sleeps s) /\
    sample ACTIVE_FETCHES reg = sample ACTIVE_FETCHES (fs_reg s) /\
    match o with
    | Responded resp => exists r, fst (fetch_once url headers s) = Ok r /\ fr_error r = None /\
        fr_status r = rs_status resp /\ fr_final_url r = rs_url resp /\
        fr_body r = capped_body max_bytes (rs_content resp)
    | Failed e => fst (fetch_once url headers s) = Ok (error_result url elapsed (Some e))
    | Crashed e => fst (fetch_once url headers s) = Raise e
    end.
Proof.
  intros Hs. cbv zeta. destruct (session_get url headers ses) as [[o elapsed] ses'] eqn:E.
  unfold fetch_once, abind, aget, on_reg, amodify, request, aret, araise. cbn.
  rewrite Hs, E. cbn.
  destruct o as [resp|e|e]; cbn; eexists; (split; [reflexivity|]); (split; [metrics; lia|]); try done.
  eexists. by split_and!.
Qed.

(** The attempts of the loop from number [a] on. *)
Lemma fetch_loop_spec n a url headers last s ses0 retries :
  retries = Config.retries (fetch (fe_settings (fs_fetcher s))) ->
  fe_session (fs_fetcher s) = Some (session_after a url headers ses0) ->
  Z.of_nat (a + n) = retries + 1 -> Z.of_nat a <= 1024 ->
  let '(r, s') := fetch_loop n a retries url headers last s in
  sample ACTIVE_FETCHES (fs_reg s') = sample ACTIVE_FETCHES (fs_reg s) /\
  exists k, (k <= n)%nat /\ (forall i, (i < k)%nat -> failed (outcome_at (a + i) url headers ses0)) /\
    Z.of_nat (a + if decide (k = n) then Nat.pred n else k) <= 1024 /\
    fs_sleeps s' = fs_sleeps s ++ (delay <$> seq a (if decide (k = n) then Nat.pred n else k)) /\
    ((k < n)%nat /\
       match outcome_at (a + k) url headers ses0 with
       | Responded resp => exists x, r = Ok x /\ fr_error x = None /\ fr_status x = rs_status resp /\
           fr_final_url x = rs_url resp /\
           fr_body x = capped_body (max_page_bytes (fetch (fe_settings (fs_fetcher s)))) (rs_content resp)
       | Failed _ => (S k < n)%nat /\ Z.of_nat (a + k) = 1024 /\ r = Raise overflow
       | Crashed e => r = Raise e
       end \/
     k = n /\ exists e, r = Ok (error_result url 0 e) /\
       (n = 0%nat /\ e = last \/ n <> 0%nat /\ exists e', e = Some e' /\ outcome_at (a + Nat.pred n) url headers ses0 = Failed e')).
Proof.
  revert a last s. induction n as [|n IH]; intros a last s Hret Hses Hn Ha.
  { cbn [fetch_loop aret]. split; [done|]. exists 0%nat. rewrite decide_True by done.
    split_and!; [lia|lia|cbn; lia|by rewrite app_nil_r|]. right. split; [done|]. eauto. }
  cbn [fetch_loop]. unfold abind at 1.
  pose proof (fetch_once_spec url headers s _ Hses) as Hone. cbv zeta in Hone.
  assert (outcome_at a url headers ses0 = (session_get url headers (session_after a url headers ses0)).1.1) as Ho by done.
  assert (session_after (S a) url headers ses0 = (session_get url headers (session_after a url headers ses0)).2) as Hsa by done.
  destruct (session_get url headers (session_after a url headers ses0)) as [[o elapsed] ses'] eqn:E.
  destruct Hone as (reg & Es & Hg & Hr). destruct (fetch_once url headers s) as [r s1]. cbn [fst snd] in *. subst s1 o.
  destruct (outcome_at a url headers ses0) as [resp|e|e] eqn:Eo.
  - destruct Hr as (x & -> & He & Hx). cbn [fs_reg]. rewrite He. cbn. split; [done|].
    exists 0%nat. rewrite decide_False by done. rewrite Nat.add_0_r, Eo. split_and!; [lia|lia|lia|by rewrite app_nil_r|]. left. split; [lia|]. exists x. tauto.
  - subst r. cbn [error_result fr_error].
    set (s1 := mkFetchState _ _ _).
    unfold backoff. destruct (decide (Z.of_nat a = 1024 /\ Z.of_nat a < retries)) as [[E1024 Hlast]|Hgo].
    { rewrite (proj2 (Z.ltb_lt (Z.of_nat a) retries)), (proj2 (Z.ltb_ge (Z.of_nat a) 1024)) by lia. cbn. split; [done|].
      exists 0%nat. rewrite decide_False by done. rewrite Nat.add_0_r, Eo. split_and!; [lia|lia|lia|by rewrite app_nil_r|]. left. split_and!; [lia|lia|done|done]. }
    assert (exists s2, (if Z.of_nat a <? retries then let! d := alift (if Z.of_nat a <? 1024 then Ok (delay a) else Raise overflow) in sleep d
        else aret tt) s1 = (Ok tt, s2) /\
      fs_fetcher s2 = fs_fetcher s1 /\ fs_reg s2 = reg /\
      fs_sleeps s2 = fs_sleeps s ++ (if decide (n = 0%nat) then [] else [delay a])) as (s2 & E2 & Hf2 & Hr2 & Hs2).
    { destruct (Z.ltb_spec (Z.of_nat a) retries).
      - rewrite (proj2 (Z.ltb_lt (Z.of_nat a) 1024)) by lia. eexists. split; [done|]. cbn. split_and!; [done..|]. by rewrite decide_False by lia.
      - exists s1. split; [done|]. split_and!; [done..|]. rewrite decide_True by lia. by rewrite app_nil_r. }
    unfold abind at 1. rewrite E2. specialize (IH (S a) (Some e) s2).
    rewrite Hf2 in IH. cbn [s1 fs_fetcher fe_settings fe_session] in IH.
    destruct (decide (n = 0%nat)) as [->|Hn0].
    { rewrite app_nil_r in Hs2. cbn [fetch_loop aret]. split; [congruence|]. exists 1%nat. rewrite decide_True by done.
      split_and!; [lia|intros [|i] Hlt; [rewrite Nat.add_0_r; by exists e|lia]|cbn; lia|cbn; by rewrite app_nil_r|].
      right. split; [done|]. exists (Some e). split; [done|]. right. split; [done|]. exists e. split; [done|]. cbn. by rewrite Nat.add_0_r. }
    specialize (IH Hret ltac:(by rewrite Hsa) ltac:(lia) ltac:(lia)).
    destruct (fetch_loop n (S a) retries url headers (Some e) s2) as [r s'].
    destruct IH as (Hg' & k & Hk & Hi & Hle & Hsl & Hcase). split; [congruence|]. exists (S k). split; [lia|]. split.
    { intros [|i] Hlt; [rewrite Nat.add_0_r; by exists e|]. rewrite <- Nat.add_succ_comm. apply Hi. lia. }
    split.
    { destruct (decide (k = n)); [rewrite decide_True by lia|rewrite decide_False by lia]; lia. }
    split.
    + rewrite Hsl, Hs2, <- app_assoc. f_equal.
      destruct (decide (k = n)) as [->|].
      * rewrite decide_True by done. by destruct n.
      * rewrite decide_False by lia. done.
    + destruct Hcase as [[Hlt Hc]|(-> & e2 & -> & Hc)].
      * left. split; [lia|]. rewrite <- Nat.add_succ_comm. destruct (outcome_at (S a + k) url headers ses0); [done| |done].
        split; [lia|tauto].
      * right. split; [done|]. exists e2. split; [done|]. right. cbn [Nat.pred].
        split; [done|]. destruct Hc as [[-> _]|(_ & e' & -> & Hc)]; [done|].
        exists e'. split; [done|]. destruct n as [|n]; [done|]. cbn [Nat.pred] in *.
        by rewrite <- Nat.add_succ_comm.
  - subst r. cbn. split; [done|].
    exists 0%nat. rewrite decide_False by done. rewrite Nat.add_0_r, Eo. split_and!; [lia|lia|lia|by rewrite app_nil_r|]. left. split; [lia|]. done.
Qed.

(** The whole of [fetch_url]: [k] is the attempt that decides. *)
Lemma fetch_url_spec url headers s ses :
  fe_session (fs_fetcher s) = Some ses -> 0 <= Config.retries (fetch (fe_settings (fs_fetcher s))) ->
  let n := Z.to_nat (Config.retries (fetch (fe_settings (fs_fetcher s)))) in
  let cap := max_page_bytes (fetch (fe_settings (fs_fetcher s))) in
  exists k, (k <= n)%nat /\ Z.of_nat k <= 1024 /\ (forall i, (i < k)%nat -> failed (outcome_at i url headers ses)) /\
    fs_sleeps (snd (fetch_url url headers s)) = fs_sleeps s ++ (delay <$> seq 0 k) /\
    match outcome_at k url headers ses with
    | Responded resp => exists x, fst (fetch_url url headers s) = Ok x /\ fr_error x = None /\
        fr_status x = rs_status resp /\ fr_final_url x = rs_url resp /\ fr_body x = capped_body cap (rs_content resp)
    | Failed e => k = n /\ fst (fetch_url url headers s) = Ok (error_result url 0 (Some e)) \/
        (k < n)%nat /\ Z.of_nat k = 1024 /\ fst (fetch_url url headers s) = Raise overflow
    | Crashed e => fst (fetch_url url headers s) = Raise e
    end.
Proof.
  intros Hs Hr n cap. unfold fetch_url, abind, aget.
  set (retries := Config.retries (fetch (fe_settings (fs_fetcher s)))) in *.
  pose proof (fetch_loop_spec (Z.to_nat (retries + 1)) 0 url headers None s ses retries eq_refl Hs ltac:(lia) ltac:(lia)) as H'.
  destruct (fetch_loop (Z.to_nat (retries + 1)) 0 retries url headers None s) as [r s'].
  destruct H' as (_ & k & Hk & Hi & Hle & Hsl & Hcase). cbn [fst snd Nat.add] in *.
  assert (S n = Z.to_nat (retries + 1)) as En by (unfold n; fold retries; lia). rewrite <- En in *. cbn [Nat.pred] in *.
  destruct Hcase as [[Hlt Hc]|(-> & e & -> & Hc)].
  - rewrite decide_False in Hsl, Hle by lia. exists k. split_and!; [lia|done|done|done|].
    destruct (outcome_at k url headers ses); [done| |done]. right. split; [lia|tauto].
  - rewrite decide_True in Hsl, Hle by done. exists n. split_and!; [done|done|intros i Hlt; apply Hi; lia|done|].
    destruct Hc as [[? ?]|(_ & e' & -> & Ho)]; [done|]. rewrite Ho. by left.
Qed.

(** C30: [fetch] on an open session with [retries >= 0].  It makes at most
    [retries + 1] requests and stops at the first that does not fail with a
    client error or a timeout, sleeping [min(2^i / 4, 5)] seconds after failed
    attempt [i] when another one follows.  A response is returned with its
    status, final URL and capped body and no error; if every attempt failed
    the result has status 0, an empty body and the last error; any other
    exception propagates.  The one limit is that of a float: when attempt 1024
    fails and another one is to follow, computing its sleep raises. *)
Theorem fetch_outcome url headers s ses :
  fe_session (fs_fetcher s) = Some ses -> 0 <= Config.retries (fetch (fe_settings (fs_fetcher s))) ->
  let n := Z.to_nat (Config.retries (fetch (fe_settings (fs_fetcher s)))) in
  let cap := max_page_bytes (fetch (fe_settings (fs_fetcher s))) in
  exists k, (k <= n)%nat /\ Z.of_nat k <= 1024 /\ (forall i, (i < k)%nat -> failed (outcome_at i url headers ses)) /\
    fs_sleeps (snd (fetch_url url headers s)) = fs_sleeps s ++ (delay <$> seq 0 k) /\
    match outcome_at k url headers ses with
    | Responded resp => exists x, fst (fetch_url url headers s) = Ok x /\ fr_error x = None /\
        fr_status x = rs_status resp /\ fr_final_url x = rs_url resp /\ fr_body x = capped_body cap (rs_content resp)
    | Failed e => k = n /\ fst (fetch_url url headers s) = Ok (error_result url 0 (Some e)) \/
        (k < n)%nat /\ Z.of_nat k = 1024 /\ fst (fetch_url url headers s) = Raise overflow
    | Crashed e => fst (fetch_url url headers s) = Raise e
    end.
Proof. apply fetch_url_spec. Qed.

(** The in-flight gauge has its old value after [fetch], whether it
    returned or raised, with a session or without. *)
Theorem fetch_gauge url headers s :
  sample ACTIVE_FETCHES (fs_reg (snd (fetch_url url headers s))) = sample ACTIVE_FETCHES (fs_reg s).
Proof.
  unfold fetch_url, abind, aget. generalize (Config.retries (fetch (fe_settings (fs_fetcher s)))). intros retries.
  generalize (@None string), 0%nat, (Z.to_nat (retries + 1)). intros last a n. revert last a s.
  induction n as [|n IH]; intros last a s; [done|]. cbn [fetch_loop]. unfold abind at 1.
  assert (sample ACTIVE_FETCHES (fs_reg (snd (fetch_once url headers s))) = sample ACTIVE_FETCHES (fs_reg s)) as H1.
  { unfold fetch_once, abind, aget, on_reg, amodify, request, aret, araise. cbn.
    destruct (fe_session (fs_fetcher s)) as [ses|]; cbn; [|metrics; lia].
    destruct (session_get url headers ses) as [[[resp|e|e] el] ses']; cbn; metrics; lia. }
  destruct (fetch_once url headers s) as [[x|e] s1]; cbn in *; [|done].
  destruct (fr_error x); [|done]. unfold abind.
  destruct (Z.of_nat a <? retries); [unfold alift; destruct (backoff a)|]; cbn; rewrite ?IH; done.
Qed.

(** Closing succeeds when closing a session does. *)
Lemma close_ok (f : Fetcher Session) : (forall ses : Session, is_ok (session_close ses) = true) -> exists f', close f = Ok f'.
Proof.
  intros Hc. unfold close. destruct (fe_session f) as [ses|]; [|by eexists]. destruct (fe_owns_session f); [|by eexists].
  specialize (Hc ses). destruct (session_close ses); [by eexists|done].
Qed.

(** Without a session every fetch raises before it sends anything. *)
Lemma fetch_closed url headers s :
  fe_session (fs_fetcher s) = None -> 0 <= Config.retries (fetch (fe_settings (fs_fetcher s))) ->
  fst (fetch_url url headers s) = Raise RuntimeError /\ fs_fetcher (snd (fetch_url url headers s)) = fs_fetcher s.
Proof.
  intros Hs Hr. unfold fetch_url, abind, aget. generalize Hr. generalize (Config.retries (fetch (fe_settings (fs_fetcher s)))).
  intros retries Hret. replace (Z.to_nat (retries + 1)) with (S (Z.to_nat retries)) by lia.
  cbn [fetch_loop]. unfold fetch_once, abind, aget, on_reg, amodify, request, araise. cbn. rewrite Hs. done.
Qed.

Context `{!AiohttpLaws Session content}.

Lemma prefix_app a b : startswith a b = true -> exists c, b = a +:+ c.
Proof.
  unfold startswith. revert b. induction a as [|x a IH]; intros b; [by exists b|]. destruct b as [|y b]; [done|].
  cbn. destruct (Ascii.ascii_dec x y) as [->|]; [|done]. intros (c & ->)%IH. by exists c.
Qed.

Lemma startswith_app a b : startswith a (a +:+ b) = true.
Proof.
  unfold startswith. induction a as [|d a IH]; [by destruct b|].
  change (String d a +:+ b) with (String d (a +:+ b)). cbn [String.prefix].
  by destruct (Ascii.ascii_dec d d).
Qed.

Lemma scut_prefix n s : startswith (scut n s) s = true /\ Z.of_nat (String.length (scut n s)) <= Z.max 0 n.
Proof.
  unfold scut, startswith. rewrite <- (Z2Nat.id (Z.max 0 n)) by lia.
  replace (Z.to_nat (Z.max 0 n)) with (Z.to_nat n) by lia. generalize (Z.to_nat n). intros k.
  revert s. induction k as [|k IH]; intros [|c s]; cbn; try done.
  destruct (IH s) as [IH1 IH2]. destruct (Ascii.ascii_dec c c); [|done]. split; [done|]. cbn in *. lia.
Qed.

Lemma startswith_trans a b c : startswith a b = true -> startswith b c = true -> startswith a c = true.
Proof.
  intros (x & ->)%prefix_app (y & ->)%prefix_app. rewrite append_assoc. apply startswith_app.
Qed.

(** The body of a response is a prefix of what the server sends, of at most
    [max_page_bytes] bytes. *)
Theorem fetch_body_cap cap (c : content) : 0 <= cap ->
  startswith (capped_body cap c) (content_bytes c) = true /\
  Z.of_nat (String.length (capped_body cap c)) <= cap.
Proof.
  intros Hc. destruct (content_read_prefix (cap + 1) c ltac:(lia)) as [Hp Hl]. unfold capped_body.
  destruct (Z.ltb_spec cap (Z.of_nat (String.length (content_read (cap + 1) c)))).
  - destruct (scut_prefix cap (content_read (cap + 1) c)) as [Hp' Hl']. split; [by eapply startswith_trans|lia].
  - done.
Qed.

End FetchTheorems.

(** ** Concrete instances *)

(** A network that answers from a list of outcomes; a body arrives in chunks
    and [read(n)] returns what has arrived, the first one. *)
Definition scripted : Aiohttp (list (outcome (list string))) (list string) := {|
  make_session := fun _ => [];
  session_get := fun _ _ l => match l with o :: l' => (o, 1%Q, l') | [] => (Failed "refused", 1%Q, []) end;
  content_read := fun n c => match c with x :: _ => scut n x | [] => "" end;
  session_close := Ok;
  content_bytes := fun c => foldr String.append "" c |}.

Lemma scripted_laws : @AiohttpLaws _ _ scripted.
Proof.
  intros n c Hn. destruct c as [|x c]; cbn; [by split; [|lia]|].
  destruct (scut_prefix n x) as [Hp Hl]. split; [|lia]. eapply startswith_trans; [done|].
  apply startswith_app.
Qed.

Definition page (body : list string) : outcome (list string) :=
  Responded (mkResponse 200 "http://a.org/" [("content-type", "text/html")] body).
Definition open_on (l : list (outcome (list string))) : fetch_state (list (outcome (list string))) :=
  mkFetchState (mkFetcher default_settings (Some l) true) ∅ [].

Lemma fetch_outcome_witness :
  let s := open_on [Failed "timeout"; Failed "reset"; page ["hello"]] in
  let _ := scripted in
  (exists x, fst (fetch_url "http://a.org/" None s) = Ok x /\ fr_body x = "hello") /\
  (length (fs_sleeps (snd (fetch_url "http://a.org/" None s))) = 2)%nat.
Proof.
  cbv zeta.
  destruct (@fetch_outcome _ _ scripted "http://a.org/" None (open_on [Failed "timeout"; Failed "reset"; page ["hello"]])
              [Failed "timeout"; Failed "reset"; page ["hello"]] eq_refl) as (k & Hk & _ & Hi & Hs & Hc).
  - vm_compute. discriminate.
  - cbn in Hk. assert (k = 2%nat) as ->.
    { destruct k as [|[|[|k]]]; [| |reflexivity|exfalso; clear -Hk; lia].
      - exfalso. destruct Hc as [[Hc _]|(_ & Hc & _)]; discriminate Hc.
      - exfalso. destruct Hc as [[Hc _]|(_ & Hc & _)]; discriminate Hc. }
    split.
    + destruct Hc as (x & E & _ & _ & _ & Hb). exists x. split; [exact E|exact Hb].
    + rewrite Hs. reflexivity.
Defined.

Lemma fetch_body_cap_witness :
  @capped_body _ _ scripted 3 ["hello"] = "hel" /\
  Z.of_nat (String.length (@capped_body _ _ scripted 3 ["hello"])) <= 3.
Proof.
  split; [reflexivity|].
  exact (proj2 (@fetch_body_cap _ _ scripted scripted_laws 3 ["hello"] ltac:(lia))).
Defined.

(** A body that arrives in two chunks is stored as its first one, far below
    the cap: [read(n)] does not wait for [n] bytes. *)
Example fetch_short_read : let _ := scripted in
  exists x, fst (fetch_url "http://a.org/" None (open_on [page ["<html>first"; "second</html>"]])) = Ok x /\
    fr_error x = None /\ fr_body x = "<html>first".
Proof. eexists. repeat split. Qed.
