(* ===== verification/Storage.v ===== *)
(** * Documents, links and queries ([crawler/storage/repositories.py], [orm.py], [sinks.py])

    The tables are lists of rows in insertion order, with the counters that
    allot their ids; every SQL statement the repositories build is a function
    on them.  [func.now()] is the field [db_now].  The order in which ORDER BY
    leaves equal rows is the database's: the class [OrderBy].  [db_next_doc] is
    the next id of a new row: that PostgreSQL's sequence also skips one for each
    insert that becomes an update, and the foreign key from a document to its
    crawl, are not modelled.

    [save_page_invariant]: unique URLs, unique edges and valid references
    survive every save; [save_page_idempotent]: saving a page twice is saving
    it once; [save_page_reads_back]; [degrees_account_for_edges];
    [select_stale_stalest]; [to_signed64_bijection]. *)
From S2P Require Import Prelude PyStr Models.
Local Open Scope Z_scope.

(** ** [orm.py] *)

Record Crawl : Type := mkCrawl {
  c_id : Z; c_name : string; c_seeds : list string; c_status : string; c_max_depth : Z; c_max_pages : Z;
  c_allowed_domains : option (list string); c_created_at : Q; c_updated_at : Q }.

Record Document : Type := mkDocument {
  d_id : Z; d_url : string; d_registered_domain : string; d_http_status : option Z;
  d_content_type : option string; d_content_length : option Z; d_title : option string;
  d_content_hash : option string; d_simhash : option Z; d_storage_key : option string;
  d_etag : option string; d_last_modified : option string; d_depth : Z; d_in_degree : Z; d_out_degree : Z;
  d_crawl_id : option Z; d_first_seen : Q; d_last_crawled : option Q }.

Record LinkEdge : Type := mkEdge {
  e_id : Z; e_src_document_id : Z; e_dst_url : string; e_anchor_text : option string }.

Record PageBody : Type := mkBody {
  b_content_hash : string; b_body : string; b_content_type : option string; b_size : Z; b_created_at : Q }.

Record DB : Type := mkDB {
  db_crawls : list Crawl; db_documents : list Document; db_edges : list LinkEdge; db_bodies : list PageBody;
  db_next_crawl : Z; db_next_doc : Z; db_next_edge : Z; db_now : Q }.

Definition empty_db : DB := mkDB [] [] [] [] 1 1 1 0.
Definition set_documents (db : DB) (ds : list Document) (next : Z) : DB :=
  mkDB (db_crawls db) ds (db_edges db) (db_bodies db) (db_next_crawl db) next (db_next_edge db) (db_now db).
Definition set_edges (db : DB) (es : list LinkEdge) (next : Z) : DB :=
  mkDB (db_crawls db) (db_documents db) es (db_bodies db) (db_next_crawl db) (db_next_doc db) next (db_now db).

(** ** [repositories.py] *)

(** [value & _U64], then the two's complement reading. *)
Definition to_signed64 (value : option Z) : option Z :=
  match value with
  | None => None
  | Some v =>
      let v := Z.land v (2 ^ 64 - 1) in
      Some (if 2 ^ 63 <=? v then v - 2 ^ 64 else v)
  end.

(** The row an insert would create. *)
Definition new_document (r : PageRecord) (id : Z) (now : Q) : Document :=
  mkDocument id (pr_url r) (pr_registered_domain r) (pr_http_status r) (pr_content_type r) (pr_content_length r)
    (pr_title r) (pr_content_hash r) (to_signed64 (pr_simhash r)) (pr_storage_key r) (pr_etag r) (pr_last_modified r)
    (pr_depth r) 0 (Z.of_nat (length (pr_links r))) (pr_crawl_id r) now (Some now).

(** [_DOC_UPDATE_COLUMNS]: the columns taken from the refused row. *)
Definition update_document (excluded d : Document) : Document :=
  mkDocument (d_id d) (d_url d) (d_registered_domain d) (d_http_status excluded) (d_content_type excluded)
    (d_content_length excluded) (d_title excluded) (d_content_hash excluded) (d_simhash excluded)
    (d_storage_key excluded) (d_etag excluded) (d_last_modified excluded) (d_depth excluded) (d_in_degree d)
    (d_out_degree excluded) (d_crawl_id excluded) (d_first_seen d) (d_last_crawled excluded).

Definition find_url (url : string) (ds : list Document) : option Document :=
  List.find (fun d => bool_decide (d_url d = url)) ds.

(** INSERT ... ON CONFLICT (url) DO UPDATE ... RETURNING id. *)
Definition upsert_document (r : PageRecord) (db : DB) : Z * DB :=
  let row := new_document r (db_next_doc db) (db_now db) in
  match find_url (pr_url r) (db_documents db) with
  | Some d =>
      (d_id d, set_documents db
                 ((fun d => if bool_decide (d_url d = pr_url r) then update_document row d else d) <$> db_documents db)
                 (db_next_doc db))
  | None => (db_next_doc db, set_documents db (db_documents db ++ [row]) (db_next_doc db + 1))
  end.

Definition edge_exists (src : Z) (dst : string) (es : list LinkEdge) : bool :=
  existsb (fun e => bool_decide (e_src_document_id e = src) && bool_decide (e_dst_url e = dst)) es.

(** One row of INSERT ... ON CONFLICT (src_document_id, dst_url) DO NOTHING. *)
Definition add_edge (src : Z) (db : DB) (l : Link) : DB :=
  if edge_exists src (link_url l) (db_edges db) then db
  else set_edges db (db_edges db ++ [mkEdge (db_next_edge db) src (link_url l) (link_anchor l)]) (db_next_edge db + 1).

Definition add_link_edges (src : Z) (links : list Link) (db : DB) : DB := fold_left (add_edge src) links db.

Definition get_validators (url : string) (db : DB) : option (option string * option string) :=
  (fun d => (d_etag d, d_last_modified d)) <$> find_url url (db_documents db).

(** [GraphRepository.recompute_degrees]: two UPDATE statements. *)
Definition out_edges (d : Document) (es : list LinkEdge) : Z :=
  Z.of_nat (length (filter (fun e => e_src_document_id e = d_id d) es)).
Definition in_edges (d : Document) (es : list LinkEdge) : Z :=
  Z.of_nat (length (filter (fun e => e_dst_url e = d_url d) es)).
Definition set_degrees (o i : Z) (d : Document) : Document :=
  mkDocument (d_id d) (d_url d) (d_registered_domain d) (d_http_status d) (d_content_type d) (d_content_length d)
    (d_title d) (d_content_hash d) (d_simhash d) (d_storage_key d) (d_etag d) (d_last_modified d) (d_depth d)
    i o (d_crawl_id d) (d_first_seen d) (d_last_crawled d).
Definition recompute_degrees (db : DB) : DB :=
  let ds := (fun d => set_degrees (out_edges d (db_edges db)) (d_in_degree d) d) <$> db_documents db in
  let ds := (fun d => set_degrees (d_out_degree d) (in_edges d (db_edges db)) d) <$> ds in
  set_documents db ds (db_next_doc db).

(** ORDER BY: a permutation sorted by a total preorder; the order of equal rows
    is not specified. *)
Class OrderBy := order_by : forall {A : Type}, (A -> A -> bool) -> list A -> list A.
Class OrderByLaws `{OrderBy} := {
  order_by_perm {A} (le : A -> A -> bool) l : order_by le l ≡ₚ l;
  order_by_sorted {A} (le : A -> A -> bool) l :
    (forall x y, le x y = true \/ le y x = true) ->
    (forall x y z, le x y = true -> le y z = true -> le x z = true) ->
    Sorted (fun x y => le x y = true) (order_by le l) }.

Section Queries.
Context `{OrderBy}.

(** LIMIT n OFFSET m. *)
Definition limit_offset {A} (limit offset : Z) (l : list A) : list A :=
  take (Z.to_nat limit) (drop (Z.to_nat offset) l).

Definition top_by_in_degree (limit : Z) (db : DB) : list (string * Z) :=
  (fun d => (d_url d, d_in_degree d)) <$>
    take (Z.to_nat limit) (order_by (fun a b => d_in_degree b <=? d_in_degree a) (db_documents db)).

(** GROUP BY with count, in no order. *)
Definition group_count {A} `{EqDecision A} (keys : list A) : list (A * Z) :=
  (fun k => (k, Z.of_nat (length (filter (fun x => x = k) keys)))) <$> remove_dups keys.

Definition document_count (db : DB) : Z := Z.of_nat (length (db_documents db)).
Definition edge_count (db : DB) : Z := Z.of_nat (length (db_edges db)).
Definition domain_count (db : DB) : Z :=
  Z.of_nat (length (remove_dups (d_registered_domain <$> db_documents db))).
Definition near_duplicate_count (db : DB) : Z :=
  Z.of_nat (length (filter (fun kc => 1 < kc.2) (group_count (omap d_content_hash (db_documents db))))).
Definition status_histogram (db : DB) : list (option Z * Z) :=
  order_by (fun a b => b.2 <=? a.2) (group_count (d_http_status <$> db_documents db)).
Definition domain_summary (limit : Z) (db : DB) : list (string * Z) :=
  take (Z.to_nat limit)
    (order_by (fun a b => b.2 <=? a.2) (group_count (d_registered_domain <$> db_documents db))).
Definition get_document (doc_id : Z) (db : DB) : option Document :=
  List.find (fun d => d_id d =? doc_id) (db_documents db).
Definition document_links (doc_id limit : Z) (db : DB) : list (string * option string) :=
  take (Z.to_nat limit)
    ((fun e => (e_dst_url e, e_anchor_text e)) <$> filter (fun e => e_src_document_id e = doc_id) (db_edges db)).

(** [list_documents]; ILIKE is the predicate [ilike pattern text]. *)
Definition document_filter (ilike : string -> string -> bool) (domain q : option string) (d : Document) : bool :=
  (match domain with Some x => negb (truthy x) || bool_decide (d_registered_domain d = x) | None => true end) &&
  (match q with
   | Some x => negb (truthy x) ||
       (let pattern := "%" +:+ x +:+ "%" in
        ilike pattern (d_url d) || match d_title d with Some t => ilike pattern t | None => false end)
   | None => true
   end).
Definition list_documents (ilike : string -> string -> bool) (limit offset : Z) (domain q : option string) (db : DB) :
    list Document * Z :=
  let matching := List.filter (document_filter ilike domain q) (db_documents db) in
  (limit_offset limit offset (order_by (fun a b => d_id b <=? d_id a) matching), Z.of_nat (length matching)).

Definition list_crawls (limit : Z) (db : DB) : list (Crawl * Z) :=
  (fun c => (c, Z.of_nat (length (filter (fun d => d_crawl_id d = Some (c_id c)) (db_documents db))))) <$>
    take (Z.to_nat limit) (order_by (fun a b => c_id b <=? c_id a) (db_crawls db)).

(** [RecrawlRepository.select_stale]; NULLs first, then oldest first. *)
Definition stale_le (a b : Document) : bool :=
  match d_last_crawled a, d_last_crawled b with
  | None, _ => true
  | Some _, None => false
  | Some x, Some y => Qle_bool x y
  end.
Definition is_stale (cutoff : Q) (d : Document) : bool :=
  match d_last_crawled d with None => true | Some t => Qltb t cutoff end.
Definition stale_rows (older_than_seconds : Q) (limit : Z) (db : DB) : list Document :=
  let cutoff := (db_now db - older_than_seconds)%Q in
  take (Z.to_nat limit) (order_by stale_le (List.filter (is_stale cutoff) (db_documents db))).
Definition select_stale (older_than_seconds : Q) (limit : Z) (db : DB) : list (string * Z * option Z) :=
  (fun d => (d_url d, d_depth d, d_crawl_id d)) <$> stale_rows older_than_seconds limit db.

End Queries.

(** ** [sinks.py] *)

(** The protocol [DocumentSink]. *)
Class DocumentSink (St : Type) := {
  save_page : PageRecord -> St -> result St;
  sink_validators : string -> St -> result (option (option string * option string)) }.

Record InMemoryDocumentSink : Type := mkMemSink {
  ms_pages : list PageRecord; ms_validators : gmap string (option string * option string) }.

Definition opt_truthy (o : option string) : bool := match o with Some s => truthy s | None => false end.

#[export] Instance memory_sink : DocumentSink InMemoryDocumentSink := {|
  save_page := fun r s =>
    Ok (mkMemSink (ms_pages s ++ [r])
          (if opt_truthy (pr_etag r) || opt_truthy (pr_last_modified r)
           then <[pr_url r := (pr_etag r, pr_last_modified r)]> (ms_validators s) else ms_validators s));
  sink_validators := fun url s => Ok (ms_validators s !! url) |}.

(** [SqlDocumentSink.save_page]: one transaction. *)
Definition sql_save_page (r : PageRecord) (db : DB) : DB :=
  let '(src_id, db) := upsert_document r db in add_link_edges src_id (pr_links r) db.

#[export] Instance sql_sink : DocumentSink DB := {|
  save_page := fun r db => Ok (sql_save_page r db);
  sink_validators := fun url db => Ok (get_validators url db) |}.

(** ** Integers *)

(** The signed encoding of a fingerprint fits a BIGINT, is congruent to it
    modulo 2^64 (so distinct 64-bit fingerprints stay distinct and the
    unsigned value can be recovered), and keeps the value below 2^63. *)
Theorem to_signed64_bijection v : 0 <= v < 2 ^ 64 ->
  exists s, to_signed64 (Some v) = Some s /\ - 2 ^ 63 <= s < 2 ^ 63 /\ s mod 2 ^ 64 = v /\
    (v < 2 ^ 63 -> s = v) /\
    (forall v', 0 <= v' < 2 ^ 64 -> to_signed64 (Some v') = Some s -> v' = v).
Proof.
  assert (forall v, 0 <= v < 2 ^ 64 -> Z.land v (2 ^ 64 - 1) = v) as Hl.
  { intros w Hw. change (2 ^ 64 - 1) with (Z.ones 64). rewrite Z.land_ones by lia. by apply Z.mod_small. }
  intros Hv. unfold to_signed64. rewrite Hl by done. eexists. split; [reflexivity|].
  destruct (Z.leb_spec (2 ^ 63) v); (split; [lia|]); split.
  - symmetry. apply (Z.mod_unique_pos _ _ (-1) v); lia.
  - split; [lia|]. intros v' Hv'. rewrite Hl by done. destruct (Z.leb_spec (2 ^ 63) v'); intros [= E]; lia.
  - by apply Z.mod_small.
  - split; [done|]. intros v' Hv'. rewrite Hl by done. destruct (Z.leb_spec (2 ^ 63) v'); intros [= E]; lia.
Qed.

(** ** The invariant of the tables *)

Definition edge_key (e : LinkEdge) : Z * string := (e_src_document_id e, e_dst_url e).

Record db_wf (db : DB) : Prop := {
  wf_urls : NoDup (d_url <$> db_documents db);
  wf_ids : NoDup (d_id <$> db_documents db);
  wf_next : Forall (fun d => d_id d < db_next_doc db) (db_documents db);
  wf_edges : NoDup (edge_key <$> db_edges db);
  wf_next_edge : Forall (fun e => e_id e < db_next_edge db) (db_edges db);
  wf_refs : Forall (fun e => e_src_document_id e ∈ d_id <$> db_documents db) (db_edges db) }.

Lemma find_url_Some url ds d : find_url url ds = Some d -> d ∈ ds /\ d_url d = url.
Proof. intros [Hin Hu]%List.find_some. split; [by apply list_elem_of_In|]. by apply bool_decide_eq_true in Hu. Qed.

Lemma find_url_None url ds : find_url url ds = None <-> url ∉ d_url <$> ds.
Proof.
  split.
  - intros Hf (d & -> & Hd)%list_elem_of_fmap. apply list_elem_of_In in Hd.
    eapply List.find_none in Hd; [|exact Hf]. by apply bool_decide_eq_false in Hd.
  - intros Hn. destruct (find_url url ds) as [d|] eqn:E; [|done]. apply find_url_Some in E as [Hd <-].
    destruct Hn. by apply list_elem_of_fmap_2.
Qed.

Lemma find_url_unique ds d : NoDup (d_url <$> ds) -> d ∈ ds -> find_url (d_url d) ds = Some d.
Proof.
  intros Hd Hin. destruct (find_url (d_url d) ds) as [x|] eqn:E.
  - apply find_url_Some in E as [Hx Hu]. f_equal.
    apply list_elem_of_lookup in Hin as [i Hi]. apply list_elem_of_lookup in Hx as [j Hj].
    assert (i = j) as ->; [|congruence].
    apply (NoDup_lookup _ _ _ (d_url d) Hd); rewrite list_lookup_fmap; [by rewrite Hi|by rewrite Hj, <- Hu].
  - apply find_url_None in E. destruct E. by apply list_elem_of_fmap_2.
Qed.

Lemma find_url_app url ds ds' :
  find_url url (ds ++ ds') = match find_url url ds with Some d => Some d | None => find_url url ds' end.
Proof. unfold find_url. induction ds as [|d ds IH]; [done|]. cbn. by destruct (bool_decide _). Qed.

(** What the upsert leaves of a row. *)
Definition touched (row : Document) (url : string) (d : Document) : Document :=
  if bool_decide (d_url d = url) then update_document row d else d.

Lemma touched_id row url d : d_id (touched row url d) = d_id d /\ d_url (touched row url d) = d_url d.
Proof. unfold touched. by case_bool_decide. Qed.

Lemma upsert_wf r db : db_wf db ->
  db_wf (upsert_document r db).2 /\ (upsert_document r db).1 ∈ d_id <$> db_documents (upsert_document r db).2.
Proof.
  intros [U I Nx E Ne Rf]. unfold upsert_document.
  destruct (find_url (pr_url r) (db_documents db)) as [d|] eqn:Ef; cbn [fst snd].
  - set (row := new_document _ _ _).
    assert (forall ds : list Document, d_id <$> (touched row (pr_url r) <$> ds) = d_id <$> ds) as Hid.
    { intros ds. rewrite <- list_fmap_compose. apply list_fmap_ext. intros ? ? _. apply touched_id. }
    assert (forall ds : list Document, d_url <$> (touched row (pr_url r) <$> ds) = d_url <$> ds) as Hurl.
    { intros ds. rewrite <- list_fmap_compose. apply list_fmap_ext. intros ? ? _. apply touched_id. }
    fold (touched row (pr_url r)). split.
    + split; cbn [set_documents db_documents db_next_doc db_edges db_next_edge]; rewrite ?Hid, ?Hurl; try done.
      apply Forall_fmap. eapply Forall_impl; [exact Nx|]. intros x Hx. cbn. by rewrite (proj1 (touched_id _ _ _)).
    + cbn [set_documents db_documents]. rewrite Hid. apply list_elem_of_fmap_2. exact (proj1 (find_url_Some _ _ _ Ef)).
  - apply find_url_None in Ef. split.
    + split; cbn [set_documents db_documents db_next_doc db_edges db_next_edge]; rewrite ?fmap_app; cbn; try done.
      * apply NoDup_app. split_and!; [done| |apply NoDup_singleton]. intros u Hu ->%list_elem_of_singleton. done.
      * apply NoDup_app. split_and!; [done| |apply NoDup_singleton].
        intros i (d & -> & Hd)%list_elem_of_fmap Hi%list_elem_of_singleton.
        eapply Forall_forall in Nx; [|exact Hd]. cbn in Hi. lia.
      * apply Forall_app. split; [|by repeat constructor; cbn; lia]. eapply Forall_impl; [exact Nx|]. cbn. lia.
      * eapply Forall_impl; [exact Rf|]. intros e He. cbn. apply elem_of_app. by left.
    + cbn [set_documents db_documents]. rewrite fmap_app. apply elem_of_app. right. by left.
Qed.

Lemma edge_exists_spec src dst es : edge_exists src dst es = true <-> (src, dst) ∈ edge_key <$> es.
Proof.
  unfold edge_exists. rewrite existsb_exists, list_elem_of_fmap. split.
  - intros (e & He & Hk). apply andb_true_iff in Hk as [H1%bool_decide_eq_true H2%bool_decide_eq_true].
    exists e. unfold edge_key. rewrite H1, H2. split; [done|by apply list_elem_of_In].
  - intros (e & Ek & He). unfold edge_key in Ek. exists e. split; [by apply list_elem_of_In|]. simplify_eq.
    by rewrite !bool_decide_eq_true_2.
Qed.

Lemma add_link_edges_wf src links db : db_wf db -> src ∈ d_id <$> db_documents db ->
  let db' := add_link_edges src links db in
  db_wf db' /\ db_documents db' = db_documents db /\ db_next_doc db' = db_next_doc db /\ db_now db' = db_now db /\
  (forall l, l ∈ links -> edge_exists src (link_url l) (db_edges db') = true) /\
  exists es, db_edges db' = db_edges db ++ es /\
    Forall (fun e => e_src_document_id e = src /\ mkLink (e_dst_url e) (e_anchor_text e) ∈ links) es.
Proof.
  revert db. induction links as [|l links IH]; intros db Hwf Hsrc; cbv zeta.
  { cbn. split_and!; [done..|set_solver|]. exists []. by rewrite app_nil_r. }
  cbn [add_link_edges fold_left]. fold (add_link_edges src links (add_edge src db l)).
  assert (db_wf (add_edge src db l) /\ db_documents (add_edge src db l) = db_documents db /\
          db_next_doc (add_edge src db l) = db_next_doc db /\ db_now (add_edge src db l) = db_now db /\
          edge_exists src (link_url l) (db_edges (add_edge src db l)) = true /\
          exists es, db_edges (add_edge src db l) = db_edges db ++ es /\
            Forall (fun e => e_src_document_id e = src /\ mkLink (e_dst_url e) (e_anchor_text e) ∈ l :: links) es)
    as (W & D & Nd & Nw & X & es & Es & Hes).
  { unfold add_edge. destruct (edge_exists src (link_url l) (db_edges db)) eqn:Ex.
    - split_and!; [done..|]. exists []. by rewrite app_nil_r.
    - destruct Hwf as [U I Nx E Ne Rf]. cbn [set_edges db_documents db_next_doc db_now db_edges].
      split_and!; [|done|done|done| |].
      + split; cbn [set_edges db_documents db_next_doc db_edges db_next_edge]; rewrite ?fmap_app; try done.
        * apply NoDup_app. split_and!; [done| |apply NoDup_singleton].
          intros k Hk ->%list_elem_of_singleton. apply edge_exists_spec in Hk. unfold edge_key in Hk. cbn in Hk. congruence.
        * apply Forall_app. split; [|by repeat constructor; cbn; lia]. eapply Forall_impl; [exact Ne|]. cbn. lia.
        * apply Forall_app. split; [done|]. by repeat constructor.
      + apply edge_exists_spec. rewrite fmap_app. apply elem_of_app. right. by left.
      + eexists. split; [done|]. apply Forall_singleton. cbn. split; [done|]. destruct l. by left. }
  rewrite <- D in Hsrc. destruct (IH _ W Hsrc) as (W2 & D2 & Nd2 & Nw2 & X2 & es2 & Es2 & Hes2).
  split_and!; [done|congruence..| |].
  - intros x [->|Hx]%elem_of_cons; [|by apply X2]. rewrite Es2. apply edge_exists_spec.
    rewrite fmap_app. apply elem_of_app. left. by apply edge_exists_spec.
  - exists (es ++ es2). rewrite Es2, Es, app_assoc. split; [done|]. apply Forall_app. split.
    + done.
    + eapply Forall_impl; [exact Hes2|]. intros e [? ?]. split; [done|]. by right.
Qed.

Lemma sql_save_page_wf r db : db_wf db -> db_wf (sql_save_page r db).
Proof.
  intros Hwf. destruct (upsert_wf r db Hwf) as [W Hin]. unfold sql_save_page.
  destruct (upsert_document r db) as [id db1]. cbn in *. by apply add_link_edges_wf.
Qed.

(** Where the rows of a saved page come from, and what is left alone. *)
Lemma sql_save_page_rows r db d : d ∈ db_documents (sql_save_page r db) ->
  d ∈ db_documents db \/ d_crawl_id d = pr_crawl_id r /\ d_depth d = pr_depth r.
Proof.
  unfold sql_save_page. destruct (upsert_document r db) as [id db1] eqn:E.
  assert (db_documents (add_link_edges id (pr_links r) db1) = db_documents db1) as ->.
  { generalize (pr_links r). intros ls. unfold add_link_edges. clear E. revert db1.
    induction ls as [|l ls IH]; intros db1; [done|]. cbn. rewrite IH. unfold add_edge. by destruct (edge_exists _ _ _). }
  unfold upsert_document in E. destruct (find_url (pr_url r) (db_documents db)) as [x|]; injection E as _ <-; cbn.
  - intros (y & -> & Hy)%list_elem_of_fmap. case_bool_decide; [by right|by left].
  - rewrite elem_of_app, list_elem_of_singleton. intros [?| ->]; [by left|by right].
Qed.

Lemma sql_save_page_crawls r db :
  db_crawls (sql_save_page r db) = db_crawls db /\ db_next_crawl (sql_save_page r db) = db_next_crawl db.
Proof.
  unfold sql_save_page. destruct (upsert_document r db) as [id db1] eqn:E.
  assert (db_crawls db1 = db_crawls db /\ db_next_crawl db1 = db_next_crawl db) as (<- & <-).
  { unfold upsert_document in E. destruct (find_url (pr_url r) (db_documents db)); by injection E as <- <-. }
  generalize (pr_links r). intros ls. unfold add_link_edges. clear E. revert db1.
  induction ls as [|l ls IH]; intros db1; [done|]. cbn. destruct (IH (add_edge id db1 l)) as [E1 E2]. rewrite E1, E2.
  unfold add_edge. by destruct (edge_exists _ _ _).
Qed.

(** C17: starting from an empty database, any sequence of [save_page] calls, at
    any times, leaves one row per URL with distinct ids, one edge per (source,
    target) and only edges whose source document exists. *)
Theorem save_page_invariant (saves : list (PageRecord * Q)) :
  let save db rt := sql_save_page (fst rt)
    (mkDB (db_crawls db) (db_documents db) (db_edges db) (db_bodies db) (db_next_crawl db) (db_next_doc db)
       (db_next_edge db) (snd rt)) in
  db_wf (fold_left save saves empty_db).
Proof.
  intros save. assert (db_wf empty_db) as H0 by (split; cbn; constructor).
  revert H0. generalize empty_db. induction saves as [|[r t] saves IH]; intros db Hwf; [done|]. cbn [fold_left].
  apply IH. apply sql_save_page_wf. by destruct Hwf.
Qed.

(** *** Idempotence *)

Lemma add_link_edges_present src links db :
  (forall l, l ∈ links -> edge_exists src (link_url l) (db_edges db) = true) -> add_link_edges src links db = db.
Proof.
  induction links as [|l links IH]; intros Hall; [done|]. cbn [add_link_edges fold_left].
  unfold add_edge at 2. rewrite Hall by by left. apply IH. set_solver.
Qed.

Lemma upsert_again r db db1 id :
  db_wf db1 -> find_url (pr_url r) (db_documents db1) = Some db -> d_id db = id ->
  update_document (new_document r (db_next_doc db1) (db_now db1)) db = db ->
  upsert_document r db1 = (id, db1).
Proof.
  intros Hwf Ef <- Hup. unfold upsert_document. rewrite Ef. f_equal. destruct db1 as [cs ds es bs nc nd ne now].
  unfold set_documents. cbn [db_documents db_next_doc db_now] in *. f_equal.
  rewrite <- (list_fmap_id ds) at 2. apply list_fmap_ext. intros i x Hx. cbn. case_bool_decide as E; [|done].
  assert (x = db) as ->; [|done]. apply list_elem_of_lookup_2 in Hx.
  pose proof (find_url_unique ds x (wf_urls _ Hwf) Hx) as Hf. rewrite E in Hf. congruence.
Qed.

(** The row of the saved URL. *)
Lemma upsert_row r db : db_wf db ->
  let '(id, db1) := upsert_document r db in
  exists d, find_url (pr_url r) (db_documents db1) = Some d /\ d_id d = id /\
    (forall n, update_document (new_document r n (db_now db)) d = d) /\ db_now db1 = db_now db /\
    db_edges db1 = db_edges db /\
    (forall url, url <> pr_url r -> find_url url (db_documents db1) = find_url url (db_documents db)).
Proof.
  intros Hwf. unfold upsert_document. destruct (find_url (pr_url r) (db_documents db)) as [d|] eqn:Ef.
  - set (row := new_document r (db_next_doc db) (db_now db)). fold (touched row (pr_url r)).
    pose proof (find_url_Some _ _ _ Ef) as [_ Hu].
    assert (forall url (ds : list Document), find_url url (touched row (pr_url r) <$> ds) = touched row (pr_url r) <$> find_url url ds) as Hf.
    { intros url ds. induction ds as [|x ds IH]; [done|]. cbn.
      destruct (touched_id row (pr_url r) x) as [_ Hx].
      rewrite (bool_decide_ext _ (d_url x = url)) by by rewrite Hx. by case_bool_decide. }
    exists (touched row (pr_url r) d). cbn [set_documents db_documents]. rewrite !Hf, Ef.
    split_and!; [done|apply touched_id| |done|done|].
    + intros n. unfold touched. rewrite bool_decide_eq_true_2 by done. done.
    + intros url Hne. rewrite Hf. destruct (find_url url (db_documents db)) as [x|] eqn:Ex; [|done].
      apply find_url_Some in Ex as [_ <-]. cbn. unfold touched. by rewrite bool_decide_eq_false_2.
  - cbn [set_documents db_documents]. eexists. split_and!; [| | |done|done|].
    + rewrite find_url_app, Ef. cbn. by rewrite bool_decide_eq_true_2.
    + done.
    + done.
    + intros url Hne. rewrite find_url_app. destruct (find_url url (db_documents db)); [done|].
      cbn. by rewrite bool_decide_eq_false_2 by congruence.
Qed.

(** C18: reprocessing a page is harmless to the tables: saving the same record
    again (at the same [now()]) changes nothing at all. *)
Theorem save_page_idempotent r db :
  db_wf db -> sql_save_page r (sql_save_page r db) = sql_save_page r db.
Proof.
  intros Hwf. pose proof (upsert_row r db Hwf) as Hrow. pose proof (upsert_wf r db Hwf) as [W1 Hin].
  unfold sql_save_page at 2 3. destruct (upsert_document r db) as [id db1]. cbn [fst snd] in *.
  destruct Hrow as (d & Hf & Hid & Hup & Hnow & _ & _).
  destruct (add_link_edges_wf id (pr_links r) db1 W1 Hin) as (W2 & D2 & N2 & Nw2 & X2 & _).
  set (db2 := add_link_edges id (pr_links r) db1) in *. unfold sql_save_page.
  rewrite (upsert_again r d db2 id); [|done|by rewrite D2|done|].
  - by apply add_link_edges_present.
  - rewrite Nw2, Hnow. apply Hup.
Qed.

(** The validators a save leaves. *)
Lemma save_page_validators r db : db_wf db ->
  get_validators (pr_url r) (sql_save_page r db) = Some (pr_etag r, pr_last_modified r).
Proof.
  intros Hwf. pose proof (upsert_row r db Hwf) as Hrow. pose proof (upsert_wf r db Hwf) as [W1 Hin].
  unfold sql_save_page. destruct (upsert_document r db) as [id db1]. cbn [fst snd] in *.
  destruct Hrow as (d & Hf & _ & Hup & _).
  destruct (add_link_edges_wf id (pr_links r) db1 W1 Hin) as (_ & D2 & _).
  unfold get_validators. rewrite D2, Hf. by rewrite <- (Hup 0).
Qed.

(** After [save_page] the row of the record's URL carries the record's
    fields (a fingerprint in its signed form) and the number of its links, its
    validators are the record's, every link is an edge from it, earlier edges
    stay, and the rows of other URLs are untouched. *)
Theorem save_page_reads_back r db : db_wf db ->
  let db' := sql_save_page r db in
  exists d, find_url (pr_url r) (db_documents db') = Some d /\
    d_http_status d = pr_http_status r /\ d_title d = pr_title r /\ d_content_hash d = pr_content_hash r /\
    d_simhash d = to_signed64 (pr_simhash r) /\ d_storage_key d = pr_storage_key r /\ d_depth d = pr_depth r /\
    d_out_degree d = Z.of_nat (length (pr_links r)) /\ d_last_crawled d = Some (db_now db) /\
    get_validators (pr_url r) db' = Some (pr_etag r, pr_last_modified r) /\
    (forall l, l ∈ pr_links r -> edge_exists (d_id d) (link_url l) (db_edges db') = true) /\
    (exists es, db_edges db' = db_edges db ++ es /\ Forall (fun e => e_src_document_id e = d_id d) es) /\
    (forall url, url <> pr_url r -> find_url url (db_documents db') = find_url url (db_documents db)).
Proof.
  intros Hwf db'. pose proof (upsert_row r db Hwf) as Hrow. pose proof (upsert_wf r db Hwf) as [W1 Hin].
  unfold db', sql_save_page. destruct (upsert_document r db) as [id db1]. cbn [fst snd] in *.
  destruct Hrow as (d & Hf & Hid & Hup & Hnow & Hes & Hoth).
  destruct (add_link_edges_wf id (pr_links r) db1 W1 Hin) as (W2 & D2 & N2 & Nw2 & X2 & es & Es & Hes2).
  exists d. unfold get_validators. rewrite D2, Hf. specialize (Hup 0). subst id.
  rewrite <- Hup. cbn. split_and!; try done.
  exists es. rewrite Es, Hes. split; [done|]. eapply Forall_impl; [exact Hes2|]. by intros e [? _].
Qed.

(** ** Degrees *)

Definition sum_of {A} (f : A -> Z) (l : list A) : Z := foldr (fun x acc => f x + acc) 0 l.

Lemma out_edges_cons d e es :
  out_edges d (e :: es) = (if decide (e_src_document_id e = d_id d) then 1 else 0) + out_edges d es.
Proof. unfold out_edges. rewrite filter_cons. case_decide; cbn [length]; lia. Qed.

Lemma sum_out_edges ds es : NoDup (d_id <$> ds) ->
  Forall (fun e => e_src_document_id e ∈ d_id <$> ds) es ->
  sum_of (fun d => out_edges d es) ds = Z.of_nat (length es).
Proof.
  intros Hnd. induction 1 as [|e es He Hes IH].
  - cbn. unfold sum_of, out_edges. induction ds as [|d ds IH]; [done|]. cbn. apply NoDup_cons in Hnd as [_ ?]. auto.
  - assert (forall ds', sum_of (fun d => out_edges d (e :: es)) ds' = sum_of (fun d => out_edges d es) ds' +
              Z.of_nat (length (filter (fun i => i = e_src_document_id e) (d_id <$> ds')))) as Hs.
    { intros ds'. induction ds' as [|d ds' IH']; [done|]. rewrite fmap_cons, filter_cons. cbn [sum_of foldr] in *.
      unfold sum_of in IH'. rewrite IH', out_edges_cons.
      destruct (decide (e_src_document_id e = d_id d)), (decide (d_id d = e_src_document_id e));
        try congruence; cbn [length]; lia. }
    rewrite Hs, IH. cbn [length].
    assert (length (filter (fun i => i = e_src_document_id e) (d_id <$> ds)) = 1%nat) as ->; [|lia].
    clear -Hnd He. induction (d_id <$> ds) as [|i l IH]; [set_solver|]. apply NoDup_cons in Hnd as [Hi Hnd].
    rewrite filter_cons. case_decide as E.
    + subst i. cbn. f_equal. destruct (filter _ l) as [|x k] eqn:Ef; [done|].
      assert (x ∈ x :: k) as Hx by left. rewrite <- Ef in Hx. apply list_elem_of_filter in Hx as [-> ?]. done.
    + apply IH; [done|]. apply elem_of_cons in He as [He|He]; [congruence|done].
Qed.

(** [recompute_degrees] gives every document its number of outgoing edges
    and the number of edges that point at its URL, changes nothing else, and
    accounts for every edge: the out-degrees sum to [edge_count]. *)
Theorem degrees_account_for_edges db : db_wf db ->
  let db' := recompute_degrees db in
  db_documents db' = (fun d => set_degrees (out_edges d (db_edges db)) (in_edges d (db_edges db)) d) <$> db_documents db /\
  db_edges db' = db_edges db /\ db_wf db' /\
  sum_of d_out_degree (db_documents db') = edge_count db.
Proof.
  intros Hwf db'.
  assert (db_documents db' = (fun d => set_degrees (out_edges d (db_edges db)) (in_edges d (db_edges db)) d) <$> db_documents db) as E.
  { unfold db', recompute_degrees. cbn [set_documents db_documents]. rewrite <- list_fmap_compose. apply list_fmap_ext.
    intros i d _. done. }
  split; [done|]. split; [done|]. destruct Hwf as [U I Nx Ee Ne Rf].
  assert (d_id <$> db_documents db' = d_id <$> db_documents db) as Hid by (by rewrite E, <- list_fmap_compose).
  split.
  - split; try done.
    + by rewrite E, <- list_fmap_compose.
    + by rewrite Hid.
    + rewrite E. apply Forall_fmap. eapply Forall_impl; [exact Nx|]. done.
    + change (db_edges db') with (db_edges db). by rewrite Hid.
  - rewrite E. unfold edge_count. rewrite <- (sum_out_edges (db_documents db) (db_edges db)) by done.
    generalize (db_documents db). intros ds. unfold sum_of. induction ds as [|d ds IH]; [done|].
    rewrite fmap_cons. cbn [foldr]. by rewrite IH.
Qed.

(** ** Stale documents *)
Section Stale.
Context `{OrderByLaws}.

(** [select_stale] returns at most [limit] documents, as many as are stale
    up to that; each was never crawled or was crawled before the cutoff; and
    no stale document is left out for one crawled later: never-crawled pages
    come first, then the oldest. *)
Theorem select_stale_stalest age limit db :
  let cutoff := (db_now db - age)%Q in
  let rows := stale_rows age limit db in
  select_stale age limit db = (fun d => (d_url d, d_depth d, d_crawl_id d)) <$> rows /\
  length rows = Nat.min (Z.to_nat limit) (length (List.filter (is_stale cutoff) (db_documents db))) /\
  (forall d, d ∈ rows -> d ∈ db_documents db /\ is_stale cutoff d = true) /\
  Sorted (fun a b => stale_le a b = true) rows /\
  (forall d r, d ∈ db_documents db -> is_stale cutoff d = true -> d ∉ rows -> r ∈ rows -> stale_le r d = true).
Proof.
  cbv zeta. split; [done|]. unfold stale_rows.
  set (stale := List.filter _ _). set (l := order_by stale_le stale).
  assert (l ≡ₚ stale) as Hp by apply order_by_perm.
  assert (forall d, d ∈ stale <-> d ∈ db_documents db /\ is_stale (db_now db - age) d = true) as Hs.
  { intros d. unfold stale. rewrite !list_elem_of_In, List.filter_In. done. }
  assert (forall x y, stale_le x y = true \/ stale_le y x = true) as Htot.
  { intros x y. unfold stale_le. destruct (d_last_crawled x), (d_last_crawled y); auto.
    destruct (Qleb_spec q q0), (Qleb_spec q0 q); auto. lra. }
  assert (forall x y z, stale_le x y = true -> stale_le y z = true -> stale_le x z = true) as Htr.
  { intros x y z. unfold stale_le. destruct (d_last_crawled x), (d_last_crawled y), (d_last_crawled z); try done.
    intros ?%Qle_bool_iff ?%Qle_bool_iff. apply Qle_bool_iff. lra. }
  assert (StronglySorted (fun a b => stale_le a b = true) l) as Hss.
  { apply Sorted_StronglySorted; [by intros x y z; apply Htr|]. by apply order_by_sorted. }
  split_and!.
  - rewrite length_take, Hp. done.
  - intros d Hd%elem_of_take_in. rewrite Hp in Hd. by apply Hs.
  - apply StronglySorted_Sorted. rewrite <- (take_drop (Z.to_nat limit) l) in Hss.
    by apply StronglySorted_app_1_l in Hss.
  - intros d r Hd Hst Hnot Hr. assert (d ∈ l) as Hin by (rewrite Hp; by apply Hs).
    rewrite <- (take_drop (Z.to_nat limit) l) in Hin. apply elem_of_app in Hin as [?|Hin]; [done|].
    rewrite <- (take_drop (Z.to_nat limit) l) in Hss.
    by eapply StronglySorted_app_1_elem_of in Hss.
Qed.

End Stale.

(** ** Concrete instances *)

Definition merge_order : OrderBy := fun A le l =>
  @merge_sort A (fun x y => le x y = true) (fun x y => bool_eq_dec (le x y) true) l.
Lemma merge_order_laws : @OrderByLaws merge_order.
Proof.
  split; intros A le l; unfold order_by, merge_order.
  - apply merge_sort_Permutation.
  - intros Htot _. apply Sorted_merge_sort. intros x y. apply Htot.
Qed.

Lemma to_signed64_bijection_witness :
  exists s, to_signed64 (Some (2 ^ 64 - 1)) = Some s /\ s = -1 /\ s mod 2 ^ 64 = 2 ^ 64 - 1.
Proof.
  destruct (to_signed64_bijection (2 ^ 64 - 1)) as (s & E & _ & Hm & _).
  - split; vm_compute; congruence.
  - exists s. split; [exact E|]. split; [|exact Hm]. vm_compute in E. injection E as <-. reflexivity.
Defined.

Definition page_a : PageRecord :=
  mkRecord "http://a.org/" "a.org" 0 (Some 200) (Some "text/html") (Some 10) (Some "A") (Some "h1") (Some 5)
    (Some "pg:h1") (Some "tag") None None
    [mkLink "http://a.org/b" (Some "b"); mkLink "http://b.org/" None; mkLink "http://a.org/b" None].

Lemma empty_db_wf : db_wf empty_db.
Proof. split; cbn; constructor. Qed.

Lemma save_page_idempotent_witness :
  sql_save_page page_a (sql_save_page page_a empty_db) = sql_save_page page_a empty_db /\
  length (db_edges (sql_save_page page_a empty_db)) = 2%nat.
Proof. split; [apply (save_page_idempotent page_a empty_db empty_db_wf)|vm_compute; reflexivity]. Defined.

Lemma save_page_reads_back_witness :
  get_validators "http://a.org/" (sql_save_page page_a empty_db) = Some (Some "tag", None).
Proof.
  destruct (save_page_reads_back page_a empty_db empty_db_wf) as (d & _ & _ & _ & _ & _ & _ & _ & _ & _ & Hv & _).
  exact Hv.
Defined.

Lemma degrees_account_for_edges_witness :
  sum_of d_out_degree (db_documents (recompute_degrees (sql_save_page page_a empty_db))) = 2.
Proof.
  apply (degrees_account_for_edges (sql_save_page page_a empty_db)), sql_save_page_wf, empty_db_wf.
Defined.

Lemma select_stale_stalest_witness :
  let db := set_documents empty_db
    [new_document page_a 1 100; new_document page_a 2 50; new_document page_a 3 70] 4 in
  length (@stale_rows merge_order (-90) 2 db) = 2%nat.
Proof.
  exact (proj1 (proj2 (@select_stale_stalest merge_order merge_order_laws (-90) 2
           (set_documents empty_db [new_document page_a 1 100; new_document page_a 2 50; new_document page_a 3 70] 4)))).
Defined.

(** The out-degree column and the edges part company when a page loses links:
    the upsert writes the new count, the old edges stay. *)
Example stale_edges_kept :
  let fewer := mkRecord "http://a.org/" "a.org" 0 (Some 200) None None None None None None None None None [] in
  let db := sql_save_page fewer (sql_save_page page_a empty_db) in
  (d_out_degree <$> db_documents db) = [0] /\ length (db_edges db) = 2%nat.
Proof. split; reflexivity. Qed.

(** A page that loses its validators: the in-memory sink keeps the old ones,
    the database forgets them. *)
Example sinks_differ_on_lost_validators :
  let fewer := mkRecord "http://a.org/" "a.org" 0 (Some 200) None None None None None None None None None [] in
  (s ← save_page page_a (mkMemSink [] ∅); s ← save_page fewer s; sink_validators "http://a.org/" s)
    = Ok (Some (Some "tag", None)) /\
  (s ← save_page page_a empty_db; s ← save_page fewer s; sink_validators "http://a.org/" s)
    = Ok (Some (None, None)).
Proof. split; reflexivity. Qed.
