(* ===== verification/ObjectStore.v ===== *)
(** * Raw page bodies ([crawler/storage/object_store.py])

    The three stores behind the protocol [ObjectStore]: [NoopObjectStore],
    [PostgresObjectStore] on the [page_body] table, and [MinioObjectStore] on
    an S3 client (concurrent puts are in [Buckets]).  gzip and the client are
    parameters.

    [pg_store_roundtrip] and [minio_store_roundtrip]: a stored body is read
    back through its key whatever else is stored; the table keeps the first
    body of a hash, the bucket the last. *)
From S2P Require Import Prelude PyStr Config Models Storage.
From Stdlib Require Import Ascii.
Local Open Scope Z_scope.

(** [gzip.compress] and [gzip.decompress]. *)
Class Gzip := { gzip_bytes : string -> string; gunzip_bytes : string -> result string }.
Class GzipLaws `{Gzip} := gunzip_gzip (s : string) : gunzip_bytes (gzip_bytes s) = Ok s.

(** The protocol: put(content_hash, body, content_type) and get(storage_key). *)
Class ObjectStore (St : Type) := {
  os_put : string -> string -> option string -> St -> result (string * St);
  os_get : string -> St -> result (option string) }.

(** [s.split(c, 1)[-1]] and [s.rsplit(c, 1)[-1]]. *)
Definition split1_last (c : ascii) (s : string) : string :=
  match partition c s with (_, true, b) => b | (a, false, _) => a end.
Definition rsplit1_last (c : ascii) (s : string) : string := after_last c s.

Inductive NoopObjectStore : Type := Noop.
#[export] Instance noop_store : ObjectStore NoopObjectStore := {|
  os_put := fun _ _ _ s => Ok ("", s);
  os_get := fun _ _ => Ok None |}.

Section Stores.
Context `{Gzip}.

(** ** [class PostgresObjectStore] *)

Definition find_body (h : string) (bs : list PageBody) : option PageBody :=
  List.find (fun b => bool_decide (b_content_hash b = h)) bs.

Definition set_bodies (db : DB) (bs : list PageBody) : DB :=
  mkDB (db_crawls db) (db_documents db) (db_edges db) bs (db_next_crawl db) (db_next_doc db) (db_next_edge db) (db_now db).

(** INSERT ... ON CONFLICT (content_hash) DO NOTHING. *)
Definition insert_body (b : PageBody) (db : DB) : DB :=
  match find_body (b_content_hash b) (db_bodies db) with
  | Some _ => db
  | None => set_bodies db (db_bodies db ++ [b])
  end.

Definition pg_put (content_hash body : string) (content_type : option string) (db : DB) : result (string * DB) :=
  let compressed := gzip_bytes body in
  Ok ("pg:" +:+ content_hash,
      insert_body (mkBody content_hash compressed content_type (Z.of_nat (String.length body)) (db_now db)) db).

Definition pg_get (storage_key : string) (db : DB) : result (option string) :=
  let content_hash := split1_last ":" storage_key in
  match find_body content_hash (db_bodies db) with
  | Some row => let* b := gunzip_bytes (b_body row) in Ok (Some b)
  | None => Ok None
  end.

Definition pg_store : ObjectStore DB := {| os_put := pg_put; os_get := pg_get |}.

(** ** [class MinioObjectStore] *)

(** The S3 client: bucket_exists, make_bucket, put_object, get_object. *)
Class Minio (C : Type) := {
  bucket_exists : string -> C -> result bool;
  make_bucket : string -> C -> result C;
  put_object : string -> string -> string -> C -> result C;
  get_object : string -> string -> C -> result string }.

Section Minio.
Context `{Minio C}.

Record MinioObjectStore : Type := mkMinio { mo_bucket : string; mo_bucket_ready : bool; mo_client : C }.

Definition new_minio (s : Settings) (client : C) : MinioObjectStore :=
  mkMinio (minio_bucket (storage s)) false client.

Definition ensure_bucket (st : MinioObjectStore) : result MinioObjectStore :=
  if mo_bucket_ready st then Ok st
  else
    let* exists_ := bucket_exists (mo_bucket st) (mo_client st) in
    let* c := if exists_ then Ok (mo_client st) else make_bucket (mo_bucket st) (mo_client st) in
    Ok (mkMinio (mo_bucket st) true c).

#[export] Instance minio_store : ObjectStore MinioObjectStore := {|
  os_put := fun content_hash body _ st =>
    let* st := ensure_bucket st in
    let* c := put_object (mo_bucket st) content_hash (gzip_bytes body) (mo_client st) in
    Ok ("s3://" +:+ mo_bucket st +:+ "/" +:+ content_hash, mkMinio (mo_bucket st) (mo_bucket_ready st) c);
  os_get := fun storage_key st =>
    let key := rsplit1_last "/" storage_key in
    match get_object (mo_bucket st) key (mo_client st) with
    | Raise _ => Ok None
    | Ok data => let* b := gunzip_bytes data in Ok (Some b)
    end |}.

End Minio.
End Stores.

(** [build_object_store]. *)
Inductive store_kind : Type := KNoop | KMinio | KPostgres.
Definition build_object_store (s : Settings) (enabled : bool) : store_kind :=
  if negb enabled then KNoop
  else match body_backend (storage s) with BodyMinio => KMinio | BodyPostgres => KPostgres end.

(** ** Round trips *)
Section RoundTrips.
Context `{GzipLaws}.

Lemma find_body_app h bs bs' :
  find_body h (bs ++ bs') = match find_body h bs with Some b => Some b | None => find_body h bs' end.
Proof. unfold find_body. induction bs as [|b bs IH]; [done|]. cbn. by destruct (bool_decide _). Qed.

Lemma find_body_hash h bs b : find_body h bs = Some b -> b_content_hash b = h.
Proof. intros [_ E]%List.find_some. by apply bool_decide_eq_true in E. Qed.

Lemma find_insert_body h b db :
  find_body h (db_bodies (insert_body b db)) =
  match find_body h (db_bodies db) with
  | Some x => Some x
  | None => if bool_decide (b_content_hash b = h) then Some b else None
  end.
Proof.
  unfold insert_body. destruct (find_body (b_content_hash b) (db_bodies db)) as [x|] eqn:E.
  - case_bool_decide as Eh; [subst h; by rewrite E|]. by destruct (find_body h (db_bodies db)).
  - cbn [set_bodies db_bodies]. rewrite find_body_app. unfold find_body at 2. cbn [List.find].
    by destruct (find_body h (db_bodies db)).
Qed.

(** A sequence of puts. *)
Definition pg_puts (l : list (string * string)) (db : DB) : DB :=
  fold_left (fun db hb => match pg_put (fst hb) (snd hb) None db with Ok (_, db') => db' | Raise _ => db end) l db.

Lemma pg_puts_find h l db :
  find_body h (db_bodies (pg_puts l db)) =
  match find_body h (db_bodies db) with
  | Some x => Some x
  | None => match List.find (fun hb => bool_decide (fst hb = h)) l with
            | Some (_, body) => Some (mkBody h (gzip_bytes body) None (Z.of_nat (String.length body)) (db_now db))
            | None => None
            end
  end.
Proof.
  assert (forall b db, db_now (insert_body b db) = db_now db) as Hn.
  { intros b d. unfold insert_body. by destruct (find_body _ _). }
  unfold pg_puts. revert db. induction l as [|[h' body] l IH]; intros db; cbn [fold_left List.find].
  { by destruct (find_body h (db_bodies db)). }
  rewrite IH. cbn [pg_put fst snd]. rewrite find_insert_body, Hn. cbn [b_content_hash].
  destruct (find_body h (db_bodies db)); [done|]. case_bool_decide; [by subst|done].
Qed.

(** Bodies in the [page_body] table: the key returned by [put] reads back,
    after any other puts before and after, the first body stored under the
    hash (with a content hash as key that is the body itself); an absent hash
    reads as [None]. *)
Theorem pg_store_roundtrip before after h body ct db :
  find_body h (db_bodies db) = None ->
  exists key db', pg_put h body ct (pg_puts before db) = Ok (key, db') /\
    pg_get key (pg_puts after db') =
      Ok (Some (match List.find (fun hb => bool_decide (fst hb = h)) before with Some (_, b) => b | None => body end)) /\
    (forall h', find_body h' (db_bodies db) = None -> h' <> h -> h' ∉ (fst <$> before) -> h' ∉ (fst <$> after) ->
       pg_get ("pg:" +:+ h') (pg_puts after db') = Ok None).
Proof.
  intros Hh. eexists _, _. split; [reflexivity|].
  assert (forall x, split1_last ":" ("pg:" +:+ x) = x) as Hkey.
  { intros x. unfold split1_last. change ("pg:" +:+ x) with ("pg" +:+ String ":" x). by rewrite partition_sep. }
  unfold pg_get. rewrite Hkey, pg_puts_find, find_insert_body, pg_puts_find, Hh. cbn [b_content_hash].
  split.
  - destruct (List.find _ before) as [[x b]|]; cbn [b_body].
    + by rewrite gunzip_gzip.
    + rewrite bool_decide_eq_true_2 by done. cbn [b_body]. by rewrite gunzip_gzip.
  - intros h' Hh' Hne Hb Ha. rewrite Hkey, pg_puts_find, find_insert_body, pg_puts_find, Hh'. cbn [b_content_hash].
    assert (forall l : list (string * string), h' ∉ (fst <$> l) -> List.find (fun hb => bool_decide (fst hb = h')) l = None) as Hf.
    { induction l as [|[a b] l IH]; [done|]. rewrite fmap_cons, not_elem_of_cons. intros [Hn Hl]. cbn.
      rewrite bool_decide_eq_false_2 by (cbn in *; congruence). auto. }
    rewrite !Hf by done. by rewrite bool_decide_eq_false_2 by congruence.
Qed.

(** Objects of a bucket, as S3 documents them. *)
Class MinioLaws (C : Type) `{Minio C} := {
  get_put_object bkt k v c c' : put_object bkt k v c = Ok c' -> get_object bkt k c' = Ok v;
  get_put_object_ne bkt k k' v c c' : k <> k' -> put_object bkt k' v c = Ok c' ->
    get_object bkt k c' = get_object bkt k c }.

(** The hash is read back from the key. *)
Lemma rsplit1_last_key bucket h : has_char "/" h = false -> rsplit1_last "/" ("s3://" +:+ bucket +:+ "/" +:+ h) = h.
Proof.
  intros Hs. unfold rsplit1_last. replace ("s3://" +:+ bucket +:+ "/" +:+ h)
    with (("s3://" +:+ bucket) +:+ String "/" h) by by rewrite append_assoc. by apply after_last_sep.
Qed.

(** Bodies in a bucket: when the puts succeed, the key returned for a hash
    without a slash reads back the body, also after a put under another hash;
    a second put under the same hash replaces it. *)
Theorem minio_store_roundtrip `{MinioLaws C} h body ct (st : @MinioObjectStore C) key st' h2 body2 key2 st2 :
  has_char "/" h = false ->
  os_put h body ct st = Ok (key, st') -> os_put h2 body2 ct st' = Ok (key2, st2) ->
  os_get key st' = Ok (Some body) /\
  os_get key st2 = Ok (Some (if bool_decide (h = h2) then body2 else body)).
Proof.
  intros Hs. unfold os_put, os_get, minio_store.
  destruct (ensure_bucket st) as [st0|e] eqn:E0; cbn [rbind]; [|done].
  destruct (put_object _ h _ _) as [c|e] eqn:E1; cbn [rbind]; [|done]. intros [= <- <-].
  set (st1 := mkMinio _ _ c).
  destruct (ensure_bucket st1) as [stb|e] eqn:Eb; cbn [rbind]; [|done].
  assert (mo_bucket_ready st0 = true) as Hr.
  { unfold ensure_bucket in E0. destruct (mo_bucket_ready st) eqn:Er; [by simplify_eq|].
    destruct (bucket_exists _ _); cbn in E0; [|done]. destruct (if a then _ else _); cbn in E0; by simplify_eq. }
  assert (stb = st1) as ->.
  { unfold ensure_bucket in Eb. change (mo_bucket_ready st1) with (mo_bucket_ready st0) in Eb.
    rewrite Hr in Eb. by injection Eb as <-. }
  destruct (put_object _ h2 _ _) as [c2|e] eqn:E2; cbn [rbind]; [|done]. intros [= <- <-].
  rewrite rsplit1_last_key by done. cbn [mo_bucket mo_client st1] in *. split.
  - rewrite (get_put_object _ _ _ _ _ E1). by rewrite gunzip_gzip.
  - case_bool_decide as Eh.
    + subst h2. rewrite (get_put_object _ _ _ _ _ E2). by rewrite gunzip_gzip.
    + rewrite (get_put_object_ne _ _ _ _ _ _ Eh E2), (get_put_object _ _ _ _ _ E1). by rewrite gunzip_gzip.
Qed.

End RoundTrips.

(** ** Concrete instances *)

Definition tagged_gzip : Gzip := {|
  gzip_bytes := fun s => "gz" +:+ s;
  gunzip_bytes := fun s => if startswith "gz" s then Ok (sdrop 2 s) else Raise (OtherError "BadGzipFile") |}.
Lemma tagged_gzip_laws : @GzipLaws tagged_gzip.
Proof. intros s. cbn. by destruct s. Qed.

Definition map_minio : Minio (gmap (string * string) string) := {|
  bucket_exists := fun _ _ => Ok true;
  make_bucket := fun _ c => Ok c;
  put_object := fun b k v c => Ok (<[(b, k) := v]> c);
  get_object := fun b k c => match c !! (b, k) with Some v => Ok v | None => Raise (OtherError "NoSuchKey") end |}.
Lemma map_minio_laws : @MinioLaws _ map_minio.
Proof.
  split; cbn.
  - intros bkt k v c c' [= <-]. by rewrite lookup_insert_eq.
  - intros bkt k k' v c c' Hne [= <-]. by rewrite lookup_insert_ne by congruence.
Qed.

Lemma pg_store_roundtrip_witness :
  exists key db',
    @pg_put tagged_gzip "h1" "body" None (@pg_puts tagged_gzip [("h0", "x")] empty_db) = Ok (key, db') /\
    @pg_get tagged_gzip key (@pg_puts tagged_gzip [("h1", "other")] db') = Ok (Some "body").
Proof.
  destruct (@pg_store_roundtrip tagged_gzip tagged_gzip_laws [("h0", "x")] [("h1", "other")] "h1" "body" None empty_db eq_refl)
    as (key & db' & E & Eg & _).
  exists key, db'. split; [exact E|exact Eg].
Defined.

Lemma minio_store_roundtrip_witness :
  let st := @mkMinio (gmap (string * string) string) "bkt" false ∅ in
  exists key st' key2 st2,
    @os_put _ (@minio_store tagged_gzip _ map_minio) "h1" "body" None st = Ok (key, st') /\
    @os_put _ (@minio_store tagged_gzip _ map_minio) "h2" "other" None st' = Ok (key2, st2) /\
    @os_get _ (@minio_store tagged_gzip _ map_minio) key st2 = Ok (Some "body").
Proof.
  eexists _, _, _, _. split; [reflexivity|]. split; [reflexivity|].
  exact (proj2 (@minio_store_roundtrip tagged_gzip tagged_gzip_laws _ map_minio map_minio_laws "h1" "body" None
           (@mkMinio _ "bkt" false ∅) _ _ "h2" "other" _ _ eq_refl eq_refl eq_refl)).
Defined.
