(* ===== verification/Buckets.v ===== *)
(** * Concurrent puts into a bucket ([MinioObjectStore] of [storage/object_store.py])

    The pages of a crawl put their bodies at the same time: each put first makes
    sure that the bucket is there, in a thread of its own, and every request to
    the S3 server may come between those of another put.  [advance] is the next
    stretch of a put; alone, a put is that of [ObjectStore] ([alone_is_put]).

    [concurrent_puts]: what the puts of every schedule return and leave;
    [bucket_race]: the first two pages of a crawl both create the bucket, and
    one of them is lost. *)
From Stdlib Require Import Ascii.
From stdpp Require Import relations.
From S2P Require Import Prelude PyStr Config Models UrlUtils Gates Storage ObjectStore.
Local Open Scope Z_scope.

(** ** The bucket *)

(** What S3 documents of buckets: making one that exists is an error, and the
    objects of a bucket that exists can be written.  The laws are those of a
    server that answers: requests that fail for the network's or the server's
    own reasons are the raising branches of [advance], outside these laws. *)
Class MinioBuckets (C : Type) `{Minio C} := {
  has_bucket : string -> C -> bool;
  bucket_exists_ok b c : bucket_exists b c = Ok (has_bucket b c);
  make_bucket_new b c : has_bucket b c = false -> exists c', make_bucket b c = Ok c' /\ has_bucket b c' = true;
  make_bucket_again b c : has_bucket b c = true -> exists e, make_bucket b c = Raise e;
  put_object_ok b k v c : has_bucket b c = true -> exists c', put_object b k v c = Ok c' /\ has_bucket b c' = true }.

Section Puts.
Context {C : Type} `{GL : GzipLaws, MC : Minio C}.

Abbreviation store := (@MinioObjectStore C).

(** ** A put *)

(** Before the flag is read; before each of the requests of
    [_ensure_bucket_sync]; before the flag is set; before the upload; over. *)
Inductive put_phase : Type := Starting | Checking | Making | Ensured | Putting | Done (key : string) | Failed (e : exn).
Record put_task : Type := mkPut { pt_hash : string; pt_body : string; pt_phase : put_phase }.
Definition in_phase (ph : put_phase) (t : put_task) : put_task := mkPut (pt_hash t) (pt_body t) ph.
Definition with_client (c : C) (st : store) : store := mkMinio (mo_bucket st) (mo_bucket_ready st) c.

Definition advance (t : put_task) (st : store) : put_task * store :=
  match pt_phase t with
  | Starting => (in_phase (if mo_bucket_ready st then Putting else Checking) t, st)
  | Checking =>
      match bucket_exists (mo_bucket st) (mo_client st) with
      | Ok exists_ => (in_phase (if (exists_ : bool) then Ensured else Making) t, st)
      | Raise e => (in_phase (Failed e) t, st)
      end
  | Making =>
      match make_bucket (mo_bucket st) (mo_client st) with
      | Ok c => (in_phase Ensured t, with_client c st)
      | Raise e => (in_phase (Failed e) t, st)
      end
  | Ensured => (in_phase Putting t, mkMinio (mo_bucket st) true (mo_client st))
  | Putting =>
      match put_object (mo_bucket st) (pt_hash t) (gzip_bytes (pt_body t)) (mo_client st) with
      | Ok c => (in_phase (Done ("s3://" +:+ mo_bucket st +:+ "/" +:+ pt_hash t)) t, with_client c st)
      | Raise e => (in_phase (Failed e) t, st)
      end
  | Done _ | Failed _ => (t, st)
  end.

Fixpoint advances (n : nat) (t : put_task) (st : store) : put_task * store :=
  match n with O => (t, st) | S n => let '(t, st) := advance t st in advances n t st end.

(** A put that runs alone. *)
Lemma alone_is_put h body ct (st : store) :
  match os_put h body ct st with
  | Ok (key, st') => advances 5 (mkPut h body Starting) st = (mkPut h body (Done key), st')
  | Raise e => fst (advances 5 (mkPut h body Starting) st) = mkPut h body (Failed e)
  end.
Proof.
  unfold os_put, minio_store, ensure_bucket. destruct st as [bkt [] c]; cbn.
  - by destruct (put_object bkt h (gzip_bytes body) c).
  - destruct (bucket_exists bkt c) as [[]|e]; cbn; [|destruct (make_bucket bkt c) as [c'|e]; cbn|done].
    + by destruct (put_object bkt h (gzip_bytes body) c).
    + by destruct (put_object bkt h (gzip_bytes body) c').
    + done.
Qed.

(** How many stretches a put can still take, at most. *)
Definition left_to_do (t : put_task) : Z :=
  match pt_phase t with Starting => 5 | Checking => 4 | Making => 3 | Ensured => 2 | Putting => 1 | Done _ | Failed _ => 0 end.

(** Many puts on one store, in any order of their stretches. *)
Record puts : Type := mkPuts { ps_store : store; ps_tasks : gmap nat put_task }.
Inductive put_step : puts -> puts -> Prop :=
| put_advance i t t' st st' ts : ts !! i = Some t -> 0 < left_to_do t -> advance t st = (t', st') ->
    put_step (mkPuts st ts) (mkPuts st' (<[i := t']> ts)).

(** ** Every schedule *)

Context {MB : MinioBuckets C}.
Context {ML : MinioLaws C}.

(** A put that has found or made the bucket. *)
Definition past_bucket (ph : put_phase) : bool := match ph with Ensured | Putting | Done _ => true | _ => false end.
Definition there (st : store) : bool := has_bucket (mo_bucket st) (mo_client st).
#[local] Arguments there : simpl never.

(** [fresh]: the bucket was missing at the start. *)
Record puts_ok (fresh : bool) (s : puts) : Prop := {
  pu_content i j t u : ps_tasks s !! i = Some t -> ps_tasks s !! j = Some u -> pt_hash t = pt_hash u -> pt_body t = pt_body u;
  pu_ready : mo_bucket_ready (ps_store s) = true -> there (ps_store s) = true;
  pu_past i t : ps_tasks s !! i = Some t -> past_bucket (pt_phase t) = true -> there (ps_store s) = true;
  pu_old : fresh = false -> there (ps_store s) = true;
  pu_making i t : ps_tasks s !! i = Some t -> pt_phase t = Making -> fresh = true;
  pu_failed i t e : ps_tasks s !! i = Some t -> pt_phase t = Failed e -> fresh = true /\ there (ps_store s) = true;
  pu_maker : fresh = true -> there (ps_store s) = true -> exists i t, ps_tasks s !! i = Some t /\ past_bucket (pt_phase t) = true;
  pu_done i t key : ps_tasks s !! i = Some t -> pt_phase t = Done key ->
    key = "s3://" +:+ mo_bucket (ps_store s) +:+ "/" +:+ pt_hash t /\
    get_object (mo_bucket (ps_store s)) (pt_hash t) (mo_client (ps_store s)) = Ok (gzip_bytes (pt_body t)) }.

(** What a stretch does, by the phase it starts from. *)
Lemma advance_spec t st t' st' : (mo_bucket_ready st = true -> there st = true) -> advance t st = (t', st') ->
  pt_hash t' = pt_hash t /\ pt_body t' = pt_body t /\ mo_bucket st' = mo_bucket st /\
  match pt_phase t with
  | Starting => st' = st /\ pt_phase t' = (if mo_bucket_ready st then Putting else Checking)
  | Checking => st' = st /\ pt_phase t' = (if there st then Ensured else Making)
  | Making =>
      if there st then st' = st /\ exists e, pt_phase t' = Failed e
      else there st' = true /\ mo_bucket_ready st' = mo_bucket_ready st /\ pt_phase t' = Ensured
  | Ensured => mo_client st' = mo_client st /\ pt_phase t' = Putting
  | Putting => there st = true ->
      there st' = true /\ pt_phase t' = Done ("s3://" +:+ mo_bucket st +:+ "/" +:+ pt_hash t) /\
      put_object (mo_bucket st) (pt_hash t) (gzip_bytes (pt_body t)) (mo_client st) = Ok (mo_client st')
  | Done _ | Failed _ => t' = t /\ st' = st
  end.
Proof.
  intros Hr. unfold advance, there. destruct t as [h body ph]. cbn. destruct ph; cbn.
  - by intros [= <- <-].
  - rewrite bucket_exists_ok. by intros [= <- <-].
  - destruct (has_bucket (mo_bucket st) (mo_client st)) eqn:Eh.
    + destruct (make_bucket_again _ _ Eh) as [e ->]. intros [= <- <-]. split_and!; [done..|]. by eexists.
    + destruct (make_bucket_new _ _ Eh) as (c & -> & Hc). by intros [= <- <-].
  - by intros [= <- <-].
  - destruct (put_object _ h _ _) as [c|e] eqn:Ep; intros [= <- <-]; split_and!; try done; intros Hb;
      destruct (put_object_ok _ h (gzip_bytes body) _ Hb) as (c' & Ep' & Hc'); rewrite Ep in Ep'; [injection Ep' as <-; done|done].
  - by intros [= <- <-].
  - by intros [= <- <-].
Qed.

(** The invariant when the objects of the bucket stay as they are. *)
Lemma puts_ok_step_same fresh i t t' st st' ts : puts_ok fresh (mkPuts st ts) -> ts !! i = Some t ->
  pt_hash t' = pt_hash t -> pt_body t' = pt_body t -> mo_bucket st' = mo_bucket st -> mo_client st' = mo_client st ->
  (mo_bucket_ready st' = true -> there st = true) ->
  (past_bucket (pt_phase t') = true -> there st = true) -> (past_bucket (pt_phase t) = true -> past_bucket (pt_phase t') = true) ->
  (pt_phase t' = Making -> fresh = true) -> (forall e, pt_phase t' = Failed e -> fresh = true /\ there st = true) ->
  (forall key, pt_phase t' = Done key -> pt_phase t = Done key) ->
  puts_ok fresh (mkPuts st' (<[i := t']> ts)).
Proof.
  intros [P0 P1 P2 P3 P4 P5 P6 P7] Hi Eh Eb Ek Ec Hr Hp Hmono Hm Hf Hd. cbn in *.
  assert (there st' = there st) as Et by (unfold there; by rewrite Ek, Ec).
  split; cbn; rewrite ?Et, ?Ek, ?Ec; try done.
  - intros j k u v [[<- <-]|[_ Hu]]%lookup_insert_Some [[<- <-]|[_ Hv]]%lookup_insert_Some; rewrite ?Eh, ?Eb; eauto.
  - intros j u [[<- <-]|[_ Hu]]%lookup_insert_Some; eauto.
  - intros j u [[<- <-]|[_ Hu]]%lookup_insert_Some; eauto.
  - intros j u e [[<- <-]|[_ Hu]]%lookup_insert_Some; eauto.
  - intros Hfr Hth. destruct (P6 Hfr Hth) as (j & u & Hu & Hpu). destruct (decide (i = j)) as [<-|Hne].
    + exists i, t'. rewrite lookup_insert_eq. split; [done|]. apply Hmono. congruence.
    + exists j, u. by rewrite lookup_insert_ne.
  - intros j u key [[<- <-]|[_ Hu]]%lookup_insert_Some Hk; [|by eapply P7]. rewrite Eh, Eb. eapply P7; [exact Hi|by apply Hd].
Qed.

Lemma puts_ok_step fresh s s' : puts_ok fresh s -> put_step s s' -> puts_ok fresh s'.
Proof.
  intros Hok Hst. destruct Hst as [i t t' st st' ts Hi _ Ha]. destruct (advance_spec t st t' st' (pu_ready _ _ Hok) Ha) as (Eh & Eb & Ek & Hcase).
  pose proof Hok as [P0 P1 P2 P3 P4 P5 P6 P7]. cbn in *. destruct (pt_phase t) eqn:Ep.
  - destruct Hcase as [-> Ep']. eapply puts_ok_step_same; [exact Hok|exact Hi|..]; rewrite ?Ep, ?Ep'; try done; by destruct (mo_bucket_ready st).
  - destruct Hcase as [-> Ep']. destruct (there st) eqn:Et;
      (eapply puts_ok_step_same; [exact Hok|exact Hi|..]; rewrite ?Ep, ?Ep'; try done).
    + by rewrite Et.
    + intros _. destruct fresh; [done|]. specialize (P3 eq_refl). congruence.
  - pose proof (P4 i t Hi Ep) as ->. destruct (there st) eqn:Et.
    + destruct Hcase as [-> [e Ep']]. eapply puts_ok_step_same; [exact Hok|exact Hi|..]; rewrite ?Ep, ?Ep', ?Et; done.
    + destruct Hcase as (Et' & Er & Ep'). assert (forall j u, ts !! j = Some u -> past_bucket (pt_phase u) = false) as Hnone.
      { intros j u Hu. destruct (past_bucket (pt_phase u)) eqn:Hpu; [|done]. specialize (P2 j u Hu Hpu); congruence. }
      split; cbn; try done.
      * intros j k u v [[<- <-]|[_ Hu]]%lookup_insert_Some [[<- <-]|[_ Hv]]%lookup_insert_Some; rewrite ?Eh, ?Eb; eauto.
      * intros _ _. exists i, t'. rewrite lookup_insert_eq, Ep'. done.
      * intros j u key [[<- <-]|[_ Hu]]%lookup_insert_Some Hk; [congruence|]. specialize (Hnone j u Hu). by rewrite Hk in Hnone.
  - destruct Hcase as [Ec Ep']. assert (there st = true) as Et by (eapply P2; [exact Hi|by rewrite Ep]).
    eapply puts_ok_step_same; [exact Hok|exact Hi|..]; rewrite ?Ep, ?Ep'; done.
  - assert (there st = true) as Et by (eapply P2; [exact Hi|by rewrite Ep]). destruct (Hcase Et) as (Et' & Ep' & Hput).
    split; cbn; try done.
    + intros j k u v [[<- <-]|[_ Hu]]%lookup_insert_Some [[<- <-]|[_ Hv]]%lookup_insert_Some; rewrite ?Eh, ?Eb; eauto.
    + intros j u [[<- <-]|[_ Hu]]%lookup_insert_Some; [congruence|eauto].
    + intros j u e [[<- <-]|[_ Hu]]%lookup_insert_Some Hf; [congruence|]. split; [|done]. by destruct (P5 j u e Hu Hf).
    + intros _ _. exists i, t'. rewrite lookup_insert_eq, Ep'. done.
    + rewrite Ek. intros j u key [[<- <-]|[Hne Hu]]%lookup_insert_Some Hk.
      * rewrite Ep' in Hk. injection Hk as <-. rewrite Eh, Eb. split; [done|]. by eapply get_put_object.
      * destruct (P7 j u key Hu Hk) as [-> Hget]. split; [done|]. destruct (decide (pt_hash u = pt_hash t)) as [E|E].
        -- rewrite E, (P0 j i u t Hu Hi E). by eapply get_put_object.
        -- by rewrite (get_put_object_ne _ _ _ _ _ _ E Hput).
  - destruct Hcase as [-> ->]. eapply puts_ok_step_same; [exact Hok|exact Hi|..]; rewrite ?Ep; try done. by rewrite <- Ep; eauto.
  - destruct Hcase as [-> ->]. eapply puts_ok_step_same; [exact Hok|exact Hi|..]; rewrite ?Ep; try done. intros e'. rewrite <- Ep. eauto.
Qed.

(** ** Theorems *)

Definition work_left (ts : gmap nat put_task) : Z :=
  count_tasks (fun t => 1 <=? left_to_do t) ts + count_tasks (fun t => 2 <=? left_to_do t) ts + count_tasks (fun t => 3 <=? left_to_do t) ts +
  count_tasks (fun t => 4 <=? left_to_do t) ts + count_tasks (fun t => 5 <=? left_to_do t) ts.

Lemma advance_works t st t' st' : 0 < left_to_do t -> advance t st = (t', st') -> 0 <= left_to_do t' < left_to_do t /\ left_to_do t <= 5.
Proof.
  unfold advance, left_to_do. destruct t as [h body ph]. destruct ph; cbn; try lia.
  - intros _ [= <- <-]. destruct (mo_bucket_ready st); cbn; lia.
  - intros _. destruct (bucket_exists _ _) as [[]|e]; intros [= <- <-]; cbn; lia.
  - intros _. destruct (make_bucket _ _) as [c|e]; intros [= <- <-]; cbn; lia.
  - intros _ [= <- <-]. cbn. lia.
  - intros _. destruct (put_object _ _ _ _) as [c|e]; intros [= <- <-]; cbn; lia.
Qed.

Lemma step_works s s' : put_step s s' -> work_left (ps_tasks s') + 1 <= work_left (ps_tasks s).
Proof.
  intros [i t t' st st' ts Hi Hpos Ha]. pose proof (advance_works t st t' st' Hpos Ha) as Hw. unfold work_left. cbn.
  rewrite !(count_update _ _ _ _ _ Hi).
  repeat match goal with |- context [?k <=? left_to_do ?x] => destruct (Z.leb_spec k (left_to_do x)) end; cbn [Z.b2z]; lia.
Qed.

Lemma work_bounds ts : 0 <= work_left ts <= 5 * Z.of_nat (size ts).
Proof.
  assert (forall P, 0 <= count_tasks P ts <= Z.of_nat (size ts)) as Hc.
  { intros P. split; [apply count_nonneg|]. unfold count_tasks. apply inj_le, map_size_filter. }
  unfold work_left. pose proof (Hc (fun t => 1 <=? left_to_do t)). pose proof (Hc (fun t => 2 <=? left_to_do t)).
  pose proof (Hc (fun t => 3 <=? left_to_do t)). pose proof (Hc (fun t => 4 <=? left_to_do t)). pose proof (Hc (fun t => 5 <=? left_to_do t)). lia.
Qed.

(** C21: the puts of concurrent pages.  From any number of puts that start
    together, where one hash stands for one body: whatever the order of their
    stretches they are over after at most five each.  A put that is over without
    an exception has a key that reads back its body.  If the bucket was there,
    none raises; otherwise those that raise are the ones that tried to make it
    after another had, which has it and goes on. *)
Theorem concurrent_puts (n : nat) (st0 : store) (ts0 : gmap nat put_task) (s : puts) :
  (forall i t, ts0 !! i = Some t -> pt_phase t = Starting) ->
  (forall i j t u, ts0 !! i = Some t -> ts0 !! j = Some u -> pt_hash t = pt_hash u -> pt_body t = pt_body u) ->
  (mo_bucket_ready st0 = true -> there st0 = true) ->
  nsteps put_step n (mkPuts st0 ts0) s ->
  Z.of_nat n <= 5 * Z.of_nat (size ts0) /\
  (forall i t key, ps_tasks s !! i = Some t -> pt_phase t = Done key -> has_char "/"%char (pt_hash t) = false ->
     os_get key (ps_store s) = Ok (Some (pt_body t))) /\
  forall i t e, ps_tasks s !! i = Some t -> pt_phase t = Failed e ->
    there st0 = false /\ exists j u, ps_tasks s !! j = Some u /\ past_bucket (pt_phase u) = true.
Proof.
  intros Hst Hcon Hr Hs.
  assert (puts_ok (negb (there st0)) s) as [_ _ _ _ _ Hfail Hmaker Hdone].
  { assert (rtc put_step (mkPuts st0 ts0) s) as Hr' by (apply rtc_nsteps; by exists n).
    eapply (rtc_invariant put_step (puts_ok (negb (there st0)))); [|exact Hr'|].
    - intros x y Hx Hxy. by eapply puts_ok_step.
    - split; cbn; try done.
      + intros i t Hi. by rewrite (Hst i t Hi).
      + intros E. by apply negb_false_iff in E.
      + intros i t Hi. by rewrite (Hst i t Hi).
      + intros i t e Hi. by rewrite (Hst i t Hi).
      + intros E Ht. by rewrite Ht in E.
      + intros i t key Hi. by rewrite (Hst i t Hi). }
  split_and!.
  - assert (Z.of_nat n + work_left (ps_tasks s) <= work_left ts0) as Hw.
    { change ts0 with (ps_tasks (mkPuts st0 ts0)). clear - Hs. induction Hs as [x|m x y z Hxy _ IH]; [lia|]. apply step_works in Hxy. lia. }
    pose proof (work_bounds ts0). pose proof (work_bounds (ps_tasks s)). lia.
  - intros i t key Hi Hk Hh. destruct (Hdone i t key Hi Hk) as [-> Hget]. unfold os_get, minio_store.
    rewrite rsplit1_last_key by done. rewrite Hget. by rewrite gunzip_gzip.
  - intros i t e Hi Hf. destruct (Hfail i t e Hi Hf) as [Hfresh Hth]. split; [by apply negb_true_iff in Hfresh|by apply Hmaker].
Qed.

End Puts.

(** ** Concrete instances *)

(** The names of the buckets, and the objects. *)
Abbreviation s3 := (list string * gmap (string * string) string)%type.
Definition s3_server : Minio s3 := {|
  bucket_exists := fun b c => Ok (bool_decide (b ∈ fst c));
  make_bucket := fun b c => if bool_decide (b ∈ fst c) then Raise (OtherError "BucketAlreadyOwnedByYou") else Ok (b :: fst c, snd c);
  put_object := fun b k v c => if bool_decide (b ∈ fst c) then Ok (fst c, <[(b, k) := v]> (snd c)) else Raise (OtherError "NoSuchBucket");
  get_object := fun b k c => match snd c !! (b, k) with Some v => Ok v | None => Raise (OtherError "NoSuchKey") end |}.
#[export] Instance s3_objects : @MinioLaws _ s3_server.
Proof.
  split; cbn.
  - intros b k v c c'. case_bool_decide; [|done]. intros [= <-]. cbn. by rewrite lookup_insert_eq.
  - intros b k k' v c c' Hne. case_bool_decide; [|done]. intros [= <-]. cbn. by rewrite lookup_insert_ne by congruence.
Qed.
#[export] Program Instance s3_buckets : @MinioBuckets s3 s3_server := {| has_bucket := fun b c => bool_decide (b ∈ fst c) |}.
Next Obligation. done. Qed.
Next Obligation.
  intros b c Hb. cbn in *. rewrite Hb. eexists. split; [done|]. cbn. apply bool_decide_eq_true_2. left.
Qed.
Next Obligation. intros b c Hb. cbn in *. rewrite Hb. by eexists. Qed.
Next Obligation. intros b k v c Hb. cbn in *. rewrite Hb. by eexists. Qed.

#[local] Existing Instances tagged_gzip tagged_gzip_laws s3_server.

(** Two pages at the start of a crawl, on a server without the bucket. *)
Definition first_pages : puts (C := s3) :=
  mkPuts (mkMinio "pages" false ([], ∅)) {[ 1%nat := mkPut "h1" "one" Starting; 2%nat := mkPut "h2" "two" Starting ]}.
Fixpoint turns (l : list nat) (s : puts (C := s3)) : puts :=
  match l with
  | [] => s
  | i :: l =>
      match ps_tasks s !! i with
      | Some t => let '(t, st) := advance t (ps_store s) in turns l (mkPuts st (<[i := t]> (ps_tasks s)))
      | None => s
      end
  end.
Fixpoint able (l : list nat) (s : puts (C := s3)) : bool :=
  match l with
  | [] => true
  | i :: l =>
      match ps_tasks s !! i with
      | Some t => (0 <? left_to_do t) && let '(t, st) := advance t (ps_store s) in able l (mkPuts st (<[i := t]> (ps_tasks s)))
      | None => false
      end
  end.
Lemma turns_steps l s : able l s = true -> nsteps put_step (length l) s (turns l s).
Proof.
  revert s. induction l as [|i l IH]; intros [st ts] Ha; [constructor|]. cbn [able turns length ps_tasks ps_store] in *.
  destruct (ts !! i) as [t|] eqn:Ei; [|done]. apply andb_true_iff in Ha as [Hl Ha]. destruct (advance t st) as [t' st'] eqn:Et.
  eapply nsteps_l; [by eapply put_advance; [exact Ei|lia|exact Et]|by apply IH].
Qed.

(** Both find that the bucket is missing; the second to make it raises, and its
    body is not stored. *)
Definition race : puts (C := s3) := turns [1; 2; 1; 2; 1; 2; 1; 1]%nat first_pages.
Example bucket_race :
  (pt_phase <$> ps_tasks race !! 1%nat) = Some (Done "s3://pages/h1") /\
  (pt_phase <$> ps_tasks race !! 2%nat) = Some (Failed (OtherError "BucketAlreadyOwnedByYou")) /\
  os_get "s3://pages/h1" (ps_store race) = Ok (Some "one") /\ os_get "s3://pages/h2" (ps_store race) = Ok None.
Proof. vm_compute. done. Qed.

Lemma concurrent_puts_witness : os_get "s3://pages/h1" (ps_store race) = Ok (Some "one") /\ there (ps_store first_pages) = false.
Proof.
  destruct (concurrent_puts 8 (ps_store first_pages) (ps_tasks first_pages) race) as (_ & Hd & Hf).
  - intros i t Hi. cbn in Hi. apply lookup_insert_Some in Hi as [[_ <-]|[_ Hi]]; [reflexivity|].
    apply lookup_singleton_Some in Hi as [_ <-]. reflexivity.
  - intros i j t u Hi Hj. cbn in Hi, Hj. apply lookup_insert_Some in Hi as [[_ <-]|[_ Hi]];
      [|apply lookup_singleton_Some in Hi as [_ <-]]; (apply lookup_insert_Some in Hj as [[_ <-]|[_ Hj]];
      [|apply lookup_singleton_Some in Hj as [_ <-]]); cbn; intros; congruence.
  - discriminate.
  - apply (turns_steps [1; 2; 1; 2; 1; 2; 1; 1]%nat first_pages). vm_compute. reflexivity.
  - split.
    + apply (Hd 1%nat (mkPut "h1" "one" (Done "s3://pages/h1"))); [vm_compute; reflexivity|reflexivity|reflexivity].
    + destruct (Hf 2%nat (mkPut "h2" "two" (Failed (OtherError "BucketAlreadyOwnedByYou"))) (OtherError "BucketAlreadyOwnedByYou"))
        as [Hw _]; [vm_compute; reflexivity|reflexivity|exact Hw].
Defined.
