(* ===== verification/Sessions.v ===== *)
(** * Database and Redis handles ([crawler/storage/db.py], [crawler/redis_client.py])

    The process-wide engine, session maker and Redis client, created by the
    first caller; [session_scope], the transaction every repository call runs
    in; [ensure_schema].  The handles are values that record how they were
    configured: the libraries open the connections.

    [session_atomic]: a session applies all of its body or nothing;
    [engine_first_settings_win]: who decides which database is used. *)
From S2P Require Import Prelude PyStr Config Storage.
Local Open Scope Z_scope.

(** ** The handles *)

(** [create_async_engine(...)]: pool size and pre-ping, or the pragmas of an
    embedded database. *)
Inductive AsyncEngine : Type :=
| SqliteEngine (dsn : string) (echo : bool) (pragmas : list string)
| PooledEngine (dsn : string) (echo : bool) (pool_size : Z) (pool_pre_ping : bool).
Definition engine_dsn (e : AsyncEngine) : string :=
  match e with SqliteEngine d _ _ | PooledEngine d _ _ _ => d end.

(** [_engine], [_sessionmaker] (bound to its engine) and [_client]. *)
Record Handles : Type := mkHandles {
  h_engine : option AsyncEngine; h_sessionmaker : option AsyncEngine; h_redis : option string }.
Definition no_handles : Handles := mkHandles None None None.

Definition is_sqlite (dsn : string) : bool := startswith "sqlite" dsn.

Definition sqlite_pragmas : list string :=
  ["PRAGMA journal_mode=WAL"; "PRAGMA busy_timeout=5000"; "PRAGMA foreign_keys=ON"].
Definition make_engine (s : Settings) : AsyncEngine :=
  if is_sqlite (dsn (postgres s)) then SqliteEngine (dsn (postgres s)) (echo (postgres s)) sqlite_pragmas
  else PooledEngine (dsn (postgres s)) (echo (postgres s)) (pool_size (postgres s)) true.

Definition get_engine (s : Settings) (h : Handles) : AsyncEngine * Handles :=
  match h_engine h with
  | Some e => (e, h)
  | None => let e := make_engine s in (e, mkHandles (Some e) (h_sessionmaker h) (h_redis h))
  end.
Definition get_sessionmaker (s : Settings) (h : Handles) : AsyncEngine * Handles :=
  match h_sessionmaker h with
  | Some m => (m, h)
  | None => let '(e, h) := get_engine s h in (e, mkHandles (h_engine h) (Some e) (h_redis h))
  end.
Definition dispose_engine (h : Handles) : Handles := mkHandles None None (h_redis h).

(** [SqlDocumentSink.close]: the body store, if there is one, then the engine. *)
Definition close_sink (store_close : option (result unit)) (h : Handles) : result unit * Handles :=
  match store_close with Some (Raise e) => (Raise e, h) | _ => (Ok tt, dispose_engine h) end.

Definition get_redis (s : Settings) (h : Handles) : string * Handles :=
  match h_redis h with
  | Some u => (u, h)
  | None => let u := redis_url (redis s) in (u, mkHandles (h_engine h) (h_sessionmaker h) (Some u))
  end.
Definition close_redis (h : Handles) : Handles := mkHandles (h_engine h) (h_sessionmaker h) None.

(** [ensure_schema]: the tables of [Base.metadata] that a database has not yet,
    for the embedded database only. *)
Definition metadata_tables : list string := ["crawl"; "document"; "link_edge"; "page_body"; "domain"].
Definition ensure_schema (s : Settings) (tables : gset string) (h : Handles) : gset string * Handles :=
  if is_sqlite (dsn (postgres s)) then
    let '(_, h) := get_engine s h in (list_to_set metadata_tables ∪ tables, h)
  else (tables, h).

(** The schema is created once: a second call changes nothing. *)
Lemma ensure_schema_idempotent s tables h :
  let '(tables1, h1) := ensure_schema s tables h in ensure_schema s tables1 h1 = (tables1, h1).
Proof.
  unfold ensure_schema, get_engine. destruct (is_sqlite (dsn (postgres s))); [|done].
  destruct (h_engine h) as [e|] eqn:Ee; cbn [h_engine]; rewrite ?Ee; f_equal; set_solver.
Qed.

(** ** Rows of the crawl table *)

Definition set_crawls (db : DB) (cs : list Crawl) (next : Z) : DB :=
  mkDB cs (db_documents db) (db_edges db) (db_bodies db) next (db_next_doc db) (db_next_edge db) (db_now db).

(** [session.get(Crawl, id)]. *)
Definition get_crawl (id : Z) (db : DB) : option Crawl := List.find (fun c => c_id c =? id) (db_crawls db).

(** [row.status = status]: an UPDATE, which also sets [updated_at], when the
    value is another one. *)
Definition with_status (status : string) (now : Q) (c : Crawl) : Crawl :=
  if bool_decide (c_status c = status) then c
  else mkCrawl (c_id c) (c_name c) (c_seeds c) status (c_max_depth c) (c_max_pages c) (c_allowed_domains c)
         (c_created_at c) now.
Definition set_crawl_status (id : Z) (status : string) (db : DB) : DB :=
  set_crawls db ((fun c => if c_id c =? id then with_status status (db_now db) c else c) <$> db_crawls db)
    (db_next_crawl db).

(** [session.add(Crawl(...))] and [flush]: the id of the new row. *)
Definition insert_crawl (name : string) (seeds : list string) (status : string) (max_depth max_pages : Z)
    (allowed : option (list string)) (db : DB) : Z * DB :=
  let id := db_next_crawl db in
  (id, set_crawls db (db_crawls db ++ [mkCrawl id name seeds status max_depth max_pages allowed (db_now db) (db_now db)])
         (id + 1)).

(** Ids are unique and below the next one. *)
Definition crawls_wf (db : DB) : Prop :=
  NoDup (c_id <$> db_crawls db) /\ Forall (fun c => c_id c < db_next_crawl db) (db_crawls db).

Lemma with_status_id status now c : c_id (with_status status now c) = c_id c.
Proof. unfold with_status. by case_bool_decide. Qed.
Lemma with_status_status status now c : c_status (with_status status now c) = status.
Proof. unfold with_status. by case_bool_decide. Qed.

Lemma get_crawl_set_status id status id' db :
  get_crawl id' (set_crawl_status id status db) =
  (fun c => if c_id c =? id then with_status status (db_now db) c else c) <$> get_crawl id' db.
Proof.
  unfold get_crawl, set_crawl_status, set_crawls. cbn [db_crawls]. induction (db_crawls db) as [|c cs IH]; [done|].
  cbn. assert (c_id (if c_id c =? id then with_status status (db_now db) c else c) = c_id c) as ->.
  { destruct (c_id c =? id); [apply with_status_id|done]. }
  by destruct (c_id c =? id').
Qed.

Lemma get_crawl_Some id db c : get_crawl id db = Some c -> c ∈ db_crawls db /\ c_id c = id.
Proof. intros [Hin E%Z.eqb_eq]%List.find_some. split; [by apply list_elem_of_In|done]. Qed.

(** The status of a row, when there is one. *)
Definition status_of (id : Z) (db : DB) : option string := c_status <$> get_crawl id db.

Lemma status_of_set id status id' db : status_of id' (set_crawl_status id status db) =
  if id' =? id then (fun _ => status) <$> get_crawl id db else status_of id' db.
Proof.
  unfold status_of. rewrite get_crawl_set_status. destruct (Z.eqb_spec id' id) as [->|Hne].
  - destruct (get_crawl id db) as [c|] eqn:E; [|done]. apply get_crawl_Some in E as [_ <-]. cbn.
    by rewrite Z.eqb_refl, with_status_status.
  - destruct (get_crawl id' db) as [c|] eqn:E; [|done]. apply get_crawl_Some in E as [_ <-]. cbn.
    by destruct (Z.eqb_spec (c_id c) id).
Qed.

Lemma crawls_wf_set id status db : crawls_wf db -> crawls_wf (set_crawl_status id status db).
Proof.
  intros [Hn Hf]. unfold crawls_wf, set_crawl_status, set_crawls. cbn [db_crawls db_next_crawl].
  assert (forall f : Crawl -> Crawl, (forall c, c_id (f c) = c_id c) -> c_id <$> (f <$> db_crawls db) = c_id <$> db_crawls db) as Hid.
  { intros f Hf'. rewrite <- list_fmap_compose. apply list_fmap_ext. intros ? ? _. apply Hf'. }
  assert (forall c, c_id (if c_id c =? id then with_status status (db_now db) c else c) = c_id c) as Hk.
  { intros c. destruct (c_id c =? id); [apply with_status_id|done]. }
  rewrite Hid by done. split; [done|]. apply Forall_fmap. eapply Forall_impl; [exact Hf|]. intros c Hc. cbn. by rewrite Hk.
Qed.

Lemma insert_crawl_spec name seeds status md mp al db :
  let '(id, db') := insert_crawl name seeds status md mp al db in
  crawls_wf db -> crawls_wf db' /\ id = db_next_crawl db /\ status_of id db = None /\
  forall id', status_of id' db' = if id' =? id then Some status else status_of id' db.
Proof.
  unfold insert_crawl. intros [Hn Hf].
  assert (status_of (db_next_crawl db) db = None) as Hnone.
  { unfold status_of. destruct (get_crawl _ db) as [c|] eqn:E; [|done]. apply get_crawl_Some in E as [Hc Hi].
    eapply Forall_forall in Hf; [|exact Hc]. cbn in Hf. lia. }
  split.
  - split; cbn.
    + rewrite fmap_app. apply NoDup_app. split_and!; [done| |apply NoDup_singleton].
      intros i (c & -> & Hc)%list_elem_of_fmap Hi%list_elem_of_singleton. eapply Forall_forall in Hf; [|exact Hc]. cbn in Hi, Hf. lia.
    + apply Forall_app. split; [|by repeat constructor; cbn; lia]. eapply Forall_impl; [exact Hf|]. cbn. lia.
  - split; [done|]. split; [done|]. intros id'. unfold status_of, get_crawl in *. cbn [set_crawls db_crawls].
    destruct (Z.eqb_spec id' (db_next_crawl db)) as [->|Hne].
    + revert Hnone. induction (db_crawls db) as [|c cs IH]; cbn; [by rewrite Z.eqb_refl|].
      destruct (c_id c =? db_next_crawl db); [done|]. apply IH.
      * cbn in Hn. by apply NoDup_cons in Hn as [_ ?].
      * by apply Forall_cons in Hf as [_ ?].
    + induction (db_crawls db) as [|c cs IH]; cbn.
      { by destruct (Z.eqb_spec (db_next_crawl db) id'). }
      destruct (c_id c =? id'); [done|]. apply IH.
      * cbn in Hn. by apply NoDup_cons in Hn as [_ ?].
      * by apply Forall_cons in Hf as [_ ?].
      * cbn in Hnone. by destruct (c_id c =? db_next_crawl db).
Qed.

(** ** [session_scope] *)

(** The server's answer to a commit: an exception, or none. *)
Class Commits := commit_error : DB -> option exn.

Section Session.
Context `{Commits}.

(** The body works on the transaction's view; it is committed when the body
    returns and rolled back when it raises, or when the commit does. *)
Definition session_scope {A} (body : act DB A) : act DB A := fun db =>
  match body db with
  | (Ok a, db') => match commit_error db' with None => (Ok a, db') | Some e => (Raise e, db) end
  | (Raise e, _) => (Raise e, db)
  end.

(** A query: nothing is written. *)
Definition query {A} (f : DB -> A) : act DB A := session_scope (fun db => (Ok (f db), db)).

(** A session is all or nothing.  When the scope returns, its body returned
    and its writes are the new state of the tables; when it raises, the
    exception is the body's or the commit's and the tables are as before; a
    body that raises is never committed. *)
Theorem session_atomic {A} (body : act DB A) db :
  match session_scope body db with
  | (Ok a, db') => body db = (Ok a, db') /\ commit_error db' = None
  | (Raise e, db') => db' = db /\
      (fst (body db) = Raise e \/ is_ok (fst (body db)) = true /\ commit_error (snd (body db)) = Some e)
  end.
Proof.
  unfold session_scope. destruct (body db) as [[a|e] db'] eqn:E; cbn; [|by auto].
  destruct (commit_error db') as [e|] eqn:Ec; cbn; auto.
Qed.

Lemma query_state {A} (f : DB -> A) db : snd (query f db) = db.
Proof. unfold query, session_scope. by destruct (commit_error db). Qed.
Lemma query_ok {A} (f : DB -> A) db : commit_error db = None -> query f db = (Ok (f db), db).
Proof. unfold query, session_scope. by intros ->. Qed.
End Session.

(** ** Whose settings count *)

(** A call of the process that needs a handle, or lets go of it. *)
Inductive handle_op : Type := UseEngine (s : Settings) | UseSession (s : Settings) | Dispose.
Definition handle_step (o : handle_op) (h : Handles) : option AsyncEngine * Handles :=
  match o with
  | UseEngine s => let '(e, h) := get_engine s h in (Some e, h)
  | UseSession s => let '(e, h) := get_sessionmaker s h in (Some e, h)
  | Dispose => (None, dispose_engine h)
  end.
Fixpoint handle_run (os : list handle_op) (h : Handles) : list (option AsyncEngine) * Handles :=
  match os with
  | [] => ([], h)
  | o :: os => let '(a, h) := handle_step o h in let '(l, h) := handle_run os h in (a :: l, h)
  end.

Definition uses (o : handle_op) : option Settings :=
  match o with UseEngine s | UseSession s => Some s | Dispose => None end.

Lemma handle_run_kept os e h : h_engine h = Some e -> (forall m, h_sessionmaker h = Some m -> m = e) ->
  Forall (fun o => is_Some (uses o)) os -> Forall (fun a => a = Some e) (fst (handle_run os h)).
Proof.
  revert h. induction os as [|o os IH]; intros h He Hm Hu; [constructor|].
  inversion Hu as [|?? [s Hs] Hu']; subst. cbn [handle_run].
  assert (exists h', handle_step o h = (Some e, h') /\ h_engine h' = Some e /\
            (forall m, h_sessionmaker h' = Some m -> m = e)) as (h' & -> & He' & Hm').
  { destruct o as [s'|s'|]; [| |done]; cbn; unfold get_sessionmaker, get_engine; rewrite ?He; [by exists h|].
    destruct (h_sessionmaker h) as [m|] eqn:Em; [rewrite (Hm m eq_refl); by exists h; rewrite Em|].
    eexists. split; [done|]. cbn. split; [done|]. by intros m [= <-]. }
  specialize (IH h' He' Hm' Hu'). destruct (handle_run os h') as [l h'']. by constructor.
Qed.

(** All of the process works on the database of the first settings used:
    between two disposals every engine and every session, whatever settings
    its caller passes, is the one made from the first caller's settings; an
    embedded database gets the pragmas, any other a pool. *)
Theorem engine_first_settings_win o os h s :
  h_engine h = None -> h_sessionmaker h = None -> uses o = Some s -> Forall (fun o => is_Some (uses o)) os ->
  Forall (fun a => a = Some (make_engine s)) (fst (handle_run (o :: os) h)) /\
  engine_dsn (make_engine s) = dsn (postgres s) /\
  (is_sqlite (dsn (postgres s)) = true <-> exists d e p, make_engine s = SqliteEngine d e p).
Proof.
  intros He Hm Hs Hu. split; [|unfold make_engine; destruct (is_sqlite (dsn (postgres s))); naive_solver].
  cbn [handle_run].
  assert (exists h', handle_step o h = (Some (make_engine s), h') /\ h_engine h' = Some (make_engine s) /\
            (forall m, h_sessionmaker h' = Some m -> m = make_engine s)) as (h' & -> & He' & Hm').
  { destruct o as [s'|s'|]; [| |done]; injection Hs as ->; cbn; unfold get_sessionmaker, get_engine; rewrite ?He, ?Hm;
      (eexists; split; [done|]; cbn; rewrite ?Hm; split; [done|]); [done|by intros m [= <-]]. }
  pose proof (handle_run_kept os _ h' He' Hm' Hu). destruct (handle_run os h') as [l h'']. by constructor.
Qed.

(** ** Concrete instances *)

Definition no_commit_error : Commits := fun _ => None.

Lemma engine_first_settings_win_witness :
  let pg := {| base_url := ""; log_level := ""; log_json := false;
               postgres := {| dsn := "postgresql+asyncpg://db/crawler"; echo := false; pool_size := 5 |};
               redis := redis default_settings; kafka := kafka default_settings; fetch := fetch default_settings;
               politeness := politeness default_settings; crawl := crawl default_settings;
               dedup := dedup default_settings; frontier := frontier default_settings;
               sharding := sharding default_settings; storage := storage default_settings;
               resilience := resilience default_settings; recrawl := recrawl default_settings |} in
  fst (handle_run [UseSession default_settings; UseEngine pg] no_handles)
    = [Some (make_engine default_settings); Some (make_engine default_settings)].
Proof.
  cbv zeta. match goal with |- fst (handle_run [_; UseEngine ?s] _) = _ => set (pg := s) end.
  destruct (engine_first_settings_win (UseSession default_settings) [UseEngine pg] no_handles default_settings
    eq_refl eq_refl eq_refl) as [Hw _].
  - constructor; [exists pg; reflexivity|constructor].
  - reflexivity.
Defined.
