(* ===== verification/Pipeline.v ===== *)
(** * Per-URL processing ([crawler/pipeline/pipeline.py])

    [process] with every guard, in the order of the code, over its injected
    collaborators: each is the protocol class of its component (or absent).
    The back-pressure gate and the politeness slot only delay the fetch here;
    their bounds are in [Backpressure] and [Robots].

    [process_walk] goes once through [process] and gives both
    [process_result] (the shape of every result and what was written) and
    [process_feeds_breaker] (the operations a run performs on the breaker);
    [stored_page_is_revalidated] ties a stored page to the conditional headers
    of the next request.  The examples at the end run a one-page site:
    [reprocessing_forgets_body], [not_modified_stays_stale],
    [redirected_page_not_revalidated]. *)
From S2P Require Import Prelude PyStr Config Models UrlUtils HtmlParser.
From S2P Require Import SimHash Dedup CircuitBreaker Budget Fetcher Storage.
From S2P Require Import ObjectStore.
Local Open Scope Z_scope.

(** [hashlib.sha256(body).hexdigest()]. *)
Class Sha256 := sha256_hexdigest : string -> string.

(** The politeness gate: [allowed] never raises; [slot] is the state after the
    slot was held around the fetch. *)
Class PolitenessGate (G : Type) := {
  gate_allowed : string -> G -> bool * G;
  gate_slot : string -> G -> result G }.

(** [fetcher.fetch], with the metrics it counts. *)
Class Downloader (F : Type) := download : string -> option (list (string * string)) -> act (F * registry) FetchResult.

#[export] Instance fetcher_download `{Aiohttp Session content} : Downloader (Fetcher Session) :=
  fun url headers fr =>
    let '(r, s) := fetch_url url headers (mkFetchState (fst fr) (snd fr) []) in (r, (fs_fetcher s, fs_reg s)).

Section Pipeline.
Context {G F D B O S' : Type}.
Context `{UrlLib, Selectolax, TokenHash, Sha256}.
Context `{PolitenessGate G, Downloader F, ContentDedup D, DomainBudget B, ObjectStore O, DocumentSink S'}.

(** The object with the state of its collaborators and the metrics. *)
Record Pipeline : Type := mkPipeline {
  pl_settings : Settings; pl_fetcher : F; pl_sink : S'; pl_politeness : option G; pl_content_dedup : option D;
  pl_object_store : option O; pl_conditional_get : bool; pl_circuit_breaker : option CircuitBreaker;
  pl_domain_budget : option B; pl_reg : registry }.

(** Replacing one collaborator. *)
Definition with_fetcher (p : Pipeline) (f : F) (reg : registry) : Pipeline :=
  mkPipeline (pl_settings p) f (pl_sink p) (pl_politeness p) (pl_content_dedup p) (pl_object_store p)
    (pl_conditional_get p) (pl_circuit_breaker p) (pl_domain_budget p) reg.
Definition with_sink (p : Pipeline) (s : S') : Pipeline :=
  mkPipeline (pl_settings p) (pl_fetcher p) s (pl_politeness p) (pl_content_dedup p) (pl_object_store p)
    (pl_conditional_get p) (pl_circuit_breaker p) (pl_domain_budget p) (pl_reg p).
Definition with_politeness (p : Pipeline) (g : G) : Pipeline :=
  mkPipeline (pl_settings p) (pl_fetcher p) (pl_sink p) (Some g) (pl_content_dedup p) (pl_object_store p)
    (pl_conditional_get p) (pl_circuit_breaker p) (pl_domain_budget p) (pl_reg p).
Definition with_dedup (p : Pipeline) (d : D) : Pipeline :=
  mkPipeline (pl_settings p) (pl_fetcher p) (pl_sink p) (pl_politeness p) (Some d) (pl_object_store p)
    (pl_conditional_get p) (pl_circuit_breaker p) (pl_domain_budget p) (pl_reg p).
Definition with_store (p : Pipeline) (o : O) : Pipeline :=
  mkPipeline (pl_settings p) (pl_fetcher p) (pl_sink p) (pl_politeness p) (pl_content_dedup p) (Some o)
    (pl_conditional_get p) (pl_circuit_breaker p) (pl_domain_budget p) (pl_reg p).
Definition with_breaker (p : Pipeline) (cb : CircuitBreaker) (reg : registry) : Pipeline :=
  mkPipeline (pl_settings p) (pl_fetcher p) (pl_sink p) (pl_politeness p) (pl_content_dedup p) (pl_object_store p)
    (pl_conditional_get p) (Some cb) (pl_domain_budget p) reg.
Definition with_budget (p : Pipeline) (b : B) (reg : registry) : Pipeline :=
  mkPipeline (pl_settings p) (pl_fetcher p) (pl_sink p) (pl_politeness p) (pl_content_dedup p) (pl_object_store p)
    (pl_conditional_get p) (pl_circuit_breaker p) (Some b) reg.

Definition count (m : metric) (n : Z) : act Pipeline unit :=
  amodify (fun p => with_fetcher p (pl_fetcher p) (inc m n (pl_reg p))).

(** ** The guards *)

(** [self.politeness is not None and not await self.politeness.allowed(url)]. *)
Definition ask_robots (url : string) : act Pipeline bool := fun p =>
  match pl_politeness p with
  | None => (Ok true, p)
  | Some g => let '(b, g') := gate_allowed url g in (Ok b, with_politeness p g')
  end.

Definition ask_breaker (host : string) (now : Q) : act Pipeline bool := fun p =>
  match pl_circuit_breaker p with
  | None => (Ok true, p)
  | Some cb => let '(b, cb') := allow host now cb in (Ok b, with_breaker p cb' (pl_reg p))
  end.

Definition ask_budget (url : string) : act Pipeline bool := fun p =>
  match pl_domain_budget p with
  | None => (Ok true, p)
  | Some b =>
      match registered_domain url with
      | Raise e => (Raise e, p)
      | Ok domain =>
          let '(ok, b', reg) := try_consume domain 1 b (pl_reg p) in (Ok ok, with_budget p b' reg)
      end
  end.

(** [_record_outcome]. *)
Definition host_failed (status : Z) (error : option string) : bool :=
  bool_decide (is_Some error) || (500 <=? status) || (status =? 0).
Definition record_outcome (host : string) (status : Z) (error : option string) (now : Q) : act Pipeline unit := fun p =>
  match pl_circuit_breaker p with
  | None => (Ok tt, p)
  | Some cb =>
      let '(cb', reg) := if host_failed status error then record_failure host now cb (pl_reg p)
                         else record_success host cb (pl_reg p) in
      (Ok tt, with_breaker p cb' reg)
  end.

(** [_conditional_headers]. *)
Definition validator_headers (v : option string * option string) : list (string * string) :=
  (match fst v with Some e => if truthy e then [("If-None-Match", e)] else [] | None => [] end) ++
  (match snd v with Some m => if truthy m then [("If-Modified-Since", m)] else [] | None => [] end).
Definition conditional_headers (url : string) : act Pipeline (option (list (string * string))) := fun p =>
  (if pl_conditional_get p then
     let* n := normalize_url (Some url) None in
     let lookup := default url n in
     let* validators := sink_validators lookup (pl_sink p) in
     match validators with
     | None => Ok None
     | Some v => match validator_headers v with [] => Ok None | hs => Ok (Some hs) end
     end
   else Ok None, p).

(** [async with gate, slot: await self.fetcher.fetch(...)]. *)
Definition guarded_fetch (url : string) (headers : option (list (string * string))) : act Pipeline FetchResult := fun p =>
  match (match pl_politeness p with
         | None => Ok p
         | Some g => let* g' := gate_slot url g in Ok (with_politeness p g')
         end) with
  | Raise e => (Raise e, p)
  | Ok p =>
      let '(r, (f, reg)) := download url headers (pl_fetcher p, pl_reg p) in (r, with_fetcher p f reg)
  end.

(** ** The page *)

(** [record] as it is first built. *)
Definition base_record (item : FrontierItem) (canonical domain : string) (r : FetchResult) : PageRecord :=
  mkRecord canonical domain (fi_depth item) (Some (fr_status r)) (fr_content_type r)
    (Some (Z.of_nat (String.length (fr_body r)))) None
    (if truthy (fr_body r) then Some (sha256_hexdigest (fr_body r)) else None) None None
    (header r "ETag") (header r "Last-Modified") (fi_crawl_id item) [].

Definition set_parsed (r : PageRecord) (title : option string) (simhash : option Z) : PageRecord :=
  mkRecord (pr_url r) (pr_registered_domain r) (pr_depth r) (pr_http_status r) (pr_content_type r) (pr_content_length r)
    title (pr_content_hash r) simhash (pr_storage_key r) (pr_etag r) (pr_last_modified r) (pr_crawl_id r) (pr_links r).
Definition set_storage_key (r : PageRecord) (k : string) : PageRecord :=
  mkRecord (pr_url r) (pr_registered_domain r) (pr_depth r) (pr_http_status r) (pr_content_type r) (pr_content_length r)
    (pr_title r) (pr_content_hash r) (pr_simhash r) (Some k) (pr_etag r) (pr_last_modified r) (pr_crawl_id r) (pr_links r).
Definition set_links (r : PageRecord) (l : list Link) : PageRecord :=
  mkRecord (pr_url r) (pr_registered_domain r) (pr_depth r) (pr_http_status r) (pr_content_type r) (pr_content_length r)
    (pr_title r) (pr_content_hash r) (pr_simhash r) (pr_storage_key r) (pr_etag r) (pr_last_modified r) (pr_crawl_id r) l.

(** The content-dedup call on a fingerprint. *)
Definition ask_dedup (fingerprint : Z) (d : D) : act Pipeline bool := fun p =>
  match is_duplicate fingerprint d with
  | Ok (b, d') => (Ok b, with_dedup p d')
  | Raise e => (Raise e, p)
  end.

(** [if result.is_html and body: ...]: record, links, duplicate. *)
Definition parse_stage (canonical : string) (r : FetchResult) (record : PageRecord) :
    act Pipeline (PageRecord * list Link * bool) :=
  if is_html r && truthy (fr_body r) then
    let! parsed := alift (parse_page canonical (fr_body r)) in
    let! _ := count LINKS_EXTRACTED (Z.of_nat (length (pp_links parsed))) in
    let! p := aget in
    match pl_content_dedup p with
    | None => aret (set_parsed record (pp_title parsed) None, pp_links parsed, false)
    | Some d =>
        let fingerprint := simhash_text (extract_text (fr_body r)) 64 in
        let record := set_parsed record (pp_title parsed) (Some fingerprint) in
        let! dup := ask_dedup fingerprint d in
        if dup then
          let! _ := count (DEDUP_SKIPPED "content") 1 in aret (record, [], true)
        else aret (record, pp_links parsed, false)
    end
  else aret (record, [], false).

Definition backend_label (b : body_backend_kind) : string :=
  match b with BodyPostgres => "postgres" | BodyMinio => "minio" end.

(** Persisting the body once per content hash. *)
Definition store_stage (r : FetchResult) (record : PageRecord) (duplicate : bool) : act Pipeline PageRecord := fun p =>
  match pl_object_store p, pr_content_hash record with
  | Some o, Some h =>
      if truthy (fr_body r) && truthy h && negb duplicate then
        match os_put h (fr_body r) (fr_content_type r) o with
        | Ok (k, o') =>
            (let! _ := count (BODIES_STORED (backend_label (body_backend (storage (pl_settings p))))) 1 in
             aret (set_storage_key record k)) (with_store p o')
        | Raise e => (Raise e, p)
        end
      else (Ok record, p)
  | _, _ => (Ok record, p)
  end.

Definition save_stage (record : PageRecord) : act Pipeline unit := fun p =>
  match save_page record (pl_sink p) with
  | Ok s => (Ok tt, with_sink p s)
  | Raise e => (Raise e, p)
  end.

(** ** [process]

    [now 0] and [now 1] are the breaker's clock readings. *)

(** A page that was fetched. *)
Definition page_stage (item : FrontierItem) (result : FetchResult) : act Pipeline ProcessResult :=
  let! n := alift (normalize_url (Some (fr_final_url result)) None) in
  let canonical := default (fi_url item) n in
  let! domain := alift (registered_domain canonical) in
  let! (record, links, duplicate) := parse_stage canonical result (base_record item canonical domain result) in
  let! record := store_stage result record duplicate in
  let record := set_links record links in
  let! _ := save_stage record in
  aret (mkResult item true true duplicate None links (Some record)).

(** What comes after the fetch. *)
Definition after_fetch (now : nat -> Q) (item : FrontierItem) (host : string) (result : FetchResult) : act Pipeline ProcessResult :=
  let! _ := record_outcome host (fr_status result) (fr_error result) (now 1%nat) in
  if bool_decide (is_Some (fr_error result)) then aret (skipped_result item "fetch_error")
  else if fr_status result =? 304 then
    let! _ := count NOT_MODIFIED 1 in
    aret (mkResult item true false false (Some "not_modified") [] None)
  else page_stage item result.

Definition process (now : nat -> Q) (item : FrontierItem) : act Pipeline ProcessResult :=
  let! robots_ok := ask_robots (fi_url item) in
  if negb robots_ok then
    let! _ := count ROBOTS_BLOCKED 1 in aret (skipped_result item "robots")
  else
  let! host := alift (host_of (fi_url item)) in
  let! breaker_ok := ask_breaker host (now 0%nat) in
  if negb breaker_ok then
    let! _ := count CIRCUIT_OPEN_SKIPS 1 in aret (skipped_result item "circuit_open")
  else
  let! budget_ok := ask_budget (fi_url item) in
  if negb budget_ok then aret (skipped_result item "budget_exhausted")
  else
  let! headers := conditional_headers (fi_url item) in
  let! result := guarded_fetch (fi_url item) headers in
  after_fetch now item host result.

End Pipeline.
Arguments Pipeline : clear implicits.

(** ** What each stage leaves alone *)
Section Frames.
Context {G F D B O S' : Type}.
Context `{UrlLib, Selectolax, TokenHash, Sha256}.
Context `{PolitenessGate G, Downloader F, ContentDedup D, DomainBudget B, ObjectStore O, DocumentSink S'}.
Abbreviation pipe := (Pipeline G F D B O S').

(** Nothing was written: sink, body store and content index are the same. *)
Definition same_output (p p' : pipe) : Prop :=
  pl_sink p' = pl_sink p /\ pl_content_dedup p' = pl_content_dedup p /\
  pl_object_store p' = pl_object_store p /\ pl_settings p' = pl_settings p.
(** Nor was anything fetched. *)
Definition same_before_fetch (p p' : pipe) : Prop := same_output p p' /\ pl_fetcher p' = pl_fetcher p.

Lemma same_output_trans (p1 p2 p3 : pipe) : same_output p1 p2 -> same_output p2 p3 -> same_output p1 p3.
Proof. unfold same_output. intuition congruence. Qed.
Lemma same_before_trans (p1 p2 p3 : pipe) : same_before_fetch p1 p2 -> same_before_fetch p2 p3 -> same_before_fetch p1 p3.
Proof. unfold same_before_fetch. intros [? ?] [? ?]. split; [by eapply same_output_trans|congruence]. Qed.
Lemma same_refl (p : pipe) : same_before_fetch p p.
Proof. done. Qed.

Lemma ask_robots_frame url (p : pipe) : exists b p', ask_robots url p = (Ok b, p') /\ same_before_fetch p p' /\
  pl_circuit_breaker p' = pl_circuit_breaker p /\ pl_domain_budget p' = pl_domain_budget p.
Proof.
  unfold ask_robots. destruct (pl_politeness p) as [g|]; [|by eexists _, _].
  destruct (gate_allowed url g) as [b g']. by eexists _, _.
Qed.

Lemma ask_breaker_frame host now (p : pipe) : exists b p', ask_breaker host now p = (Ok b, p') /\ same_before_fetch p p' /\
  match pl_circuit_breaker p with
  | None => pl_circuit_breaker p' = None /\ b = true
  | Some cb => (b, pl_circuit_breaker p') = (fst (allow host now cb), Some (snd (allow host now cb)))
  end.
Proof.
  unfold ask_breaker. destruct (pl_circuit_breaker p) as [cb|] eqn:E; [|by eexists _, _].
  destruct (allow host now cb) as [b cb']. by eexists _, _.
Qed.

Lemma ask_budget_frame url (p : pipe) : let '(r, p') := ask_budget url p in same_before_fetch p p' /\
  pl_circuit_breaker p' = pl_circuit_breaker p.
Proof.
  unfold ask_budget. destruct (pl_domain_budget p) as [b|]; [|done].
  destruct (registered_domain url); [|done]. by destruct (try_consume _ _ _ _) as [[ok b'] reg].
Qed.

Lemma guarded_fetch_frame url headers (p : pipe) : let '(r, p') := guarded_fetch url headers p in
  same_output p p' /\ pl_circuit_breaker p' = pl_circuit_breaker p.
Proof.
  unfold guarded_fetch. destruct (pl_politeness p) as [g|].
  - destruct (gate_slot url g) as [g'|]; cbn [rbind]; [|done]. by destruct (download _ _ _) as [r [f reg]].
  - by destruct (download _ _ _) as [r [f reg]].
Qed.

Lemma record_outcome_frame host status error now (p : pipe) : exists p', record_outcome host status error now p = (Ok tt, p') /\
  same_output p p' /\
  match pl_circuit_breaker p with
  | None => pl_circuit_breaker p' = None
  | Some cb => pl_circuit_breaker p' = Some (fst (if host_failed status error then record_failure host now cb (pl_reg p)
                                                  else record_success host cb (pl_reg p)))
  end.
Proof.
  unfold record_outcome. destruct (pl_circuit_breaker p) as [cb|] eqn:E; [|by eexists].
  destruct (if host_failed status error then _ else _) as [cb' reg]. by eexists.
Qed.

(** [parse_stage]: the record keeps what it had, a duplicate has no links. *)
Lemma parse_stage_frame canonical r rec (p : pipe) :
  let '(x, p') := parse_stage canonical r rec p in
  pl_sink p' = pl_sink p /\ pl_object_store p' = pl_object_store p /\ pl_settings p' = pl_settings p /\
  pl_circuit_breaker p' = pl_circuit_breaker p /\
  (forall rec' links dup, x = Ok (rec', links, dup) ->
     (exists t s, rec' = set_parsed rec t s \/ rec' = rec) /\ (dup = true -> links = [] /\ pl_content_dedup p <> None)).
Proof.
  unfold parse_stage. destruct (is_html r && _); cbn.
  2:{ split_and!; try done. intros ??? [= <- <- <-]. split; [|done]. exists None, None. by right. }
  unfold abind, alift, aget, aret. destruct (parse_page canonical (fr_body r)) as [parsed|e]; [|done]. cbn.
  destruct (pl_content_dedup p) as [d|] eqn:Ed; cbn.
  - unfold ask_dedup. destruct (is_duplicate _ d) as [[[] d']|e]; cbn; split_and!; try done;
      intros ??? [= <- <- <-]; (split; [eexists _, _; by left|done]).
  - split_and!; try done. intros ??? [= <- <- <-]. split; [eexists _, _; by left|done].
Qed.

Lemma store_stage_frame r rec dup (p : pipe) :
  let '(x, p') := store_stage r rec dup p in
  pl_sink p' = pl_sink p /\ pl_circuit_breaker p' = pl_circuit_breaker p /\
  (forall rec', x = Ok rec' -> rec' = rec \/ dup = false /\ exists k, rec' = set_storage_key rec k).
Proof.
  unfold store_stage. destruct (pl_object_store p) as [o|]; [|by split_and!; try done; intros ? [= <-]; left].
  destruct (pr_content_hash rec) as [h|]; [|by split_and!; try done; intros ? [= <-]; left].
  destruct (truthy (fr_body r) && truthy h && negb dup) eqn:Ec; [|by split_and!; try done; intros ? [= <-]; left].
  destruct (os_put _ _ _ o) as [[k o']|e]; cbn; split_and!; try done. intros ? [= <-]. right.
  apply andb_true_iff in Ec as [_ Ec%negb_true_iff]. eauto.
Qed.

(** ** The results *)

(** The reasons to skip a URL before it is fetched. *)
Definition refusals : list string := ["robots"; "circuit_open"; "budget_exhausted"].

(** What a result says, and what the run wrote. *)
Definition result_shape (item : FrontierItem) (p p' : pipe) (r : ProcessResult) : Prop :=
  res_item r = item /\
  match res_skipped r with
  | Some why =>
      why ∈ refusals ++ ["fetch_error"; "not_modified"] /\ res_fetched r = bool_decide (why = "not_modified") /\
      res_stored r = false /\ res_duplicate r = false /\ res_links r = [] /\ res_record r = None /\
      same_output p p' /\ (why ∈ refusals -> pl_fetcher p' = pl_fetcher p)
  | None =>
      res_fetched r = true /\ res_stored r = true /\
      exists rec, res_record r = Some rec /\ save_page rec (pl_sink p) = Ok (pl_sink p') /\
        pr_links rec = res_links r /\ pr_depth rec = fi_depth item /\ pr_crawl_id rec = fi_crawl_id item /\
        (res_duplicate r = true -> res_links r = [] /\ pr_storage_key rec = None)
  end.

(** The part of [process] after the outcome of the fetch was recorded. *)
Lemma process_page_shape item r (p p1 : pipe) :
  pl_sink p = pl_sink p1 ->
  let '(x, p') := page_stage item r p1 in
  pl_circuit_breaker p' = pl_circuit_breaker p1 /\
  match x with
  | Ok res => result_shape item p p' res /\ res_skipped res = None /\
      exists rec, res_record res = Some rec /\ pr_http_status rec = Some (fr_status r)
  | Raise _ => pl_sink p' = pl_sink p
  end.
Proof.
  intros Hs. unfold page_stage, abind at 1, alift. destruct (normalize_url _ _) as [n|e]; [|done].
  unfold abind at 1. set (canonical := default (fi_url item) n).
  destruct (registered_domain canonical) as [domain|e]; [|done].
  unfold abind at 1. pose proof (parse_stage_frame canonical r (base_record item canonical domain r) p1) as Hp.
  destruct (parse_stage _ _ _ p1) as [[[[rec links] dup]|e] p2]; [|by destruct Hp as (? & _ & _ & ? & _); split; congruence].
  destruct Hp as (Es2 & _ & _ & Ecb2 & Hx). destruct (Hx _ _ _ eq_refl) as [Hrec Hdup].
  unfold abind at 1. pose proof (store_stage_frame r rec dup p2) as Hst.
  destruct (store_stage r rec dup p2) as [[rec2|e] p3]; [|by destruct Hst as (? & ? & _); split; congruence].
  destruct Hst as (Es3 & Ecb3 & Hy). specialize (Hy _ eq_refl).
  unfold abind, save_stage, aret. destruct (save_page (set_links rec2 links) (pl_sink p3)) as [s|e] eqn:Esv.
  2:{ split; congruence. }
  cbn. split; [congruence|].
  assert (pr_depth rec2 = fi_depth item /\ pr_crawl_id rec2 = fi_crawl_id item /\
          pr_http_status rec2 = Some (fr_status r) /\ (dup = true -> pr_storage_key rec2 = None)) as (Hd & Hc & Hh & Hk).
  { destruct Hrec as (t & sg & [-> | ->]); destruct Hy as [-> | [-> (k & ->)]]; done. }
  split.
  - split; [done|]. cbn. split_and!; [done..|]. exists (set_links rec2 links). cbn.
    split_and!; [done| |done|done|done|]; [congruence|]. intros E. destruct (Hdup E). auto.
  - split; [done|]. eexists. split; [done|]. done.
Qed.

(** ** What the breaker is told *)

(** What each result stands for at the circuit breaker: the operations the run
    performed on it. *)
Definition outcome_event (failed : bool) (host : string) (now : Q) : event :=
  if failed then Failure host now else Success host.
Definition breaker_events (now : nat -> Q) (host : string) (r : ProcessResult) : list event :=
  match res_skipped r with
  | Some why =>
      if bool_decide (why = "robots") then []
      else Allow host (now 0%nat) ::
        (if bool_decide (why = "fetch_error") then [Failure host (now 1%nat)]
         else if bool_decide (why = "not_modified") then [Success host] else [])
  | None =>
      let status := default 0 (res_record r ≫= pr_http_status) in
      [Allow host (now 0%nat); outcome_event (bool_decide (status = 0 \/ 500 <= status)) host (now 1%nat)]
  end.

(** The breaker of [p'] is the one of [p] after [es], host by host. *)
Definition breaker_ran (es : list event) (p p' : pipe) : Prop :=
  match pl_circuit_breaker p with
  | None => pl_circuit_breaker p' = None
  | Some cb => exists cb', pl_circuit_breaker p' = Some cb' /\
      failure_threshold cb' = failure_threshold cb /\ reset_seconds cb' = reset_seconds cb /\
      forall h, host_state h cb' = host_run (failure_threshold cb) (reset_seconds cb) (host_events h es) (host_state h cb)
  end.

Lemma breaker_ran_same (p p' : pipe) : pl_circuit_breaker p' = pl_circuit_breaker p -> breaker_ran [] p p'.
Proof. unfold breaker_ran. intros ->. destruct (pl_circuit_breaker p) as [cb|]; [by exists cb|done]. Qed.

Lemma breaker_ran_trans es1 es2 (p1 p2 p3 : pipe) :
  breaker_ran es1 p1 p2 -> breaker_ran es2 p2 p3 -> breaker_ran (es1 ++ es2) p1 p3.
Proof.
  unfold breaker_ran. destruct (pl_circuit_breaker p1) as [cb|]; [|by intros ->].
  intros (cb1 & -> & T1 & R1 & Hs1) (cb2 & -> & T2 & R2 & Hs2). exists cb2. split_and!; [done|congruence..|].
  intros h. unfold host_events. rewrite filter_app, host_run_app, Hs2, Hs1, T1, R1. done.
Qed.

Lemma breaker_ran_one e (cb : CircuitBreaker) reg (p p' : pipe) :
  pl_circuit_breaker p = Some cb -> pl_circuit_breaker p' = Some (fst (snd (cb_step e (cb, reg)))) ->
  breaker_ran [e] p p'.
Proof.
  intros E E'. unfold breaker_ran. rewrite E, E'. eexists. split; [done|].
  destruct (cb_step e (cb, reg)) as [a [cb' reg']] eqn:Es. cbn [fst snd].
  assert (cb_run [e] (cb, reg) = ([a], (cb', reg'))) as Er by (cbn [cb_run]; by rewrite Es).
  pose proof (fun h => cb_run_host h _ _ _ _ _ _ Er) as Hall.
  split; [apply (Hall EmptyString)|]. split; [apply (Hall EmptyString)|]. intros h. apply (Hall h).
Qed.

(** The test of the code, as the specification puts it. *)
Lemma host_failed_spec status : host_failed status None = bool_decide (status = 0 \/ 500 <= status).
Proof.
  unfold host_failed. cbn. apply eq_bool_prop_intro. rewrite !Is_true_true, orb_true_iff, bool_decide_eq_true.
  rewrite Z.leb_le, Z.eqb_eq. tauto.
Qed.

Lemma ask_breaker_ran host now (p : pipe) : breaker_ran [Allow host now] p (snd (ask_breaker host now p)).
Proof.
  unfold ask_breaker. destruct (pl_circuit_breaker p) as [cb|] eqn:E; [|by unfold breaker_ran; cbn; rewrite E].
  apply (breaker_ran_one _ cb ∅); [done|]. cbn. by destruct (allow host now cb).
Qed.

Lemma record_outcome_ran host status error now (p : pipe) :
  breaker_ran [outcome_event (host_failed status error) host now] p (snd (record_outcome host status error now p)).
Proof.
  unfold record_outcome. destruct (pl_circuit_breaker p) as [cb|] eqn:E; [|by unfold breaker_ran; cbn; rewrite E].
  apply (breaker_ran_one _ cb (pl_reg p)); [done|]. unfold outcome_event.
  destruct (host_failed status error); cbn; by destruct (_ : CircuitBreaker * registry).
Qed.

(** ** The walk through [process] *)

(** What both theorems need: the shape of the outcome and the breaker's events. *)
Definition process_post (now : nat -> Q) (item : FrontierItem) (p : pipe) (x : result ProcessResult) (p' : pipe) : Prop :=
  match x with Ok r => result_shape item p p' r | Raise _ => pl_sink p' = pl_sink p end /\
  (forall host, host_of (fi_url item) = Ok host ->
     exists es, breaker_ran es p p' /\ Forall (fun e => event_host e = host) es /\
       match x with Ok r => es = breaker_events now host r | Raise _ => True end).

(** A URL that is refused: the guards changed nothing but themselves. *)
Lemma refused_post now item why es (p p1 p' : pipe) :
  why ∈ refusals -> same_before_fetch p p1 -> pl_sink p' = pl_sink p1 -> pl_content_dedup p' = pl_content_dedup p1 ->
  pl_object_store p' = pl_object_store p1 -> pl_settings p' = pl_settings p1 -> pl_fetcher p' = pl_fetcher p1 ->
  pl_circuit_breaker p' = pl_circuit_breaker p1 ->
  (forall host, host_of (fi_url item) = Ok host -> breaker_ran (es host) p p1 /\
     es host = breaker_events now host (skipped_result item why)) ->
  process_post now item p (Ok (skipped_result item why)) p'.
Proof.
  intros Hw [(E1 & E2 & E3 & E4) E5] F1 F2 F3 F4 F5 F6 Hes. split.
  - split; [done|]. cbn. split_and!; try done.
    + set_solver.
    + rewrite bool_decide_eq_false_2; [done|]. intros ->. unfold refusals in Hw. set_solver.
    + split_and!; congruence.
    + intros _. congruence.
  - intros host Hh. destruct (Hes host Hh) as [Hr Ee]. exists (es host). split_and!; [| |done].
    + rewrite <- (app_nil_r (es host)). eapply breaker_ran_trans; [exact Hr|]. by apply breaker_ran_same.
    + rewrite Ee. unfold breaker_events. cbn. repeat case_bool_decide; repeat constructor.
Qed.

Lemma raised_post now item e host es (p p' : pipe) :
  same_output p p' -> host_of (fi_url item) = Ok host -> breaker_ran es p p' ->
  Forall (fun e => event_host e = host) es -> process_post now item p (Raise e) p'.
Proof.
  intros (E1 & _) Hh Hr Hf. split; [done|]. intros host' Hh'. exists es. split_and!; [done| |done]. by replace host' with host by congruence.
Qed.

(** The walk from the fetch on. *)
Lemma after_fetch_walk now item host r (p p4 : pipe) :
  host_of (fi_url item) = Ok host -> same_output p p4 -> breaker_ran [Allow host (now 0%nat)] p p4 ->
  let '(x, p') := after_fetch now item host r p4 in process_post now item p x p'.
Proof.
  intros Eh F04 R04.
  unfold after_fetch, abind at 1. pose proof (record_outcome_ran host (fr_status r) (fr_error r) (now 1%nat) p4) as R5.
  destruct (record_outcome_frame host (fr_status r) (fr_error r) (now 1%nat) p4) as (p5 & E5 & F5 & _).
  rewrite E5 in R5 |- *. cbn [snd] in R5. pose proof (same_output_trans _ _ _ F04 F5) as F05.
  set (oev := outcome_event _ _ _) in *.
  assert (breaker_ran [Allow host (now 0%nat); oev] p p5) as R05 by by apply (breaker_ran_trans [_] [_] p p4 p5).
  assert (Forall (fun e => event_host e = host) [Allow host (now 0%nat); oev]) as Hf2
    by (unfold oev, outcome_event; destruct (host_failed _ _); by repeat constructor).
  case_bool_decide as Eerr.
  { unfold aret. split; [split; [done|]; cbn; split_and!; try done; set_solver|].
    intros host' Hh'. assert (host' = host) as -> by congruence. eexists. split_and!; [done..|].
    unfold breaker_events. cbn. unfold oev, host_failed. by rewrite (bool_decide_eq_true_2 (is_Some _)). }
  assert (fr_error r = None) as Enone by (destruct (fr_error r); [by destruct Eerr|done]).
  unfold oev in *. rewrite Enone in R05, Hf2.
  destruct (fr_status r =? 304) eqn:E304.
  { unfold abind, count, amodify, aret. cbn. split; [split; [done|]; cbn; split_and!; try done; set_solver|].
    intros host' Hh'. assert (host' = host) as -> by congruence. eexists. split_and!; [exact R05|exact Hf2|].
    apply Z.eqb_eq in E304. by rewrite E304. }
  pose proof (process_page_shape item r p p5 ltac:(symmetry; apply F05)) as Hpage.
  destruct (page_stage item r p5) as [x p']. destruct Hpage as [Ecb Hx].
  assert (breaker_ran [Allow host (now 0%nat); outcome_event (host_failed (fr_status r) None) host (now 1%nat)] p p') as R06
    by (apply (breaker_ran_trans [_; _] [] p p5 p'); [done|by apply breaker_ran_same]).
  destruct x as [res|e].
  - destruct Hx as (Hshape & Hskip & rec & Hrec & Hst). split; [done|].
    intros host' Hh'. assert (host' = host) as -> by congruence. eexists. split_and!; [exact R06|exact Hf2|].
    unfold breaker_events. rewrite Hskip, Hrec. cbn. by rewrite Hst, <- host_failed_spec.
  - split; [done|]. intros host' Hh'. assert (host' = host) as -> by congruence. by eexists.
Qed.

Lemma process_walk now item (p : pipe) :
  let '(x, p') := process now item p in process_post now item p x p'.
Proof.
  unfold process, abind at 1. destruct (ask_robots_frame (fi_url item) p) as (b1 & p1 & -> & F1 & Ecb1 & _).
  destruct b1; cbn [negb].
  2:{ unfold abind, count, amodify, aret. cbn. apply (refused_post now item "robots" (fun _ => []) p p1); try done.
      { unfold refusals. set_solver. } intros host Hh. split; [by apply breaker_ran_same|done]. }
  unfold abind at 1, alift.
  destruct (host_of (fi_url item)) as [host|e] eqn:Eh; [|split; [by destruct F1 as [[? _] _]|by rewrite Eh]].
  unfold abind at 1. pose proof (ask_breaker_ran host (now 0%nat) p1) as R2.
  destruct (ask_breaker_frame host (now 0%nat) p1) as (b2 & p2 & E2 & F2 & _). rewrite E2 in R2 |- *. cbn [snd] in R2.
  pose proof (same_before_trans _ _ _ F1 F2) as F02.
  assert (breaker_ran [Allow host (now 0%nat)] p p2) as R02
    by (apply (breaker_ran_trans [] _ p p1 p2); [by apply breaker_ran_same|done]).
  assert (forall why, why ∈ ["circuit_open"; "budget_exhausted"] -> forall p3, breaker_ran [Allow host (now 0%nat)] p p3 ->
    forall host', host_of (fi_url item) = Ok host' -> breaker_ran [Allow host' (now 0%nat)] p p3 /\
      [Allow host' (now 0%nat)] = breaker_events now host' (skipped_result item why)) as Hrefuse.
  { intros why Hw p3 Hr host' Hh'. assert (host' = host) as -> by congruence. split; [done|].
    apply elem_of_cons in Hw as [-> | Hw%list_elem_of_singleton]; [done|by subst why]. }
  destruct b2; cbn [negb].
  2:{ unfold abind, count, amodify, aret. cbn.
      apply (refused_post now item "circuit_open" (fun h => [Allow h (now 0%nat)]) p p2); try done.
      { unfold refusals. set_solver. } apply Hrefuse; [set_solver|done]. }
  unfold abind at 1. pose proof (ask_budget_frame (fi_url item) p2) as F3.
  destruct (ask_budget (fi_url item) p2) as [x3 p3]. destruct F3 as [F3 Ecb3].
  pose proof (same_before_trans _ _ _ F02 F3) as F03.
  assert (breaker_ran [Allow host (now 0%nat)] p p3) as R03
    by (apply (breaker_ran_trans [_] [] p p2 p3); [done|by apply breaker_ran_same]).
  assert (Forall (fun e => event_host e = host) [Allow host (now 0%nat)]) as Hf1 by by repeat constructor.
  destruct x3 as [b3|e]; [|by eapply raised_post; [apply F03|done..]].
  destruct b3; cbn [negb].
  2:{ unfold aret. apply (refused_post now item "budget_exhausted" (fun h => [Allow h (now 0%nat)]) p p3); try done.
      { unfold refusals. set_solver. } apply Hrefuse; [set_solver|done]. }
  unfold abind at 1, conditional_headers. destruct (if pl_conditional_get p3 then _ else _) as [headers|e];
    [|by eapply raised_post; [apply F03|done..]].
  unfold abind at 1. pose proof (guarded_fetch_frame (fi_url item) headers p3) as F4.
  destruct (guarded_fetch (fi_url item) headers p3) as [x4 p4]. destruct F4 as [F4 Ecb4].
  pose proof (same_output_trans _ _ _ (proj1 F03) F4) as F04.
  assert (breaker_ran [Allow host (now 0%nat)] p p4) as R04
    by (apply (breaker_ran_trans [_] [] p p3 p4); [done|by apply breaker_ran_same]).
  destruct x4 as [r|e]; [|by eapply raised_post].
  by apply after_fetch_walk.
Qed.

(** C5: every result of [process] has one of these shapes.  A URL is skipped
    for one of five reasons and then nothing at all is written (and nothing is
    fetched when the reason is a refusal), only an unmodified page counting as
    fetched; otherwise it is fetched and exactly the result's record was given
    to the sink, with the item's depth and crawl and the result's links, and a
    near-duplicate has no links and no stored body.  When [process] raises,
    the sink has not changed. *)
Theorem process_result now item (p : pipe) :
  let '(x, p') := process now item p in
  match x with
  | Ok r => result_shape item p p' r
  | Raise _ => pl_sink p' = pl_sink p
  end.
Proof. pose proof (process_walk now item p) as Hw. destruct (process now item p). apply Hw. Qed.

(** C12: the circuit breaker hears exactly what happened.  A run on a URL
    performs on the breaker the operations that its result stands for: none
    when robots refused it, one admission when the breaker or the budget
    refused it, an admission and a failure when the fetch failed or the server
    answered 5xx, an admission and a success otherwise; the automata of all
    other hosts stay where they are, also when the run raises. *)
Theorem process_feeds_breaker now item (p : pipe) cb host :
  pl_circuit_breaker p = Some cb -> host_of (fi_url item) = Ok host ->
  let '(x, p') := process now item p in
  exists cb', pl_circuit_breaker p' = Some cb' /\
    (forall h, h <> host -> host_state h cb' = host_state h cb) /\
    match x with
    | Ok r => host_state host cb' =
        host_run (failure_threshold cb) (reset_seconds cb) (breaker_events now host r) (host_state host cb)
    | Raise _ => True
    end.
Proof.
  intros Ecb Hh. pose proof (process_walk now item p) as Hw. destruct (process now item p) as [x p'].
  destruct Hw as [_ Hw]. destruct (Hw host Hh) as (es & Hr & Hf & He). unfold breaker_ran in Hr. rewrite Ecb in Hr.
  destruct Hr as (cb' & E' & _ & _ & Hr). exists cb'. split; [done|]. split.
  - intros h Hne. rewrite Hr. unfold host_events.
    replace (filter (fun e => event_host e = h) es) with (@nil event); [done|].
    symmetry. clear -Hf Hne. induction Hf as [|e es He _ IH]; [done|]. rewrite filter_cons, decide_False; [done|congruence].
  - destruct x as [r|]; [|done]. subst es. rewrite Hr. f_equal. unfold host_events.
    clear -Hf. induction Hf as [|e es He _ IH]; [done|]. rewrite filter_cons, decide_True by done. by f_equal.
Qed.

End Frames.

(** ** Revalidation *)
Section Revalidation.
Context {G F D B O : Type}.
Context `{UrlLib, Selectolax, TokenHash, Sha256}.
Context `{PolitenessGate G, Downloader F, ContentDedup D, DomainBudget B, ObjectStore O}.

(** C20: a page that was stored without a redirect is revalidated the next
    time: over the database sink, after a run that stored a record under the
    canonical form of the item's URL, the request headers for that item are
    exactly the validators the server sent with the stored page (none when it
    sent none). *)
Theorem stored_page_is_revalidated now item (p p' : Pipeline G F D B O DB) r rec :
  db_wf (pl_sink p) -> process now item p = (Ok r, p') -> res_record r = Some rec ->
  normalize_url (Some (fi_url item)) None = Ok (Some (pr_url rec)) -> pl_conditional_get p' = true ->
  conditional_headers (fi_url item) p' =
    (Ok (match validator_headers (pr_etag rec, pr_last_modified rec) with [] => None | hs => Some hs end), p').
Proof.
  intros Hwf Hp Hrec Hn Hc. pose proof (process_walk now item p) as Hw. rewrite Hp in Hw. destruct Hw as [[_ Hs] _].
  rewrite Hrec in Hs. destruct (res_skipped r).
  { by destruct Hs as (_ & _ & _ & _ & _ & ? & _). }
  destruct Hs as (_ & _ & rec' & [= <-] & Hsave & _). cbn in Hsave. injection Hsave as Hsave.
  unfold conditional_headers. rewrite Hc, Hn. cbn [rbind default sink_validators sql_sink].
  rewrite <- Hsave. change (id (pr_url rec)) with (pr_url rec). rewrite save_page_validators by done.
  by destruct (validator_headers _).
Qed.

End Revalidation.

(** ** A concrete site *)

(** A server with one page, the body being its state. *)
Definition one_page (headers : list (string * string)) : Downloader string := fun url _ fr =>
  (Ok (mkFetch url url 200 headers (fst fr) (Some "text/html") 0 None), fr).
Definition open_gate : PolitenessGate unit := {| gate_allowed := fun _ g => (true, g); gate_slot := fun _ g => Ok g |}.
Definition plain_sha : Sha256 := fun s => s.

Abbreviation site_pipeline := (Pipeline unit string InMemoryContentDedup InMemoryDomainBudget DB DB).
Definition site_process (headers : list (string * string)) (now : nat -> Q) (item : FrontierItem) :
    act site_pipeline ProcessResult :=
  @process unit string InMemoryContentDedup InMemoryDomainBudget DB DB identity_lib line_document length_hash plain_sha
    open_gate (one_page headers) in_memory_dedup in_memory_budget (@pg_store tagged_gzip) sql_sink now item.
Definition site : site_pipeline :=
  mkPipeline default_settings "/b|/a" empty_db (Some tt) (Some (new_dedup 4 64 3)) (Some empty_db) true
    (Some breaker2) None ∅.
Definition site_item : FrontierItem := mkItem "http://a.example/" 0 None.
Definition fixed_clock (n : nat) : Q := 0.

Definition site_once : result ProcessResult * site_pipeline :=
  Eval vm_compute in site_process [] fixed_clock site_item site.
Lemma site_once_eq : site_process [] fixed_clock site_item site = site_once.
Proof. vm_compute. reflexivity. Qed.

Lemma process_feeds_breaker_witness :
  exists cb', pl_circuit_breaker (snd site_once) = Some cb' /\ host_state "a.example" cb' = fresh_host /\
    host_state "b.example" cb' = fresh_host.
Proof.
  pose proof (@process_feeds_breaker unit string InMemoryContentDedup InMemoryDomainBudget DB DB identity_lib line_document
    length_hash plain_sha open_gate (one_page []) in_memory_dedup in_memory_budget (@pg_store tagged_gzip) sql_sink
    fixed_clock site_item site breaker2 "a.example" eq_refl eq_refl) as Hw.
  fold (site_process [] fixed_clock site_item site) in Hw. rewrite site_once_eq in Hw.
  destruct Hw as (cb' & E & Hoth & Hr). exists cb'. split; [exact E|]. split; [exact Hr|].
  exact (Hoth "b.example" ltac:(discriminate)).
Defined.

Definition tagged_headers : list (string * string) := [("etag", "t1")].
Definition tagged_once : result ProcessResult * site_pipeline :=
  Eval vm_compute in site_process tagged_headers fixed_clock site_item site.
Definition tagged_result : ProcessResult := Eval vm_compute in
  match fst tagged_once with Ok r => r | Raise _ => skipped_result site_item "" end.
Definition tagged_record : PageRecord := Eval vm_compute in default page_a (res_record tagged_result).
Lemma tagged_once_eq : site_process tagged_headers fixed_clock site_item site = (Ok tagged_result, snd tagged_once).
Proof. vm_compute. reflexivity. Qed.

Definition site_headers (url : string) : act site_pipeline (option (list (string * string))) :=
  @conditional_headers unit string InMemoryContentDedup InMemoryDomainBudget DB DB identity_lib sql_sink url.

Lemma stored_page_is_revalidated_witness :
  fst (site_headers "http://a.example/" (snd tagged_once)) = Ok (Some [("If-None-Match", "t1")]).
Proof.
  pose proof (@stored_page_is_revalidated unit string InMemoryContentDedup InMemoryDomainBudget DB identity_lib line_document
    length_hash plain_sha open_gate (one_page tagged_headers) in_memory_dedup in_memory_budget (@pg_store tagged_gzip)
    fixed_clock site_item site (snd tagged_once) tagged_result tagged_record empty_db_wf tagged_once_eq
    eq_refl eq_refl eq_refl) as Hw.
  unfold site_headers. change "http://a.example/" with (fi_url site_item). rewrite Hw. reflexivity.
Defined.

(** A second run of an unchanged page without validators finds the page to be a
    near-duplicate of itself: the row loses its storage key and its
    out-degree, although the body and the edges are still there. *)
Example reprocessing_forgets_body :
  let once := snd (site_process [] fixed_clock site_item site) in
  let twice := snd (site_process [] fixed_clock site_item once) in
  ((fun d => (d_storage_key d, d_out_degree d)) <$> db_documents (pl_sink once)) = [(Some "pg:/b|/a", 2)] /\
  ((fun d => (d_storage_key d, d_out_degree d)) <$> db_documents (pl_sink twice)) = [(None, 0)] /\
  length (db_edges (pl_sink twice)) = 2%nat.
Proof. vm_compute. split_and!; reflexivity. Qed.

(** An unmodified page stays stale: nothing is written on a 304, so the time of
    the last crawl does not move. *)
Definition not_modified_server : Downloader string := fun url _ fr =>
  (Ok (mkFetch url url 304 [] "" None 0 None), fr).
Example not_modified_stays_stale :
  let crawled := snd (site_process [("etag", "t1")] fixed_clock site_item site) in
  let '(r, again) := @process unit string InMemoryContentDedup InMemoryDomainBudget DB DB identity_lib line_document
    length_hash plain_sha open_gate not_modified_server in_memory_dedup in_memory_budget (@pg_store tagged_gzip) sql_sink
    fixed_clock site_item crawled in
  (exists res, r = Ok res /\ res_skipped res = Some "not_modified") /\ pl_sink again = pl_sink crawled.
Proof. vm_compute. split; [by eexists|reflexivity]. Qed.

(** The validators of a page that was reached by a redirect are stored under
    the URL it ended at: the next request of the redirecting URL sends none. *)
Definition redirect_server : Downloader string := fun url _ fr =>
  (Ok (mkFetch url "http://a.example/new" 200 tagged_headers (fst fr) (Some "text/html") 0 None), fr).
Example redirected_page_not_revalidated :
  let crawled := snd (@process unit string InMemoryContentDedup InMemoryDomainBudget DB DB identity_lib line_document
    length_hash plain_sha open_gate redirect_server in_memory_dedup in_memory_budget (@pg_store tagged_gzip) sql_sink
    fixed_clock site_item site) in
  fst (site_headers "http://a.example/" crawled) = Ok None /\
  fst (site_headers "http://a.example/new" crawled) = Ok (Some [("If-None-Match", "t1")]).
Proof. vm_compute. split; reflexivity. Qed.
