(* ===== verification/Factory.v ===== *)
(** * Construction of the collaborators ([crawler/factory.py])

    Each [build_*] function on the settings and an optional Redis connection
    [redis : option R]: which implementation is chosen, with which parameters,
    and when a constructor raises.  Where the code chooses between a Redis and
    an in-process implementation of a protocol, the result is a sum, which is
    an instance of the protocol's class when both sides are.

    [builders_raise]: exactly when each builder raises; [default_wiring]: the
    default settings always build; [robots_over_fetcher]: an origin's rules when
    they are downloaded by the real fetcher. *)
From S2P Require Import Prelude PyStr Config Models Lru UrlUtils Bloom Dedup.
From S2P Require Import CircuitBreaker Budget Backpressure RateLimit Robots Fetcher.
From S2P Require Import ObjectStore Pipeline.
Local Open Scope Z_scope.

(** ** Implementations chosen at run time *)

#[export] Instance sum_dedup {A B} `{ContentDedup A, ContentDedup B} : ContentDedup (A + B) := fun fingerprint d =>
  match d with
  | inl a => let* (b, a) := is_duplicate fingerprint a in Ok (b, inl a)
  | inr a => let* (b, a) := is_duplicate fingerprint a in Ok (b, inr a)
  end.

#[export] Instance sum_budget {A B} `{DomainBudget A, DomainBudget B} : DomainBudget (A + B) := {|
  try_consume := fun domain cost x reg =>
    match x with
    | inl a => let '(b, a, reg) := try_consume domain cost a reg in (b, inl a, reg)
    | inr a => let '(b, a, reg) := try_consume domain cost a reg in (b, inr a, reg)
    end;
  remaining := fun domain x => match x with inl a => remaining domain a | inr a => remaining domain a end |}.

#[export] Instance sum_seen {A B} `{UrlSeen A, UrlSeen B} : UrlSeen (A + B) := fun url s =>
  match s with
  | inl a => let '(b, a) := seen_check_and_add url a in (b, inl a)
  | inr a => let '(b, a) := seen_check_and_add url a in (b, inr a)
  end.

(** What [UrlSeen]'s clients rely on holds of the chosen implementation. *)
#[export] Instance sum_seen_spec {A B} `{UA : UrlSeen A, UB : UrlSeen B, SA : !UrlSeenSpec A, SB : !UrlSeenSpec B} :
  UrlSeenSpec (A + B).
Proof.
  refine {| seen_inv := fun s => match s with inl a => seen_inv a | inr b => seen_inv b end;
            seen_member := fun s => match s with inl a => seen_member a | inr b => seen_member b end |}.
  intros u [a|b] Hi.
  - destruct (seen_spec u a Hi) as (a' & E & Hi' & Hm & Hmono). exists (inl a').
    unfold seen_check_and_add at 1, sum_seen. by rewrite E.
  - destruct (seen_spec u b Hi) as (b' & E & Hi' & Hm & Hmono). exists (inr b').
    unfold seen_check_and_add at 1, sum_seen. by rewrite E.
Defined.

(** ** [make_fetch_text] *)

(** [bytes.decode("utf-8", "replace")]. *)
Class Utf8 := decode_replace : string -> string.

#[export] Instance make_fetch_text `{Aiohttp Session content, Utf8} : FetchText (Fetcher Session * registry) :=
  fun url fr =>
    let '(r, s) := fetch_url url None (mkFetchState (fst fr) (snd fr) []) in
    (let* result := r in Ok (fr_status result, decode_replace (fr_body result)), (fs_fetcher s, fs_reg s)).

(** ** The builders *)
Section Factory.
Context {R Net : Type} `{UrlLib, Protego, RedisStrings R, FetchText Net, Mmh3, MathLog}.

Definition Limiter : Type := (RedisRateLimiter * R) + LocalRateLimiter.
(** [LocalRateLimiter()]. *)
Definition default_local_limiter : LocalRateLimiter := mkLocal 1 ∅.

Definition build_politeness (fetcher : Net) (s : Settings) (redis : option R) : result (Politeness R Net * Limiter) :=
  let* robots := new_robots s redis fetcher in
  let limiter := match redis with
                 | Some r => inl (default_redis_limiter, r)
                 | None => inr default_local_limiter
                 end in
  Ok (mkPoliteness s robots ∅, limiter).

Definition build_content_dedup (s : Settings) (redis : option R) : (RedisContentDedup * R) + InMemoryContentDedup :=
  content_dedup_from_settings s redis.

Definition build_object_store_for (s : Settings) (enabled : bool) : store_kind := build_object_store s enabled.

Definition build_circuit_breaker (s : Settings) : result (option CircuitBreaker) :=
  if negb (enable_circuit_breaker (resilience s)) then Ok None
  else let* cb := new_breaker (circuit_failure_threshold (resilience s)) (circuit_reset_seconds (resilience s)) in
       Ok (Some cb).

Definition build_domain_budget (s : Settings) (redis : option R) :
    option ((RedisDomainBudget * R) + InMemoryDomainBudget) :=
  if negb (enable_domain_budget (resilience s)) then None
  else
    let limit := max_pages_per_domain (crawl s) in
    match redis with
    | Some r => Some (inl (mkRedisBudget (domain_budget_namespace (resilience s)) limit, r))
    | None => Some (inr (mkBudget limit ∅))
    end.

(** [a or b] on integers. *)
Definition or_int (a b : Z) : Z := if a =? 0 then b else a.

Definition build_backpressure (s : Settings) : result (option Backpressure) :=
  let limit := or_int (max_global_in_flight (resilience s)) (concurrency (fetch s)) in
  if limit <=? 0 then Ok None else let* b := new_backpressure limit in Ok (Some b).

Definition build_url_seen (s : Settings) (redis : option R) : result ((RedisBloomFilter * R) + InMemoryUrlSeen) :=
  match redis with
  | Some r =>
      let* f := new_redis_bloom (bloom_namespace (dedup s)) (bloom_expected_insertions (dedup s))
                  (bloom_false_positive_rate (dedup s)) in
      Ok (inl (f, r))
  | None =>
      let* f := new_seen (bloom_expected_insertions (dedup s)) (bloom_false_positive_rate (dedup s)) in
      Ok (inr f)
  end.

End Factory.
Arguments Limiter : clear implicits.

Lemma backpressure_builds (s : Settings) : exists b, build_backpressure s = Ok b.
Proof. unfold build_backpressure, new_backpressure. destruct (_ <=? 0); by eexists. Qed.

(** ** When construction fails *)
Section BuilderTheorems.
Context {R Net : Type} `{UrlLib, Protego, RedisStrings R, FetchText Net, Mmh3, MathLog}.

(** A misconfiguration is reported when the collaborators are built, and
    only by three of them.  The politeness gate raises ValueError exactly for a
    robots cache without capacity; the circuit breaker, when it is enabled,
    exactly for a threshold below one; the in-process URL-seen filter for an
    expected number of URLs below one or a rate outside (0, 1), the Redis one
    only for a rate that is not positive (ValueError) or a number of zero
    (ZeroDivisionError).  Back-pressure never raises: it is absent when neither
    limit is positive and otherwise starts with all its slots free; the domain
    budget is absent exactly when it is disabled. *)
Theorem builders_raise (s : Settings) (net : Net) (redis : option R) :
  let n := bloom_expected_insertions (dedup s) in let p := bloom_false_positive_rate (dedup s) in
  let slots := or_int (max_global_in_flight (resilience s)) (concurrency (fetch s)) in
  (forall e, build_politeness net s redis = Raise e <-> e = ValueError /\ robots_cache_size (politeness s) <= 0) /\
  (forall e, build_circuit_breaker s = Raise e <->
     e = ValueError /\ enable_circuit_breaker (resilience s) = true /\ circuit_failure_threshold (resilience s) <= 0) /\
  (build_circuit_breaker s = Ok None <-> enable_circuit_breaker (resilience s) = false) /\
  (forall e, build_url_seen s redis = Raise e <->
     match redis with
     | Some _ => e = ValueError /\ (p <= 0)%Q \/ e = ZeroDivisionError /\ (0 < p)%Q /\ n = 0
     | None => e = ValueError /\ (n <= 0 \/ (p <= 0)%Q \/ (1 <= p)%Q)
     end) /\
  build_backpressure s = Ok (if slots <=? 0 then None else Some (mkPressure slots slots)) /\
  (build_domain_budget s redis = None <-> enable_domain_budget (resilience s) = false).
Proof.
  cbv zeta. split_and!.
  - intros e. unfold build_politeness, new_robots, Lru.new.
    destruct (Z.leb_spec (robots_cache_size (politeness s)) 0); cbn; naive_solver lia.
  - intros e. unfold build_circuit_breaker, new_breaker. destruct (enable_circuit_breaker _); cbn; [|naive_solver].
    destruct (Z.leb_spec (circuit_failure_threshold (resilience s)) 0); cbn; naive_solver lia.
  - unfold build_circuit_breaker, new_breaker. destruct (enable_circuit_breaker _); cbn; [|done].
    destruct (_ <=? 0); cbn; naive_solver.
  - intros e. unfold build_url_seen, new_redis_bloom, new_seen, new_bloom. destruct redis as [r|].
    + destruct (Qleb_spec (bloom_false_positive_rate (dedup s)) 0) as [Hp|Hp]; cbn;
        [split; [intros [= <-]; by left|intros [[-> _]|(_ & Hq & _)]; [done|lra]]|].
      apply Qnot_le_lt in Hp. destruct (Z.eqb_spec (bloom_expected_insertions (dedup s)) 0); cbn;
        (split; [intros [= <-]; naive_solver|]); intros [[_ Hq]|(-> & _ & ?)]; first [lra|done].
    + destruct (Z.leb_spec (bloom_expected_insertions (dedup s)) 0); cbn;
        [split; [intros [= <-]; auto|intros [-> _]; done]|].
      destruct (Qltb_spec 0 (bloom_false_positive_rate (dedup s))) as [Hp|Hp]; cbn;
        [|split; [intros [= <-]; split; [done|]; right; left; lra|intros [-> _]; done]].
      destruct (Qltb_spec (bloom_false_positive_rate (dedup s)) 1) as [Hq|Hq]; cbn;
        [|split; [intros [= <-]; split; [done|]; right; right; lra|intros [-> _]; done]].
      split; [done|]. intros [_ [?|[?|?]]]; [lia|lra|lra].
  - unfold build_backpressure, new_backpressure. by destruct (_ <=? 0).
  - unfold build_domain_budget. destruct (enable_domain_budget _); cbn; [|done]. by destruct redis.
Qed.

(** The default settings build everything, on one node or with Redis. *)
Lemma default_wiring (net : Net) (redis : option R) :
  is_ok (build_politeness net default_settings redis) = true /\
  build_circuit_breaker default_settings = Ok (Some (mkBreaker 5 30 ∅)) /\
  is_ok (build_url_seen default_settings redis) = true /\
  build_backpressure default_settings = Ok (Some (mkPressure 100 100)).
Proof. split_and!; try done. by destruct redis. Qed.

End BuilderTheorems.

(** ** robots.txt through the downloader *)
Section RobotsOverFetcher.
Context {R Session content : Type} `{UrlLib, Protego, RedisStrings R, Aiohttp Session content, Utf8}.

(** What an origin's rules are when they are fetched by the real
    downloader.  Of at most [retries + 1] requests of its robots.txt the first
    that is not a client error or a timeout decides: a response of status 200
    gives its (capped, decoded) body as the rules' text; any other status, any
    other exception, and a failure of every request give the empty text, which
    allows everything. *)
Theorem robots_over_fetcher (rc : RobotsCache R (Fetcher Session * registry)) o f reg ses :
  rc_redis rc = None -> rc_net rc = (f, reg) -> fe_session f = Some ses -> 0 <= Config.retries (fetch (fe_settings f)) ->
  let url := o +:+ "/robots.txt" in
  let cap := max_page_bytes (fetch (fe_settings f)) in
  exists k, (k <= Z.to_nat (Config.retries (fetch (fe_settings f))))%nat /\
    (forall i, (i < k)%nat -> failed (outcome_at i url None ses)) /\
    match outcome_at k url None ses with
    | Responded resp =>
        fst (load o rc) = (if rs_status resp =? 200 then decode_replace (capped_body cap (rs_content resp)) else "")
    | Failed _ => (k = Z.to_nat (Config.retries (fetch (fe_settings f))) \/ Z.of_nat k = 1024) /\ fst (load o rc) = ""
    | Crashed _ => fst (load o rc) = ""
    end.
Proof.
  intros Hr Hn Hs Hret url cap. unfold load. rewrite Hr, Hn. unfold fetch_text, make_fetch_text.
  destruct (fetch_url_spec url None (mkFetchState f reg []) ses Hs Hret) as (k & Hk & _ & Hi & _ & Hc).
  cbn [fs_fetcher] in Hk, Hc. exists k. split; [done|]. split; [done|].
  fold url. cbn [fst snd]. destruct (fetch_url url None (mkFetchState f reg [])) as [r s]. cbn [fst] in Hc.
  destruct (outcome_at k url None ses) as [resp|e|e].
  - destruct Hc as (x & -> & _ & Est & _ & Eb). cbn. by rewrite Est, Eb.
  - destruct Hc as [[-> ->]|(_ & E & ->)]; (split; [|done]); [by left|by right].
  - by rewrite Hc.
Qed.

End RobotsOverFetcher.

(** ** Concrete instances *)

(** Text as it is. *)
Definition ascii_text : Utf8 := fun s => s.

Definition net_of (l : list (outcome (list string))) : Fetcher (list (outcome (list string))) * registry :=
  (mkFetcher default_settings (Some l) true, ∅).
Definition robots_of (l : list (outcome (list string))) : @RobotsCache unit _ toy_protego :=
  @mkRobots unit _ toy_protego default_settings None (@mkLru string string 100 None []) (net_of l).
Definition load_of (l : list (outcome (list string))) : string :=
  fst (@load unit _ toy_protego no_redis (@make_fetch_text _ _ scripted ascii_text) "http://a.org" (robots_of l)).

Lemma robots_over_fetcher_witness :
  load_of [Failed "timeout"; page ["/private"]] = "/private" /\ load_of [Responded (mkResponse 404 "" [] ["gone"])] = "".
Proof.
  unfold load_of. split.
  - destruct (@robots_over_fetcher unit _ _ toy_protego no_redis scripted ascii_text
      (robots_of [Failed "timeout"; page ["/private"]]) "http://a.org" _ ∅ [Failed "timeout"; page ["/private"]]
      eq_refl eq_refl eq_refl ltac:(vm_compute; discriminate)) as (k & Hk & Hi & Hc).
    destruct k as [|[|k]].
    + destruct Hc as [[Hc|Hc] _]; discriminate Hc.
    + exact Hc.
    + destruct (Hi 1%nat) as [e E]; [apply le_n_S, le_n_S, Nat.le_0_l|]. discriminate E.
  - destruct (@robots_over_fetcher unit _ _ toy_protego no_redis scripted ascii_text
      (robots_of [Responded (mkResponse 404 "" [] ["gone"])]) "http://a.org" _ ∅ [Responded (mkResponse 404 "" [] ["gone"])]
      eq_refl eq_refl eq_refl ltac:(vm_compute; discriminate)) as (k & Hk & Hi & Hc).
    destruct k as [|k]; [exact Hc|]. destruct (Hi 0%nat) as [e E]; [apply le_n_S, Nat.le_0_l|]. discriminate E.
Defined.
