(* ===== verification/Engine.v ===== *)
(** * The single-node crawl engine ([crawler/pipeline/engine.py])

    [CrawlEngine] over a [MemoryFrontier] and any page processor (the class
    [PageProcessor], of which [Pipeline.process] is an instance).  Its workers
    are asyncio tasks, which only give way while a page is processed or the
    queue is empty: a worker's turn is a step that takes an item and a step
    that finishes it, and [engine_step] interleaves the turns of
    [concurrency] workers in any order; while a worker waits for its page the
    others may leave the pipeline in any state.

    [engine_visits_once]: every accepted URL is worked on once, and [join]
    returns exactly when all are; [engine_stays_in_scope]: depth, length and
    domain of everything that is ever enqueued; [engine_page_budget]: how far
    [max_pages] can be overrun; [engine_terminates]: no schedule runs for ever
    and a crawl that is not finished is not stuck; [single_worker_run]: the
    executable engine with one worker. *)
From S2P Require Import Prelude PyStr Config Models UrlUtils HtmlParser.
From S2P Require Import SimHash Dedup CircuitBreaker Budget Frontier Storage.
From S2P Require Import ObjectStore Pipeline.
Local Open Scope Z_scope.

(** [pipeline.process], and access to the process-wide metrics. *)
Class PageProcessor (Pi : Type) := {
  process_item : FrontierItem -> act Pi ProcessResult;
  on_registry : (registry -> registry) -> Pi -> Pi }.
(** What the engine relies on: a page that was not fetched has no links. *)
Class PageProcessorSpec (Pi : Type) `{PageProcessor Pi} :=
  unfetched_no_links item pi r pi' :
    process_item item pi = (Ok r, pi') -> res_fetched r = false -> res_links r = [].

(** The pipeline is one: each page reads the clock twice, [clock] being the
    readings in their order and the state's number the next one's index. *)
Section PipelineProcessor.
Context {G F D B O S' : Type}.
Context `{UrlLib, Selectolax, TokenHash, Sha256}.
Context `{PolitenessGate G, Downloader F, ContentDedup D, DomainBudget B, ObjectStore O, DocumentSink S'}.
Variable clock : nat -> Q.

#[export] Instance pipeline_processor : PageProcessor (nat * Pipeline G F D B O S') := {|
  process_item := fun item np =>
    let '(x, p) := process (fun i => clock (fst np + i)%nat) item (snd np) in (x, (fst np + 2, p)%nat);
  on_registry := fun f np => (fst np, with_fetcher (snd np) (pl_fetcher (snd np)) (f (pl_reg (snd np)))) |}.
#[export] Instance pipeline_processor_spec : PageProcessorSpec (nat * Pipeline G F D B O S').
Proof.
  intros item [n p] r np' E Hf. pose proof (process_walk (fun i => clock (n + i)%nat) item p) as Hw. cbn in E.
  destruct (process (fun i => clock (n + i)%nat) item p) as [x p'] eqn:Ep. injection E as -> <-.
  destruct Hw as [[_ Hs] _]. destruct (res_skipped r).
  - by destruct Hs as (_ & _ & _ & _ & ? & _).
  - destruct Hs as [? _]. congruence.
Qed.
End PipelineProcessor.

Record CrawlStats : Type := mkStats { st_processed : Z; st_discovered : Z; st_elapsed : Q }.

Section Engine.
Context {Pi : Type} `{UrlLib, PageProcessor Pi}.

(** ** [class CrawlEngine] *)
Record CrawlEngine : Type := mkEngine {
  en_pipeline : Pi; en_frontier : MemoryFrontier; en_settings : Settings;
  en_max_depth : Z; en_max_pages : Z; en_concurrency : Z; en_same_domain_only : bool;
  en_allowed_domains : option (gset string); en_processed : Z; en_seed_domains : gset string }.

Definition new_engine (pipeline : Pi) (frontier : MemoryFrontier) (s : Settings)
    (max_depth max_pages concurrency : Z) (same_domain_only : bool) (allowed : option (gset string)) : CrawlEngine :=
  mkEngine pipeline frontier s max_depth max_pages concurrency same_domain_only allowed 0 ∅.

Definition with_frontier (e : CrawlEngine) (f : MemoryFrontier) : CrawlEngine :=
  mkEngine (en_pipeline e) f (en_settings e) (en_max_depth e) (en_max_pages e) (en_concurrency e)
    (en_same_domain_only e) (en_allowed_domains e) (en_processed e) (en_seed_domains e).
Definition with_pipeline (e : CrawlEngine) (pi : Pi) : CrawlEngine :=
  mkEngine pi (en_frontier e) (en_settings e) (en_max_depth e) (en_max_pages e) (en_concurrency e)
    (en_same_domain_only e) (en_allowed_domains e) (en_processed e) (en_seed_domains e).
Definition with_processed (e : CrawlEngine) (n : Z) : CrawlEngine :=
  mkEngine (en_pipeline e) (en_frontier e) (en_settings e) (en_max_depth e) (en_max_pages e) (en_concurrency e)
    (en_same_domain_only e) (en_allowed_domains e) n (en_seed_domains e).
Definition with_seed_domains (e : CrawlEngine) (ds : gset string) : CrawlEngine :=
  mkEngine (en_pipeline e) (en_frontier e) (en_settings e) (en_max_depth e) (en_max_pages e) (en_concurrency e)
    (en_same_domain_only e) (en_allowed_domains e) (en_processed e) ds.

(** [await self.frontier.add(item)]. *)
Definition frontier_add (item : FrontierItem) : act CrawlEngine bool := fun e =>
  let '(b, f) := mf_add item (en_frontier e) in (Ok b, with_frontier e f).

(** The first loop of [run]. *)
Definition seed_one (crawl_id : option Z) (seed : string) : act CrawlEngine unit :=
  let! normalized := alift (normalize_url (Some seed) None) in
  match normalized with
  | None => aret tt
  | Some u =>
      let! domain := alift (registered_domain u) in
      let! _ := amodify (fun e => with_seed_domains e ({[domain]} ∪ en_seed_domains e)) in
      let! _ := frontier_add (mkItem u 0 crawl_id) in
      aret tt
  end.
Fixpoint seed_all (crawl_id : option Z) (seeds : list string) : act CrawlEngine unit :=
  match seeds with
  | [] => aret tt
  | seed :: rest => let! _ := seed_one crawl_id seed in seed_all crawl_id rest
  end.

(** The tests a child URL has to pass in [_handle]. *)
Definition admits (e : CrawlEngine) (child_url : string) : result bool :=
  if max_url_length (crawl (en_settings e)) <? Z.of_nat (String.length child_url) then Ok false
  else match en_allowed_domains e with
       | Some allowed => let* d := registered_domain child_url in Ok (bool_decide (d ∈ allowed))
       | None =>
           if en_same_domain_only e
           then let* d := registered_domain child_url in Ok (bool_decide (d ∈ en_seed_domains e))
           else Ok true
       end.

Definition expand_link (item : FrontierItem) (link : Link) : act CrawlEngine unit :=
  let! e := aget in
  let! ok := alift (admits e (link_url link)) in
  if ok then
    let! added := frontier_add (mkItem (link_url link) (fi_depth item + 1) (fi_crawl_id item)) in
    if added then amodify (fun e => with_pipeline e (on_registry (inc URLS_ENQUEUED 1) (en_pipeline e)))
    else aret tt
  else aret tt.
Fixpoint expand (item : FrontierItem) (links : list Link) : act CrawlEngine unit :=
  match links with
  | [] => aret tt
  | link :: rest => let! _ := expand_link item link in expand item rest
  end.

(** [self.pipeline.process(item)]. *)
Definition call_process (item : FrontierItem) : act CrawlEngine ProcessResult := fun e =>
  let '(x, pi) := process_item item (en_pipeline e) in (x, with_pipeline e pi).

(** [if result.fetched: ...]. *)
Definition count_fetched (e : CrawlEngine) : CrawlEngine :=
  let e := with_processed e (en_processed e + 1) in
  with_pipeline e (on_registry (gauge_set FRONTIER_DEPTH (qsize (en_frontier e))) (en_pipeline e)).

(** [_handle]. *)
Definition handle (item : FrontierItem) : act CrawlEngine unit :=
  let! result := call_process item in
  let! _ := if res_fetched result then amodify count_fetched else aret tt in
  let! e := aget in
  if res_duplicate result || (en_max_depth e <=? fi_depth item) then aret tt
  else expand item (res_links result).

(** [self.frontier.task_done()]. *)
Definition task_done : act CrawlEngine unit := fun e =>
  match mf_task_done (en_frontier e) with
  | Ok f => (Ok tt, with_frontier e f)
  | Raise x => (Raise x, e)
  end.

(** One turn of [_worker]: [None] while the queue is empty; an exception of
    [_handle] is logged, and the item is done in any case. *)
Definition worker_turn (e : CrawlEngine) : option (result unit * CrawlEngine) :=
  match mf_get (en_frontier e) with
  | None => None
  | Some (item, f) =>
      let e := with_frontier e f in
      Some (task_done (if en_max_pages e <=? en_processed e then e else snd (handle item e)))
  end.

(** A single worker, until [join] returns. *)
Fixpoint work (fuel : nat) (e : CrawlEngine) : option CrawlEngine :=
  if mf_joined (en_frontier e) then Some e
  else match fuel with
       | O => None
       | S fuel => match worker_turn e with Some (Ok _, e') => work fuel e' | _ => None end
       end.

(** [run] with one worker. *)
Definition run (fuel : nat) (elapsed : Q) (seeds : list string) (crawl_id : option Z) (e : CrawlEngine) :
    result (option (CrawlStats * CrawlEngine)) :=
  match seed_all crawl_id seeds e with
  | (Raise x, _) => Raise x
  | (Ok _, e) => Ok ((fun e => (mkStats (en_processed e) (seen_count (en_frontier e)) elapsed, e)) <$> work fuel e)
  end.

(** ** Concurrent workers

    [rely] is what is known of the pipeline in the states the other workers
    leave it in while a worker waits for its page. *)
Variable rely : Pi -> Prop.

(** The engine with the items its busy workers hold, and those that are done. *)
Record crawling : Type := mkCrawling {
  cs_engine : CrawlEngine; cs_busy : list FrontierItem; cs_done : list FrontierItem }.

Inductive engine_step : crawling -> crawling -> Prop :=
| step_take e item f busy finished :
    (* an idle worker takes an item and starts on its page *)
    Z.of_nat (length busy) < en_concurrency e -> mf_get (en_frontier e) = Some (item, f) ->
    en_processed e < en_max_pages e ->
    engine_step (mkCrawling e busy finished) (mkCrawling (with_frontier e f) (item :: busy) finished)
| step_pass e item f e' busy finished :
    (* the page budget is used up: the item is only marked done *)
    Z.of_nat (length busy) < en_concurrency e -> mf_get (en_frontier e) = Some (item, f) ->
    en_max_pages e <= en_processed e -> task_done (with_frontier e f) = (Ok tt, e') ->
    engine_step (mkCrawling e busy finished) (mkCrawling e' busy (item :: finished))
| step_finish e item pi e' b1 b2 finished :
    (* the page of a busy worker is there; other workers may have used the pipeline meanwhile *)
    pi = en_pipeline e \/ rely pi ->
    task_done (snd (handle item (with_pipeline e pi))) = (Ok tt, e') ->
    engine_step (mkCrawling e (b1 ++ item :: b2) finished) (mkCrawling e' (b1 ++ b2) (item :: finished)).

(** The state in which [run] starts its workers. *)
Definition started (e0 : CrawlEngine) (seeds : list string) (crawl_id : option Z) (c : crawling) : Prop :=
  mf_seen (en_frontier e0) = ∅ /\ mf_queue (en_frontier e0) = [] /\ mf_unfinished (en_frontier e0) = 0 /\
  en_processed e0 = 0 /\ en_seed_domains e0 = ∅ /\
  seed_all crawl_id seeds e0 = (Ok tt, cs_engine c) /\ cs_busy c = [] /\ cs_done c = [].
Definition reachable (e0 : CrawlEngine) (seeds : list string) (crawl_id : option Z) (c : crawling) : Prop :=
  exists c0, started e0 seeds crawl_id c0 /\ rtc engine_step c0 c.

(** Everything that was accepted by the frontier. *)
Definition accepted (c : crawling) : list FrontierItem :=
  cs_done c ++ cs_busy c ++ mf_queue (en_frontier (cs_engine c)).

End Engine.
Arguments CrawlEngine : clear implicits.
Arguments crawling : clear implicits.

(** ** Frames *)
Section Facts.
Context {Pi : Type} `{UL : UrlLib, PP : PageProcessor Pi, PS : !PageProcessorSpec Pi}.
Variable rely : Pi -> Prop.
Abbreviation engine := (CrawlEngine Pi).

Definition same_setup (e e' : engine) : Prop :=
  en_settings e' = en_settings e /\ en_max_depth e' = en_max_depth e /\ en_max_pages e' = en_max_pages e /\
  en_concurrency e' = en_concurrency e /\ en_same_domain_only e' = en_same_domain_only e /\
  en_allowed_domains e' = en_allowed_domains e.
Lemma same_setup_trans (e1 e2 e3 : engine) : same_setup e1 e2 -> same_setup e2 e3 -> same_setup e1 e3.
Proof. unfold same_setup. intuition congruence. Qed.

Abbreviation urls l := (fi_url <$> l).

(** The frontier accepted the items [l], which are new and satisfy [P]. *)
Definition grew_by (P : FrontierItem -> Prop) (l : list FrontierItem) (f f' : MemoryFrontier) : Prop :=
  mf_queue f' = mf_queue f ++ l /\ mf_seen f' = list_to_set (urls l) ∪ mf_seen f /\
  mf_unfinished f' = mf_unfinished f + Z.of_nat (length l) /\
  NoDup (urls l) /\ (forall u, u ∈ urls l -> u ∉ mf_seen f) /\ Forall P l.
Definition grew P f f' : Prop := exists l, grew_by P l f f'.

Lemma grew_refl P f : grew P f f.
Proof.
  exists []. split_and!; try done; [by rewrite app_nil_r|set_solver|cbn; lia|constructor|intros u Hu; by apply elem_of_nil in Hu].
Qed.
Lemma grew_trans P f1 f2 f3 : grew P f1 f2 -> grew P f2 f3 -> grew P f1 f3.
Proof.
  intros (l1 & Q1 & S1 & U1 & N1 & D1 & P1) (l2 & Q2 & S2 & U2 & N2 & D2 & P2). exists (l1 ++ l2).
  rewrite S1 in D2. split_and!.
  - by rewrite Q2, Q1, app_assoc.
  - rewrite S2, S1, fmap_app, list_to_set_app_L. set_solver.
  - rewrite U2, U1, length_app. lia.
  - rewrite fmap_app. apply NoDup_app. split_and!; [done| |done]. intros u H1 H2%D2. set_solver.
  - intros u. rewrite fmap_app, elem_of_app. intros [?|Hu%D2]; [by apply D1|set_solver].
  - by apply Forall_app.
Qed.
Lemma grew_add (P : FrontierItem -> Prop) item f : P item -> grew P f (snd (mf_add item f)).
Proof.
  intros HP. unfold mf_add. case_decide as Hin; [apply grew_refl|]. exists [item]. cbn. split_and!; try done.
  - set_solver.
  - apply NoDup_singleton.
  - intros u ->%list_elem_of_singleton. done.
  - by constructor.
Qed.

(** What [seed_all] and [expand] may change. *)
Definition enlarged (P : FrontierItem -> Prop) (e e' : engine) : Prop :=
  same_setup e e' /\ en_processed e' = en_processed e /\ grew P (en_frontier e) (en_frontier e').
Lemma enlarged_refl P (e : engine) : enlarged P e e.
Proof. split_and!; [done|done|apply grew_refl]. Qed.
Lemma enlarged_trans P (e1 e2 e3 : engine) : enlarged P e1 e2 -> enlarged P e2 e3 -> enlarged P e1 e3.
Proof.
  intros (S1 & N1 & G1) (S2 & N2 & G2).
  split_and!; [by eapply same_setup_trans|congruence|by eapply grew_trans].
Qed.

(** ** Scope *)

(** The URLs and domains of the seeds. *)
Definition seed_url (seeds : list string) (u : string) : Prop :=
  exists s, s ∈ seeds /\ normalize_url (Some s) None = Ok (Some u).
Definition seed_domain (seeds : list string) (d : string) : Prop :=
  exists u, seed_url seeds u /\ registered_domain u = Ok d.

(** A child URL the settings of the crawl allow. *)
Definition child_allowed (e : engine) (seeds : list string) (u : string) : Prop :=
  Z.of_nat (String.length u) <= max_url_length (crawl (en_settings e)) /\
  match en_allowed_domains e with
  | Some allowed => exists d, registered_domain u = Ok d /\ d ∈ allowed
  | None => en_same_domain_only e = true -> exists d, registered_domain u = Ok d /\ seed_domain seeds d
  end.

Definition in_scope (e0 : engine) (seeds : list string) (crawl_id : option Z) (i : FrontierItem) : Prop :=
  fi_crawl_id i = crawl_id /\
  (fi_depth i = 0 /\ seed_url seeds (fi_url i) \/
   0 < fi_depth i <= en_max_depth e0 /\ child_allowed e0 seeds (fi_url i)).

Lemma seed_one_enlarged seeds crawl_id s (e : engine) : s ∈ seeds ->
  (forall d, d ∈ en_seed_domains e -> seed_domain seeds d) ->
  let e' := snd (seed_one crawl_id s e) in
  enlarged (in_scope e seeds crawl_id) e e' /\ (forall d, d ∈ en_seed_domains e' -> seed_domain seeds d).
Proof.
  intros Hs Hd. unfold seed_one, abind, alift, amodify. destruct (normalize_url (Some s) None) as [[u|]|x] eqn:En;
    try (by split; [apply enlarged_refl|]).
  destruct (registered_domain u) as [d|x] eqn:Er; [|by split; [apply enlarged_refl|]].
  unfold frontier_add. cbn [with_seed_domains en_frontier].
  pose proof (grew_add (in_scope e seeds crawl_id) (mkItem u 0 crawl_id) (en_frontier e)) as Hg.
  destruct (mf_add _ (en_frontier e)) as [b f]. cbn. split.
  - split_and!; [done|done|]. apply Hg. split; [done|]. left. split; [done|]. by exists s.
  - intros d'. rewrite elem_of_union, elem_of_singleton. intros [->|?]; [|auto]. exists u. split; [by exists s|done].
Qed.

Lemma in_scope_setup (e e' : engine) seeds crawl_id i : same_setup e e' ->
  in_scope e' seeds crawl_id i <-> in_scope e seeds crawl_id i.
Proof. intros (E1 & E2 & E3 & E4 & E5 & E6). unfold in_scope, child_allowed. by rewrite E1, E2, E5, E6. Qed.

Lemma enlarged_impl (P Q : FrontierItem -> Prop) (e e' : engine) : (forall i, P i -> Q i) -> enlarged P e e' -> enlarged Q e e'.
Proof.
  intros HPQ (S & N & l & Q1 & S1 & U1 & N1 & D1 & P1). split_and!; [done|done|]. exists l. split_and!; try done.
  by eapply Forall_impl.
Qed.

Lemma seed_all_enlarged all seeds crawl_id (e : engine) : seeds ⊆ all ->
  (forall d, d ∈ en_seed_domains e -> seed_domain all d) ->
  let e' := snd (seed_all crawl_id seeds e) in
  enlarged (in_scope e all crawl_id) e e' /\ (forall d, d ∈ en_seed_domains e' -> seed_domain all d).
Proof.
  revert e. induction seeds as [|s seeds IH]; intros e Hsub Hd; [by split; [apply enlarged_refl|]|].
  destruct (seed_one_enlarged all crawl_id s e) as [H1 Hd1]; [set_solver|done|]. cbn. unfold abind.
  destruct (seed_one crawl_id s e) as [[u|x] e1]; cbn in *; [|done].
  destruct (IH e1) as [H2 Hd2]; [set_solver|done|]. split; [|done].
  eapply enlarged_trans; [done|]. eapply enlarged_impl; [|done]. intros i. apply (in_scope_setup e e1), H1.
Qed.

(** ** The children of a page *)
Definition child_of (e : engine) (item i : FrontierItem) : Prop :=
  fi_depth i = fi_depth item + 1 /\ fi_crawl_id i = fi_crawl_id item /\ admits e (fi_url i) = Ok true.

(** [admits] reads only what [expand] leaves alone. *)
Lemma expand_enlarged item links (e : engine) :
  let e' := snd (expand item links e) in
  enlarged (child_of e item) e e' /\ en_seed_domains e' = en_seed_domains e.
Proof.
  enough (forall e1 : engine, same_setup e e1 -> en_seed_domains e1 = en_seed_domains e ->
    let e' := snd (expand item links e1) in
    enlarged (child_of e item) e1 e' /\ en_seed_domains e' = en_seed_domains e) as Hgen by by apply Hgen.
  induction links as [|link links IH]; intros e1 Hs Hd; [by split; [apply enlarged_refl|]|].
  assert (forall u, admits e1 u = admits e u) as Ha.
  { intros u. destruct Hs as (E1 & _ & _ & _ & E5 & E6). unfold admits. by rewrite E1, E5, E6, Hd. }
  cbn. unfold abind.
  assert (enlarged (child_of e item) e1 (snd (expand_link item link e1)) /\
          en_seed_domains (snd (expand_link item link e1)) = en_seed_domains e) as [H1 Hd1].
  { unfold expand_link, abind, alift, aget. rewrite Ha.
    destruct (admits e (link_url link)) as [[]|x] eqn:Eadm; try (by split; [apply enlarged_refl|]).
    unfold frontier_add. pose proof (grew_add (child_of e item) (mkItem (link_url link) (fi_depth item + 1)
      (fi_crawl_id item)) (en_frontier e1)) as Hg.
    destruct (mf_add _ (en_frontier e1)) as [[] f]; cbn; (split; [split_and!; [done|done|by apply Hg]|done]). }
  destruct (expand_link item link e1) as [[u|x] e2]; cbn in *; [|done].
  destruct (IH e2) as [H2 Hd2]; [eapply same_setup_trans; [exact Hs|apply H1]|done|].
  split; [by eapply enlarged_trans|done].
Qed.

(** [_handle]: the frontier only grows when a page was counted. *)
Lemma handle_spec item (e : engine) :
  let e' := snd (handle item e) in
  same_setup e e' /\ en_seed_domains e' = en_seed_domains e /\
  (en_processed e' = en_processed e /\ en_frontier e' = en_frontier e \/
   en_processed e' = en_processed e + 1 /\
   grew (fun i => fi_depth item < en_max_depth e /\ child_of e item i) (en_frontier e) (en_frontier e')).
Proof.
  unfold handle, abind, call_process, aget. destruct (process_item item (en_pipeline e)) as [[r|x] pi] eqn:Ep;
    [|split_and!; [done|done|by left]].
  destruct (res_fetched r) eqn:Ef.
  - unfold amodify. cbn [count_fetched with_pipeline with_processed en_max_depth].
    set (e1 := count_fetched (with_pipeline e pi)).
    destruct (res_duplicate r || (en_max_depth e <=? fi_depth item)) eqn:Ec.
    { cbn. split_and!; [done|done|]. right. split; [done|apply grew_refl]. }
    destruct (expand_enlarged item (res_links r) e1) as [(S1 & N1 & G1) D1].
    split_and!; [by apply (same_setup_trans e e1)|by rewrite D1|]. right. split; [by rewrite N1|].
    apply orb_false_iff in Ec as [_ Ec%Z.leb_gt]. destruct G1 as (l & ? & ? & ? & ? & ? & HP). exists l. split_and!; try done.
    eapply Forall_impl; [exact HP|]. intros i Hi. split; [done|]. exact Hi.
  - unfold aret at 1. rewrite (unfetched_no_links item _ r pi Ep Ef). cbn.
    destruct (res_duplicate r || _); cbn; (split_and!; [done|done|by left]).
Qed.

(** ** The invariant *)
Section Invariant.
Variables (e0 : engine) (seeds : list string) (crawl_id : option Z).

Record engine_inv (c : crawling Pi) : Prop := {
  inv_setup : same_setup e0 (cs_engine c);
  inv_once : NoDup (urls (accepted c));
  inv_seen : mf_seen (en_frontier (cs_engine c)) = list_to_set (urls (accepted c));
  inv_unfinished : mf_unfinished (en_frontier (cs_engine c)) =
    Z.of_nat (length (cs_busy c) + length (mf_queue (en_frontier (cs_engine c))));
  inv_scope : Forall (in_scope e0 seeds crawl_id) (accepted c);
  inv_domains d : d ∈ en_seed_domains (cs_engine c) -> seed_domain seeds d;
  inv_processed : 0 <= en_processed (cs_engine c) <= Z.of_nat (length (cs_done c));
  inv_workers : Z.of_nat (length (cs_busy c)) <= Z.max 0 (en_concurrency e0);
  inv_budget : en_processed (cs_engine c) = 0 /\ cs_busy c = [] \/
    en_processed (cs_engine c) + Z.of_nat (length (cs_busy c)) <= en_max_pages e0 + en_concurrency e0 - 1 }.

Lemma started_inv c : started e0 seeds crawl_id c -> engine_inv c.
Proof.
  intros (Es & Eq & Eu & Ep & Ed & Hseed & Eb & Edn).
  destruct (seed_all_enlarged seeds seeds crawl_id e0) as [(S1 & N1 & l & Q1 & Sn1 & U1 & Nd1 & D1 & P1) Hd]; [done|by rewrite Ed; set_solver|].
  rewrite Hseed in S1, N1, Q1, Sn1, U1, Hd. cbn [snd] in *. destruct c as [e b dn]. cbn [cs_engine cs_busy cs_done] in *. subst b dn.
  assert (accepted (mkCrawling e [] []) = l) as El by (unfold accepted; cbn; by rewrite Q1, Eq).
  split; cbn [cs_engine cs_busy cs_done]; rewrite ?El, ?Q1, ?Eq; try done.
  - rewrite Sn1, Es. set_solver.
  - rewrite U1, Eu. cbn. lia.
  - rewrite N1, Ep. cbn. lia.
  - cbn. lia.
  - left. by rewrite N1.
Qed.

(** Accepting new items in scope, whatever the order of the lists. *)
Lemma accept_more (c c' : crawling Pi) l :
  NoDup (urls (accepted c)) -> Forall (in_scope e0 seeds crawl_id) (accepted c) ->
  mf_seen (en_frontier (cs_engine c)) = list_to_set (urls (accepted c)) ->
  accepted c' ≡ₚ accepted c ++ l -> NoDup (urls l) -> Forall (in_scope e0 seeds crawl_id) l ->
  (forall u, u ∈ urls l -> u ∉ mf_seen (en_frontier (cs_engine c))) ->
  mf_seen (en_frontier (cs_engine c')) = list_to_set (urls l) ∪ mf_seen (en_frontier (cs_engine c)) ->
  NoDup (urls (accepted c')) /\ mf_seen (en_frontier (cs_engine c')) = list_to_set (urls (accepted c')) /\
  Forall (in_scope e0 seeds crawl_id) (accepted c').
Proof.
  intros Hn Hf Hs Hp Hnl Hfl Hfresh Hs'. split_and!.
  - rewrite Hp, fmap_app. apply NoDup_app. split_and!; [done| |done]. intros u Hu Hul%Hfresh. apply Hul.
    rewrite Hs. by apply elem_of_list_to_set.
  - rewrite Hs', Hs, (list_to_set_perm_L _ _ (fmap_Permutation fi_url _ _ Hp)), fmap_app, list_to_set_app_L. set_solver.
  - rewrite Hp. by apply Forall_app.
Qed.

(** A child of an item in scope is in scope. *)
Lemma child_in_scope (e : engine) item i : same_setup e0 e -> (forall d, d ∈ en_seed_domains e -> seed_domain seeds d) ->
  in_scope e0 seeds crawl_id item -> fi_depth item < en_max_depth e -> child_of e item i -> in_scope e0 seeds crawl_id i.
Proof.
  intros (E1 & E2 & _ & _ & E5 & E6) Hd [Hc Hdep] Hlt (Ed & Ec & Ha). split; [congruence|]. right.
  split; [rewrite E2 in Hlt; destruct Hdep as [[? _]|[? _]]; lia|].
  unfold admits in Ha. rewrite E1, E5, E6 in Ha.
  destruct (Z.ltb_spec (max_url_length (crawl (en_settings e0))) (Z.of_nat (String.length (fi_url i)))); [done|].
  split; [done|]. destruct (en_allowed_domains e0) as [allowed|].
  - apply rbind_Ok in Ha as (d & E & [= Hin%bool_decide_eq_true]). eauto.
  - intros Hsame. rewrite Hsame in Ha. apply rbind_Ok in Ha as (d & E & [= Hin%bool_decide_eq_true]). eauto.
Qed.

(** Progress, for the measure of termination: a page was counted, or there is
    less left to do. *)
Definition fuel1 (c : crawling Pi) : nat := Z.to_nat (en_max_pages e0 + en_concurrency e0 - en_processed (cs_engine c)).
Definition fuel2 (c : crawling Pi) : nat :=
  (2 * length (mf_queue (en_frontier (cs_engine c))) + length (cs_busy c))%nat.
Definition less_left (c' c : crawling Pi) : Prop :=
  (fuel1 c' < fuel1 c)%nat \/ fuel1 c' = fuel1 c /\ (fuel2 c' < fuel2 c)%nat.

Lemma less_left_wf : well_founded less_left.
Proof.
  enough (forall n m c, fuel1 c = n -> fuel2 c = m -> Acc less_left c) as Hgen by (intros c; by eapply Hgen).
  induction n as [n IHn] using lt_wf_ind. induction m as [m IHm] using lt_wf_ind. intros c <- <-. constructor.
  intros c' [Hlt|[Heq Hlt]]; [by eapply IHn|by eapply IHm].
Qed.
Lemma less_left_trans (c1 c2 c3 : crawling Pi) : less_left c1 c2 -> less_left c2 c3 -> less_left c1 c3.
Proof. unfold less_left. lia. Qed.

Lemma take_inv c c' item f : engine_inv c -> mf_get (en_frontier (cs_engine c)) = Some (item, f) ->
  Z.of_nat (length (cs_busy c)) < en_concurrency (cs_engine c) ->
  en_processed (cs_engine c) < en_max_pages (cs_engine c) ->
  c' = mkCrawling (with_frontier (cs_engine c) f) (item :: cs_busy c) (cs_done c) ->
  engine_inv c' /\ less_left c' c.
Proof.
  intros [S1 N1 Sn U1 Sc Dm Pr Wk Bd] Hg Hw Hb ->. pose proof S1 as (_ & _ & E3 & E4 & _ & _). rewrite E3, E4 in *.
  unfold mf_get in Hg. destruct (mf_queue (en_frontier (cs_engine c))) as [|i q] eqn:Eq; [done|]. injection Hg as -> <-.
  destruct (accept_more c (mkCrawling (with_frontier (cs_engine c)
    (mkMemory q (mf_seen (en_frontier (cs_engine c))) (mf_unfinished (en_frontier (cs_engine c))))) (item :: cs_busy c) (cs_done c)) [])
    as (N2 & Sn2 & Sc2); try done.
  { unfold accepted. rewrite Eq. cbn. rewrite app_nil_r. apply Permutation_app_head, Permutation_middle. }
  { constructor. } { set_solver. } { cbn. set_solver. }
  split; [|unfold less_left, fuel1, fuel2; cbn; rewrite Eq; cbn; lia].
  split; cbn [cs_engine cs_busy cs_done] in *; try done; cbn in *; lia.
Qed.

Lemma pass_inv c c' item f e' : engine_inv c -> mf_get (en_frontier (cs_engine c)) = Some (item, f) ->
  task_done (with_frontier (cs_engine c) f) = (Ok tt, e') ->
  c' = mkCrawling e' (cs_busy c) (item :: cs_done c) -> engine_inv c' /\ less_left c' c.
Proof.
  intros [S1 N1 Sn U1 Sc Dm Pr Wk Bd] Hg Ht ->.
  unfold mf_get in Hg. destruct (mf_queue (en_frontier (cs_engine c))) as [|i q] eqn:Eq; [done|]. injection Hg as -> <-.
  unfold task_done, mf_task_done in Ht. cbn in Ht. destruct (Z.leb_spec (mf_unfinished (en_frontier (cs_engine c))) 0); [done|].
  injection Ht as <-.
  destruct (accept_more c (mkCrawling (with_frontier (cs_engine c)
    (mkMemory q (mf_seen (en_frontier (cs_engine c))) (mf_unfinished (en_frontier (cs_engine c)) - 1))) (cs_busy c) (item :: cs_done c)) [])
    as (N2 & Sn2 & Sc2); try done.
  { unfold accepted. rewrite Eq. cbn. rewrite app_nil_r, !app_assoc. apply Permutation_middle. }
  { constructor. } { set_solver. } { cbn. set_solver. }
  split; [|unfold less_left, fuel1, fuel2; cbn; rewrite Eq; cbn; lia].
  split; cbn [cs_engine cs_busy cs_done] in *; try done; cbn in *; try lia.
Qed.

Lemma finish_inv c c' item pi e' b1 b2 : engine_inv c -> cs_busy c = b1 ++ item :: b2 ->
  task_done (snd (handle item (with_pipeline (cs_engine c) pi))) = (Ok tt, e') ->
  c' = mkCrawling e' (b1 ++ b2) (item :: cs_done c) -> engine_inv c' /\ less_left c' c.
Proof.
  intros [S1 N1 Sn U1 Sc Dm Pr Wk Bd] Eb Ht ->.
  destruct (handle_spec item (with_pipeline (cs_engine c) pi)) as (S2 & D2 & Hcase).
  set (e1 := snd (handle item (with_pipeline (cs_engine c) pi))) in *.
  unfold task_done, mf_task_done in Ht. destruct (Z.leb_spec (mf_unfinished (en_frontier e1)) 0); [done|]. injection Ht as <-.
  rewrite Eb in U1, Wk, Bd. rewrite length_app in U1, Wk, Bd. cbn [length] in U1, Wk, Bd.
  destruct Bd as [[_ Hnil]|Bd]; [by destruct b1|]. cbn [with_pipeline en_frontier en_processed en_seed_domains] in *.
  assert (exists l, mf_queue (en_frontier e1) = mf_queue (en_frontier (cs_engine c)) ++ l /\
    mf_seen (en_frontier e1) = list_to_set (urls l) ∪ mf_seen (en_frontier (cs_engine c)) /\
    mf_unfinished (en_frontier e1) = mf_unfinished (en_frontier (cs_engine c)) + Z.of_nat (length l) /\
    NoDup (urls l) /\ (forall u, u ∈ urls l -> u ∉ mf_seen (en_frontier (cs_engine c))) /\
    Forall (in_scope e0 seeds crawl_id) l /\
    (en_processed e1 = en_processed (cs_engine c) + 1 \/ en_processed e1 = en_processed (cs_engine c) /\ l = []))
    as (l & Q3 & Sn3 & U3 & N3 & D3 & P3 & Pr3).
  { destruct Hcase as [[Ep Ef]|[Ep (l & Q & Sn' & U & N & D & P)]].
    - exists []. rewrite Ef, app_nil_r. cbn. split_and!; try done; [set_solver|lia|constructor|set_solver|by right].
    - exists l. split_and!; try done; [|by left]. eapply Forall_impl; [exact P|]. intros i [Hlt Hi].
      eapply (child_in_scope (with_pipeline (cs_engine c) pi) item i); [exact S1|exact Dm| |exact Hlt|exact Hi].
      eapply Forall_forall in Sc; [exact Sc|]. unfold accepted. rewrite Eb. set_solver. }
  destruct (accept_more c (mkCrawling (with_frontier e1
    (mkMemory (mf_queue (en_frontier e1)) (mf_seen (en_frontier e1)) (mf_unfinished (en_frontier e1) - 1)))
    (b1 ++ b2) (item :: cs_done c)) l) as (N4 & Sn4 & Sc4); try done.
  { unfold accepted. cbn. rewrite Eb, Q3. solve_Permutation. }
  split.
  - split; cbn [cs_engine cs_busy cs_done with_frontier en_frontier mf_queue mf_unfinished en_processed en_seed_domains];
      try done; rewrite ?length_app, ?Q3, ?length_app; cbn [length]; try lia.
    + eapply (same_setup_trans _ _ _ S1). exact S2.
    + rewrite D2. exact Dm.
  - unfold less_left, fuel1, fuel2. cbn. rewrite Eb, Q3, !length_app. cbn [length].
    destruct Pr3 as [Ep|[Ep ->]]; [left; lia|right; cbn [length]; lia].
Qed.

Lemma step_inv c c' : engine_inv c -> engine_step rely c c' -> engine_inv c' /\ less_left c' c.
Proof.
  intros Hi Hstep. inversion Hstep; subst.
  - by eapply (take_inv _ _ item f Hi).
  - by eapply (pass_inv _ _ item f _ Hi).
  - by eapply (finish_inv _ _ item pi _ b1 b2 Hi).
Qed.

Lemma reachable_inv c : reachable rely e0 seeds crawl_id c -> engine_inv c.
Proof.
  intros (c0 & Hst & Hr). eapply rtc_invariant; [|exact Hr|by apply started_inv]. intros c1 c2 Hi Hs. by apply (step_inv c1 c2).
Qed.

(** A state with work left is not stuck. *)
Lemma engine_progress c : engine_inv c -> 0 < en_concurrency e0 -> mf_joined (en_frontier (cs_engine c)) = false ->
  exists c', engine_step rely c c'.
Proof.
  intros Hi Hc Hj. destruct c as [e busy finished]. destruct Hi as [S1 N1 Sn U1 Sc Dm Pr Wk Bd]. cbn in *.
  unfold mf_joined in Hj. apply Z.eqb_neq in Hj.
  destruct busy as [|item busy].
  - destruct (mf_queue (en_frontier e)) as [|item q] eqn:Eq; [cbn in U1; lia|].
    destruct (Z_lt_le_dec (en_processed e) (en_max_pages e)) as [Hlt|Hle].
    + eexists. eapply step_take; [|unfold mf_get; by rewrite Eq|done]. destruct S1 as (_ & _ & _ & -> & _). done.
    + eexists. eapply step_pass; [|unfold mf_get; by rewrite Eq|done|].
      * destruct S1 as (_ & _ & _ & -> & _). done.
      * unfold task_done, mf_task_done. cbn. destruct (Z.leb_spec (mf_unfinished (en_frontier e)) 0); [cbn in U1; lia|done].
  - change (item :: busy) with ([] ++ item :: busy). eexists. eapply (step_finish rely e item (en_pipeline e)); [by left|].
    unfold task_done, mf_task_done.
    destruct (handle_spec item (with_pipeline e (en_pipeline e))) as (_ & _ & Hcase).
    destruct (Z.leb_spec (mf_unfinished (en_frontier (snd (handle item (with_pipeline e (en_pipeline e)))))) 0); [|done].
    destruct Hcase as [[_ Ef]|[_ (l & _ & _ & U & _)]]; cbn [with_pipeline en_frontier] in *; [rewrite Ef in *|]; lia.
Qed.

(** ** The properties *)

(** C2: however the workers are scheduled, no URL is worked on twice and none
    is lost: the items that are done, being processed or queued have distinct
    URLs, which are exactly the seen set (so [discovered] is their number), and
    [join] is released exactly when all of them are done. *)
Theorem engine_visits_once c : reachable rely e0 seeds crawl_id c ->
  let f := en_frontier (cs_engine c) in
  NoDup (urls (accepted c)) /\
  (forall u, u ∈ mf_seen f <-> u ∈ urls (accepted c)) /\
  seen_count f = Z.of_nat (length (accepted c)) /\
  (mf_joined f = true <-> accepted c = cs_done c).
Proof.
  intros Hr. destruct (reachable_inv c Hr) as [_ N1 Sn U1 _ _ _ _ _]. cbv zeta. split; [done|].
  split; [intros u; by rewrite Sn, elem_of_list_to_set|]. split.
  - unfold seen_count. by rewrite Sn, size_list_to_set, length_fmap.
  - unfold mf_joined. rewrite Z.eqb_eq, U1. unfold accepted. split.
    + intros E. destruct (cs_busy c), (mf_queue _); cbn in E; try lia. by rewrite !app_nil_r.
    + intros E. apply (f_equal length) in E. rewrite !length_app in E. lia.
Qed.

(** C4: the crawl stays in its scope: everything the frontier ever accepts
    belongs to this crawl and is a seed at depth 0, or lies at a depth between
    1 and [max_depth], is no longer than [max_url_length], and has its
    registered domain in the allow-list or, without one, among those of the
    seeds when [same_domain_only]. *)
Theorem engine_stays_in_scope c i : reachable rely e0 seeds crawl_id c -> i ∈ accepted c -> in_scope e0 seeds crawl_id i.
Proof. intros Hr Hi. pose proof (inv_scope _ (reachable_inv c Hr)) as Hs. by eapply Forall_forall in Hs. Qed.

(** C16: the page budget holds up to the pages in flight: at any time at most
    [concurrency] items are being processed, at most [max_pages + concurrency
    - 1] pages have been counted (none for a non-positive [max_pages]), and
    the count is at most the number of items done. *)
Theorem engine_page_budget c : reachable rely e0 seeds crawl_id c ->
  Z.of_nat (length (cs_busy c)) <= Z.max 0 (en_concurrency e0) /\
  0 <= en_processed (cs_engine c) <= Z.of_nat (length (cs_done c)) /\
  (en_processed (cs_engine c) = 0 \/
   en_processed (cs_engine c) + Z.of_nat (length (cs_busy c)) <= en_max_pages e0 + en_concurrency e0 - 1).
Proof. intros Hr. destruct (reachable_inv c Hr) as [_ _ _ _ _ _ Pr Wk Bd]. split_and!; [done|lia|lia|]. naive_solver. Qed.

(** C1: a crawl terminates, whatever the pages link to: from a reachable state
    no schedule goes on for ever, and with at least one worker a crawl that
    has not drained its frontier can always go on. *)
Theorem engine_terminates c : reachable rely e0 seeds crawl_id c ->
  Acc (fun c' c => engine_step rely c c') c /\
  (0 < en_concurrency e0 -> mf_joined (en_frontier (cs_engine c)) = false -> exists c', engine_step rely c c').
Proof.
  intros Hr. pose proof (reachable_inv c Hr) as Hi. split; [|by intros; apply engine_progress].
  clear Hr. revert Hi. induction (less_left_wf c) as [c _ IH]. intros Hi. constructor. intros c' Hs.
  destruct (step_inv c c' Hi Hs). by apply IH.
Qed.

(** ** Invariants of the pipeline

    A property that a page in scope preserves holds of the pipeline as long as
    the crawl runs, if the other workers keep it as well. *)
Section PipelineInvariant.
Variable I : Pi -> Prop.
Hypothesis I_process : forall item pi, in_scope e0 seeds crawl_id item -> I pi -> I (snd (process_item item pi)).
Hypothesis I_registry : forall f pi, I pi -> I (on_registry f pi).

Lemma seed_all_pipeline l (e : engine) : en_pipeline (snd (seed_all crawl_id l e)) = en_pipeline e.
Proof.
  revert e. induction l as [|s l IH]; intros e; [done|]. cbn [seed_all]. unfold abind.
  assert (en_pipeline (snd (seed_one crawl_id s e)) = en_pipeline e) as E.
  { unfold seed_one, abind, alift, amodify. destruct (normalize_url (Some s) None) as [[u|]|x]; [|done..].
    destruct (registered_domain u) as [d|x]; [|done]. unfold frontier_add. by destruct (mf_add _ _). }
  destruct (seed_one crawl_id s e) as [[u|x] e1]; cbn in *; [by rewrite IH|done].
Qed.

Lemma expand_pipeline item links (e : engine) : I (en_pipeline e) -> I (en_pipeline (snd (expand item links e))).
Proof.
  revert e. induction links as [|link links IH]; intros e He; [done|]. cbn [expand]. unfold abind.
  assert (I (en_pipeline (snd (expand_link item link e)))) as He1.
  { unfold expand_link, abind, alift, aget, amodify. destruct (admits e (link_url link)) as [[]|x]; [|done..].
    unfold frontier_add. destruct (mf_add _ _) as [[] f]; [|done]. by apply I_registry. }
  destruct (expand_link item link e) as [[u|x] e1]; [by apply IH|done].
Qed.

Lemma handle_pipeline item (e : engine) : in_scope e0 seeds crawl_id item -> I (en_pipeline e) ->
  I (en_pipeline (snd (handle item e))).
Proof.
  intros Hi He. pose proof (I_process item _ Hi He) as Hp. unfold handle, abind, call_process, aget.
  destruct (process_item item (en_pipeline e)) as [[r|x] pi]; [|done]. cbn [snd] in Hp.
  destruct (res_fetched r).
  - unfold amodify. assert (I (en_pipeline (count_fetched (with_pipeline e pi)))) by by apply I_registry.
    destruct (res_duplicate r || _); [done|by apply expand_pipeline].
  - unfold aret at 1. destruct (res_duplicate r || _); [done|by apply expand_pipeline].
Qed.

Lemma pipeline_invariant c : (forall pi, rely pi -> I pi) -> I (en_pipeline e0) ->
  reachable rely e0 seeds crawl_id c -> I (en_pipeline (cs_engine c)).
Proof.
  intros Hrely H0 (c0 & Hst & Hr). pose proof (started_inv _ Hst) as Hi.
  assert (I (en_pipeline (cs_engine c0))) as H1.
  { destruct Hst as (_ & _ & _ & _ & _ & Hs & _). pose proof (seed_all_pipeline seeds e0) as E. rewrite Hs in E.
    cbn in E. by rewrite E. }
  clear Hst. induction Hr as [|c1 c2 c3 Hs _ IH]; [done|].
  apply IH; [by apply (step_inv c1 c2)|].
  inversion Hs as [|e item f e' busy fin Hw Hg Hb Ht|e item pi e' b1 b2 fin Hpi Ht]; subst; cbn [cs_engine] in *; [done| |].
  - unfold task_done in Ht. destruct (mf_task_done _) as [f'|]; [|done]. by injection Ht as <-.
  - assert (I (en_pipeline (snd (handle item (with_pipeline e pi))))) as Hh.
    { apply handle_pipeline; [|destruct Hpi as [->|]; auto]. pose proof (inv_scope _ Hi) as Hsc.
      eapply Forall_forall in Hsc; [exact Hsc|]. unfold accepted. cbn. set_solver. }
    unfold task_done in Ht. destruct (mf_task_done _) as [f'|]; [|done]. by injection Ht as <-.
Qed.
End PipelineInvariant.

(** ** The executable engine *)

Lemma worker_turn_steps (e : engine) finished : engine_inv (mkCrawling e [] finished) -> 0 < en_concurrency e0 ->
  mf_joined (en_frontier e) = false ->
  exists e' item, worker_turn e = Some (Ok tt, e') /\
    rtc (engine_step rely) (mkCrawling e [] finished) (mkCrawling e' [] (item :: finished)) /\
    engine_inv (mkCrawling e' [] (item :: finished)) /\
    less_left (mkCrawling e' [] (item :: finished)) (mkCrawling e [] finished).
Proof.
  intros Hi Hc Hj. pose proof (engine_progress _ Hi Hc Hj) as (c1 & Hs1).
  assert (en_concurrency e = en_concurrency e0) as Ec by apply (inv_setup _ Hi).
  unfold worker_turn. inversion Hs1 as [? item f ?? Hw Hg Hb|? item f e1 ?? Hw Hg Hb Ht|?????? Ht E]; subst.
  - rewrite Hg. change (en_max_pages (with_frontier e f)) with (en_max_pages e).
    change (en_processed (with_frontier e f)) with (en_processed e). destruct (Z.leb_spec (en_max_pages e) (en_processed e)); [lia|].
    destruct (step_inv _ _ Hi Hs1) as [Hi1 L1]. destruct (engine_progress _ Hi1 Hc) as (c2 & _).
    { pose proof (inv_unfinished _ Hi1) as U. unfold mf_joined. apply Z.eqb_neq. cbn in U |- *. lia. }
    destruct (task_done (snd (handle item (with_frontier e f)))) as [[[]|x] e2] eqn:Et.
    + assert (engine_step rely (mkCrawling (with_frontier e f) [item] finished) (mkCrawling e2 [] (item :: finished))) as Hs2.
      { apply (step_finish rely (with_frontier e f) item (en_pipeline e) e2 [] []); [by left|exact Et]. }
      destruct (step_inv _ _ Hi1 Hs2) as [Hi2 L2]. exists e2, item. split_and!; [done| |done|by eapply less_left_trans].
      eapply rtc_l; [exact Hs1|]. by apply rtc_once.
    + exfalso. unfold task_done, mf_task_done in Et.
      pose proof (inv_unfinished _ Hi1) as U. cbn in U.
      destruct (handle_spec item (with_frontier e f)) as (_ & _ & Hcase).
      destruct (Z.leb_spec (mf_unfinished (en_frontier (snd (handle item (with_frontier e f))))) 0); [|done].
      destruct Hcase as [[_ Ef]|[_ (l & _ & _ & U2 & _)]]; cbn [with_frontier en_frontier] in *; [rewrite Ef in *|]; lia.
  - rewrite Hg. change (en_max_pages (with_frontier e f)) with (en_max_pages e).
    change (en_processed (with_frontier e f)) with (en_processed e). destruct (Z.leb_spec (en_max_pages e) (en_processed e)); [|lia]. rewrite Ht.
    destruct (step_inv _ _ Hi Hs1) as [Hi1 L1]. exists e1, item. split_and!; [done|by apply rtc_once|done|done].
  - by destruct b1.
Qed.

Lemma work_terminates c finished (e : engine) : c = mkCrawling e [] finished -> engine_inv c -> 0 < en_concurrency e0 ->
  exists fuel e' d', work fuel e = Some e' /\ mf_joined (en_frontier e') = true /\
    rtc (engine_step rely) c (mkCrawling e' [] d') /\ engine_inv (mkCrawling e' [] d').
Proof.
  revert finished e. induction (less_left_wf c) as [c _ IH]. intros finished e -> Hi Hc.
  destruct (mf_joined (en_frontier e)) eqn:Hj.
  { exists O, e, finished. cbn. by rewrite Hj. }
  destruct (worker_turn_steps e finished Hi Hc Hj) as (e1 & item & Et & Hr1 & Hi1 & L1).
  destruct (IH _ L1 (item :: finished) e1 eq_refl Hi1 Hc) as (fuel & e2 & d2 & Ew & Hj2 & Hr2 & Hi2).
  exists (S fuel), e2, d2. cbn. rewrite Hj, Et. split_and!; [done..| |done]. by etrans.
Qed.

(** With one worker, [run] returns once its seeds are accepted: with enough
    fuel it ends in a state the concurrent engine can reach, with nothing
    queued or in flight, with at most [max_pages] pages counted, and with
    [discovered] the number of URLs that were worked on or passed over. *)
Theorem single_worker_run e1 elapsed :
  started e0 seeds crawl_id (mkCrawling e1 [] []) -> en_concurrency e0 = 1 ->
  exists fuel st e' finished, run fuel elapsed seeds crawl_id e0 = Ok (Some (st, e')) /\
    reachable rely e0 seeds crawl_id (mkCrawling e' [] finished) /\ mf_queue (en_frontier e') = [] /\
    st_processed st <= Z.max 0 (en_max_pages e0) /\ st_discovered st = Z.of_nat (length finished).
Proof.
  intros Hst Hc. pose proof (started_inv _ Hst) as Hi.
  destruct (work_terminates _ [] e1 eq_refl Hi) as (fuel & e' & d' & Ew & Hj & Hr & Hi'); [lia|].
  exists fuel, (mkStats (en_processed e') (seen_count (en_frontier e')) elapsed), e', d'.
  unfold run. destruct Hst as (E1 & E2 & E3 & E4 & E5 & Hseed & _). cbn [cs_engine] in Hseed. rewrite Hseed, Ew.
  destruct Hi' as [_ N1 Sn U1 _ _ Pr _ Bd]. unfold mf_joined in Hj. apply Z.eqb_eq in Hj. cbn in *.
  destruct (mf_queue (en_frontier e')) as [|i q] eqn:Eq; [|cbn in U1; lia].
  split_and!; [done| |done|lia|].
  - eexists. split; [|exact Hr]. by split_and!.
  - unfold seen_count. rewrite Sn, size_list_to_set, length_fmap by done. unfold accepted. cbn. by rewrite ?Eq, ?app_nil_r.
Qed.

End Invariant.

End Facts.

(** ** A concrete site *)

(** Five pages on two domains, as the links of each. *)
Definition page_links (url : string) : list Link :=
  (fun u => mkLink u None) <$>
  (if bool_decide (url = "http://a.org/") then ["http://a.org/x"; "http://b.org/"; "http://a.org/y"; "http://a.org/"]
   else if bool_decide (url = "http://a.org/x") then ["http://a.org/y"; "http://a.org/z"] else []).
Definition five_pages : PageProcessor registry := {|
  process_item := fun item pi => (Ok (mkResult item true true false None (page_links (fi_url item)) None), pi);
  on_registry := fun f pi => f pi |}.
Lemma five_pages_spec : @PageProcessorSpec registry five_pages.
Proof. intros item pi r pi' [= <- <-]. done. Qed.

(** Nothing is known of what the others do. *)
Definition anything {Pi : Type} : Pi -> Prop := fun _ => True.

Definition small_crawl (max_pages concurrency : Z) : CrawlEngine registry :=
  new_engine ∅ new_memory default_settings 2 max_pages concurrency true None.
Definition small_started (max_pages concurrency : Z) : CrawlEngine registry :=
  snd (@seed_all registry identity_lib None ["http://a.org/"] (small_crawl max_pages concurrency)).

Lemma small_start max_pages concurrency :
  @started registry identity_lib (small_crawl max_pages concurrency) ["http://a.org/"] None
    (mkCrawling (small_started max_pages concurrency) [] []).
Proof. split_and!; reflexivity. Qed.

(** The first page is being processed by one of two workers. *)
Definition first_taken : crawling registry :=
  mkCrawling (with_frontier (small_started 1 2) (mkMemory [] {["http://a.org/"]} 1)) [mkItem "http://a.org/" 0 None] [].
Lemma first_taken_reachable :
  @reachable registry identity_lib five_pages anything (small_crawl 1 2) ["http://a.org/"] None first_taken.
Proof.
  eexists. split; [apply small_start|]. apply rtc_once.
  apply (@step_take registry identity_lib five_pages anything (small_started 1 2) (mkItem "http://a.org/" 0 None)); vm_compute; reflexivity.
Qed.

Lemma engine_visits_once_witness :
  NoDup (fi_url <$> accepted first_taken) /\ seen_count (en_frontier (cs_engine first_taken)) = 1.
Proof.
  destruct (@engine_visits_once registry identity_lib five_pages five_pages_spec anything (small_crawl 1 2) ["http://a.org/"] None
    first_taken first_taken_reachable) as (Hn & _ & Hc & _).
  split; [exact Hn|exact Hc].
Defined.

Lemma engine_stays_in_scope_witness :
  @in_scope registry identity_lib (small_crawl 1 2) ["http://a.org/"] None (mkItem "http://a.org/" 0 None).
Proof.
  apply (@engine_stays_in_scope registry identity_lib five_pages five_pages_spec anything (small_crawl 1 2) ["http://a.org/"] None
    first_taken (mkItem "http://a.org/" 0 None) first_taken_reachable).
  vm_compute. left.
Defined.

Lemma engine_page_budget_witness :
  Z.of_nat (length (cs_busy first_taken)) <= 2 /\ en_processed (cs_engine first_taken) <= 0.
Proof.
  destruct (@engine_page_budget registry identity_lib five_pages five_pages_spec anything (small_crawl 1 2) ["http://a.org/"] None
    first_taken first_taken_reachable) as (Hw & Hp & _).
  split; [exact Hw|exact (proj2 Hp)].
Defined.

Lemma engine_terminates_witness :
  Acc (fun c' c => @engine_step registry identity_lib five_pages anything c c') first_taken /\
  exists c', @engine_step registry identity_lib five_pages anything first_taken c'.
Proof.
  destruct (@engine_terminates registry identity_lib five_pages five_pages_spec anything (small_crawl 1 2) ["http://a.org/"] None
    first_taken first_taken_reachable) as (Ha & Hs).
  split; [exact Ha|]. apply Hs; reflexivity.
Defined.

Lemma single_worker_run_witness :
  exists fuel st e' (finished : list FrontierItem),
    @run registry identity_lib five_pages fuel 0 ["http://a.org/"] None (small_crawl 100 1) = Ok (Some (st, e')) /\
    st_discovered st = Z.of_nat (length finished) /\ st_processed st <= 100.
Proof.
  destruct (@single_worker_run registry identity_lib five_pages five_pages_spec anything (small_crawl 100 1) ["http://a.org/"] None
    (small_started 100 1) 0%Q (small_start 100 1) eq_refl) as (fuel & st & e' & d & E & _ & _ & Hp & Hd).
  exists fuel, st, e', d. split; [exact E|]. split; [exact Hd|exact Hp].
Defined.

(** The small site, crawled: the other domain is left out. *)
Example small_site_crawled :
  match @run registry identity_lib five_pages 10 0 ["http://a.org/"] None (small_crawl 100 1) with
  | Ok (Some (st, _)) => st = mkStats 4 4 0
  | _ => False
  end.
Proof. vm_compute. reflexivity. Qed.

(** The page budget is overrun by pages in flight: with [max_pages] 2 and two
    workers three pages are counted. *)
Definition taken (e : CrawlEngine registry) : CrawlEngine registry :=
  match mf_get (en_frontier e) with Some (_, f) => with_frontier e f | None => e end.
Definition finished_one (item : FrontierItem) (e : CrawlEngine registry) : CrawlEngine registry :=
  snd (task_done (snd (@handle registry identity_lib five_pages item e))).
Definition page_seed : FrontierItem := mkItem "http://a.org/" 0 None.
Definition page_x : FrontierItem := mkItem "http://a.org/x" 1 None.
Definition page_y : FrontierItem := mkItem "http://a.org/y" 1 None.
Definition over1 : CrawlEngine registry := taken (small_started 2 2).
Definition over2 : CrawlEngine registry := finished_one page_seed over1.
Definition over3 : CrawlEngine registry := taken over2.
Definition over4 : CrawlEngine registry := taken over3.
Definition over5 : CrawlEngine registry := finished_one page_x over4.
Definition over6 : CrawlEngine registry := finished_one page_y over5.

Lemma take_one e item busy finished : head (mf_queue (en_frontier e)) = Some item ->
  Z.of_nat (length busy) <? en_concurrency e = true -> en_processed e <? en_max_pages e = true ->
  @engine_step registry identity_lib five_pages anything (mkCrawling e busy finished) (mkCrawling (taken e) (item :: busy) finished).
Proof.
  intros Hg Hc%Z.ltb_lt Hp%Z.ltb_lt. unfold taken, mf_get. destruct (mf_queue (en_frontier e)) as [|i q] eqn:Eq; [done|].
  injection Hg as ->. apply step_take; [done| |done]. unfold mf_get. by rewrite Eq.
Qed.
Lemma finish_one e item b1 b2 finished :
  fst (task_done (snd (@handle registry identity_lib five_pages item e))) = Ok tt ->
  @engine_step registry identity_lib five_pages anything (mkCrawling e (b1 ++ item :: b2) finished)
    (mkCrawling (finished_one item e) (b1 ++ b2) (item :: finished)).
Proof.
  intros Ht. apply (@step_finish _ identity_lib five_pages anything e item (en_pipeline e)); [by left|].
  assert (with_pipeline e (en_pipeline e) = e) as E by by destruct e. rewrite E. unfold finished_one.
  destruct (task_done _) as [r e']. cbn in Ht. by rewrite Ht.
Qed.

Abbreviation can_take e item busy := (head (mf_queue (en_frontier e)) = Some item /\
  (Z.of_nat busy <? en_concurrency e) && (en_processed e <? en_max_pages e) = true) (only parsing).
Abbreviation can_finish e item :=
  (fst (task_done (snd (@handle registry identity_lib five_pages item e))) = Ok tt) (only parsing).
Lemma overrun_schedule e0 e1 e2 e3 e4 e5 e6 s x y :
  e1 = taken e0 -> e2 = finished_one s e1 -> e3 = taken e2 -> e4 = taken e3 -> e5 = finished_one x e4 ->
  e6 = finished_one y e5 ->
  can_take e0 s 0%nat /\ can_finish e1 s /\ can_take e2 x 0%nat /\ can_take e3 y 1%nat /\ can_finish e4 x /\ can_finish e5 y ->
  rtc (@engine_step registry identity_lib five_pages anything) (mkCrawling e0 [] []) (mkCrawling e6 [] [y; x; s]).
Proof.
  intros E1 E2 E3 E4 E5 E6 ([Q0 [C0 P0]%andb_true_iff] & F1 & [Q2 [C2 P2]%andb_true_iff] & [Q3 [C3 P3]%andb_true_iff] & F4 & F5).
  pose proof (take_one e0 s [] [] Q0 C0 P0) as S1. pose proof (finish_one e1 s [] [] [] F1) as S2.
  pose proof (take_one e2 x [] [s] Q2 C2 P2) as S3. pose proof (take_one e3 y [x] [s] Q3 C3 P3) as S4.
  pose proof (finish_one e4 x [y] [] [s] F4) as S5. pose proof (finish_one e5 y [] [] [x; s] F5) as S6.
  rewrite <- E1 in S1. rewrite <- E2 in S2. rewrite <- E3 in S3. rewrite <- E4 in S4. rewrite <- E5 in S5. rewrite <- E6 in S6.
  cbn [app] in *. do 5 (eapply rtc_l; [eassumption|]). by apply rtc_once.
Qed.

Example page_budget_overrun :
  @reachable registry identity_lib five_pages anything (small_crawl 2 2) ["http://a.org/"] None
    (mkCrawling over6 [] [page_y; page_x; page_seed]) /\ en_processed over6 = 3.
Proof.
  split; [|vm_compute; reflexivity]. exists (mkCrawling (small_started 2 2) [] []). split; [apply small_start|].
  apply (overrun_schedule _ over1 over2 over3 over4 over5);
    [unfold over1|unfold over2|unfold over3|unfold over4|unfold over5|unfold over6|]; try reflexivity.
  vm_compute. split_and!; reflexivity.
Qed.

(** Without a worker ([--concurrency 0]) [join] never returns: the seed is
    queued, the crawl is not finished and no step is possible. *)
Example no_worker_hangs :
  mf_joined (en_frontier (small_started 100 0)) = false /\
  forall c, ~ @engine_step registry identity_lib five_pages anything (mkCrawling (small_started 100 0) [] []) c.
Proof.
  split; [reflexivity|]. intros c Hs. inversion Hs as [? ? ? ? ? Hw|? ? ? ? ? ? Hw|? ? ? ? b1 ? ? ? ? Hb]; subst.
  - vm_compute in Hw. discriminate Hw.
  - vm_compute in Hw. discriminate Hw.
  - by destruct b1.
Qed.
