(* ===== verification/LocalCrawl.v ===== *)
(** * A crawl run inside the process ([crawler/local_crawl.py])

    [execute_crawl]: the wiring of the pipeline and the engine from the
    settings, the run, the degrees and the final status of the crawl's row.
    [crawl_run] relates the tables before and after for every schedule of the
    engine's workers and every way the coroutine can end, also when the rest
    of the process works on the same tables meanwhile; [execute_crawl] is the
    executable run with one worker.  The [finally] block and the degrees are
    sessions of [Sessions]; their failures are swallowed.

    [local_crawl_scope]: what a crawl may leave in the tables;
    [local_crawl_status]: how a run that ended is recorded;
    [local_crawl_misconfigured]: settings that cannot be wired and malformed
    seeds; [execute_crawl_completes]: the run with one worker ends;
    [closed_session_stores_nothing]: what is left of a run after the fetcher
    is closed. *)
From S2P Require Import Prelude PyStr Config Models UrlUtils HtmlParser.
From S2P Require Import SimHash Dedup CircuitBreaker Budget Backpressure Frontier Robots Fetcher Storage.
From S2P Require Import ObjectStore Sessions Pipeline Factory Engine.
Local Open Scope Z_scope.

(** The keyword arguments of [execute_crawl]. *)
Record CrawlArgs : Type := mkArgs {
  ca_crawl_id : Z; ca_seeds : list string; ca_max_depth : Z; ca_max_pages : Z;
  ca_allowed_domains : option (list string); ca_same_domain_only : bool; ca_concurrency : Z;
  ca_polite : bool; ca_dedup : bool }.

(** [set(allowed_domains) if allowed_domains else None]. *)
Definition allowed_set (allowed : option (list string)) : option (gset string) :=
  match allowed with Some (d :: ds) => Some (list_to_set (d :: ds)) | _ => None end.

Section LocalCrawl.
Context {R Session content : Type}.
Context `{UL : UrlLib, SX : Selectolax, TH : TokenHash, SH : Sha256, PT : Protego, AI : Aiohttp Session content}.
Context `{UT : Utf8, RS : RedisStrings R, RST : RedisSets R, RC : RedisCounters R, CM : Commits}.

(** The gate over the shared fetcher. *)
Abbreviation Net := (Fetcher Session * registry)%type.
Abbreviation Gate := (Politeness R Net * Limiter R)%type.
Abbreviation Dedups := ((RedisContentDedup * R) + InMemoryContentDedup)%type.
Abbreviation Budgets := ((RedisDomainBudget * R) + InMemoryDomainBudget)%type.
Context `{GT : PolitenessGate Gate}.
Variable clock : nat -> Q.

Abbreviation pipe := (Pipeline Gate (Fetcher Session) Dedups Budgets NoopObjectStore DB).
#[local] Instance crawl_pages : PageProcessor (nat * pipe) := pipeline_processor clock.
#[local] Instance crawl_pages_spec : PageProcessorSpec (nat * pipe) := pipeline_processor_spec clock.

(** The collaborators, in the order the constructor's arguments are evaluated. *)
Definition wire (s : Settings) (a : CrawlArgs) (db : DB) (reg : registry) : result (CrawlEngine (nat * pipe)) :=
  let fetcher := Fetcher.aenter (new_fetcher s None) in
  let* politeness := if ca_polite a then let* g := build_politeness (fetcher, reg) s None in Ok (Some g) else Ok None in
  let content_dedup := if ca_dedup a then Some (build_content_dedup s None) else None in
  let* breaker := build_circuit_breaker s in
  let budget := build_domain_budget s None in
  let* _ := build_backpressure s in
  let pipeline := mkPipeline s fetcher db politeness content_dedup None false breaker budget reg in
  Ok (new_engine (0%nat, pipeline) new_memory s (ca_max_depth a) (ca_max_pages a) (ca_concurrency a)
        (ca_same_domain_only a) (allowed_set (ca_allowed_domains a))).

(** The tables as the pipeline of an engine has them. *)
Definition tables (e : CrawlEngine (nat * pipe)) : DB := pl_sink (snd (en_pipeline e)).

(** [await GraphRepository(session).recompute_degrees()], best effort. *)
Definition update_degrees (db : DB) : DB := snd (session_scope (fun db => (Ok tt, recompute_degrees db)) db).

(** The [finally] block. *)
Definition record_status (id : Z) (status : string) (db : DB) : DB :=
  snd (session_scope (fun db => (Ok tt, set_crawl_status id status db)) db).

(** What comes after [engine.run]: the fetcher is closed, then the degrees. *)
Definition after_run (e : CrawlEngine (nat * pipe)) : string * DB :=
  match close (pl_fetcher (snd (en_pipeline e))) with
  | Ok _ => ("completed", update_degrees (tables e))
  | Raise _ => ("failed", tables e)
  end.

(** [execute_crawl] with one worker; [None] while it runs. *)
Definition execute_crawl (fuel : nat) (elapsed : Q) (s : Settings) (a : CrawlArgs) (reg : registry) (db : DB) :
    option (string * DB) :=
  let finish '(status, db) := Some (status, record_status (ca_crawl_id a) status db) in
  match wire s a db reg with
  | Raise _ => finish ("failed", db)
  | Ok e =>
      match run fuel elapsed (ca_seeds a) (Some (ca_crawl_id a)) e with
      | Raise _ => finish ("failed", db)
      | Ok None => None
      | Ok (Some (_, e')) => finish (after_run e')
      end
  end.

(** Every way the coroutine's body can end, for all schedules of the workers;
    [rely] is what the rest of the process keeps of the tables. *)
Definition others (rely : DB -> Prop) (np : nat * pipe) : Prop := rely (pl_sink (snd np)).

Inductive crawl_body (rely : DB -> Prop) (s : Settings) (a : CrawlArgs) (reg : registry) (db : DB) : string -> DB -> Prop :=
| body_unwired e : wire s a db reg = Raise e -> crawl_body rely s a reg db "failed" db
| body_bad_seed eng e eng' :
    wire s a db reg = Ok eng -> seed_all (Some (ca_crawl_id a)) (ca_seeds a) eng = (Raise e, eng') ->
    crawl_body rely s a reg db "failed" (tables eng')
| body_done eng c :
    wire s a db reg = Ok eng -> reachable (others rely) eng (ca_seeds a) (Some (ca_crawl_id a)) c ->
    mf_joined (en_frontier (cs_engine c)) = true ->
    crawl_body rely s a reg db (fst (after_run (cs_engine c))) (snd (after_run (cs_engine c)))
| body_cancelled eng c :
    (* [CancelledError] is thrown into the coroutine while it waits for the engine *)
    wire s a db reg = Ok eng -> reachable (others rely) eng (ca_seeds a) (Some (ca_crawl_id a)) c ->
    crawl_body rely s a reg db "stopped" (tables (cs_engine c))
| body_cancelled_late eng c :
    (* or for the degrees *)
    wire s a db reg = Ok eng -> reachable (others rely) eng (ca_seeds a) (Some (ca_crawl_id a)) c ->
    crawl_body rely s a reg db "stopped" (update_degrees (tables (cs_engine c))).

(** The whole run: [db1] is what the body leaves, [db2] what the [finally]
    block finds. *)
Definition crawl_run (rely : DB -> Prop) (s : Settings) (a : CrawlArgs) (reg : registry) (db : DB) (status : string) (db' : DB) : Prop :=
  exists db1 db2, crawl_body rely s a reg db status db1 /\ (db2 = db1 \/ rely db2) /\
    db' = record_status (ca_crawl_id a) status db2.

(** ** What a page does to the tables *)

(** One transaction that saves a record of the item's crawl and depth, or none. *)
Lemma page_effect (now : nat -> Q) (item : FrontierItem) (p : pipe) :
  let p' := snd (process now item p) in
  pl_sink p' = pl_sink p \/
  exists rec, pr_depth rec = fi_depth item /\ pr_crawl_id rec = fi_crawl_id item /\ pl_sink p' = sql_save_page rec (pl_sink p).
Proof.
  pose proof (process_walk now item p) as Hw. destruct (process now item p) as [[r|e] p'] eqn:E; destruct Hw as [Hw _];
    cbn [snd]; [|by left]. destruct Hw as [_ Hs]. destruct (res_skipped r).
  - destruct Hs as (_ & _ & _ & _ & _ & _ & [Hsk _] & _). by left.
  - destruct Hs as (_ & _ & rec & _ & Hsave & _ & Hd & Hc & _). right. exists rec. split_and!; [done..|].
    cbn in Hsave. congruence.
Qed.

Variables (s : Settings) (a : CrawlArgs) (reg : registry).
Abbreviation id := (ca_crawl_id a).

Lemma wire_spec (db : DB) (eng : CrawlEngine (nat * pipe)) : wire s a db reg = Ok eng ->
  tables eng = db /\ mf_seen (en_frontier eng) = ∅ /\ mf_queue (en_frontier eng) = [] /\ mf_unfinished (en_frontier eng) = 0 /\
  en_processed eng = 0 /\ en_seed_domains eng = ∅ /\ en_max_depth eng = ca_max_depth a /\ en_concurrency eng = ca_concurrency a.
Proof.
  unfold wire. intros (g & _ & (b & _ & (bp & _ & [= <-])%rbind_Ok)%rbind_Ok)%rbind_Ok. done.
Qed.

(** A property of the tables that saving a page of the crawl keeps holds of
    every state the crawl reaches. *)
Lemma tables_invariant (I : DB -> Prop) (rely : DB -> Prop) (db : DB) (eng : CrawlEngine (nat * pipe)) c :
  (forall rec sink, pr_crawl_id rec = Some id -> 0 <= pr_depth rec <= Z.max 0 (ca_max_depth a) -> I sink ->
     I (sql_save_page rec sink)) ->
  (forall x, rely x -> I x) -> I db ->
  wire s a db reg = Ok eng -> reachable (others rely) eng (ca_seeds a) (Some id) c -> I (tables (cs_engine c)).
Proof.
  intros Hsave Hrely Hdb (Et & _ & _ & _ & _ & _ & Ed & _)%wire_spec Hr.
  apply (pipeline_invariant (others rely) eng (ca_seeds a) (Some id) (fun np => I (pl_sink np.2))) in Hr; [done|..].
  - intros item [n p] [Hc Hdep] Hp. cbn. pose proof (page_effect (fun i => clock (n + i)%nat) item p) as He.
    destruct (process _ item p) as [x p']. cbn in *. destruct He as [->|(rec & Hd & Hcr & ->)]; [done|].
    apply Hsave; [congruence| |done]. rewrite Hd, <- Ed. destruct Hdep as [[-> _]|[? _]]; lia.
  - by intros f [n p].
  - intros [n p]. apply Hrely.
  - unfold tables in Et. cbn. by rewrite Et.
Qed.

(** What any run leaves satisfies what saves, degrees and status keep. *)
Lemma crawl_run_invariant (I : DB -> Prop) (rely : DB -> Prop) (db : DB) status (db' : DB) :
  (forall rec sink, pr_crawl_id rec = Some id -> 0 <= pr_depth rec <= Z.max 0 (ca_max_depth a) -> I sink ->
     I (sql_save_page rec sink)) ->
  (forall x, I x -> I (recompute_degrees x)) -> (forall x st, I x -> I (set_crawl_status id st x)) ->
  (forall x, rely x -> I x) -> I db ->
  crawl_run rely s a reg db status db' -> I db'.
Proof.
  intros Hsave Hdeg Hst Hrely Hdb (db1 & db2 & Hb & Hor & ->).
  assert (forall (b : act DB unit) x, I x -> (forall y, I y -> I (snd (b y))) -> I (snd (session_scope b x))) as Hsc.
  { intros b x Hx Hk. pose proof (Hk x Hx) as Hy. unfold session_scope. destruct (b x) as [[u|e] y]; [|done].
    by destruct (commit_error y). }
  assert (I db1) as H1.
  { inversion Hb as [e Ew|eng e eng' Ew Es|eng c Ew Hr Hj|eng c Ew Hr|eng c Ew Hr]; subst; [done|..];
      try (pose proof (tables_invariant I rely db eng c Hsave Hrely Hdb Ew Hr) as Hc).
    - unfold tables. pose proof (seed_all_pipeline (Some id) (ca_seeds a) eng) as Ep. rewrite Es in Ep. cbn in Ep.
      rewrite Ep. destruct (wire_spec db eng Ew) as (Et & _). unfold tables in Et. by rewrite Et.
    - unfold after_run. destruct (close _); [|done]. apply Hsc; [done|]. apply Hdeg.
    - done.
    - apply Hsc; [done|]. apply Hdeg. }
  apply Hsc; [destruct Hor as [->|?]; auto|]. intros y. apply Hst.
Qed.

(** ** The properties *)

(** What a crawl may leave: sound tables, and no document of the crawl outside
    its depth. *)
Definition crawl_scope (db : DB) : Prop :=
  db_wf db /\ Forall (fun d => d_crawl_id d = Some id -> 0 <= d_depth d <= Z.max 0 (ca_max_depth a)) (db_documents db).

Lemma recompute_rows (db : DB) d : d ∈ db_documents (recompute_degrees db) ->
  exists o i d0, d0 ∈ db_documents db /\ d = set_degrees o i d0.
Proof.
  unfold recompute_degrees. cbn [set_documents db_documents].
  intros (d1 & -> & (d0 & -> & Hd)%list_elem_of_fmap)%list_elem_of_fmap.
  exists (out_edges d0 (db_edges db)). eexists. exists d0. by split.
Qed.

Lemma wf_set_status i st db : db_wf db -> db_wf (set_crawl_status i st db).
Proof. intros [U I Nx E Ne Rf]. by split. Qed.

(** C14: a crawl run in the process keeps its scope, however it ends.  For any
    schedule of its workers, if what the rest of the process writes to the
    shared tables meanwhile keeps them sound and adds no document of this
    crawl beyond its depth, then so does the crawl: after it completed, failed
    or was stopped, at whatever point, the tables satisfy their invariant and
    every document of the crawl has a depth between 0 and [max_depth]. *)
Theorem local_crawl_scope (rely : DB -> Prop) (db : DB) status (db' : DB) :
  (forall x, rely x -> crawl_scope x) -> crawl_scope db -> crawl_run rely s a reg db status db' ->
  crawl_scope db' /\ status ∈ ["completed"; "failed"; "stopped"].
Proof.
  intros Hrely Hdb Hr. split.
  - revert Hr. apply crawl_run_invariant; [| | |done|done].
    + intros rec sink Hc Hd [Hwf Hf]. split; [by apply sql_save_page_wf|]. apply Forall_forall.
      intros d [Hin|[_ ->]]%sql_save_page_rows; [|done]. by eapply Forall_forall in Hf.
    + intros x [Hwf Hf]. split; [by apply degrees_account_for_edges|]. apply Forall_forall.
      intros d (o & i & d0 & Hin & ->)%recompute_rows. exact (proj1 (Forall_forall _ _) Hf d0 Hin).
    + intros x st [Hwf Hf]. split; [by apply wf_set_status|done].
  - destruct Hr as (db1 & db2 & Hb & _). inversion Hb; subst; unfold after_run; try set_solver.
    destruct (close _); set_solver.
Qed.

(** Nothing else writes to the tables. *)
Definition alone (db : DB) : Prop := False.

(** The rows a crawl leaves to the others. *)
Definition frame (db db' : DB) : Prop :=
  (forall d, d ∈ db_documents db' -> d_crawl_id d = Some id \/ exists o i d0, d0 ∈ db_documents db /\ d = set_degrees o i d0) /\
  (forall i, i <> id -> get_crawl i db' = get_crawl i db).

(** How a run is recorded.  When the server accepts every commit, a crawl that
    had the tables to itself ends with its own row in the status the run ended
    with ("completed", "failed" or "stopped"), if it has a row; every other
    crawl's row is what it was, and every document that is not the crawl's own
    was there before and differs at most in its degrees. *)
Theorem local_crawl_status (db : DB) status (db' : DB) :
  (forall x, commit_error x = None) -> crawl_run alone s a reg db status db' ->
  status ∈ ["completed"; "failed"; "stopped"] /\
  (is_Some (get_crawl id db) -> status_of id db' = Some status) /\
  frame db db'.
Proof.
  intros Hok Hr. assert (frame db db' /\ (is_Some (get_crawl id db) -> is_Some (get_crawl id db'))) as [Hf Hrow].
  { revert Hr. apply (crawl_run_invariant (fun x => frame db x /\ (is_Some (get_crawl id db) -> is_Some (get_crawl id x)))).
    - intros rec sink Hc Hd [[Hdocs Hcr] Hown]. destruct (sql_save_page_crawls rec sink) as [E _]. unfold get_crawl in *.
      rewrite E. split; [|done]. split; [|unfold get_crawl; by rewrite E].
      intros d [Hin|[-> _]]%sql_save_page_rows; [by apply Hdocs|by left].
    - intros x [[Hdocs Hcr] Hown]. split; [|done]. split; [|done]. intros d (o & i & d0 & Hin & ->)%recompute_rows.
      destruct (Hdocs d0 Hin) as [?|(o' & i' & d1 & Hd1 & ->)]; [by left|right]. by exists o, i, d1.
    - intros x st [[Hdocs Hcr] Hown]. split.
      + split; [done|]. intros i Hne. rewrite get_crawl_set_status. rewrite <- (Hcr i Hne).
        destruct (get_crawl i x) as [c|] eqn:E; [|done]. apply get_crawl_Some in E as [_ <-]. cbn.
        by destruct (Z.eqb_spec (c_id c) id).
      + intros Hs%Hown. rewrite get_crawl_set_status. destruct Hs as [c ->]. by eexists.
    - by intros x [].
    - split; [|done]. split; [|done]. intros d Hd. right. exists (d_out_degree d), (d_in_degree d), d. by destruct d. }
  split_and!; [|intros Hs|done].
  - destruct Hr as (db1 & db2 & Hb & _). inversion Hb; subst; unfold after_run; try set_solver.
    destruct (close _); set_solver.
  - destruct Hr as (db1 & db2 & _ & _ & ->). apply Hrow in Hs. revert Hs. unfold record_status, session_scope.
    rewrite Hok. cbn [snd]. rewrite status_of_set, Z.eqb_refl, get_crawl_set_status.
    by destruct (get_crawl id db2); [|intros [? ?]].
Qed.

(** The only runs there are when the engine never starts. *)
Lemma run_failed (db : DB) :
  (forall (eng : CrawlEngine (nat * pipe)) c, wire s a db reg = Ok eng -> seed_all (Some id) (ca_seeds a) eng <> (Ok tt, c)) ->
  forall status db', crawl_run alone s a reg db status db' <-> status = "failed" /\ db' = record_status id "failed" db.
Proof.
  intros Hno status db'.
  assert (forall (eng : CrawlEngine (nat * pipe)) c, wire s a db reg = Ok eng -> ~ reachable (others alone) eng (ca_seeds a) (Some id) c) as Hnr.
  { intros eng c Ew (c0 & (_ & _ & _ & _ & _ & Hs & _) & _). by eapply Hno. }
  split.
  - intros (db1 & db2 & Hb & [->|[]] & ->). inversion Hb as [e Ew|eng e eng' Ew Es|eng c Ew Hr|eng c Ew Hr|eng c Ew Hr]; subst;
      try (by destruct (Hnr eng c)); split; try done.
    unfold tables. pose proof (seed_all_pipeline (Some id) (ca_seeds a) eng) as Ep. rewrite Es in Ep. cbn in Ep. rewrite Ep.
    by destruct (wire_spec db eng Ew) as [<- _].
  - intros [-> ->]. exists db, db. split; [|by split; [left|]]. destruct (wire s a db reg) as [eng|e] eqn:Ew; [|by eapply body_unwired].
    destruct (seed_all (Some id) (ca_seeds a) eng) as [[[]|e] eng'] eqn:Es; [by destruct (Hno eng eng' eq_refl)|].
    assert (tables eng' = db) as Et.
    { unfold tables. pose proof (seed_all_pipeline (Some id) (ca_seeds a) eng) as Ep. rewrite Es in Ep. cbn in Ep. rewrite Ep.
      by destruct (wire_spec db eng Ew) as [<- _]. }
    pose proof (body_bad_seed alone s a reg db eng e eng' Ew Es) as Hb. by rewrite Et in Hb.
Qed.

(** Errors before the first page fail the crawl and nothing else.  Wiring
    raises exactly when the crawl is polite and the robots cache has no
    capacity, or the circuit breaker is enabled with a threshold below one.
    When it raises, or when a seed is one the URL parser rejects, the only run
    there is ends "failed", and all it does to the tables is to record that. *)
Theorem local_crawl_misconfigured (db : DB) :
  let runs_only_failed := forall status db',
    crawl_run alone s a reg db status db' <-> status = "failed" /\ db' = record_status id "failed" db in
  let misconfigured :=
    ca_polite a = true /\ robots_cache_size (politeness s) <= 0 \/
    enable_circuit_breaker (resilience s) = true /\ circuit_failure_threshold (resilience s) <= 0 in
  (misconfigured <-> forall eng : CrawlEngine (nat * pipe), wire s a db reg <> Ok eng) /\
  (misconfigured -> runs_only_failed) /\
  (forall (eng : CrawlEngine (nat * pipe)) e eng', wire s a db reg = Ok eng ->
     seed_all (Some id) (ca_seeds a) eng = (Raise e, eng') -> runs_only_failed).
Proof.
  cbv zeta.
  assert (ca_polite a = true /\ robots_cache_size (politeness s) <= 0 \/
    enable_circuit_breaker (resilience s) = true /\ circuit_failure_threshold (resilience s) <= 0 <->
    forall eng : CrawlEngine (nat * pipe), wire s a db reg <> Ok eng) as Hiff.
  { destruct (backpressure_builds s) as [bp Ebp].
    unfold wire, build_politeness, new_robots, Lru.new, build_circuit_breaker, new_breaker. rewrite Ebp.
    destruct (ca_polite a), (Z.leb_spec (robots_cache_size (politeness s)) 0), (enable_circuit_breaker (resilience s)),
      (Z.leb_spec (circuit_failure_threshold (resilience s)) 0); cbn;
      (split; [intros [[? ?]|[? ?]] eng; first [done|lia]|]); intros Hno; auto; exfalso; by eapply Hno. }
  split; [done|]. split.
  - intros Hm. apply run_failed. intros eng c Ew. by apply Hiff in Ew.
  - intros eng e eng' Ew Es. apply run_failed. intros eng2 c Ew2. assert (eng2 = eng) as -> by congruence.
    rewrite Es. discriminate.
Qed.

(** A crawl ends by itself.  Once it is wired and its seeds are accepted,
    with at least one worker and a session that closes, the run with one worker
    at a time returns after finitely many turns; it ends "completed", and is
    one of the runs [crawl_run] allows. *)
Theorem execute_crawl_completes (elapsed : Q) (db : DB) (eng e1 : CrawlEngine (nat * pipe)) :
  wire s a db reg = Ok eng -> seed_all (Some id) (ca_seeds a) eng = (Ok tt, e1) -> 0 < ca_concurrency a ->
  (forall ses, is_ok (session_close ses) = true) ->
  exists fuel db', execute_crawl fuel elapsed s a reg db = Some ("completed", db') /\
    crawl_run alone s a reg db "completed" db'.
Proof.
  intros Ew Es Hc Hclose. destruct (wire_spec db eng Ew) as (_ & S1 & S2 & S3 & S4 & S5 & _ & S6).
  assert (started eng (ca_seeds a) (Some id) (mkCrawling e1 [] [])) as Hst by done.
  destruct (work_terminates (others alone) eng (ca_seeds a) (Some id) _ [] e1 eq_refl (started_inv _ _ _ _ Hst)) as
    (fuel & e' & d' & Ework & Hj & Hr & _); [by rewrite S6|].
  assert (after_run e' = ("completed", update_degrees (tables e'))) as Ea.
  { unfold after_run. by destruct (close_ok (pl_fetcher (snd (en_pipeline e'))) Hclose) as [f ->]. }
  exists fuel. eexists. split.
  - unfold execute_crawl. rewrite Ew. unfold run. rewrite Es, Ework. cbn. by rewrite Ea.
  - exists (update_degrees (tables e')), (update_degrees (tables e')). split; [|by split; [left|]].
    pose proof (body_done alone s a reg db eng (mkCrawling e' [] d') Ew ltac:(by exists (mkCrawling e1 [] [])) Hj) as Hb.
    cbn [cs_engine] in Hb. by rewrite Ea in Hb.
Qed.

(** Closing the fetcher ends all work: [engine.run] leaves its workers running
    when it is cancelled, but a page they start after that fails before its
    request, so it writes nothing. *)
Lemma closed_session_stores_nothing (now : nat -> Q) (item : FrontierItem) (p : pipe) :
  fe_session (pl_fetcher p) = None -> 0 <= Config.retries (fetch (fe_settings (pl_fetcher p))) ->
  pl_sink (snd (process now item p)) = pl_sink p.
Proof.
  intros Hs Hret. unfold process, abind at 1.
  destruct (ask_robots_frame (fi_url item) p) as (b & p1 & -> & [[Ek _] Ef] & _). destruct b; cbn [negb]; [|done].
  unfold abind at 1, alift. destruct (host_of (fi_url item)) as [host|e]; [|done].
  unfold abind at 1. destruct (ask_breaker_frame host (now 0%nat) p1) as (b & p2 & -> & [[Ek2 _] Ef2] & _).
  destruct b; cbn [negb]; [|cbn; congruence].
  unfold abind at 1. pose proof (ask_budget_frame (fi_url item) p2) as F3.
  destruct (ask_budget (fi_url item) p2) as [[[]|e] p3]; destruct F3 as [[[Ek3 _] Ef3] _]; cbn [negb]; [|cbn; congruence..].
  unfold abind at 1, conditional_headers. destruct (if pl_conditional_get p3 then _ else _) as [headers|e]; [|cbn; congruence].
  unfold abind at 1, guarded_fetch.
  assert (forall q : pipe, pl_fetcher q = pl_fetcher p -> pl_sink q = pl_sink p ->
    exists q', (let '(r, (f, reg)) := download (fi_url item) headers (pl_fetcher q, pl_reg q) in (r, with_fetcher q f reg))
      = (Raise RuntimeError, q') /\ pl_sink q' = pl_sink p) as Hq.
  { intros q Efq Ekq. unfold download, fetcher_download. cbn [fst snd]. rewrite Efq.
    destruct (fetch_closed (fi_url item) headers (mkFetchState (pl_fetcher p) (pl_reg q) [])) as [Er _]; [done..|].
    destruct (fetch_url _ _ _) as [r st]. cbn in Er. subst r. by eexists. }
  destruct (pl_politeness p3) as [g|].
  - destruct (gate_slot (fi_url item) g) as [g'|e]; cbn [rbind]; [|cbn; congruence].
    destruct (Hq (with_politeness p3 g')) as (q' & -> & E'); [cbn; congruence..|done].
  - destruct (Hq p3) as (q' & -> & E'); [congruence..|done].
Qed.

End LocalCrawl.

(** ** A concrete crawl

    One host that serves the same page for every URL, no Redis, an open gate
    and a database that accepts every commit. *)
Definition same_page : Aiohttp unit string := {|
  make_session := fun _ => tt;
  session_get := fun url _ s => (Responded (mkResponse 200 url [("content-type", "text/html")] "/b|/a"), 1%Q, s);
  content_read := scut; session_close := Ok; content_bytes := fun c => c |}.
Definition no_sets : RedisSets unit := {| smembers := fun _ _ => []; sadd := fun _ _ r => r; expire := fun _ _ r => r |}.
Definition no_counters : RedisCounters unit := {| incrby := fun _ _ r => (None, r); rget := fun _ _ => None |}.
#[local] Existing Instances identity_lib line_document length_hash plain_sha toy_protego same_page ascii_text.
#[local] Existing Instances no_redis no_sets no_counters no_commit_error.
Definition open_local : PolitenessGate (Politeness unit (Fetcher unit * registry) * Limiter unit) := {|
  gate_allowed := fun _ g => (true, g); gate_slot := fun _ g => Ok g |}.
#[local] Existing Instance open_local.

Definition demo_args : CrawlArgs := mkArgs 1 ["http://a.example/"] 2 100 None true 10 true true.
Definition demo_db : DB := snd (insert_crawl "demo" ["http://a.example/"] "running" 2 100 None empty_db).
Definition demo_run : DB -> string -> DB -> Prop := crawl_run fixed_clock alone default_settings demo_args ∅.

Definition demo_wire (s : Settings) : result (CrawlEngine (nat *
    Pipeline (Politeness unit (Fetcher unit * registry) * Limiter unit) (Fetcher unit)
      ((RedisContentDedup * unit) + InMemoryContentDedup) ((RedisDomainBudget * unit) + InMemoryDomainBudget)
      NoopObjectStore DB)) := wire s demo_args demo_db ∅.

Lemma demo_start : exists eng e1, demo_wire default_settings = Ok eng /\
  seed_all (Some 1) ["http://a.example/"] eng = (Ok tt, e1).
Proof.
  assert (match demo_wire default_settings with
          | Ok eng => is_ok (fst (seed_all (Some 1) ["http://a.example/"] eng)) | Raise _ => false end = true) as H
    by (vm_compute; reflexivity).
  destruct (demo_wire default_settings) as [eng|e]; [|discriminate H]. exists eng.
  destruct (seed_all _ _ eng) as [[[]|e] e1]; [by exists e1|discriminate H].
Qed.

Lemma demo_cancelled : exists db', demo_run demo_db "stopped" db'.
Proof.
  destruct demo_start as (eng & e1 & Ew & Es).
  destruct (wire_spec default_settings demo_args ∅ demo_db eng Ew) as (_ & S1 & S2 & S3 & S4 & S5 & _).
  eexists. exists (tables e1), (tables e1). split; [|split; [by left|reflexivity]].
  apply (body_cancelled fixed_clock alone default_settings demo_args ∅ demo_db eng (mkCrawling e1 [] []) Ew).
  exists (mkCrawling e1 [] []). split; [done|apply rtc_refl].
Qed.

Lemma demo_scope : crawl_scope demo_args demo_db.
Proof. split; [split; cbn; constructor|constructor]. Qed.

Lemma local_crawl_scope_witness : exists db', demo_run demo_db "stopped" db' /\ crawl_scope demo_args db'.
Proof.
  destruct demo_cancelled as [db' Hr]. exists db'. split; [exact Hr|].
  destruct (local_crawl_scope fixed_clock default_settings demo_args ∅ alone demo_db "stopped" db'
    (fun x (H : alone x) => match H with end) demo_scope Hr) as [Hs _]. exact Hs.
Defined.

Lemma local_crawl_status_witness : exists db', demo_run demo_db "stopped" db' /\ status_of 1 db' = Some "stopped".
Proof.
  destruct demo_cancelled as [db' Hr]. exists db'. split; [exact Hr|].
  destruct (local_crawl_status fixed_clock default_settings demo_args ∅ demo_db "stopped" db'
    (fun x => eq_refl) Hr) as (_ & Hs & _). apply Hs. eexists. reflexivity.
Defined.

(** Settings with a robots cache of no entries. *)
Definition uncached (s : Settings) : Settings := {|
  base_url := base_url s; log_level := log_level s; log_json := log_json s; postgres := postgres s; redis := redis s;
  kafka := kafka s; fetch := fetch s;
  politeness := {| respect_robots := true; default_crawl_delay_ms := 1000; robots_cache_size := 0;
                   robots_cache_ttl_seconds := 3600; dns_cache_size := 10000; dns_cache_ttl_seconds := 300 |};
  crawl := crawl s; dedup := dedup s; frontier := frontier s; sharding := sharding s; storage := storage s;
  resilience := resilience s; recrawl := recrawl s |}.

Lemma local_crawl_misconfigured_witness :
  crawl_run fixed_clock alone (uncached default_settings) demo_args ∅ demo_db "failed" (record_status 1 "failed" demo_db) /\
  status_of 1 (record_status 1 "failed" demo_db) = Some "failed".
Proof.
  split; [|reflexivity].
  destruct (local_crawl_misconfigured fixed_clock (uncached default_settings) demo_args ∅ demo_db) as (_ & Hm & _).
  apply Hm; [|split; reflexivity]. left. split; [reflexivity|]. apply Z.le_refl.
Defined.

Lemma execute_crawl_completes_witness :
  exists fuel db', execute_crawl fixed_clock fuel 0 default_settings demo_args ∅ demo_db = Some ("completed", db').
Proof.
  destruct demo_start as (eng & e1 & Ew & Es).
  destruct (execute_crawl_completes fixed_clock default_settings demo_args ∅ 0 demo_db eng e1 Ew Es eq_refl
    (fun ses => eq_refl)) as (fuel & db' & E & _).
  exists fuel, db'. exact E.
Defined.

(** The demo crawl, run: three pages of which two repeat the first. *)
Example demo_crawled :
  match execute_crawl fixed_clock 10 0 default_settings demo_args ∅ demo_db with
  | Some (status, db') => status = "completed" /\ status_of 1 db' = Some "completed" /\
      (fun d => (d_url d, d_depth d, d_in_degree d)) <$> db_documents db' =
        [("http://a.example/", 0, 0); ("http://a.example/b", 1, 1); ("http://a.example/a", 1, 1)]
  | None => False
  end.
Proof. vm_compute. split_and!; reflexivity. Qed.
