(* ===== verification/Schemas.v ===== *)
(** * Requests and responses of the control plane ([crawler/api/schemas.py])

    The pydantic models as records.  A request body that parsed into fields of
    the declared types is a [CrawlBody]; [validate_create] applies the
    defaults and the field constraints.  [create_valid] says what a validated
    request satisfies. *)
From S2P Require Import Prelude PyStr.
Local Open Scope Z_scope.

(** ** [CrawlCreate] *)

(** The fields a body brings ([None]: absent; a null [allowed_domains] is its
    default). *)
Record CrawlBody : Type := mkBodyIn {
  bd_seeds : option (list string); bd_name : option string; bd_max_depth : option Z; bd_max_pages : option Z;
  bd_allowed_domains : option (list string) }.

Record CrawlCreate : Type := mkCreate {
  cc_seeds : list string; cc_name : string; cc_max_depth : Z; cc_max_pages : Z;
  cc_allowed_domains : option (list string) }.

Definition within (lo : Z) (hi : option Z) (n : Z) : bool :=
  (lo <=? n) && match hi with Some h => n <=? h | None => true end.

(** [None] is a validation error. *)
Definition validate_create (b : CrawlBody) : option CrawlCreate :=
  match bd_seeds b with
  | Some (s :: ss) =>
      let depth := default 3 (bd_max_depth b) in
      let pages := default 1000 (bd_max_pages b) in
      if within 0 (Some 20) depth && within 1 None pages
      then Some (mkCreate (s :: ss) (default "crawl" (bd_name b)) depth pages (bd_allowed_domains b))
      else None
  | _ => None
  end.

(** ** Responses *)

Record CrawlOut : Type := mkCrawlOut {
  co_id : Z; co_name : string; co_status : string; co_seeds : list string; co_max_depth : Z; co_max_pages : Z;
  co_seeded : Z }.
Record CrawlActionOut : Type := mkActionOut { ao_id : Z; ao_status : string }.
Record StatusCount : Type := mkStatusCount { sc_status : option Z; sc_count : Z }.
Record StatsOut : Type := mkStatsOut {
  so_documents : Z; so_edges : Z; so_domains : Z; so_near_duplicates : Z; so_by_status : list StatusCount }.
Record DomainOut : Type := mkDomainOut { do_registered_domain : string; do_documents : Z }.
Record LinkOut : Type := mkLinkOut { lo_url : string; lo_anchor : option string }.
Record DocumentOut : Type := mkDocumentOut {
  dout_id : Z; dout_url : string; dout_registered_domain : string; dout_http_status : option Z;
  dout_content_type : option string; dout_title : option string; dout_content_hash : option string;
  dout_simhash : option Z; dout_depth : Z; dout_in_degree : Z; dout_out_degree : Z;
  dout_storage_key : option string; dout_links : list LinkOut }.
Record GraphNode : Type := mkGraphNode { gn_url : string; gn_in_degree : Z }.
Record GraphOut : Type := mkGraphOut { go_top_pages : list GraphNode }.
Record CrawlSummary : Type := mkCrawlSummary {
  cs_id : Z; cs_name : string; cs_status : string; cs_max_depth : Z; cs_max_pages : Z; cs_documents : Z;
  cs_created_at : option string }.
Record DocumentSummary : Type := mkDocumentSummary {
  ds_id : Z; ds_url : string; ds_registered_domain : string; ds_http_status : option Z; ds_title : option string;
  ds_depth : Z; ds_in_degree : Z; ds_out_degree : Z }.
Record DocumentPage : Type := mkDocumentPage {
  dp_total : Z; dp_limit : Z; dp_offset : Z; dp_items : list DocumentSummary }.

(** A request is accepted exactly when it has a seed and its bounds are met, and
    what the service sees is the body with the defaults filled in. *)
Lemma create_valid b req : validate_create b = Some req <->
  bd_seeds b = Some (cc_seeds req) /\ cc_seeds req <> [] /\ cc_name req = default "crawl" (bd_name b) /\
  cc_max_depth req = default 3 (bd_max_depth b) /\ 0 <= cc_max_depth req <= 20 /\
  cc_max_pages req = default 1000 (bd_max_pages b) /\ 1 <= cc_max_pages req /\
  cc_allowed_domains req = bd_allowed_domains b.
Proof.
  unfold validate_create, within. destruct req as [seeds name depth pages al]. cbn [cc_seeds cc_name cc_max_depth cc_max_pages cc_allowed_domains].
  destruct (bd_seeds b) as [[|s ss]|]; [naive_solver| |naive_solver].
  rewrite andb_true_r.
  destruct (Z.leb_spec 0 (default 3 (bd_max_depth b))), (Z.leb_spec (default 3 (bd_max_depth b)) 20),
    (Z.leb_spec 1 (default 1000 (bd_max_pages b))); cbn; naive_solver lia.
Qed.
