(* ===== verification/Migrations.v ===== *)
(** * The schema and its migrations ([migrations/versions/], [storage/orm.py])

    The two revisions as the DDL statements they issue, run on any database
    that does what PostgreSQL documents for them ([Database], with
    [DatabaseLaws]); the tables of [Base.metadata]; the rows the repositories
    insert, and what a table accepts.

    [migrations_roundtrip]: downgrading undoes upgrading;
    [migrated_schema_matches_orm]: what the ORM maps is what the revisions
    create, with the differences listed in [schema_drift];
    [document_row_fits], [crawl_row_fits]: the rows PostgreSQL takes.
    [long_etag_refused] and [long_name_refused] are two it does not take.
    [env_atomic]: a run of the migrations ([migrations/env.py]) is all or
    nothing. *)
From S2P Require Import Prelude PyStr Config Models Storage Schemas.
From Stdlib Require Import Ascii.
Local Open Scope Z_scope.

(** ** Tables *)

Inductive SqlType : Type :=
| Integer | BigInteger | Str (length : nat) | Text | Boolean | DateTimeTz | Json | Jsonb | LargeBinary.
#[export] Instance sql_type_eq_dec : EqDecision SqlType.
Proof. solve_decision. Defined.

(** [ForeignKey("crawl.id", ondelete=...)]. *)
Record ForeignKey : Type := mkForeignKey { fk_table : string; fk_column : string; fk_ondelete : string }.
#[export] Instance foreign_key_eq_dec : EqDecision ForeignKey.
Proof. solve_decision. Defined.

Record Column : Type := mkColumn {
  col_name : string; col_type : SqlType; col_primary_key : bool; col_autoincrement : bool; col_nullable : bool;
  col_server_default : option string; col_foreign_key : option ForeignKey }.

(** Unique constraints and indexes, by name. *)
Record Table : Type := mkTable {
  t_name : string; t_columns : list Column; t_uniques : list (string * list string); t_indexes : list (string * list string) }.

(** [op.create_table], [op.create_index], [op.drop_index], [op.drop_table]. *)
Inductive ddl : Type :=
| CreateTable (t : Table)
| CreateIndex (name table : string) (columns : list string)
| DropIndex (name : string)
| DropTable (name : string).

(** ** [0001_init.py] *)

(** [sa.Column(name, type, nullable=..., server_default=...)]; a column is
    nullable unless it says otherwise, and a primary key is not. *)
Definition column (name : string) (type : SqlType) (nullable : bool) (server_default : option string) : Column :=
  mkColumn name type false false nullable server_default None.
Definition key_column (name : string) (type : SqlType) (autoincrement : bool) : Column :=
  mkColumn name type true autoincrement false None None.
Definition reference (name : string) (type : SqlType) (fk : ForeignKey) (nullable : bool) : Column :=
  mkColumn name type false false nullable None (Some fk).

Definition crawl_table : Table := mkTable "crawl"
  [key_column "id" Integer true;
   column "name" (Str 200) false None;
   column "seeds" Jsonb false None;
   column "status" (Str 20) false (Some "pending");
   column "max_depth" Integer false (Some "3");
   column "max_pages" Integer false (Some "1000");
   column "allowed_domains" Jsonb true None;
   column "created_at" DateTimeTz true (Some "now()");
   column "updated_at" DateTimeTz true (Some "now()")] [] [].

Definition document_table : Table := mkTable "document"
  [key_column "id" BigInteger true;
   column "url" Text false None;
   column "registered_domain" (Str 253) false None;
   column "http_status" Integer true None;
   column "content_type" (Str 120) true None;
   column "content_length" Integer true None;
   column "title" Text true None;
   column "content_hash" (Str 64) true None;
   column "simhash" BigInteger true None;
   column "storage_key" Text true None;
   column "etag" (Str 255) true None;
   column "last_modified" (Str 64) true None;
   column "depth" Integer false (Some "0");
   column "in_degree" Integer false (Some "0");
   column "out_degree" Integer false (Some "0");
   reference "crawl_id" Integer (mkForeignKey "crawl" "id" "SET NULL") true;
   column "first_seen" DateTimeTz true (Some "now()");
   column "last_crawled" DateTimeTz true None]
  [("uq_document_url", ["url"])] [].

Definition link_edge_table : Table := mkTable "link_edge"
  [key_column "id" BigInteger true;
   reference "src_document_id" BigInteger (mkForeignKey "document" "id" "CASCADE") false;
   column "dst_url" Text false None;
   column "anchor_text" Text true None]
  [("uq_edge_src_dst", ["src_document_id"; "dst_url"])] [].

Definition domain_table : Table := mkTable "domain"
  [key_column "registered_domain" (Str 253) false;
   column "robots_txt" Text true None;
   column "crawl_delay_ms" Integer true None;
   column "last_fetched_at" DateTimeTz true None;
   column "allowed" Boolean false (Some "true");
   column "budget_remaining" Integer true None;
   column "pages_crawled" Integer false (Some "0")] [] [].

Definition upgrade_0001 : list ddl :=
  [CreateTable crawl_table;
   CreateIndex "ix_crawl_status" "crawl" ["status"];
   CreateTable document_table;
   CreateIndex "ix_document_registered_domain" "document" ["registered_domain"];
   CreateIndex "ix_document_content_hash" "document" ["content_hash"];
   CreateIndex "ix_document_crawl_id" "document" ["crawl_id"];
   CreateTable link_edge_table;
   CreateIndex "ix_link_edge_src_document_id" "link_edge" ["src_document_id"];
   CreateIndex "ix_link_edge_dst_url" "link_edge" ["dst_url"];
   CreateTable domain_table].
Definition downgrade_0001 : list ddl :=
  [DropTable "link_edge"; DropTable "document"; DropTable "domain"; DropIndex "ix_crawl_status"; DropTable "crawl"].

(** ** [0002_page_body.py] *)

Definition page_body_table : Table := mkTable "page_body"
  [key_column "content_hash" (Str 64) false;
   column "body" LargeBinary false None;
   column "content_type" (Str 120) true None;
   column "size" Integer false (Some "0");
   column "created_at" DateTimeTz true (Some "now()")] [] [].
Definition upgrade_0002 : list ddl := [CreateTable page_body_table].
Definition downgrade_0002 : list ddl := [DropTable "page_body"].

(** The module's [revision] and [down_revision] with its two functions. *)
Record Revision : Type := mkRevision {
  rv_revision : string; rv_down_revision : option string; rv_upgrade : list ddl; rv_downgrade : list ddl }.
Definition init_revision : Revision := mkRevision "0001_init" None upgrade_0001 downgrade_0001.
Definition page_body_revision : Revision := mkRevision "0002_page_body" (Some "0001_init") upgrade_0002 downgrade_0002.

(** [alembic upgrade head] and [alembic downgrade base] follow the chain of
    [down_revision]. *)
Definition revisions : list Revision := [init_revision; page_body_revision].
Fixpoint chained (previous : option string) (revs : list Revision) : bool :=
  match revs with
  | [] => true
  | r :: rest => bool_decide (rv_down_revision r = previous) && chained (Some (rv_revision r)) rest
  end.
Definition upgrade_head : list ddl := revisions ≫= rv_upgrade.
Definition downgrade_base : list ddl := rev revisions ≫= rv_downgrade.

(** ** [storage/orm.py] *)

(** A mapped column: what it puts into the table, and the value SQLAlchemy
    supplies itself when the insert has none ([default=]). *)
Record MappedColumn : Type := mkMapped { mc_column : Column; mc_default : option string }.
Record MappedTable : Type := mkMappedTable {
  mt_name : string; mt_columns : list MappedColumn; mt_uniques : list (string * list string); mt_indexes : list (string * list string) }.

(** [Mapped[T]] is NOT NULL, [Mapped[T | None]] is not. *)
Definition mapped (name : string) (type : SqlType) (nullable : bool) : MappedColumn :=
  mkMapped (column name type nullable None) None.
Definition mapped_default (name : string) (type : SqlType) (d : string) : MappedColumn :=
  mkMapped (column name type false None) (Some d).
Definition mapped_now (name : string) : MappedColumn := mkMapped (column name DateTimeTz false (Some "now()")) None.

Definition Crawl_orm : MappedTable := mkMappedTable "crawl"
  [mkMapped (key_column "id" Integer true) None;
   mapped "name" (Str 200) false;
   mapped_default "seeds" Json "list()";
   mapped_default "status" (Str 20) "pending";
   mapped_default "max_depth" Integer "3";
   mapped_default "max_pages" Integer "1000";
   mapped "allowed_domains" Json true;
   mapped_now "created_at";
   mapped_now "updated_at"] [] [("ix_crawl_status", ["status"])].

Definition Document_orm : MappedTable := mkMappedTable "document"
  [mkMapped (key_column "id" BigInteger true) None;
   mapped "url" Text false;
   mapped "registered_domain" (Str 253) false;
   mapped "http_status" Integer true;
   mapped "content_type" (Str 120) true;
   mapped "content_length" Integer true;
   mapped "title" Text true;
   mapped "content_hash" (Str 64) true;
   mapped "simhash" BigInteger true;
   mapped "storage_key" Text true;
   mapped "etag" (Str 255) true;
   mapped "last_modified" (Str 64) true;
   mapped_default "depth" Integer "0";
   mapped_default "in_degree" Integer "0";
   mapped_default "out_degree" Integer "0";
   mkMapped (reference "crawl_id" Integer (mkForeignKey "crawl" "id" "SET NULL") true) None;
   mapped_now "first_seen";
   mapped "last_crawled" DateTimeTz true]
  [("uq_document_url", ["url"])]
  [("ix_document_registered_domain", ["registered_domain"]); ("ix_document_content_hash", ["content_hash"]);
   ("ix_document_crawl_id", ["crawl_id"])].

Definition LinkEdge_orm : MappedTable := mkMappedTable "link_edge"
  [mkMapped (key_column "id" BigInteger true) None;
   mkMapped (reference "src_document_id" BigInteger (mkForeignKey "document" "id" "CASCADE") false) None;
   mapped "dst_url" Text false;
   mapped "anchor_text" Text true]
  [("uq_edge_src_dst", ["src_document_id"; "dst_url"])]
  [("ix_link_edge_src_document_id", ["src_document_id"]); ("ix_link_edge_dst_url", ["dst_url"])].

Definition PageBody_orm : MappedTable := mkMappedTable "page_body"
  [mkMapped (key_column "content_hash" (Str 64) false) None;
   mapped "body" LargeBinary false;
   mapped "content_type" (Str 120) true;
   mapped_default "size" Integer "0";
   mapped_now "created_at"] [] [].

Definition Domain_orm : MappedTable := mkMappedTable "domain"
  [mkMapped (key_column "registered_domain" (Str 253) false) None;
   mapped "robots_txt" Text true;
   mapped "crawl_delay_ms" Integer true;
   mapped "last_fetched_at" DateTimeTz true;
   mapped_default "allowed" Boolean "true";
   mapped "budget_remaining" Integer true;
   mapped_default "pages_crawled" Integer "0"] [] [].

Definition metadata : list MappedTable := [Crawl_orm; Document_orm; LinkEdge_orm; PageBody_orm; Domain_orm].

(** ** What a database does with a statement *)

(** The tables of a database, by name. *)
Abbreviation catalog := (gmap string Table).

Definition column_names (t : Table) : list string := col_name <$> t_columns t.
Definition references (t : Table) : list string := fk_table <$> omap col_foreign_key (t_columns t).
(** Unique constraints are indexes too; an index name is used once. *)
Definition index_names (t : Table) : list string := (t_uniques t).*1 ++ (t_indexes t).*1.
Definition has_index (n : string) (t : Table) : Prop := n ∈ index_names t.
Definition refers_to (n : string) (t : Table) : Prop := n ∈ references t /\ t_name t <> n.
#[export] Instance has_index_dec n t : Decision (has_index n t).
Proof. unfold has_index. apply _. Defined.
#[export] Instance refers_to_dec n t : Decision (refers_to n t).
Proof. unfold refers_to. apply _. Defined.

Definition add_index (n : string) (columns : list string) (t : Table) : Table :=
  mkTable (t_name t) (t_columns t) (t_uniques t) (t_indexes t ++ [(n, columns)]).
Definition remove_index (n : string) (t : Table) : Table :=
  mkTable (t_name t) (t_columns t) (t_uniques t) (filter (fun ix => ix.1 <> n) (t_indexes t)).

Definition sql_error (what : string) {A} : result A := Raise (OtherError what).
(** CREATE TABLE, CREATE INDEX, DROP INDEX and DROP TABLE (RESTRICT), as
    documented by PostgreSQL. *)
Definition statement (st : ddl) (c : catalog) : result catalog :=
  match st with
  | CreateTable t =>
      if bool_decide (is_Some (c !! t_name t)) then sql_error "DuplicateTable"
      else if negb (forallb (fun n => bool_decide (n = t_name t \/ is_Some (c !! n))) (references t)) then sql_error "UndefinedTable"
      else if existsb (fun n => bool_decide (map_Exists (fun _ => has_index n) c)) (index_names t) then sql_error "DuplicateTable"
      else Ok (<[t_name t := t]> c)
  | CreateIndex n table columns =>
      match c !! table with
      | None => sql_error "UndefinedTable"
      | Some t =>
          if negb (forallb (fun col => bool_decide (col ∈ column_names t)) columns) then sql_error "UndefinedColumn"
          else if bool_decide (map_Exists (fun _ => has_index n) c) then sql_error "DuplicateTable"
          else Ok (<[table := add_index n columns t]> c)
      end
  | DropIndex n =>
      if bool_decide (map_Exists (fun _ t => n ∈ (t_indexes t).*1) c) then Ok (remove_index n <$> c) else sql_error "UndefinedObject"
  | DropTable n =>
      if bool_decide (c !! n = None) then sql_error "UndefinedTable"
      else if bool_decide (map_Exists (fun _ => refers_to n) c) then sql_error "DependentObjectsStillExist"
      else Ok (delete n c)
  end.

(** The connection alembic runs the statements on. *)
Class Database (S : Type) := {
  tables : S -> catalog;
  execute : ddl -> act S unit }.
Class DatabaseLaws (S : Type) `{Database S} :=
  execute_spec (st : ddl) (s : S) :
    match statement st (tables s), execute st s with
    | Ok c, (Ok _, s') => tables s' = c
    | Raise _, (Raise _, _) => True
    | _, _ => False
    end.

Fixpoint run_ddl {S} `{Database S} (sts : list ddl) : act S unit :=
  match sts with
  | [] => aret tt
  | st :: rest => let! _ := execute st in run_ddl rest
  end.

(** A script on the catalog alone. *)
Fixpoint script (sts : list ddl) (c : catalog) : result catalog :=
  match sts with
  | [] => Ok c
  | st :: rest => let* c := statement st c in script rest c
  end.

Lemma run_ddl_spec {S} `{DatabaseLaws S} sts (s : S) c : script sts (tables s) = Ok c ->
  exists s', run_ddl sts s = (Ok tt, s') /\ tables s' = c.
Proof.
  revert s. induction sts as [|st sts IH]; intros s; cbn [script run_ddl]; [intros [= <-]; by exists s|].
  pose proof (execute_spec st s) as Hx. unfold abind. destruct (statement st (tables s)) as [c1|e]; [|done].
  destruct (execute st s) as [[[]|e] s1]; [|done]. cbn [rbind]. rewrite <- Hx. apply IH.
Qed.

Lemma run_ddl_raises {S} `{DatabaseLaws S} sts (s : S) e : script sts (tables s) = Raise e -> is_ok (fst (run_ddl sts s)) = false.
Proof.
  revert s. induction sts as [|st sts IH]; intros s; cbn [script run_ddl]; [done|].
  pose proof (execute_spec st s) as Hx. unfold abind. destruct (statement st (tables s)) as [c1|e1]; cbn [rbind].
  - destruct (execute st s) as [[[]|e2] s1]; [|done]. rewrite <- Hx. apply IH.
  - by destruct (execute st s) as [[u|e2] s1].
Qed.

(** ** Next to the tables of others

    [on ts c]: the tables [ts], in a database that already has those of [c]. *)
Fixpoint on (ts : list Table) (c : catalog) : catalog :=
  match ts with [] => c | t :: ts => <[t_name t := t]> (on ts c) end.
Definition find_table (n : string) (ts : list Table) : option Table := List.find (fun t => bool_decide (t_name t = n)) ts.

(** The same statements on a list of tables. *)
Definition statement_on (st : ddl) (ts : list Table) : result (list Table) :=
  match st with
  | CreateTable t =>
      if bool_decide (is_Some (find_table (t_name t) ts)) then sql_error "DuplicateTable"
      else if negb (forallb (fun n => bool_decide (n = t_name t \/ is_Some (find_table n ts))) (references t)) then sql_error "UndefinedTable"
      else if existsb (fun n => existsb (fun t => bool_decide (has_index n t)) ts) (index_names t) then sql_error "DuplicateTable"
      else Ok (t :: ts)
  | CreateIndex n table columns =>
      match find_table table ts with
      | None => sql_error "UndefinedTable"
      | Some t =>
          if negb (forallb (fun col => bool_decide (col ∈ column_names t)) columns) then sql_error "UndefinedColumn"
          else if existsb (fun t => bool_decide (has_index n t)) ts then sql_error "DuplicateTable"
          else Ok ((fun t => if bool_decide (t_name t = table) then add_index n columns t else t) <$> ts)
      end
  | DropIndex n =>
      if existsb (fun t => bool_decide (n ∈ (t_indexes t).*1)) ts then Ok (remove_index n <$> ts) else sql_error "UndefinedObject"
  | DropTable n =>
      if bool_decide (find_table n ts = None) then sql_error "UndefinedTable"
      else if existsb (fun t => bool_decide (refers_to n t)) ts then sql_error "DependentObjectsStillExist"
      else Ok (filter (fun t => t_name t <> n) ts)
  end.

(** Names that the tables of [c] neither have nor mention. *)
Definition unused (n : string) (c : catalog) : Prop :=
  c !! n = None /\ map_Forall (fun _ t => n ∉ index_names t /\ n ∉ references t) c.
Definition mentioned (st : ddl) : list string :=
  match st with
  | CreateTable t => t_name t :: references t ++ index_names t
  | CreateIndex n table _ => [n; table]
  | DropIndex n => [n]
  | DropTable n => [n]
  end.

Lemma forallb_ext_in {A} (f g : A -> bool) l : (forall x, x ∈ l -> f x = g x) -> forallb f l = forallb g l.
Proof. induction l as [|x l IH]; intros Hx; [done|]. cbn. rewrite Hx, IH; [done|set_solver|set_solver]. Qed.
Lemma existsb_ext_in {A} (f g : A -> bool) l : (forall x, x ∈ l -> f x = g x) -> existsb f l = existsb g l.
Proof. induction l as [|x l IH]; intros Hx; [done|]. cbn. rewrite Hx, IH; [done|set_solver|set_solver]. Qed.

Lemma filter_all {A} (P : A -> Prop) `{forall x, Decision (P x)} (l : list A) : (forall x, x ∈ l -> P x) -> filter P l = l.
Proof.
  induction l as [|x l IH]; intros Hp; [done|]. rewrite filter_cons_True by (apply Hp; by left). f_equal. apply IH. set_solver.
Qed.
Lemma NoDup_fmap_filter {A B} (f : A -> B) (P : A -> Prop) `{forall x, Decision (P x)} (l : list A) : NoDup (f <$> l) -> NoDup (f <$> filter P l).
Proof.
  induction l as [|x l IH]; intros Hn; [done|]. rewrite fmap_cons, NoDup_cons in Hn. destruct Hn as [Hx Hn].
  rewrite filter_cons. case_decide; [|auto]. rewrite fmap_cons, NoDup_cons. split; [|auto].
  intros (y & E & [_ Hy]%list_elem_of_filter)%list_elem_of_fmap. apply Hx. rewrite E. apply list_elem_of_fmap. by exists y.
Qed.
Lemma same_names f (ts : list Table) : (forall t, t_name (f t) = t_name t) -> t_name <$> (f <$> ts) = t_name <$> ts.
Proof. intros Hf. rewrite <- list_fmap_compose. apply list_fmap_ext. intros i t _. apply Hf. Qed.

Section OnTables.
Variable c : catalog.

Lemma on_lookup n ts : c !! n = None -> on ts c !! n = find_table n ts.
Proof.
  intros Hn. induction ts as [|t ts IH]; [done|]. cbn [on find_table List.find]. case_bool_decide as E; [by rewrite E, lookup_insert_eq|].
  by rewrite lookup_insert_ne.
Qed.
Lemma find_table_None n ts : find_table n ts = None <-> n ∉ t_name <$> ts.
Proof.
  induction ts as [|t ts IH]; cbn; [set_solver|]. case_bool_decide; [set_solver|]. rewrite IH. set_solver.
Qed.
(** A property of some table of [on ts c] that no table of [c] has. *)
Lemma on_exists (P : Table -> Prop) ts : (forall n, n ∈ t_name <$> ts -> c !! n = None) -> NoDup (t_name <$> ts) ->
  map_Forall (fun _ t => ~ P t) c -> map_Exists (fun _ => P) (on ts c) <-> Exists P ts.
Proof.
  intros Hc Hnd Hp. induction ts as [|t ts IH].
  - split; [|by rewrite Exists_nil]. intros (n & t & Ht & HPt). by destruct (Hp n t Ht).
  - cbn in Hnd. apply NoDup_cons in Hnd as [Hn Hnd]. cbn [on].
    rewrite map_Exists_insert, Exists_cons, IH; [done|set_solver|done|].
    rewrite on_lookup by set_solver. by apply find_table_None.
Qed.
Lemma existsb_Exists (P : Table -> Prop) `{forall t, Decision (P t)} ts : existsb (fun t => bool_decide (P t)) ts = bool_decide (Exists P ts).
Proof.
  induction ts as [|t ts IH]; cbn [existsb]; [symmetry; apply bool_decide_eq_false_2; by intros Hx; inversion Hx|].
  rewrite IH. destruct (decide (P t)) as [Ht|Ht].
  - rewrite (bool_decide_eq_true_2 (P t)) by done. symmetry. apply bool_decide_eq_true_2. by constructor.
  - rewrite (bool_decide_eq_false_2 (P t)) by done. apply bool_decide_ext. rewrite Exists_cons. naive_solver.
Qed.

(** Changing, cleaning and dropping a table of [ts]. *)
Definition update (table : string) (f : Table -> Table) (t : Table) : Table := if bool_decide (t_name t = table) then f t else t.
Lemma on_update table f ts t : NoDup (t_name <$> ts) -> find_table table ts = Some t ->
  <[table := f t]> (on ts c) = on (update table f <$> ts) c \/ t_name (f t) <> t_name t.
Proof.
  intros Hnd Ef. destruct (decide (t_name (f t) = t_name t)) as [En|]; [left|by right].
  induction ts as [|t0 ts IH]; [done|]. rewrite fmap_cons in Hnd. rewrite fmap_cons. apply NoDup_cons in Hnd as [Hn Hnd].
  unfold find_table in Ef. cbn [List.find] in Ef. cbn [on]. destruct (decide (t_name t0 = table)) as [<-|E].
  - rewrite bool_decide_eq_true_2 in Ef by done. injection Ef as ->.
    assert (update (t_name t) f t = f t) as -> by (unfold update; by rewrite bool_decide_eq_true_2).
    rewrite En, insert_insert_eq. f_equal. f_equal. rewrite <- (list_fmap_id ts) at 1. apply list_fmap_ext.
    intros i x Hx. unfold update. rewrite bool_decide_eq_false_2; [done|].
    intros Ex. apply Hn. rewrite <- Ex. apply list_elem_of_fmap. exists x. split; [done|]. by eapply list_elem_of_lookup_2.
  - rewrite bool_decide_eq_false_2 in Ef by done.
    assert (update table f t0 = t0) as -> by (unfold update; by rewrite bool_decide_eq_false_2).
    rewrite insert_insert_ne, IH; done.
Qed.

Lemma on_remove_index n ts : map_Forall (fun _ t => n ∉ index_names t) c -> remove_index n <$> on ts c = on (remove_index n <$> ts) c.
Proof.
  intros Hn. induction ts as [|t ts IH]; cbn [on fmap list_fmap].
  - rewrite <- (map_fmap_id c) at 2. apply map_fmap_ext. intros k t Ht. destruct t as [nm cols us ixs]. unfold remove_index. cbn.
    f_equal. apply filter_all. intros ix Hix <-. apply (Hn k _ Ht). unfold index_names. cbn. set_solver.
  - by rewrite fmap_insert, IH.
Qed.

Lemma on_drop n ts : c !! n = None -> delete n (on ts c) = on (filter (fun t => t_name t <> n) ts) c.
Proof.
  intros Hn. induction ts as [|t ts IH]; cbn [on]; [by apply delete_id|]. rewrite filter_cons. case_decide as E.
  - cbn [on]. by rewrite delete_insert_ne, IH.
  - by rewrite E, delete_insert_eq, IH.
Qed.

(** A statement whose names are unused in [c] does to [on ts c] what it does to
    [ts]. *)
Lemma statement_on_spec st ts : NoDup (t_name <$> ts) -> (forall n, n ∈ t_name <$> ts -> c !! n = None) ->
  (forall n, n ∈ mentioned st -> unused n c) ->
  statement st (on ts c) = (fun ts => on ts c) <$> statement_on st ts /\
  forall ts', statement_on st ts = Ok ts' -> NoDup (t_name <$> ts') /\ (forall n, n ∈ t_name <$> ts' -> c !! n = None).
Proof.
  intros Hnd Hc Hm. assert (forall n, n ∈ mentioned st -> on ts c !! n = find_table n ts) as Hl.
  { intros n Hn. by apply on_lookup, Hm. }
  assert (forall n, n ∈ mentioned st -> bool_decide (map_Exists (fun _ => has_index n) (on ts c)) =
    existsb (fun t => bool_decide (has_index n t)) ts) as Hi.
  { intros n Hn. rewrite existsb_Exists. apply bool_decide_ext, on_exists; [done..|].
    eapply map_Forall_impl; [by apply Hm|]. intros _ t [? _]. done. }
  destruct st as [t|n table cols|n|n]; cbn [statement statement_on mentioned] in *.
  - rewrite Hl by set_solver.
    assert (forallb (fun n => bool_decide (n = t_name t \/ is_Some (on ts c !! n))) (references t) =
            forallb (fun n => bool_decide (n = t_name t \/ is_Some (find_table n ts))) (references t)) as ->.
    { apply forallb_ext_in. intros n Hn. rewrite Hl; [done|]. set_solver. }
    assert (existsb (fun n => bool_decide (map_Exists (fun _ => has_index n) (on ts c))) (index_names t) =
            existsb (fun n => existsb (fun t => bool_decide (has_index n t)) ts) (index_names t)) as ->.
    { apply existsb_ext_in. intros n Hn. apply Hi. set_solver. }
    case_bool_decide as Hs; [done|]. destruct (negb _); [done|]. destruct (existsb _ _); [done|].
    split; [done|]. intros ts' [= <-]. rewrite fmap_cons. split.
    + constructor; [|done]. apply find_table_None. destruct (find_table (t_name t) ts); [by destruct Hs|done].
    + intros n [->|Hn]%elem_of_cons; [apply Hm; by left|by apply Hc].
  - rewrite Hl, Hi by set_solver. destruct (find_table table ts) as [t|] eqn:Ef; [|done].
    destruct (negb _); [done|]. destruct (existsb _ _); [done|].
    destruct (on_update table (add_index n cols) ts t Hnd Ef) as [E|[]]; [|done]. split; [cbn; by rewrite E|].
    intros ts' [= <-]. rewrite (same_names (update table (add_index n cols))); [by split|].
    intros x. unfold update. by case_bool_decide.
  - assert (map_Exists (fun _ t => n ∈ (t_indexes t).*1) (on ts c) <-> Exists (fun t => n ∈ (t_indexes t).*1) ts) as Hx.
    { apply (on_exists (fun t => n ∈ (t_indexes t).*1)); [done..|]. eapply map_Forall_impl; [by apply Hm; left|].
      intros _ t [Hni _] Ht. apply Hni. unfold index_names. set_solver. }
    rewrite existsb_Exists, (bool_decide_ext _ _ Hx).
    case_bool_decide; [|done]. split; [cbn; rewrite on_remove_index; [done|]|].
    + eapply map_Forall_impl; [by apply Hm; left|]. by intros ? ? [? _].
    + intros ts' [= <-]. rewrite (same_names (remove_index n)); [by split|done].
  - rewrite Hl by set_solver. case_bool_decide; [done|].
    assert (map_Exists (fun _ => refers_to n) (on ts c) <-> Exists (refers_to n) ts) as Hx.
    { apply on_exists; [done..|]. eapply map_Forall_impl; [by apply Hm; left|]. intros _ t [_ Hnr] [Hr _]. done. }
    rewrite existsb_Exists, (bool_decide_ext _ _ Hx).
    case_bool_decide; [done|]. split; [cbn; rewrite on_drop; [done|by apply Hm; left]|].
    intros ts' [= <-]. split; [by apply NoDup_fmap_filter|].
    intros m (t & -> & [_ Ht]%list_elem_of_filter)%list_elem_of_fmap. apply Hc, list_elem_of_fmap. by exists t.
Qed.
End OnTables.

Fixpoint script_on (sts : list ddl) (ts : list Table) : result (list Table) :=
  match sts with
  | [] => Ok ts
  | st :: rest => let* ts := statement_on st ts in script_on rest ts
  end.

Lemma script_on_spec sts ts ts' c : NoDup (t_name <$> ts) -> (forall n, n ∈ t_name <$> ts -> c !! n = None) ->
  (forall n, n ∈ sts ≫= mentioned -> unused n c) -> script_on sts ts = Ok ts' -> script sts (on ts c) = Ok (on ts' c).
Proof.
  revert ts. induction sts as [|st sts IH]; intros ts Hnd Hc Hm; [by intros [= <-]|]. rewrite bind_cons in Hm.
  destruct (statement_on_spec c st ts Hnd Hc) as [E Hk]; [set_solver|]. cbn [script script_on]. rewrite E.
  intros (ts1 & E1 & E2)%rbind_Ok. rewrite E1. cbn [fmap result_fmap rbind]. destruct (Hk ts1 E1) as [Hnd1 Hc1].
  apply IH; [done|done|set_solver|done].
Qed.

(** ** The two revisions *)

Definition migrated : list Table := match script_on upgrade_head [] with Ok ts => ts | Raise _ => [] end.
Definition migrated_table (n : string) : Table := default crawl_table (find_table n migrated).
(** Every name the two scripts mention. *)
Definition script_names : list string := (upgrade_head ++ downgrade_base) ≫= mentioned.

(** Where the two descriptions of a column differ; [None]: in anything else. *)
Inductive difference : Type := JsonAsJsonb | DefaultInDatabase | MayBeNull.
Definition column_drift (m : Column) (o : MappedColumn) : option (list difference) :=
  let c := mc_column o in
  if bool_decide (col_name m = col_name c) && bool_decide (col_primary_key m = col_primary_key c) &&
     bool_decide (col_autoincrement m = col_autoincrement c) && bool_decide (col_foreign_key m = col_foreign_key c) then
    type ← (if bool_decide (col_type m = col_type c) then Some []
            else if bool_decide (col_type m = Jsonb /\ col_type c = Json) then Some [JsonAsJsonb] else None);
    dflt ← (if bool_decide (col_server_default m = col_server_default c) then Some []
            else if bool_decide (is_Some (col_server_default m) /\ col_server_default c = None /\ col_server_default m = mc_default o)
            then Some [DefaultInDatabase] else None);
    null ← (if bool_decide (col_nullable m = col_nullable c) then Some []
            else if col_nullable m then Some [MayBeNull] else None);
    Some (type ++ dflt ++ null)
  else None.
Fixpoint columns_drift (ms : list Column) (os : list MappedColumn) : option (list (string * list difference)) :=
  match ms, os with
  | [], [] => Some []
  | m :: ms, o :: os =>
      d ← column_drift m o; rest ← columns_drift ms os;
      Some (match d with [] => rest | _ => (col_name m, d) :: rest end)
  | _, _ => None
  end.
Definition table_drift (t : Table) (o : MappedTable) : option (list (string * list difference)) :=
  if bool_decide (t_name t = mt_name o) && bool_decide (t_uniques t = mt_uniques o) && bool_decide (t_indexes t = mt_indexes o)
  then columns_drift (t_columns t) (mt_columns o) else None.
Definition schema_drift (table : string) : list (string * list difference) :=
  if bool_decide (table = "crawl") then
    [("seeds", [JsonAsJsonb]); ("status", [DefaultInDatabase]); ("max_depth", [DefaultInDatabase]); ("max_pages", [DefaultInDatabase]);
     ("allowed_domains", [JsonAsJsonb]); ("created_at", [MayBeNull]); ("updated_at", [MayBeNull])]
  else if bool_decide (table = "document") then
    [("depth", [DefaultInDatabase]); ("in_degree", [DefaultInDatabase]); ("out_degree", [DefaultInDatabase]); ("first_seen", [MayBeNull])]
  else if bool_decide (table = "page_body") then [("size", [DefaultInDatabase]); ("created_at", [MayBeNull])]
  else if bool_decide (table = "domain") then [("allowed", [DefaultInDatabase]); ("pages_crawled", [DefaultInDatabase])]
  else [].

(** The revisions form one chain, from the empty schema. *)
Lemma revisions_chained : chained None revisions = true.
Proof. reflexivity. Qed.

Section OnDatabase.
Context {S : Type} `{DatabaseLaws S}.

Lemma upgrade_spec (s : S) : (forall n, n ∈ script_names -> unused n (tables s)) ->
  exists s', run_ddl upgrade_head s = (Ok tt, s') /\ tables s' = on migrated (tables s).
Proof.
  intros Hu. apply run_ddl_spec. apply (script_on_spec upgrade_head []); [by constructor|by intros ? ?%elem_of_nil| |by vm_compute].
  intros n Hn. apply Hu. unfold script_names. rewrite bind_app. apply elem_of_app. by left.
Qed.

(** C19: Downgrading undoes upgrading.  In a database that has no table or index
    of the crawler's names and no table that refers to one, upgrading to the
    head succeeds and creates exactly the migrated tables; downgrading to the
    base succeeds from there, no table being dropped while another refers to
    it, and leaves the tables there were. *)
Theorem migrations_roundtrip (s : S) : (forall n, n ∈ script_names -> unused n (tables s)) ->
  exists s1 s2, run_ddl upgrade_head s = (Ok tt, s1) /\ run_ddl downgrade_base s1 = (Ok tt, s2) /\
    (forall n, tables s1 !! n = match find_table n migrated with Some t => Some t | None => tables s !! n end) /\
    tables s2 = tables s.
Proof.
  intros Hu. destruct (upgrade_spec s Hu) as (s1 & E1 & Et1).
  assert (forall n, n ∈ t_name <$> migrated -> tables s !! n = None) as Hc.
  { intros n Hn. apply Hu. clear -Hn. assert (forallb (fun n => bool_decide (n ∈ script_names)) (t_name <$> migrated) = true) as Hall by by vm_compute.
    rewrite forallb_forall in Hall. apply (bool_decide_eq_true (n ∈ script_names)), Hall. by apply list_elem_of_In. }
  destruct (run_ddl_spec downgrade_base s1 (tables s)) as (s2 & E2 & Et2).
  { rewrite Et1. apply (script_on_spec downgrade_base migrated []); [|done| |by vm_compute].
    - by apply (bool_decide_eq_true (NoDup (t_name <$> migrated))).
    - intros n Hn. apply Hu. unfold script_names. rewrite bind_app. apply elem_of_app. by right. }
  exists s1, s2. split_and!; [done..| |done]. intros n. rewrite Et1.
  destruct (find_table n migrated) as [t|] eqn:Ef.
  - rewrite on_lookup; [done|]. apply Hc. destruct (decide (n ∈ t_name <$> migrated)) as [?|Hn]; [done|].
    apply find_table_None in Hn. congruence.
  - clear -Ef. induction migrated as [|t ts IH]; [done|]. unfold find_table in Ef. cbn [List.find] in Ef. cbn [on].
    case_bool_decide; [done|]. by rewrite lookup_insert_ne, IH.
Qed.

(** The revisions create the schema that the ORM maps.  After an upgrade
    every mapped table exists with the mapped columns in their order, the same
    keys, references, unique constraints and indexes, and types and
    nullability that agree except in the columns of [schema_drift]: a JSONB
    column where the mapping says JSON, a default in the database where the
    mapping has one in Python, and time stamps that may be NULL where the
    mapping says they are not. *)
Theorem migrated_schema_matches_orm (s : S) : (forall n, n ∈ script_names -> unused n (tables s)) ->
  exists s', run_ddl upgrade_head s = (Ok tt, s') /\
    forall o, o ∈ metadata -> exists t, tables s' !! mt_name o = Some t /\ table_drift t o = Some (schema_drift (mt_name o)).
Proof.
  intros Hu. destruct (upgrade_spec s Hu) as (s' & E & Et). exists s'. split; [done|]. intros o Ho.
  assert (tables s' !! mt_name o = Some (migrated_table (mt_name o)) /\
    table_drift (migrated_table (mt_name o)) o = Some (schema_drift (mt_name o))) as [? ?]; [|by eexists].
  rewrite Et, on_lookup; [|apply Hu]; repeat (apply elem_of_cons in Ho as [->|Ho]; [vm_compute|]); try (by apply elem_of_nil in Ho);
    try (by split); apply (bool_decide_eq_true (_ ∈ _)); by vm_compute.
Qed.

End OnDatabase.

(** ** Rows *)

Inductive value : Type := VNull | VInt (z : Z) | VText (s : string) | VBool (b : bool) | VTime | VJson | VBytes (s : string).
(** A value of the right kind and within the column's limits. *)
Definition value_fits (t : SqlType) (v : value) : bool :=
  match t, v with
  | Integer, VInt z => (- 2 ^ 31 <=? z) && (z <? 2 ^ 31)
  | BigInteger, VInt z => (- 2 ^ 63 <=? z) && (z <? 2 ^ 63)
  | Str n, VText s => (String.length s <=? n)%nat
  | Text, VText _ | Boolean, VBool _ | DateTimeTz, VTime | Json, VJson | Jsonb, VJson | LargeBinary, VBytes _ => true
  | _, _ => false
  end.
(** The columns an INSERT names, with their values. *)
Abbreviation row := (list (string * value)).
Definition given (n : string) (r : row) : option value := snd <$> List.find (fun nv => bool_decide (fst nv = n)) r.
Definition column_fits (r : row) (c : Column) : bool :=
  match given (col_name c) r with
  | Some VNull => col_nullable c
  | Some v => value_fits (col_type c) v
  | None => col_nullable c || col_autoincrement c || bool_decide (is_Some (col_server_default c))
  end.
Definition row_fits (t : Table) (r : row) : bool :=
  forallb (column_fits r) (t_columns t) && forallb (fun nv => bool_decide (fst nv ∈ column_names t)) r.

Definition opt_int (z : option Z) : value := match z with Some z => VInt z | None => VNull end.
Definition opt_text (s : option string) : value := match s with Some s => VText s | None => VNull end.

(** [upsert_document]'s [values], with the default SQLAlchemy adds. *)
Definition document_row (r : PageRecord) : row :=
  [("url", VText (pr_url r)); ("registered_domain", VText (pr_registered_domain r)); ("http_status", opt_int (pr_http_status r));
   ("content_type", opt_text (pr_content_type r)); ("content_length", opt_int (pr_content_length r)); ("title", opt_text (pr_title r));
   ("content_hash", opt_text (pr_content_hash r)); ("simhash", opt_int (to_signed64 (pr_simhash r)));
   ("storage_key", opt_text (pr_storage_key r)); ("etag", opt_text (pr_etag r)); ("last_modified", opt_text (pr_last_modified r));
   ("depth", VInt (pr_depth r)); ("crawl_id", opt_int (pr_crawl_id r)); ("out_degree", VInt (Z.of_nat (length (pr_links r))));
   ("last_crawled", VTime); ("in_degree", VInt 0)].
(** The rows of [add_link_edges]. *)
Definition edge_row (src : Z) (l : Link) : row :=
  [("src_document_id", VInt src); ("dst_url", VText (link_url l)); ("anchor_text", opt_text (link_anchor l))].
(** The [Crawl] that [create_crawl] adds. *)
Definition crawl_row (req : CrawlCreate) (status : string) : row :=
  [("name", VText (cc_name req)); ("seeds", VJson); ("status", VText status); ("max_depth", VInt (cc_max_depth req));
   ("max_pages", VInt (cc_max_pages req)); ("allowed_domains", match cc_allowed_domains req with Some _ => VJson | None => VNull end)].

Definition int32 (z : Z) : Prop := - 2 ^ 31 <= z < 2 ^ 31.
Definition opt_within (n : nat) (s : option string) : Prop := match s with Some s => (String.length s <= n)%nat | None => True end.
Definition opt_int32 (z : option Z) : Prop := match z with Some z => int32 z | None => True end.

Lemma opt_int_fits z : value_fits Integer (VInt z) = true <-> int32 z.
Proof. unfold int32. cbn. rewrite andb_true_iff, Z.leb_le, Z.ltb_lt. lia. Qed.
Lemma signed64_fits v : match to_signed64 v with Some s => value_fits BigInteger (VInt s) = true | None => True end.
Proof.
  destruct v as [v|]; [|done]. unfold to_signed64. cbn [value_fits]. rewrite andb_true_iff, Z.leb_le, Z.ltb_lt.
  assert (0 <= Z.land v (2 ^ 64 - 1) < 2 ^ 64) as Hl.
  { change (2 ^ 64 - 1) with (Z.ones 64). rewrite Z.land_ones by lia. apply Z.mod_pos_bound. lia. }
  destruct (Z.leb_spec (2 ^ 63) (Z.land v (2 ^ 64 - 1))); lia.
Qed.

(** A nullable column. *)
Definition null_or_fits (t : SqlType) (v : value) : bool := match v with VNull => true | v => value_fits t v end.
Lemma null_or_text n s : null_or_fits (Str n) (opt_text s) = true <-> opt_within n s.
Proof. destruct s as [s|]; cbn; [apply Nat.leb_le|done]. Qed.
Lemma null_or_int z : null_or_fits Integer (opt_int z) = true <-> opt_int32 z.
Proof. destruct z as [z|]; [apply opt_int_fits|done]. Qed.

(** The checks that are left of a document's row. *)
Lemma document_row_checks r : row_fits (migrated_table "document") (document_row r) =
  forallb id [value_fits (Str 253) (VText (pr_registered_domain r)); null_or_fits Integer (opt_int (pr_http_status r));
    null_or_fits (Str 120) (opt_text (pr_content_type r)); null_or_fits Integer (opt_int (pr_content_length r));
    null_or_fits Text (opt_text (pr_title r)); null_or_fits (Str 64) (opt_text (pr_content_hash r));
    null_or_fits BigInteger (opt_int (to_signed64 (pr_simhash r))); null_or_fits Text (opt_text (pr_storage_key r));
    null_or_fits (Str 255) (opt_text (pr_etag r)); null_or_fits (Str 64) (opt_text (pr_last_modified r));
    value_fits Integer (VInt (pr_depth r)); value_fits Integer (VInt (Z.of_nat (length (pr_links r))));
    null_or_fits Integer (opt_int (pr_crawl_id r))].
Proof.
  replace (migrated_table "document") with (add_index "ix_document_crawl_id" ["crawl_id"] (add_index "ix_document_content_hash" ["content_hash"]
    (add_index "ix_document_registered_domain" ["registered_domain"] document_table))) by (vm_compute; reflexivity).
  unfold row_fits. rewrite andb_comm. reflexivity.
Qed.

(** Which pages PostgreSQL takes.  The row of a saved page is accepted by
    the migrated [document] table exactly when its registered domain, content
    type, content hash and validators are no longer than their columns and its
    numbers fit 32 bits; the fingerprint always fits its BIGINT. *)
Theorem document_row_fits r : row_fits (migrated_table "document") (document_row r) = true <->
  (String.length (pr_registered_domain r) <= 253)%nat /\ opt_within 120 (pr_content_type r) /\ opt_within 64 (pr_content_hash r) /\
  opt_within 255 (pr_etag r) /\ opt_within 64 (pr_last_modified r) /\
  opt_int32 (pr_http_status r) /\ opt_int32 (pr_content_length r) /\ int32 (pr_depth r) /\ int32 (Z.of_nat (length (pr_links r))) /\
  opt_int32 (pr_crawl_id r).
Proof.
  rewrite document_row_checks. cbn [forallb]. unfold id. rewrite !andb_true_iff, !null_or_text, !null_or_int, !opt_int_fits.
  assert (null_or_fits BigInteger (opt_int (to_signed64 (pr_simhash r))) = true) as ->.
  { pose proof (signed64_fits (pr_simhash r)) as Hs. by destruct (to_signed64 (pr_simhash r)). }
  assert (forall s, null_or_fits Text (opt_text s) = true) as Htext by by intros [s|].
  rewrite !Htext. cbn [value_fits]. rewrite Nat.leb_le. tauto.
Qed.

(** Every edge of a page is accepted. *)
Lemma edge_row_fits src l : row_fits (migrated_table "link_edge") (edge_row src l) = true <-> - 2 ^ 63 <= src < 2 ^ 63.
Proof.
  transitivity (value_fits BigInteger (VInt src) = true).
  - replace (migrated_table "link_edge") with (add_index "ix_link_edge_dst_url" ["dst_url"]
      (add_index "ix_link_edge_src_document_id" ["src_document_id"] link_edge_table)) by (vm_compute; reflexivity).
    transitivity (value_fits BigInteger (VInt src) && (null_or_fits Text (opt_text (link_anchor l)) && true) && true = true); [done|].
    destruct (link_anchor l); cbn [null_or_fits opt_text value_fits andb]; by rewrite !andb_true_r.
  - cbn [value_fits]. rewrite andb_true_iff, Z.leb_le, Z.ltb_lt. lia.
Qed.

(** Which requests PostgreSQL takes.  The row of a crawl whose request
    passed validation is accepted by the migrated [crawl] table exactly when
    its name has at most 200 characters and [max_pages] is below 2^31: the API
    bounds neither. *)
Theorem crawl_row_fits b req status : validate_create b = Some req -> status ∈ ["failed"; "running"] ->
  row_fits (migrated_table "crawl") (crawl_row req status) = true <->
    (String.length (cc_name req) <= 200)%nat /\ cc_max_pages req < 2 ^ 31.
Proof.
  intros (_ & _ & _ & _ & Hd & _ & Hp & _)%create_valid Hs.
  transitivity ((String.length (cc_name req) <=? 200)%nat && (value_fits (Str 20) (VText status) && (value_fits Integer (VInt (cc_max_depth req)) &&
    (value_fits Integer (VInt (cc_max_pages req)) && (match cc_allowed_domains req with Some _ => true | None => true end && true)))) = true).
  { replace (migrated_table "crawl") with (add_index "ix_crawl_status" ["status"] crawl_table) by (vm_compute; reflexivity).
    unfold row_fits. rewrite andb_comm. by destruct req as [? ? ? ? [?|]]. }
  assert (value_fits (Str 20) (VText status) = true) as ->.
  { apply elem_of_cons in Hs as [->|Hs]; [done|]. by apply list_elem_of_singleton in Hs as ->. }
  assert (value_fits Integer (VInt (cc_max_depth req)) = true) as -> by (apply opt_int_fits; unfold int32; lia).
  rewrite !andb_true_iff, Nat.leb_le, opt_int_fits. unfold int32. destruct (cc_allowed_domains req); intuition lia.
Qed.

(** ** [env.py] *)

(** [ConfigParser.set] refuses a value with a percent sign that is neither
    doubled nor the start of a reference [%(name)s]. *)
Fixpoint drop_doubled (s : string) : string :=
  match s with
  | String "%"%char (String "%"%char s) => drop_doubled s
  | String c s => String c (drop_doubled s)
  | EmptyString => EmptyString
  end.
(** What follows a reference at the start of [s]. *)
Definition after_reference (s : string) : option string :=
  match s with
  | String "%"%char (String "("%char s) =>
      match break (is_char ")") s with
      | (String _ _, String _ (String "s"%char rest)) => Some rest
      | _ => None
      end
  | _ => None
  end.
Fixpoint drop_references (fuel : nat) (s : string) : string :=
  match fuel with
  | O => s
  | S fuel =>
      match s with
      | EmptyString => EmptyString
      | String c rest => match after_reference s with Some s => drop_references fuel s | None => String c (drop_references fuel rest) end
      end
  end.
Definition config_set (value : string) : result unit :=
  let v := drop_doubled value in
  if has_char "%" (drop_references (String.length v) v) then Raise ValueError else Ok tt.

Section Env.
Context {S : Type} `{Database S}.

(** [with context.begin_transaction(): ...]. *)
Definition in_transaction {A} (m : act S A) : act S A := fun s =>
  match m s with (Ok a, s') => (Ok a, s') | (Raise e, _) => (Raise e, s) end.
(** Offline, the statements are printed and no connection is made. *)
Definition run_migrations_offline (sts : list ddl) : act S (list ddl) := aret sts.
Definition do_run_migrations (sts : list ddl) : act S (list ddl) := in_transaction (let! _ := run_ddl sts in aret []).
(** The module: the DSN of the settings is put into alembic's configuration,
    then the statements of the asked-for revisions are run. *)
Definition env (offline : bool) (s : Settings) (sts : list ddl) : act S (list ddl) :=
  let! _ := alift (config_set (dsn (postgres s))) in
  if offline then run_migrations_offline sts else do_run_migrations sts.

(** A run of the migrations is all or nothing: it prints the statements and
    leaves the database alone when it is offline, and online it ends with the
    tables the whole script gives, or raises with the tables there were.  It
    raises at once when the DSN has a percent sign that the configuration
    takes for an interpolation. *)
Theorem env_atomic `{!DatabaseLaws S} offline (st : Settings) sts (s : S) :
  let '(r, s') := env offline st sts s in
  match config_set (dsn (postgres st)) with
  | Raise e => r = Raise e /\ s' = s
  | Ok _ =>
      if offline then r = Ok sts /\ s' = s
      else match script sts (tables s) with
           | Ok c => r = Ok [] /\ tables s' = c
           | Raise _ => is_ok r = false /\ s' = s
           end
  end.
Proof.
  unfold env, abind at 1, alift. destruct (config_set _) as [u|e]; [|done]. destruct offline; [done|].
  unfold do_run_migrations, in_transaction, abind. destruct (script sts (tables s)) as [c|e] eqn:E.
  - by destruct (run_ddl_spec sts s c E) as (s' & -> & Et).
  - pose proof (run_ddl_raises sts s e E) as Hr. destruct (run_ddl sts s) as [[u'|e'] s1]; [done|by split].
Qed.
End Env.

(** ** Concrete instances *)

(** A database that is its catalog. *)
#[local] Instance catalog_database : Database catalog := {|
  tables := id;
  execute := fun st c => match statement st c with Ok c' => (Ok tt, c') | Raise e => (Raise e, c) end |}.
#[local] Instance catalog_laws : DatabaseLaws catalog.
Proof. intros st c. cbn. unfold id. by destruct (statement st c). Defined.

(** Next to the table alembic keeps its version in. *)
Definition version_table : Table := mkTable "alembic_version" [key_column "version_num" (Str 32) false] [] [].
Definition used_database : catalog := {["alembic_version" := version_table]}.
#[local] Instance unused_dec n c : Decision (unused n c).
Proof. unfold unused. apply _. Defined.
Lemma used_database_unused n : n ∈ script_names -> unused n used_database.
Proof.
  intros Hn. apply (bool_decide_eq_true (unused n used_database)).
  assert (forallb (fun n => bool_decide (unused n used_database)) script_names = true) as Hall by (vm_compute; reflexivity).
  rewrite forallb_forall in Hall. apply Hall. by apply list_elem_of_In.
Qed.

Lemma migrations_roundtrip_witness : exists s1 s2,
  run_ddl upgrade_head used_database = (Ok tt, s1) /\ run_ddl downgrade_base s1 = (Ok tt, s2) /\ tables s2 = used_database.
Proof.
  destruct (@migrations_roundtrip catalog catalog_database catalog_laws used_database used_database_unused) as (s1 & s2 & E1 & E2 & _ & Et).
  exists s1, s2. split; [exact E1|]. split; [exact E2|exact Et].
Defined.

Lemma migrated_schema_matches_orm_witness : exists s' t,
  run_ddl upgrade_head used_database = (Ok tt, s') /\ tables s' !! "link_edge" = Some t /\ table_drift t LinkEdge_orm = Some [].
Proof.
  destruct (@migrated_schema_matches_orm catalog catalog_database catalog_laws used_database used_database_unused) as (s' & E & Hall).
  destruct (Hall LinkEdge_orm) as (t & Et & Ed); [right; right; left|].
  exists s', t. split; [exact E|]. split; [exact Et|exact Ed].
Defined.

Fixpoint repeated (n : nat) (s : string) : string := match n with O => EmptyString | S n => s +:+ repeated n s end.
Definition short_request : CrawlBody := mkBodyIn (Some ["http://a.org/"]) (Some "docs") None None None.
Lemma crawl_row_fits_witness : exists req, validate_create short_request = Some req /\
  row_fits (migrated_table "crawl") (crawl_row req "running") = true.
Proof.
  eexists. split; [reflexivity|].
  apply (crawl_row_fits short_request _ "running" eq_refl); [right; left|]. cbn. split; lia.
Defined.

(** A server's validator of 300 characters: the page cannot be saved. *)
Example long_etag_refused : exists r, pr_etag r = Some (repeated 100 "abc") /\
  row_fits (migrated_table "document") (document_row r) = false /\
  row_fits (migrated_table "document") (document_row page_a) = true.
Proof.
  exists (mkRecord "http://a.org/" "a.org" 0 (Some 200) None None None None None None (Some (repeated 100 "abc")) None None []).
  split; [reflexivity|]. split; vm_compute; reflexivity.
Qed.
(** A name of 300 characters passes validation and cannot be inserted. *)
Example long_name_refused : exists req,
  validate_create (mkBodyIn (Some ["http://a.org/"]) (Some (repeated 100 "abc")) None None None) = Some req /\
  row_fits (migrated_table "crawl") (crawl_row req "running") = false.
Proof. eexists. split; [reflexivity|vm_compute; reflexivity]. Qed.

(** A percent-encoded password: the application connects, the migrations do not
    start. *)
Example percent_password_refused : config_set "postgresql+asyncpg://crawler:p%40ss@db/crawler" = Raise ValueError /\
  config_set "postgresql+asyncpg://crawler:p%%40ss@db/crawler" = Ok tt /\ config_set "a%(here)s" = Ok tt.
Proof. vm_compute. split_and!; reflexivity. Qed.
