(* ===== verification/Service.v ===== *)
(** * The crawl service behind the API ([crawler/api/service.py])

    [SqlCrawlService] over the tables of [Storage], the in-process crawls of
    [_RUNNING_CRAWLS] and the Kafka publication of [Seeding].  Every method is
    an action on [SqlCrawlService]; the class [CrawlService] is the protocol,
    of which it is an instance.  [service_step] interleaves the halves of
    concurrent requests with the crawls' tasks: a request gives way between its
    session and the launch, and between the cancellation and its session.

    [service_well_formed]: the invariant of all interleavings; [stop_is_final]:
    a stopped crawl stays stopped; [launch_race] is the request order in which
    it does not.  [untracked_stays_open]: a crawl given to Kafka never ends.  [create_crawl_result]: every outcome of
    creating a crawl.  [stats_consistent], [pages_concatenate]: the reads. *)
From S2P Require Import Prelude PyStr Config Models UrlUtils Frontier Seeding Storage Sessions.
From S2P Require Import Engine LocalCrawl Schemas.
Local Open Scope Z_scope.

(** [datetime.isoformat] of a UTC timestamp, and the database's ILIKE. *)
Class Rendering := { isoformat : Q -> string; ilike : string -> string -> bool }.

(** [_iso_utc]. *)
Definition iso_utc `{Rendering} (dt : option Q) : option string := isoformat <$> dt.

(** [[n for s in seeds if (n := normalize_url(s)) is not None]]. *)
Fixpoint normalize_all `{UrlLib} (seeds : list string) : result (list string) :=
  match seeds with
  | [] => Ok []
  | s :: rest =>
      let* n := normalize_url (Some s) None in
      let* ns := normalize_all rest in
      Ok (match n with Some u => u :: ns | None => ns end)
  end.

(** The protocol [CrawlService], as actions on a service. *)
Class CrawlService (S : Type) := {
  svc_create : CrawlCreate -> act S CrawlOut;
  svc_stop : Z -> act S (option CrawlActionOut);
  svc_stats : act S StatsOut;
  svc_domains : Z -> act S (list DomainOut);
  svc_document : Z -> act S (option DocumentOut);
  svc_graph : Z -> act S GraphOut;
  svc_crawls : Z -> act S (list CrawlSummary);
  svc_documents : Z -> Z -> option string -> option string -> act S DocumentPage }.

(** What the routes rely on: reads leave the service as it is, and return at
    most what they were asked for. *)
Class CrawlServiceSpec (S : Type) `{CrawlService S} := {
  read_stats s : snd (svc_stats s) = s;
  read_domains n s : snd (svc_domains n s) = s /\
    forall l, fst (svc_domains n s) = Ok l -> Z.of_nat (length l) <= Z.max 0 n;
  read_document i s : snd (svc_document i s) = s;
  read_graph n s : snd (svc_graph n s) = s /\
    forall g, fst (svc_graph n s) = Ok g -> Z.of_nat (length (go_top_pages g)) <= Z.max 0 n;
  read_crawls n s : snd (svc_crawls n s) = s /\
    forall l, fst (svc_crawls n s) = Ok l -> Z.of_nat (length l) <= Z.max 0 n;
  read_documents n o d q s : snd (svc_documents n o d q s) = s /\
    forall p, fst (svc_documents n o d q s) = Ok p -> Z.of_nat (length (dp_items p)) <= Z.max 0 n }.

(** A task of [_RUNNING_CRAWLS]; [lt_ending] is the status it is about to
    record once it has left the crawl. *)
Record LocalTask : Type := mkTask { lt_args : CrawlArgs; lt_cancelled : bool; lt_ending : option string }.

Section Service.
Context {P A bytes : Type} `{K : Kafka P A bytes, J : Json bytes, UL : UrlLib, CM : Commits, OB : OrderBy, RN : Rendering}.
Variable hash : string -> Z.

(** The service with the state it works on: the tables, the running crawls,
    the metrics, and the frontiers it has published with. *)
Record SqlCrawlService : Type := mkService {
  sv_settings : Settings; sv_db : DB; sv_running : gmap Z LocalTask; sv_reg : registry;
  sv_frontiers : list (KafkaFrontier P) }.

Definition with_db (s : SqlCrawlService) (db : DB) : SqlCrawlService :=
  mkService (sv_settings s) db (sv_running s) (sv_reg s) (sv_frontiers s).
Definition with_running (s : SqlCrawlService) (r : gmap Z LocalTask) : SqlCrawlService :=
  mkService (sv_settings s) (sv_db s) r (sv_reg s) (sv_frontiers s).

(** [async with session_scope(self.settings) as session: ...]. *)
Definition in_session {T} (body : act DB T) : act SqlCrawlService T := fun s =>
  let '(r, db) := session_scope body (sv_db s) in (r, with_db s db).

(** ** Creating a crawl *)

(** The arguments [_launch_local] gives to [execute_crawl]. *)
Definition launch_args (seeds : list string) (crawl_id : Z) (req : CrawlCreate) : CrawlArgs :=
  let allowed := cc_allowed_domains req in
  mkArgs crawl_id seeds (cc_max_depth req) (cc_max_pages req) allowed
    (match allowed with Some (_ :: _) => false | _ => true end) 10 true true.

Definition launch_local (seeds : list string) (crawl_id : Z) (req : CrawlCreate) : act SqlCrawlService Z := fun s =>
  (Ok (Z.of_nat (length seeds)),
   with_running s (<[crawl_id := mkTask (launch_args seeds crawl_id req) false None]> (sv_running s))).

(** [_seed]. *)
Definition seed_kafka (seeds : list string) (crawl_id max_depth : Z) : act SqlCrawlService Z := fun s =>
  match backend (frontier (sv_settings s)), seeds with
  | FrontierMemory, _ | FrontierKafka, [] => (Ok 0, s)
  | FrontierKafka, _ :: _ =>
      let '(r, f, reg) := publish hash (sv_settings s)
        ((fun url => Ok (Some (mkMessage (JStr url) 0 (JInt crawl_id) 0 0))) <$> seeds) (sv_reg s) in
      (r, mkService (sv_settings s) (sv_db s) (sv_running s) reg (match f with Some f => [f] | None => [] end ++ sv_frontiers s))
  end.

(** The first session of [create_crawl]. *)
Definition insert_request (req : CrawlCreate) (normalized : list string) (status : string) : act SqlCrawlService Z :=
  in_session (fun db =>
    let '(crawl_id, db) := insert_crawl (cc_name req) normalized status (cc_max_depth req) (cc_max_pages req)
                             (cc_allowed_domains req) db in (Ok crawl_id, db)).

Definition create_crawl (req : CrawlCreate) : act SqlCrawlService CrawlOut :=
  let! normalized := alift (normalize_all (cc_seeds req)) in
  let status := match normalized with [] => "failed" | _ => "running" end in
  let! crawl_id := insert_request req normalized status in
  let! s := aget in
  let! seeded :=
    match normalized with
    | [] => aret 0
    | _ => match backend (frontier (sv_settings s)) with
           | FrontierKafka => seed_kafka normalized crawl_id (cc_max_depth req)
           | FrontierMemory => launch_local normalized crawl_id req
           end
    end in
  aret (mkCrawlOut crawl_id (cc_name req) status normalized (cc_max_depth req) (cc_max_pages req) seeded).

(** ** Stopping one *)

(** [task.cancel()] on a task that is not done. *)
Definition cancel_task (crawl_id : Z) (s : SqlCrawlService) : SqlCrawlService :=
  with_running s (alter (fun t => mkTask (lt_args t) true (lt_ending t)) crawl_id (sv_running s)).

(** The session of [stop_crawl]. *)
Definition mark_stopped (crawl_id : Z) : act SqlCrawlService (option CrawlActionOut) :=
  in_session (fun db =>
    match get_crawl crawl_id db with
    | None => (Ok None, db)
    | Some row =>
        if bool_decide (c_status row ∈ ["running"; "pending"])
        then (Ok (Some (mkActionOut crawl_id "stopped")), set_crawl_status crawl_id "stopped" db)
        else (Ok (Some (mkActionOut crawl_id (c_status row))), db)
    end).

Definition stop_crawl (crawl_id : Z) : act SqlCrawlService (option CrawlActionOut) :=
  let! _ := amodify (cancel_task crawl_id) in mark_stopped crawl_id.

(** ** Reading *)

Definition reading {T} (f : DB -> T) : act SqlCrawlService T := in_session (fun db => (Ok (f db), db)).

Definition stats : act SqlCrawlService StatsOut :=
  reading (fun db => mkStatsOut (document_count db) (edge_count db) (domain_count db) (near_duplicate_count db)
    ((fun sc => mkStatusCount (fst sc) (snd sc)) <$> status_histogram db)).

Definition list_domains (limit : Z) : act SqlCrawlService (list DomainOut) :=
  reading (fun db => (fun dc => mkDomainOut (fst dc) (snd dc)) <$> domain_summary limit db).

Definition document_out (doc : Document) (links : list (string * option string)) : DocumentOut :=
  mkDocumentOut (d_id doc) (d_url doc) (d_registered_domain doc) (d_http_status doc) (d_content_type doc) (d_title doc)
    (d_content_hash doc) (d_simhash doc) (d_depth doc) (d_in_degree doc) (d_out_degree doc) (d_storage_key doc)
    ((fun ua => mkLinkOut (fst ua) (snd ua)) <$> links).
Definition get_document (doc_id : Z) : act SqlCrawlService (option DocumentOut) :=
  reading (fun db =>
    match Storage.get_document doc_id db with
    | None => None
    | Some doc => Some (document_out doc (document_links doc_id 200 db))
    end).

Definition graph (limit : Z) : act SqlCrawlService GraphOut :=
  reading (fun db => mkGraphOut ((fun ud => mkGraphNode (fst ud) (snd ud)) <$> top_by_in_degree limit db)).

Definition list_crawls (limit : Z) : act SqlCrawlService (list CrawlSummary) :=
  reading (fun db => (fun cn => let c := fst cn in
    mkCrawlSummary (c_id c) (c_name c) (c_status c) (c_max_depth c) (c_max_pages c) (snd cn) (iso_utc (Some (c_created_at c))))
    <$> Storage.list_crawls limit db).

Definition document_summary (d : Document) : DocumentSummary :=
  mkDocumentSummary (d_id d) (d_url d) (d_registered_domain d) (d_http_status d) (d_title d) (d_depth d) (d_in_degree d)
    (d_out_degree d).
Definition list_documents (limit offset : Z) (domain q : option string) : act SqlCrawlService DocumentPage :=
  reading (fun db =>
    let '(docs, total) := Storage.list_documents ilike limit offset domain q db in
    mkDocumentPage total limit offset (document_summary <$> docs)).

#[export] Instance sql_crawl_service : CrawlService SqlCrawlService := {|
  svc_create := create_crawl; svc_stop := stop_crawl; svc_stats := stats; svc_domains := list_domains;
  svc_document := get_document; svc_graph := graph; svc_crawls := list_crawls; svc_documents := list_documents |}.

Lemma reading_state {T} (f : DB -> T) (s : SqlCrawlService) : snd (reading f s) = s.
Proof. unfold reading, in_session, session_scope. destruct (commit_error (sv_db s)); by destruct s. Qed.
Lemma reading_result {T} (f : DB -> T) (s : SqlCrawlService) x : fst (reading f s) = Ok x -> x = f (sv_db s).
Proof. unfold reading, in_session, session_scope. destruct (commit_error (sv_db s)); [done|]. by intros [= <-]. Qed.

#[export] Instance sql_crawl_service_spec : CrawlServiceSpec SqlCrawlService.
Proof.
  split; intros; cbn [svc_stats svc_domains svc_document svc_graph svc_crawls svc_documents sql_crawl_service];
    unfold stats, list_domains, get_document, graph, list_crawls, list_documents; try apply reading_state;
    (split; [apply reading_state|]); intros ? ->%reading_result.
  - unfold domain_summary. rewrite length_fmap, length_take. lia.
  - cbn. unfold top_by_in_degree. rewrite !length_fmap, length_take. lia.
  - unfold Storage.list_crawls. rewrite !length_fmap, length_take. lia.
  - cbn. unfold limit_offset. rewrite length_fmap, length_take. lia.
Qed.

End Service.
Arguments SqlCrawlService : clear implicits.

(** ** Creating a crawl, on every branch *)
Section Handlers.
Context {P A bytes : Type} `{K : Kafka P A bytes, J : Json bytes, UL : UrlLib, CM : Commits, OB : OrderBy, RN : Rendering}.
Variable hash : string -> Z.
Abbreviation service := (SqlCrawlService P).
Abbreviation create_crawl := (create_crawl (P := P) (A := A) (bytes := bytes) hash).

(** The messages of a crawl's seeds. *)
Definition seed_messages (crawl_id : Z) (seeds : list string) : list (result (option FrontierMessage)) :=
  (fun url => Ok (Some (mkMessage (JStr url) 0 (JInt crawl_id) 0 0))) <$> seeds.

(** C11: what creating a crawl does, on every branch, when the commit succeeds.  A
    seed the URL parser rejects raises before anything is written.  Otherwise
    one row with a new id is added and no other row changes; without a
    crawlable seed it is "failed" and nothing is started, else it is "running"
    and either one task runs the crawl with the request's limits, kept to the
    seeds' domains unless domains were given, or the seeds were published; if
    publishing raises, so does the request, and the row stays "running". *)
Theorem create_crawl_result (req : CrawlCreate) (s : service) :
  crawls_wf (sv_db s) -> (forall db, commit_error db = None) ->
  let '(r, s') := create_crawl req s in
  let id := db_next_crawl (sv_db s) in
  let out status ns n := mkCrawlOut id (cc_name req) status ns (cc_max_depth req) (cc_max_pages req) n in
  match normalize_all (cc_seeds req) with
  | Raise e => r = Raise e /\ s' = s
  | Ok ns =>
      let status := match ns with [] => "failed" | _ => "running" end in
      crawls_wf (sv_db s') /\ status_of id (sv_db s) = None /\
      (forall i, status_of i (sv_db s') = if i =? id then Some status else status_of i (sv_db s)) /\
      match ns, backend (frontier (sv_settings s)) with
      | [], _ => r = Ok (out status [] 0) /\ sv_running s' = sv_running s /\ sv_frontiers s' = sv_frontiers s
      | _, FrontierMemory =>
          r = Ok (out status ns (Z.of_nat (length ns))) /\ sv_frontiers s' = sv_frontiers s /\
          sv_running s' = <[id := mkTask (launch_args ns id req) false None]> (sv_running s)
      | _, FrontierKafka =>
          sv_running s' = sv_running s /\
          r = (let* n := fst (fst (publish hash (sv_settings s) (seed_messages id ns) (sv_reg s))) in Ok (out status ns n))
      end
  end.
Proof.
  intros Hwf Hok. unfold create_crawl, abind at 1, alift.
  destruct (normalize_all (cc_seeds req)) as [ns|e]; [|done]. cbv zeta.
  set (status := match ns with [] => "failed" | _ => "running" end).
  pose proof (insert_crawl_spec (cc_name req) ns status (cc_max_depth req) (cc_max_pages req) (cc_allowed_domains req) (sv_db s)) as Hins.
  unfold abind at 1, insert_request, in_session, session_scope.
  destruct (insert_crawl _ _ _ _ _ _ (sv_db s)) as [id db'] eqn:Ei. destruct (Hins Hwf) as (Hwf' & -> & Hnone & Hst).
  rewrite Hok. unfold abind, aget, aret. cbn [with_db sv_settings].
  destruct ns as [|u us]; [by split_and!|]. destruct (backend (frontier (sv_settings s))) eqn:Eb.
  - cbn. by split_and!.
  - unfold seed_kafka. cbn [with_db sv_settings sv_reg sv_db sv_running]. rewrite Eb.
    change ((fun url => Ok (Some _)) <$> (u :: us)) with (seed_messages (db_next_crawl (sv_db s)) (u :: us)).
    destruct (publish hash (sv_settings s) (seed_messages (db_next_crawl (sv_db s)) (u :: us)) (sv_reg s)) as [[[n|e] f] reg];
      cbn; by split_and!.
Qed.

End Handlers.

(** ** Concurrent requests and the crawls' tasks *)
Section Worlds.
Context {P A bytes : Type} `{K : Kafka P A bytes, J : Json bytes, UL : UrlLib, CM : Commits}.
Abbreviation service := (SqlCrawlService P).

(** The service, and the requests between their session and their launch. *)
Record world : Type := mkWorld { w_service : service; w_creating : list (Z * CrawlArgs) }.

Definition creating_ids (w : world) : list Z := fst <$> w_creating w.

(** A task that leaves its crawl has this status to record. *)
Definition endings (t : LocalTask) : list string := if lt_cancelled t then ["stopped"] else ["completed"; "failed"].

Inductive service_step : world -> world -> Prop :=
| step_insert req ns id s s' creating :
    (* [create_crawl] up to the end of its session *)
    normalize_all (cc_seeds req) = Ok ns ->
    insert_request req ns (match ns with [] => "failed" | _ => "running" end) s = (Ok id, s') ->
    service_step (mkWorld s creating)
      (mkWorld s' (match ns, backend (frontier (sv_settings s)) with
                   | _ :: _, FrontierMemory => (id, launch_args ns id req) :: creating
                   | _, _ => creating end))
| step_launch id args s c1 c2 :
    (* the rest of it *)
    service_step (mkWorld s (c1 ++ (id, args) :: c2))
      (mkWorld (with_running s (<[id := mkTask args false None]> (sv_running s))) (c1 ++ c2))
| step_cancel id s creating : service_step (mkWorld s creating) (mkWorld (cancel_task id s) creating)
| step_mark id r s s' creating : mark_stopped id s = (r, s') -> service_step (mkWorld s creating) (mkWorld s' creating)
| step_leave id t status s creating :
    (* a crawl ends, or [CancelledError] is thrown into it (closing its fetcher does not raise) *)
    sv_running s !! id = Some t -> lt_ending t = None -> status ∈ endings t ->
    service_step (mkWorld s creating)
      (mkWorld (with_running s (<[id := mkTask (lt_args t) (lt_cancelled t) (Some status)]> (sv_running s))) creating)
| step_record id t status s db creating :
    (* its [finally] block, which a cancellation can still cut short, and its callback *)
    sv_running s !! id = Some t -> lt_ending t = Some status ->
    db = record_status id status (sv_db s) \/ lt_cancelled t = true /\ db = sv_db s ->
    service_step (mkWorld s creating) (mkWorld (with_running (with_db s db) (delete id (sv_running s))) creating)
| step_unstarted id t s creating :
    (* a task cancelled before its first step never runs *)
    sv_running s !! id = Some t -> lt_ending t = None -> lt_cancelled t = true ->
    service_step (mkWorld s creating) (mkWorld (with_running s (delete id (sv_running s))) creating)
| step_tables db s creating :
    (* pages are saved, degrees are computed *)
    db_crawls db = db_crawls (sv_db s) -> db_next_crawl db = db_next_crawl (sv_db s) ->
    service_step (mkWorld s creating) (mkWorld (with_db s db) creating).

(** A service that has just started: nothing runs in this process. *)
Definition statuses : list string := ["running"; "failed"; "completed"; "stopped"].
Definition fresh_world (w : world) : Prop :=
  crawls_wf (sv_db (w_service w)) /\ sv_running (w_service w) = ∅ /\ w_creating w = [] /\
  forall id st, status_of id (sv_db (w_service w)) = Some st -> st ∈ statuses.

Record world_inv (w : world) : Prop := {
  wi_crawls : crawls_wf (sv_db (w_service w));
  wi_statuses id st : status_of id (sv_db (w_service w)) = Some st -> st ∈ statuses;
  wi_creating_new : NoDup (creating_ids w);
  wi_creating id : id ∈ creating_ids w -> sv_running (w_service w) !! id = None /\
    exists st, status_of id (sv_db (w_service w)) = Some st /\ st ∈ ["running"; "stopped"];
  wi_running id t : sv_running (w_service w) !! id = Some t ->
    (exists st, status_of id (sv_db (w_service w)) = Some st /\ st ∈ ["running"; "stopped"]) /\
    (forall st, lt_ending t = Some st -> st ∈ ["completed"; "failed"; "stopped"]) }.

Lemma fresh_inv w : fresh_world w -> world_inv w.
Proof.
  intros (Hwf & Hr & Hc & Hs). split; [done|done| | |].
  - unfold creating_ids. rewrite Hc. constructor.
  - unfold creating_ids. rewrite Hc. set_solver.
  - rewrite Hr. intros id t Ht. done.
Qed.

(** What each kind of step does to the rows. *)
Lemma same_rows db db' : db_crawls db' = db_crawls db -> forall id, status_of id db' = status_of id db.
Proof. intros E id. unfold status_of, get_crawl. by rewrite E. Qed.

Lemma insert_request_spec req ns status id (s s' : service) : insert_request req ns status s = (Ok id, s') ->
  crawls_wf (sv_db s) ->
  crawls_wf (sv_db s') /\ sv_running s' = sv_running s /\ status_of id (sv_db s) = None /\
  forall i, status_of i (sv_db s') = if i =? id then Some status else status_of i (sv_db s).
Proof.
  unfold insert_request, in_session, session_scope. intros E Hwf.
  pose proof (insert_crawl_spec (cc_name req) ns status (cc_max_depth req) (cc_max_pages req) (cc_allowed_domains req) (sv_db s)) as Hins.
  destruct (insert_crawl _ _ _ _ _ _ (sv_db s)) as [i db'] eqn:Ei. destruct (Hins Hwf) as (Hwf' & -> & Hnone & Hst).
  destruct (commit_error db'); [done|]. injection E as <- <-. by split_and!.
Qed.

Lemma record_status_spec id status db : let db' := record_status id status db in
  (crawls_wf db -> crawls_wf db') /\
  forall i, status_of i db' = status_of i db \/ i = id /\ status_of i db' = Some status /\ is_Some (status_of i db).
Proof.
  cbv zeta. unfold record_status, session_scope. destruct (commit_error _); [by split; [|left]|]. cbn [snd].
  split; [apply crawls_wf_set|]. intros i. rewrite status_of_set. destruct (Z.eqb_spec i id) as [->|]; [|by left].
  unfold status_of. destruct (get_crawl id db); [right|by left]. by split_and!.
Qed.

Lemma mark_stopped_spec id (s : service) : let '(r, s') := mark_stopped id s in
  sv_running s' = sv_running s /\ sv_settings s' = sv_settings s /\ (crawls_wf (sv_db s) -> crawls_wf (sv_db s')) /\
  (forall i, status_of i (sv_db s') = status_of i (sv_db s) \/
     i = id /\ status_of i (sv_db s') = Some "stopped" /\
     exists st, status_of i (sv_db s) = Some st /\ st ∈ ["running"; "pending"]) /\
  (forall out, r = Ok (Some out) -> ao_id out = id /\ status_of id (sv_db s') = Some (ao_status out) /\
     (ao_status out = "stopped" \/ status_of id (sv_db s) = Some (ao_status out) /\ ao_status out ∉ ["running"; "pending"])).
Proof.
  unfold mark_stopped, in_session, session_scope. destruct (get_crawl id (sv_db s)) as [c|] eqn:E.
  2:{ destruct (commit_error _); cbn; split_and!; try done; by left. }
  assert (status_of id (sv_db s) = Some (c_status c)) as Est by (unfold status_of; by rewrite E).
  destruct (bool_decide (c_status c ∈ ["running"; "pending"])) eqn:Eb.
  - apply bool_decide_eq_true in Eb. destruct (commit_error _); cbn [with_db sv_db sv_running sv_settings]; [split_and!; try done; by left|].
    split_and!; [done|done|apply crawls_wf_set| |].
    + intros i. rewrite status_of_set. destruct (Z.eqb_spec i id) as [->|]; [right|by left]. rewrite E. split_and!; [done|done|].
      by exists (c_status c).
    + intros out [= <-]. cbn [ao_id ao_status]. rewrite status_of_set, Z.eqb_refl, E. split_and!; try done. by left.
  - apply bool_decide_eq_false in Eb. destruct (commit_error _); cbn [with_db sv_db sv_running sv_settings]; [split_and!; try done; by left|].
    split_and!; try done; [by left|]. intros out [= <-]. cbn. split_and!; try done. by right.
Qed.

Lemma cancel_lookup id i (s : service) : sv_running (cancel_task id s) !! i =
  (if decide (i = id) then fun t => mkTask (lt_args t) true (lt_ending t) else fun t => t) <$> sv_running s !! i.
Proof.
  unfold cancel_task, with_running. cbn [sv_running]. case_decide as E.
  - subst i. by rewrite lookup_alter_eq.
  - rewrite lookup_alter_ne by congruence. by destruct (sv_running s !! i).
Qed.

(** A change of the rows that keeps the tracked crawls at "running" or
    "stopped", with fewer tasks. *)
Lemma inv_rows (s s' : service) creating :
  world_inv (mkWorld s creating) -> crawls_wf (sv_db s') ->
  (forall i, status_of i (sv_db s') = status_of i (sv_db s) \/
     exists st, status_of i (sv_db s') = Some st /\ st ∈ statuses /\
       (i ∈ fst <$> creating \/ is_Some (sv_running s' !! i) -> st ∈ ["running"; "stopped"])) ->
  (forall i, sv_running s' !! i = sv_running s !! i \/ sv_running s' !! i = None \/
     exists t, is_Some (sv_running s !! i) /\ sv_running s' !! i = Some t /\
       forall st, lt_ending t = Some st -> st ∈ ["completed"; "failed"; "stopped"]) ->
  world_inv (mkWorld s' creating).
Proof.
  intros [Wf Ss Nd Cr Rn] Hwf Hst Hrun. unfold creating_ids in *. cbn [w_service w_creating] in *. split; cbn [w_service w_creating]; try done.
  - intros id st. destruct (Hst id) as [->|(st' & -> & Hin & _)]; [apply Ss|]. by intros [= <-].
  - intros id Hid. destruct (Cr id Hid) as [Hn (st & Est & Hin)]. split.
    + destruct (Hrun id) as [->|[->|(t & [? ?] & _)]]; congruence.
    + destruct (Hst id) as [->|(st' & -> & _ & Hst')]; [by exists st|exists st'; auto].
  - intros id t Ht.
    assert (is_Some (sv_running s !! id) /\ (forall st, lt_ending t = Some st -> st ∈ ["completed"; "failed"; "stopped"])) as [[t0 Ht0] He].
    { destruct (Hrun id) as [E|[E|(t' & Hs & E & He)]]; [|congruence|split; [done|by simplify_eq]].
      rewrite E in Ht. split; [done|]. by destruct (Rn id t Ht). }
    split; [|done]. destruct (Rn id t0 Ht0) as [(st & Est & Hin) _].
    destruct (Hst id) as [->|(st' & -> & _ & Hst')]; [by exists st|exists st'; split; [done|]]. apply Hst'. right. by exists t.
Qed.

Lemma insert_world_inv req ns id (s s' : service) creating :
  insert_request req ns (match ns with [] => "failed" | _ => "running" end) s = (Ok id, s') -> world_inv (mkWorld s creating) ->
  world_inv (mkWorld s' (match ns, backend (frontier (sv_settings s)) with
                         | _ :: _, FrontierMemory => (id, launch_args ns id req) :: creating
                         | _, _ => creating end)).
Proof.
  intros Hins Hi.
  destruct Hi as [Wf Ss Nd Cr Rn]. cbn [w_service w_creating creating_ids] in *.
  destruct (insert_request_spec _ _ _ _ _ _ Hins Wf) as (Wf' & Er & Hnone & Hst).
  assert (forall i st, status_of i (sv_db s) = Some st -> status_of i (sv_db s') = Some st) as Hkeep.
  { intros i st E. rewrite Hst. destruct (Z.eqb_spec i id) as [->|]; [congruence|done]. }
  assert (world_inv (mkWorld s' creating)) as Hbase.
  { split; cbn [w_service w_creating]; try done.
    - intros i st. rewrite Hst. destruct (i =? id); [|apply Ss]. intros [= <-]. destruct ns; set_solver.
    - intros i Hin. destruct (Cr i Hin) as [? (st & E & ?)]. rewrite Er. split; [done|]. exists st. auto.
    - rewrite Er. intros i t Ht. destruct (Rn i t Ht) as [(st & E & ?) ?]. split; [|done]. exists st. auto. }
  destruct ns as [|u us]; [done|]. destruct (backend (frontier (sv_settings s))); [|done].
  destruct Hbase as [Wf2 Ss2 Nd2 Cr2 Rn2]. split; try done; cbn [creating_ids w_creating w_service fmap list_fmap fst].
  - constructor; [|done]. intros Hin. destruct (Cr id Hin) as [_ (st & E & _)]. congruence.
  - intros i [->|Hin]%elem_of_cons; [|by apply Cr2]. split.
    + destruct (sv_running s' !! id) as [t|] eqn:Et; [|done]. rewrite Er in Et. destruct (Rn id t Et) as [(st & E & _) _]. congruence.
    + exists "running". rewrite Hst, Z.eqb_refl. split; [done|set_solver].
Qed.

Lemma launch_world_inv id args (s : service) c1 c2 : world_inv (mkWorld s (c1 ++ (id, args) :: c2)) ->
  world_inv (mkWorld (with_running s (<[id := mkTask args false None]> (sv_running s))) (c1 ++ c2)).
Proof.
  intros Hi.
  destruct Hi as [Wf Ss Nd Cr Rn]. unfold creating_ids in *. cbn [w_service w_creating] in *.
  rewrite fmap_app in *. cbn [fmap list_fmap fst] in *. apply NoDup_app in Nd as (N1 & D1 & [Hx N2]%NoDup_cons).
  assert (id ∉ c1.*1) as Hx1 by (intros Hin; apply (D1 id Hin); by left).
  split; cbn [w_service w_creating with_running sv_db sv_running]; unfold creating_ids; cbn [w_creating]; try done.
  - rewrite fmap_app. apply NoDup_app. split_and!; [done| |done]. intros i H1 H2. apply (D1 i H1). by right.
  - intros i. rewrite fmap_app. intros Hin. assert (i <> id) as Hne by (intros ->; set_solver).
    rewrite lookup_insert_ne by done. apply Cr. set_solver.
  - intros i t. destruct (decide (i = id)) as [->|Hne].
    + rewrite lookup_insert_eq. intros [= <-]. split; [|done]. apply Cr. set_solver.
    + rewrite lookup_insert_ne by done. apply Rn.
Qed.

Lemma step_world_inv w w' : world_inv w -> service_step w w' -> world_inv w'.
Proof.
  intros Hi Hs. inversion Hs as [req ns id s s' creating Hn Hins|id args s c1 c2|id s creating|id r s s' creating Hm
    |id t status s creating Ht Hend Hst|id t status s db creating Ht Hend Hdb|id t s creating Ht Hend Hc|db s creating Ec En]; subst.
  - by eapply insert_world_inv.
  - by apply launch_world_inv.
  - apply (inv_rows s); [done|apply Hi|by left|]. intros i. rewrite cancel_lookup. case_decide; [|by left; destruct (sv_running s !! i)].
    destruct (sv_running s !! i) as [t|] eqn:E; [|by left]. right. right. eexists. split_and!; [by eexists|done|].
    intros st Hst. by apply (wi_running _ Hi i t E).
  - pose proof (mark_stopped_spec id s) as Hsp. rewrite Hm in Hsp. destruct Hsp as (Er & _ & Hwf & Hst & _).
    apply (inv_rows s); [done|apply Hwf, Hi| |rewrite Er; by left]. intros i. destruct (Hst i) as [->|(-> & -> & _)]; [by left|right].
    exists "stopped". split_and!; [done|set_solver|set_solver].
  - apply (inv_rows s); [done|apply Hi|by left|]. intros i. cbn [with_running sv_running].
    destruct (decide (i = id)) as [->|]; [rewrite lookup_insert_eq|rewrite lookup_insert_ne by done; by left].
    right. right. eexists. split_and!; [by eexists|done|]. cbn. intros st [= <-]. unfold endings in Hst. destruct (lt_cancelled t); set_solver.
  - assert (status ∈ ["completed"; "failed"; "stopped"]) as Hin by by apply (wi_running _ Hi id t Ht).
    destruct (record_status_spec id status (sv_db s)) as [Hwf Hst].
    apply (inv_rows s); [done| | |].
    + cbn [with_running with_db sv_db]. destruct Hdb as [->|[_ ->]]; [apply Hwf|]; apply Hi.
    + cbn [with_running with_db sv_db sv_running]. intros i. destruct Hdb as [->|[_ ->]]; [|by left].
      destruct (Hst i) as [->|(-> & -> & _)]; [by left|right]. exists status. split_and!; [done|unfold statuses; set_solver|].
      rewrite lookup_delete_eq. intros [Hc|[? ?]]; [|done]. destruct (wi_creating _ Hi id Hc) as [Hn _]. cbn in Hn. congruence.
    + intros i. cbn [with_running with_db sv_running]. destruct (decide (i = id)) as [->|]; [rewrite lookup_delete_eq; auto|].
      rewrite lookup_delete_ne by done. by left.
  - apply (inv_rows s); [done|apply Hi|by left|]. intros i. cbn [with_running sv_running].
    destruct (decide (i = id)) as [->|]; [rewrite lookup_delete_eq; auto|]. rewrite lookup_delete_ne by done. by left.
  - apply (inv_rows s); [done| | |by left].
    + destruct (wi_crawls _ Hi). split; cbn [with_db sv_db]; by rewrite Ec, ?En.
    + intros i. left. by apply same_rows.
Qed.

Lemma reachable_world w w' : world_inv w -> rtc service_step w w' -> world_inv w'.
Proof. intros Hi Hr. revert Hr Hi. apply rtc_invariant. eauto using step_world_inv. Qed.

(** ** Settled crawls *)

(** The row has the final status [st], or [alt] once the crawl's task is gone;
    no launch is due, and a task of the crawl was cancelled and has nothing else
    to record than "stopped" or [alt]. *)
Definition settled (id : Z) (st alt : string) (w : world) : Prop :=
  st ∈ ["failed"; "completed"; "stopped"] /\ alt ∈ ["failed"; "completed"; "stopped"] /\ id ∉ creating_ids w /\
  match sv_running (w_service w) !! id with
  | None => status_of id (sv_db (w_service w)) = Some st \/ status_of id (sv_db (w_service w)) = Some alt
  | Some t => status_of id (sv_db (w_service w)) = Some st /\ st = "stopped" /\ lt_cancelled t = true /\
              forall e, lt_ending t = Some e -> e = st \/ e = alt
  end.

Lemma settled_status id st alt w : settled id st alt w ->
  status_of id (sv_db (w_service w)) = Some st \/
  status_of id (sv_db (w_service w)) = Some alt /\ sv_running (w_service w) !! id = None.
Proof. intros (_ & _ & _ & Ht). destruct (sv_running _ !! id) as [t|]; [left; apply Ht|]. destruct Ht; auto. Qed.
Lemma settled_final id st alt w : settled id st alt w ->
  exists s, status_of id (sv_db (w_service w)) = Some s /\ s ∈ ["failed"; "completed"; "stopped"].
Proof. intros Hs. destruct (settled_status _ _ _ _ Hs) as [E|[E _]]; eexists; (split; [exact E|]); apply Hs. Qed.

(** A step that leaves the row, the task and the launches of [id] alone. *)
Lemma settled_same id st alt (w w' : world) : settled id st alt w ->
  status_of id (sv_db (w_service w')) = status_of id (sv_db (w_service w)) ->
  sv_running (w_service w') !! id = sv_running (w_service w) !! id -> id ∉ creating_ids w' -> settled id st alt w'.
Proof. intros (H1 & H2 & _ & Ht) Es Er Hc. unfold settled. by rewrite Es, Er. Qed.

Lemma settled_step id st alt w w' : world_inv w -> settled id st alt w -> service_step w w' -> settled id st alt w'.
Proof.
  intros Hi Hset Hs. pose proof (wi_crawls _ Hi) as Wf. pose proof (settled_final _ _ _ _ Hset) as (s0 & Est & Hin0).
  pose proof Hset as (Hst & Halt & Hc & Ht0).
  inversion Hs as [req ns i s s' creating Hn Hins|i args s c1 c2|i s creating|i r s s' creating Hm
    |i t status s creating Ht Hend Hsta|i t status s db creating Ht Hend Hdb|i t s creating Ht Hend Hcc|db s creating Ec En]; subst;
    unfold creating_ids in *; cbn [w_service w_creating] in *.
  - destruct (insert_request_spec _ _ _ _ _ _ Hins Wf) as (_ & Er & Hnone & Hrow). assert (id <> i) as Hne by congruence.
    apply (settled_same _ _ _ _ _ Hset); cbn; [|by rewrite Er|].
    + rewrite Hrow. by destruct (Z.eqb_spec id i).
    + unfold creating_ids. cbn. destruct ns; [done|]. destruct (backend _); set_solver.
  - rewrite fmap_app in *. cbn [fmap list_fmap fst] in *.
    apply (settled_same _ _ _ _ _ Hset); unfold creating_ids; cbn; [done|apply lookup_insert_ne; set_solver|]. rewrite fmap_app. set_solver.
  - split_and!; [done..|]. cbn [w_service]. rewrite cancel_lookup. case_decide; destruct (sv_running s !! id) as [t|]; cbn; naive_solver.
  - pose proof (mark_stopped_spec i s) as Hsp. rewrite Hm in Hsp. destruct Hsp as (Er & _ & _ & Hrow & _).
    apply (settled_same _ _ _ _ _ Hset); cbn; [|by rewrite Er|done].
    destruct (Hrow id) as [->|(-> & _ & st' & E & Hin')]; [done|]. rewrite Est in E. injection E as <-. set_solver.
  - destruct (decide (id = i)) as [->|]; [|apply (settled_same _ _ _ _ _ Hset); cbn; [done|by apply lookup_insert_ne|done]].
    rewrite Ht in Ht0. destruct Ht0 as (E & -> & Ecanc & _). split_and!; [done..|]. cbn. rewrite lookup_insert_eq. cbn.
    split_and!; [done..|]. intros e [= <-]. left. unfold endings in Hsta. rewrite Ecanc in Hsta. by apply list_elem_of_singleton in Hsta.
  - destruct (record_status_spec i status (sv_db s)) as [_ Hr]. destruct (decide (id = i)) as [->|Hne].
    + rewrite Ht in Ht0. destruct Ht0 as (E & -> & _ & Hend'). split_and!; [done..|]. cbn. rewrite lookup_delete_eq.
      destruct (Hend' status Hend) as [E1|E1]; subst status; (destruct Hdb as [->|[_ ->]]; [|by left]); destruct (Hr i) as [->|(_ & -> & _)]; auto.
    + apply (settled_same _ _ _ _ _ Hset); cbn; [|by rewrite lookup_delete_ne|done].
      destruct Hdb as [->|[_ ->]]; [|done]. by destruct (Hr id) as [->|(-> & _)].
  - destruct (decide (id = i)) as [->|]; [|apply (settled_same _ _ _ _ _ Hset); cbn; [done|by rewrite lookup_delete_ne|done]].
    rewrite Ht in Ht0. split_and!; [done..|]. cbn. rewrite lookup_delete_eq. left. apply Ht0.
  - apply (settled_same _ _ _ _ _ Hset); cbn; [|done..]. by apply same_rows.
Qed.

Lemma settled_forever id st alt w w' : world_inv w -> settled id st alt w -> rtc service_step w w' -> world_inv w' /\ settled id st alt w'.
Proof.
  intros Hi Hst Hr. by apply (rtc_invariant _ (fun w => world_inv w /\ settled id st alt w) _ _ ltac:(intros ?? [??] ?; eauto using step_world_inv, settled_step) Hr).
Qed.

(** A row with a final status whose crawl has no task and no launch due keeps
    its status for ever. *)
Lemma gone_forever id st w w' : world_inv w -> st ∈ ["failed"; "completed"; "stopped"] -> id ∉ creating_ids w ->
  sv_running (w_service w) !! id = None -> status_of id (sv_db (w_service w)) = Some st -> rtc service_step w w' ->
  status_of id (sv_db (w_service w')) = Some st.
Proof.
  intros Hi Hin Hc Hn Est Hr. destruct (settled_forever id st st w w' Hi) as [_ Hs]; [|done|].
  - split_and!; [done..|]. rewrite Hn. by left.
  - by destruct (settled_status _ _ _ _ Hs) as [?|[? _]].
Qed.

(** C24: the service's state is well formed in every world it can get to, however
    requests and crawls interleave: crawl ids are unique, every status is one
    of "running", "failed", "completed" and "stopped", at most one launch is
    due for a crawl and then no task of it exists yet, and a crawl with a task,
    or about to get one, is recorded as "running" or "stopped". *)
Theorem service_well_formed w0 w : fresh_world w0 -> rtc service_step w0 w -> world_inv w.
Proof. intros Hf. apply reachable_world, fresh_inv, Hf. Qed.


(** A crawl without a task in this process, as every crawl given to Kafka is,
    never gets past "running" but by a stop request. *)
Lemma untracked_stays_open id w w' : world_inv w -> id ∉ creating_ids w -> sv_running (w_service w) !! id = None ->
  status_of id (sv_db (w_service w)) = Some "running" -> rtc service_step w w' ->
  status_of id (sv_db (w_service w')) = Some "running" \/ status_of id (sv_db (w_service w')) = Some "stopped".
Proof.
  intros Hi Hc Hn Est Hr. enough (forall w, rtc service_step w w' -> world_inv w ->
    (id ∉ creating_ids w /\ sv_running (w_service w) !! id = None /\ status_of id (sv_db (w_service w)) = Some "running") \/
    settled id "stopped" "stopped" w -> status_of id (sv_db (w_service w')) = Some "running" \/
    status_of id (sv_db (w_service w')) = Some "stopped") as Hgen by (eapply Hgen; [exact Hr|done|by left]).
  clear. intros w Hr. induction Hr as [w|w1 w2 w3 Hs _ IH]; intros Hi.
  { intros [(_ & _ & ?)|Hs]; [auto|]. destruct (settled_status _ _ _ _ Hs) as [?|[? _]]; auto. }
  intros [(Hc & Hn & Est)|Hst]; [|apply IH; [by eapply step_world_inv|right; by eapply settled_step]].
  apply IH; [by eapply step_world_inv|]. clear IH. pose proof (wi_crawls _ Hi) as Wf.
  inversion Hs as [req ns i s s' creating Hns Hins|i args s c1 c2|i s creating|i r s s' creating Hm
    |i t status s creating Ht Hend Hst|i t status s db creating Ht Hend Hdb|i t s creating Ht Hend Hcc|db s creating Ec En]; subst;
    unfold settled, creating_ids in *; cbn [w_service w_creating with_running with_db sv_running sv_db] in *.
  - left. destruct (insert_request_spec _ _ _ _ _ _ Hins Wf) as (_ & Er & Hnone & Hst).
    assert (id <> i) as Hne by congruence. rewrite Hst, Er. destruct (Z.eqb_spec id i); [done|]. split_and!; try done.
    destruct ns; [done|]. destruct (backend _); set_solver.
  - left. rewrite fmap_app in *. cbn [fmap list_fmap fst] in *. rewrite lookup_insert_ne by set_solver. split_and!; try done. set_solver.
  - left. split_and!; try done. by rewrite cancel_lookup, Hn.
  - pose proof (mark_stopped_spec i s) as Hsp. rewrite Hm in Hsp. destruct Hsp as (Er & _ & _ & Hst & _). rewrite Er.
    destruct (Hst id) as [->|(-> & -> & _)]; [by left|right]. rewrite Hn. split_and!; [set_solver|set_solver|done|by left].
  - left. by rewrite lookup_insert_ne by congruence.
  - left. rewrite lookup_delete_ne by congruence. split_and!; [done..|].
    destruct Hdb as [->|[_ ->]]; [|done]. destruct (record_status_spec i status (sv_db s)) as [_ Hrs].
    destruct (Hrs id) as [->|(-> & _)]; [done|]. congruence.
  - left. by rewrite lookup_delete_ne by congruence.
  - left. by rewrite (same_rows (sv_db s)).
Qed.

End Worlds.

(** ** The reads *)

(** The pages of a list put together. *)
Lemma pages_take {T} (l : list T) (k n : nat) : (seq 0 n ≫= fun i => take k (drop (i * k) l)) = take (n * k) l.
Proof.
  induction n as [|n IH]; [done|]. rewrite seq_S, bind_app, IH. cbn. rewrite app_nil_r.
  by rewrite take_take_drop, (Nat.add_comm k).
Qed.

Lemma sum_of_perm {T} (f : T -> Z) (l l' : list T) : l ≡ₚ l' -> sum_of f l = sum_of f l'.
Proof. induction 1; cbn; unfold sum_of in *; cbn; lia. Qed.

Lemma sum_of_app {T} (f : T -> Z) (l l' : list T) : sum_of f (l ++ l') = sum_of f l + sum_of f l'.
Proof. unfold sum_of. induction l as [|x l IH]; cbn; [done|lia]. Qed.

(** The counts of the groups add up to the number of rows. *)
Lemma group_count_sum {T} `{EqDecision T} (keys : list T) : sum_of snd (group_count keys) = Z.of_nat (length keys).
Proof.
  unfold group_count. assert (forall ks : list T, NoDup ks -> (forall k, k ∈ keys -> k ∈ ks) ->
    sum_of snd ((fun k => (k, Z.of_nat (length (filter (fun x => x = k) keys)))) <$> ks) = Z.of_nat (length keys)) as Hgen.
  { clear. induction keys as [|x keys IH]; intros ks Hnd Hin.
    - clear. unfold sum_of. induction ks as [|k ks IHk]; [done|]. exact IHk.
    - assert (forall ks : list T, sum_of snd ((fun k => (k, Z.of_nat (length (filter (fun y => y = k) (x :: keys))))) <$> ks) =
        Z.of_nat (length (filter (fun k => k = x) ks)) +
        sum_of snd ((fun k => (k, Z.of_nat (length (filter (fun y => y = k) keys)))) <$> ks)) as Hsplit.
      { clear. intros ks. induction ks as [|k ks IHk]; [done|]. rewrite !fmap_cons, !filter_cons. unfold sum_of in *. cbn [foldr snd].
        rewrite IHk. destruct (decide (x = k)), (decide (k = x)); try congruence; cbn [length]; lia. }
      rewrite Hsplit, IH by set_solver. cbn [length].
      assert (length (filter (fun k => k = x) ks) = 1%nat) as ->; [|lia].
      assert (x ∈ ks) as Hx by set_solver. clear -Hnd Hx. induction ks as [|k ks IH]; [set_solver|].
      apply NoDup_cons in Hnd as [Hk Hnd]. rewrite filter_cons. case_decide as E.
      + subst k. cbn. f_equal. destruct (filter _ ks) as [|y l] eqn:Ef; [done|].
        assert (y ∈ y :: l) as Hy by left. rewrite <- Ef in Hy. apply list_elem_of_filter in Hy as [-> ?]. done.
      + apply IH; [done|]. set_solver. }
  apply Hgen; [apply NoDup_remove_dups|]. intros k. by rewrite elem_of_remove_dups.
Qed.

Lemma group_count_keys {T} `{EqDecision T} (keys : list T) : (group_count keys).*1 = remove_dups keys.
Proof. unfold group_count. rewrite <- list_fmap_compose. by rewrite list_fmap_id. Qed.

Section Reads.
Context {P : Type} `{CM : Commits, OL : OrderByLaws, RN : Rendering}.
Abbreviation service := (SqlCrawlService P).

Lemma reading_ok {T} (f : DB -> T) (s : service) : commit_error (sv_db s) = None -> reading f s = (Ok (f (sv_db s)), s).
Proof. unfold reading, in_session, session_scope. intros ->. by destruct s. Qed.

(** The statistics add up.  Reading them changes nothing; the counts by HTTP
    status, of distinct statuses, most frequent first, add up to the number of
    documents, and so do the documents of all domains, of which there are as
    many as [domains] says. *)
Theorem stats_consistent (s : service) limit :
  commit_error (sv_db s) = None -> domain_count (sv_db s) <= limit ->
  exists out ds, stats s = (Ok out, s) /\ list_domains limit s = (Ok ds, s) /\
    so_documents out = Z.of_nat (length (db_documents (sv_db s))) /\
    sum_of sc_count (so_by_status out) = so_documents out /\
    NoDup (sc_status <$> so_by_status out) /\ Sorted (fun a b => sc_count b <= sc_count a) (so_by_status out) /\
    sum_of do_documents ds = so_documents out /\ Z.of_nat (length ds) = so_domains out /\
    NoDup (do_registered_domain <$> ds).
Proof.
  intros Hok Hl. unfold stats, list_domains. rewrite !reading_ok by done. eexists _, _. split; [done|]. split; [done|].
  cbn [so_documents so_by_status so_domains]. set (db := sv_db s) in *.
  assert (forall {T U} (f : T -> U) (g : U -> Z) l, sum_of g (f <$> l) = sum_of (fun x => g (f x)) l) as Hmap.
  { intros T U f g l. unfold sum_of. induction l as [|x l IH]; [done|]. cbn. by rewrite IH. }
  set (le := fun a b : option Z * Z => b.2 <=? a.2). set (le' := fun a b : string * Z => b.2 <=? a.2).
  pose proof (order_by_perm le (group_count (d_http_status <$> db_documents db))) as Hp.
  pose proof (order_by_perm le' (group_count (d_registered_domain <$> db_documents db))) as Hp'.
  assert (domain_summary limit db = order_by le' (group_count (d_registered_domain <$> db_documents db))) as Eds.
  { unfold domain_summary. apply take_ge. rewrite Hp'. unfold domain_count in Hl.
    rewrite <- (length_fmap fst), group_count_keys. lia. }
  rewrite Eds. unfold status_histogram. fold le. split_and!.
  - done.
  - rewrite Hmap. cbn. change (fun x : option Z * Z => x.2) with (@snd (option Z) Z).
    rewrite (sum_of_perm _ _ _ Hp), group_count_sum, length_fmap. done.
  - rewrite <- list_fmap_compose. cbn. change (sc_status ∘ _) with (@fst (option Z) Z).
    rewrite (fmap_Permutation fst _ _ Hp), group_count_keys. apply NoDup_remove_dups.
  - assert (Sorted (fun a b => le a b = true) (order_by le (group_count (d_http_status <$> db_documents db)))) as Hs.
    { apply order_by_sorted; unfold le; intros; lia. }
    revert Hs. clear. generalize (order_by le (group_count (d_http_status <$> db_documents db))). intros l Hs.
    induction Hs as [|x l Hs IH Hh]; cbn; constructor; [done|]. destruct Hh; cbn; constructor. unfold le in *. cbn. lia.
  - rewrite Hmap. cbn. change (fun x : string * Z => x.2) with (@snd string Z).
    rewrite (sum_of_perm _ _ _ Hp'), group_count_sum, length_fmap. done.
  - rewrite length_fmap, Hp'. rewrite <- (length_fmap fst), group_count_keys. done.
  - rewrite <- list_fmap_compose. cbn. change (do_registered_domain ∘ _) with (@fst string Z).
    rewrite (fmap_Permutation fst _ _ Hp'), group_count_keys. apply NoDup_remove_dups.
Qed.

(** Paging through the documents is complete.  The documents that match the
    filters have one order, newest first without repetition; page [i] of
    [limit] rows is rows [i * limit] to [(i + 1) * limit - 1] of it, with the
    total; and any number of pages that covers the total, put together, is
    all of it. *)
Theorem pages_concatenate (s : service) limit domain q :
  commit_error (sv_db s) = None -> db_wf (sv_db s) -> 0 < limit ->
  exists docs, docs ≡ₚ List.filter (document_filter ilike domain q) (db_documents (sv_db s)) /\
    StronglySorted (fun a b => d_id b < d_id a) docs /\
    (forall i : nat, list_documents limit (Z.of_nat i * limit) domain q s =
       (Ok (mkDocumentPage (Z.of_nat (length docs)) limit (Z.of_nat i * limit)
              (document_summary <$> take (Z.to_nat limit) (drop (i * Z.to_nat limit) docs))), s)) /\
    (forall n : nat, Z.of_nat (length docs) <= Z.of_nat n * limit ->
       (seq 0 n ≫= fun i => match fst (list_documents limit (Z.of_nat i * limit) domain q s) with
                            | Ok p => dp_items p | Raise _ => [] end) = document_summary <$> docs).
Proof.
  intros Hok Hwf Hl. set (le := fun a b : Document => d_id b <=? d_id a).
  set (matching := List.filter (document_filter ilike domain q) (db_documents (sv_db s))).
  pose proof (order_by_perm le matching) as Hp. exists (order_by le matching).
  assert (forall i : nat, list_documents limit (Z.of_nat i * limit) domain q s =
       (Ok (mkDocumentPage (Z.of_nat (length (order_by le matching))) limit (Z.of_nat i * limit)
              (document_summary <$> take (Z.to_nat limit) (drop (i * Z.to_nat limit) (order_by le matching)))), s)) as Hpage.
  { intros i. unfold list_documents. rewrite reading_ok by done. unfold Storage.list_documents, limit_offset. fold le matching.
    rewrite <- (Permutation_length Hp). by replace (Z.to_nat (Z.of_nat i * limit)) with (i * Z.to_nat limit)%nat by lia. }
  split_and!; [done| |done|].
  - assert (Sorted (fun a b => le a b = true) (order_by le matching)) as Hs by (apply order_by_sorted; unfold le; intros; lia).
    apply Sorted_StronglySorted in Hs; [|intros x y z; unfold le; lia].
    assert (NoDup (d_id <$> order_by le matching)) as Hnd.
    { rewrite Hp. pose proof (wf_ids _ Hwf) as Hids. unfold matching. revert Hids. generalize (db_documents (sv_db s)). clear.
      induction l as [|d l IH]; intros Hids; [constructor|]. apply NoDup_cons in Hids as [Hn Hids]. cbn.
      destruct (document_filter _ _ _ d); [|by apply IH]. constructor; [|by apply IH].
      intros (x & Ex & Hx)%list_elem_of_fmap. apply Hn. rewrite Ex. apply list_elem_of_fmap_2.
      apply list_elem_of_In in Hx. apply List.filter_In in Hx as [Hx _]. by apply list_elem_of_In. }
    revert Hs Hnd. clear. generalize (order_by le matching). intros l Hs Hnd.
    induction Hs as [|x l Hs IH Hall]; [constructor|]. cbn in Hnd. apply NoDup_cons in Hnd as [Hn Hnd]. constructor; [by apply IH|].
    apply Forall_forall. intros y Hy. eapply Forall_forall in Hall; [|exact Hy]. unfold le in Hall.
    assert (d_id x <> d_id y) by (intros E; apply Hn; rewrite E; by apply list_elem_of_fmap_2). lia.
  - intros n Hn. transitivity (seq 0 n ≫= fun i => document_summary <$> take (Z.to_nat limit) (drop (i * Z.to_nat limit) (order_by le matching))).
    { generalize (seq 0 n). induction l as [|i l IH]; [done|]. cbn. by rewrite Hpage, IH. }
    transitivity (document_summary <$> take (n * Z.to_nat limit) (order_by le matching)); [|by rewrite take_ge by lia].
    rewrite <- pages_take.
    generalize (seq 0 n). induction l as [|i l IH]; [done|]. cbn. by rewrite fmap_app, IH.
Qed.

End Reads.

(** ** A concrete service *)

Definition plain_rendering : Rendering := {| isoformat := fun _ => "2024-01-01T00:00:00+00:00"; ilike := fun _ _ => true |}.
#[local] Existing Instances log_kafka json_bytes identity_lib no_commit_error merge_order plain_rendering.

Definition demo_service (s : Settings) (db : DB) : SqlCrawlService (list sent) := mkService s db ∅ ∅ [].
Definition demo_request : CrawlCreate := mkCreate ["http://a.org/"; "mailto:x@a.org"] "demo" 2 10 None.
Definition demo_created : result CrawlOut * SqlCrawlService (list sent) :=
  create_crawl partition_hash demo_request (demo_service default_settings empty_db).

Lemma empty_crawls_wf : crawls_wf empty_db.
Proof. split; cbn; constructor. Qed.

Lemma create_crawl_result_witness :
  fst demo_created = Ok (mkCrawlOut 1 "demo" "running" ["http://a.org/"] 2 10 1) /\
  status_of 1 (sv_db (snd demo_created)) = Some "running".
Proof.
  pose proof (create_crawl_result partition_hash demo_request (demo_service default_settings empty_db)
    empty_crawls_wf (fun _ => eq_refl)) as Hw.
  unfold demo_created. destruct (create_crawl partition_hash demo_request (demo_service default_settings empty_db)) as [r s'].
  assert (normalize_all (cc_seeds demo_request) = Ok ["http://a.org/"]) as En by (vm_compute; reflexivity).
  cbv zeta in Hw. rewrite En in Hw. destruct Hw as (_ & _ & Hst & -> & _). split; [reflexivity|].
  exact (Hst 1).
Defined.

Definition fresh_demo : world := mkWorld (demo_service default_settings empty_db) [].
Lemma fresh_demo_fresh : fresh_world fresh_demo.
Proof. split_and!; [apply empty_crawls_wf|reflexivity|reflexivity|]. intros id st Hst. discriminate Hst. Qed.

(** The world in which the demo crawl has been launched. *)
Definition inserted_demo : SqlCrawlService (list sent) :=
  snd (insert_request demo_request ["http://a.org/"] "running" (demo_service default_settings empty_db)).
Definition launched_demo : SqlCrawlService (list sent) :=
  with_running inserted_demo (<[1 := mkTask (launch_args ["http://a.org/"] 1 demo_request) false None]> ∅).

Lemma inserted_demo_reachable :
  service_step fresh_demo (mkWorld inserted_demo [(1, launch_args ["http://a.org/"] 1 demo_request)]).
Proof.
  apply (step_insert demo_request ["http://a.org/"] 1 (demo_service default_settings empty_db) inserted_demo []);
    vm_compute; reflexivity.
Qed.
Lemma launched_demo_reachable : rtc service_step fresh_demo (mkWorld launched_demo []).
Proof.
  eapply rtc_l; [apply inserted_demo_reachable|]. apply rtc_once.
  apply (step_launch 1 (launch_args ["http://a.org/"] 1 demo_request) inserted_demo [] []).
Qed.

Lemma service_well_formed_witness : world_inv (mkWorld launched_demo []).
Proof. exact (service_well_formed fresh_demo (mkWorld launched_demo []) fresh_demo_fresh launched_demo_reachable). Defined.

(** The demo crawl stopped, and after its task has recorded its end. *)
Definition stopped_demo : SqlCrawlService (list sent) := snd (stop_crawl 1 launched_demo).
Definition demo_task (ending : option string) : LocalTask := mkTask (launch_args ["http://a.org/"] 1 demo_request) true ending.
Definition left_demo : SqlCrawlService (list sent) :=
  with_running stopped_demo (<[1 := demo_task (Some "stopped")]> (sv_running stopped_demo)).
Definition ended_demo : SqlCrawlService (list sent) :=
  with_running (with_db left_demo (record_status 1 "stopped" (sv_db left_demo))) (delete 1 (sv_running left_demo)).

Lemma ended_demo_reachable : rtc service_step (mkWorld stopped_demo []) (mkWorld ended_demo []).
Proof.
  eapply rtc_l; [apply (step_leave 1 (demo_task None) "stopped" stopped_demo [])|].
  - vm_compute. reflexivity.
  - reflexivity.
  - left.
  - fold left_demo. apply rtc_once. apply (step_record 1 (demo_task (Some "stopped")) "stopped" left_demo _ []).
    + unfold left_demo, with_running. cbn [sv_running]. apply lookup_insert_eq.
    + reflexivity.
    + by left.
Qed.

(** A stop request that comes while the task of a crawl that has run to its end
    waits for its [finally] session: it reports "stopped", and the row becomes
    "completed". *)
Definition ending_demo : SqlCrawlService (list sent) :=
  with_running launched_demo (<[1 := mkTask (launch_args ["http://a.org/"] 1 demo_request) false (Some "completed")]>
    (sv_running launched_demo)).
Definition late_stopped_demo : SqlCrawlService (list sent) := snd (stop_crawl 1 ending_demo).
Definition late_ended_demo : SqlCrawlService (list sent) :=
  with_running (with_db late_stopped_demo (record_status 1 "completed" (sv_db late_stopped_demo)))
    (delete 1 (sv_running late_stopped_demo)).
Lemma ending_demo_reachable : rtc service_step fresh_demo (mkWorld ending_demo []).
Proof.
  eapply rtc_r; [exact launched_demo_reachable|].
  apply (step_leave 1 (mkTask (launch_args ["http://a.org/"] 1 demo_request) false None) "completed" launched_demo []).
  - unfold launched_demo, with_running. cbn [sv_running]. apply lookup_insert_eq.
  - reflexivity.
  - left.
Qed.
Lemma late_ended_reachable : rtc service_step (mkWorld late_stopped_demo []) (mkWorld late_ended_demo []).
Proof.
  apply rtc_once. apply (step_record 1 (demo_task (Some "completed")) "completed" late_stopped_demo _ []).
  - vm_compute. reflexivity.
  - reflexivity.
  - by left.
Qed.
Lemma late_stop_is_overwritten :
  rtc service_step fresh_demo (mkWorld ending_demo []) /\
  fst (stop_crawl 1 ending_demo) = Ok (Some (mkActionOut 1 "stopped")) /\
  rtc service_step (mkWorld (snd (stop_crawl 1 ending_demo)) []) (mkWorld late_ended_demo []) /\
  status_of 1 (sv_db late_ended_demo) = Some "completed".
Proof.
  split; [exact ending_demo_reachable|]. split; [vm_compute; reflexivity|]. split; [exact late_ended_reachable|vm_compute; reflexivity].
Qed.


(** A stop request between the session of [create_crawl] and its launch finds no
    task: it reports "stopped", and the crawl then runs and is "completed". *)
Example launch_race :
  exists s w, stop_crawl 1 inserted_demo = (Ok (Some (mkActionOut 1 "stopped")), s) /\
    rtc service_step (mkWorld s [(1, launch_args ["http://a.org/"] 1 demo_request)]) w /\
    status_of 1 (sv_db (w_service w)) = Some "completed".
Proof.
  set (args := launch_args ["http://a.org/"] 1 demo_request).
  exists (snd (stop_crawl 1 inserted_demo)). set (s := snd (stop_crawl 1 inserted_demo)).
  set (s2 := with_running s (<[1 := mkTask args false None]> (sv_running s))).
  set (s3 := with_running s2 (<[1 := mkTask args false (Some "completed")]> (sv_running s2))).
  exists (mkWorld (with_running (with_db s3 (record_status 1 "completed" (sv_db s3))) (delete 1 (sv_running s3))) []).
  split; [vm_compute; reflexivity|]. split; [|vm_compute; reflexivity].
  eapply rtc_l; [apply (step_launch 1 args s [] [])|]. fold s2.
  eapply rtc_l; [apply (step_leave 1 (mkTask args false None) "completed" s2 [])|].
  - unfold s2, with_running. cbn [sv_running]. apply lookup_insert_eq.
  - reflexivity.
  - left.
  - fold s3. apply rtc_once. apply (step_record 1 (mkTask args false (Some "completed")) "completed" s3 _ []).
    + unfold s3, with_running. cbn [sv_running]. apply lookup_insert_eq.
    + reflexivity.
    + by left.
Qed.

(** Settings with the Kafka frontier. *)
Definition kafka_settings : Settings := {|
  base_url := ""; log_level := ""; log_json := false; postgres := postgres default_settings; redis := redis default_settings;
  kafka := kafka default_settings; fetch := fetch default_settings; politeness := politeness default_settings;
  crawl := crawl default_settings; dedup := dedup default_settings;
  frontier := {| backend := FrontierKafka; max_in_flight := 1000 |};
  sharding := sharding two_partitions; storage := storage default_settings; resilience := resilience default_settings;
  recrawl := recrawl default_settings |}.

(** A crawl published to Kafka: its limits are nowhere in the message, and no
    task will ever record its end ([untracked_stays_open]). *)
Example kafka_crawl_open :
  let '(r, s) := create_crawl partition_hash demo_request (demo_service kafka_settings empty_db) in
  r = Ok (mkCrawlOut 1 "demo" "running" ["http://a.org/"] 2 10 1) /\ sv_running s = ∅ /\
  (sv_frontiers s ≫= fun f => default [] (kf_producer f)) =
    [mkSent "crawler.frontier"
       (JObj [("url", JStr "http://a.org/"); ("depth", JInt 0); ("crawl_id", JInt 1); ("attempts", JInt 0);
              ("not_before", JFloat 0)]) "a.org" (Some 1)].
Proof. vm_compute. split_and!; reflexivity. Qed.

(** A seed the parser rejects is an error of the server, not of the request. *)
Example malformed_seed_raises :
  create_crawl partition_hash (mkCreate ["http://a.org/"; "http://[bad"] "demo" 2 10 None) (demo_service default_settings empty_db)
    = (Raise ValueError, demo_service default_settings empty_db).
Proof. vm_compute. reflexivity. Qed.

Definition stocked : SqlCrawlService (list sent) := demo_service default_settings (sql_save_page page_a empty_db).

#[local] Existing Instance merge_order_laws.
Lemma stats_consistent_witness :
  exists out, stats stocked = (Ok out, stocked) /\ sum_of sc_count (so_by_status out) = 1.
Proof.
  destruct (stats_consistent stocked 50 eq_refl ltac:(vm_compute; discriminate)) as (out & ds & E & _ & Hd & Hs & _).
  exists out. split; [exact E|]. rewrite Hs, Hd. reflexivity.
Defined.

Lemma pages_concatenate_witness :
  (seq 0 1 ≫= fun i => match fst (list_documents 1 (Z.of_nat i * 1) None None stocked) with
                       | Ok p => dp_items p | Raise _ => [] end)
    = [mkDocumentSummary 1 "http://a.org/" "a.org" (Some 200) (Some "A") 0 0 3].
Proof.
  destruct (pages_concatenate stocked 1 None None eq_refl (sql_save_page_wf page_a empty_db empty_db_wf) ltac:(reflexivity))
    as (docs & Hp & _ & _ & Hall).
  apply Permutation_sym in Hp. vm_compute in Hp. apply Permutation_length_1_inv in Hp. subst docs.
  rewrite (Hall 1%nat ltac:(vm_compute; discriminate)). reflexivity.
Defined.
