(* ===== verification/Api.v ===== *)
(** * The HTTP control plane ([crawler/api/routes.py], [app.py])

    The routes over any [CrawlService]: how a request's parameters are checked,
    which method is called with which arguments, and the status code of the
    answer.  FastAPI's validation is written out for the declared constraints:
    a request that violates one is answered 422 before the handler runs; an
    exception of the service is not caught by the routes ([Raise], which the
    server answers with 500).  The restoring of assets at startup is at the
    end; [App] has the paths that lead to the routes.

    [status_codes]: the code of every answer; [reads_change_nothing]: which
    requests can change the service and how large a listing can be. *)
From S2P Require Import Prelude PyStr Config Models UrlUtils Frontier Storage Sessions Schemas Service.
Local Open Scope Z_scope.

(** ** Requests *)

(** A query or path parameter that is declared [int]. *)
Inductive int_param : Type := Absent | NotAnInt | Int (n : Z).

Inductive request : Type :=
| PostCrawls (body : option CrawlBody)   (* [None]: not JSON, or a field of another type *)
| GetCrawls (limit : int_param)
| PostStop (crawl_id : int_param)
| GetStats
| GetDocuments (limit offset : int_param) (domain q : option string)
| GetDomains (limit : int_param)
| GetDocument (doc_id : int_param)
| GetGraph (limit : int_param).

Inductive payload : Type :=
| PCrawl (c : CrawlOut) | PCrawls (l : list CrawlSummary) | PAction (a : CrawlActionOut) | PStats (s : StatsOut)
| PDocuments (p : DocumentPage) | PDomains (l : list DomainOut) | PDocument (d : DocumentOut) | PGraph (g : GraphOut)
| PDetail (detail : string) | PInvalid.

Record response : Type := mkHttp { rp_status : Z; rp_payload : payload }.
Definition unprocessable : response := mkHttp 422 PInvalid.

(** [Query(default, ge=lo, le=hi)]; [None] is a validation error. *)
Definition query_int (default_value lo : Z) (hi : option Z) (p : int_param) : option Z :=
  match p with
  | Absent => Some default_value
  | NotAnInt => None
  | Int n => if within lo hi n then Some n else None
  end.
(** An [int] in the path. *)
Definition path_int (p : int_param) : option Z := match p with Int n => Some n | _ => None end.

Section Routes.
Context {S : Type} `{CS : CrawlService S}.

(** The handlers. *)
Definition create_crawl (req : CrawlCreate) : act S response :=
  let! out := svc_create req in aret (mkHttp 201 (PCrawl out)).
Definition list_crawls (limit : Z) : act S response :=
  let! l := svc_crawls limit in aret (mkHttp 200 (PCrawls l)).
Definition stop_crawl (crawl_id : Z) : act S response :=
  let! r := svc_stop crawl_id in
  aret (match r with None => mkHttp 404 (PDetail "crawl not found") | Some a => mkHttp 200 (PAction a) end).
Definition get_stats : act S response := let! st := svc_stats in aret (mkHttp 200 (PStats st)).
Definition list_documents (limit offset : Z) (domain q : option string) : act S response :=
  let! p := svc_documents limit offset domain q in aret (mkHttp 200 (PDocuments p)).
Definition list_domains (limit : Z) : act S response :=
  let! l := svc_domains limit in aret (mkHttp 200 (PDomains l)).
Definition get_document (doc_id : Z) : act S response :=
  let! d := svc_document doc_id in
  aret (match d with None => mkHttp 404 (PDetail "document not found") | Some d => mkHttp 200 (PDocument d) end).
Definition get_graph (limit : Z) : act S response :=
  let! g := svc_graph limit in aret (mkHttp 200 (PGraph g)).

(** A handler on its checked arguments. *)
Definition checked {X} (x : option X) (h : X -> act S response) : act S response :=
  match x with Some a => h a | None => aret unprocessable end.

Definition route (r : request) : act S response :=
  match r with
  | PostCrawls body => checked (body ≫= validate_create) create_crawl
  | GetCrawls limit => checked (query_int 50 1 (Some 200) limit) list_crawls
  | PostStop crawl_id => checked (path_int crawl_id) stop_crawl
  | GetStats => get_stats
  | GetDocuments limit offset domain q =>
      checked (query_int 50 1 (Some 200) limit) (fun limit =>
        checked (query_int 0 0 None offset) (fun offset => list_documents limit offset domain q))
  | GetDomains limit => checked (query_int 50 1 (Some 500) limit) list_domains
  | GetDocument doc_id => checked (path_int doc_id) get_document
  | GetGraph limit => checked (query_int 20 1 (Some 200) limit) get_graph
  end.

(** ** Specification *)

(** The declared constraints, as a reader of the API documentation has them. *)
Definition in_range (lo : Z) (hi : option Z) (p : int_param) : Prop :=
  match p with
  | Absent => True
  | NotAnInt => False
  | Int n => lo <= n /\ forall h, hi = Some h -> n <= h
  end.
Definition well_formed (r : request) : Prop :=
  match r with
  | PostCrawls body => exists b, body = Some b /\ (exists ss, bd_seeds b = Some ss /\ ss <> []) /\
      0 <= default 3 (bd_max_depth b) <= 20 /\ 1 <= default 1000 (bd_max_pages b)
  | GetCrawls l | GetGraph l => in_range 1 (Some 200) l
  | GetDomains l => in_range 1 (Some 500) l
  | GetDocuments l o _ _ => in_range 1 (Some 200) l /\ in_range 0 None o
  | PostStop i | GetDocument i => exists n, i = Int n
  | GetStats => True
  end.

Lemma query_int_range d lo hi p : is_Some (query_int d lo hi p) <-> in_range lo hi p.
Proof.
  destruct p as [| |n]; cbn; [split; [done|by eexists]|split; [by intros [? ?]|done]|].
  unfold within. destruct hi as [h|]; destruct (Z.leb_spec lo n); cbn.
  - destruct (Z.leb_spec n h); (split; [intros [? ?]|intros [? Hh]]); try done; [naive_solver|specialize (Hh h eq_refl); lia].
  - split; [by intros [? ?]|]. intros [? _]. lia.
  - split; [done|by eexists].
  - split; [by intros [? ?]|]. intros [? _]. lia.
Qed.

Lemma path_int_range p : is_Some (path_int p) <-> exists n, p = Int n.
Proof. split; [intros [n Hn]|intros [n ->]; by exists n]. destruct p as [| |m]; [done|done|]. by exists m. Qed.

Lemma validate_well_formed body : is_Some (body ≫= validate_create) <-> well_formed (PostCrawls body).
Proof.
  cbn. split.
  - intros [req E]. destruct body as [b|]; [|done]. cbn in E. apply create_valid in E as (Es & Hne & _ & Ed & Hd & Ep & Hp & _).
    exists b. split; [done|]. rewrite <- Ed, <- Ep. split; [by exists (cc_seeds req)|done].
  - intros (b & -> & (ss & Es & Hne) & Hd & Hp). cbn.
    exists (mkCreate ss (default "crawl" (bd_name b)) (default 3 (bd_max_depth b)) (default 1000 (bd_max_pages b)) (bd_allowed_domains b)).
    by apply create_valid.
Qed.

(** The code of a handled request, from what the service returned. *)
Definition expected_status (r : request) (p : payload) : Z :=
  match r, p with
  | PostCrawls _, _ => 201
  | PostStop _, PDetail _ | GetDocument _, PDetail _ => 404
  | _, _ => 200
  end.

(** C22: every answer has the code the API promises.  A request is answered 422
    exactly when it violates a declared constraint (a crawl needs a seed, a
    depth of 0 to 20 and at least one page; limits and offsets have their
    ranges, ids are integers), and then the service is not touched; any other
    request is answered 201 when it creates a crawl, 404 when the service does
    not know the id, 200 otherwise, or ends in the service's own exception. *)
Theorem status_codes (r : request) (s : S) :
  let '(x, s') := route r s in
  (~ well_formed r <-> x = Ok unprocessable) /\
  (~ well_formed r -> s' = s) /\
  (forall a, well_formed r -> x = Ok a -> rp_status a = expected_status r (rp_payload a)) /\
  (forall e, x = Raise e -> well_formed r).
Proof.
  assert (forall X (o : option X) (h : X -> act S response) (W : Prop), (is_Some o <-> W) ->
    (forall a y, o = Some a -> fst (h a s) = Ok y -> rp_status y = expected_status r (rp_payload y) /\ y <> unprocessable) ->
    let '(x, s') := checked o h s in
    (~ W <-> x = Ok unprocessable) /\ (~ W -> s' = s) /\
    (forall y, W -> x = Ok y -> rp_status y = expected_status r (rp_payload y)) /\ (forall e, x = Raise e -> W)) as Hcheck.
  { intros X o h W HW Hh. destruct o as [a|]; cbn [checked].
    - assert W as Hw by by apply HW. specialize (Hh a). destruct (h a s) as [x s']. cbn [fst] in Hh. split_and!; try done.
      + split; [done|]. intros ->. by destruct (Hh unprocessable eq_refl eq_refl).
      + intros y _ ->. by destruct (Hh y eq_refl eq_refl).
    - assert (~ W) as Hw by (intros ?%HW; by apply is_Some_None in H). unfold aret. by split_and!. }
  destruct r as [body|l|i| |l o d q|l|i|l]; cbn [route].
  - apply Hcheck; [apply validate_well_formed|]. intros a y _. unfold create_crawl, abind, aret.
    destruct (svc_create a s) as [[out|e] s1]; [|done]. by intros [= <-].
  - apply Hcheck; [apply query_int_range|]. intros a y _. unfold list_crawls, abind, aret.
    destruct (svc_crawls a s) as [[out|e] s1]; [|done]. by intros [= <-].
  - apply Hcheck; [apply path_int_range|].
    intros a y _. unfold stop_crawl, abind, aret. destruct (svc_stop a s) as [[[out|]|e] s1]; [| |done]; by intros [= <-].
  - unfold get_stats, abind, aret. destruct (svc_stats s) as [[out|e] s1]; cbn; split_and!; try done; try (split; [tauto|done]); try tauto.
    by intros y _ [= <-].
  - destruct (query_int 50 1 (Some 200) l) as [l'|] eqn:El.
    + assert (in_range 1 (Some 200) l) as Hl by (apply (query_int_range 50); by rewrite El). cbn [checked].
      apply Hcheck; [cbn [well_formed]; rewrite (query_int_range 0 0 None o); tauto|]. intros a y _. unfold list_documents, abind, aret.
      destruct (svc_documents l' a d q s) as [[out|e] s1]; [|done]. by intros [= <-].
    + assert (~ in_range 1 (Some 200) l) as Hl by (intros [? ?]%(query_int_range 50); congruence). cbn. unfold aret.
      split_and!; try done; try (split; [done|tauto]); tauto.
  - apply Hcheck; [apply query_int_range|]. intros a y _. unfold list_domains, abind, aret.
    destruct (svc_domains a s) as [[out|e] s1]; [|done]. by intros [= <-].
  - apply Hcheck; [apply path_int_range|].
    intros a y _. unfold get_document, abind, aret. destruct (svc_document a s) as [[[out|]|e] s1]; [| |done]; by intros [= <-].
  - apply Hcheck; [apply query_int_range|]. intros a y _. unfold get_graph, abind, aret.
    destruct (svc_graph a s) as [[out|e] s1]; [|done]. by intros [= <-].
Qed.

(** How many rows a listing returns. *)
Definition rows (p : payload) : Z :=
  match p with
  | PCrawls l => Z.of_nat (length l) | PDocuments p => Z.of_nat (length (dp_items p))
  | PDomains l => Z.of_nat (length l) | PGraph g => Z.of_nat (length (go_top_pages g)) | _ => 0
  end.

Lemma query_int_le d lo h p n : d <= h -> query_int d lo (Some h) p = Some n -> 0 <= lo -> 0 <= d -> 0 <= n <= h.
Proof.
  intros Hd. destruct p as [| |m]; cbn; [intros [= <-]; lia|done|]. unfold within.
  destruct (Z.leb_spec lo m), (Z.leb_spec m h); try done. intros [= <-]. lia.
Qed.

Context `{SP : !CrawlServiceSpec S}.

(** Only the two POST routes can change anything: every GET request, valid
    or not, answered or not, leaves the service exactly as it was; and no
    answer lists more than 200 rows (500 for domains), whatever limit is asked
    for and however much is stored. *)
Theorem reads_change_nothing (r : request) (s : S) :
  match r with
  | PostCrawls _ | PostStop _ => True
  | _ => snd (route r s) = s
  end /\
  forall a, fst (route r s) = Ok a -> rows (rp_payload a) <= match r with GetDomains _ => 500 | _ => 200 end.
Proof.
  assert (forall X (o : option X) (h : X -> act S response), (forall a, o = Some a -> snd (h a s) = s) ->
    snd (checked o h s) = s) as Hst by (intros X [a|] h Hh; cbn; auto).
  destruct r as [body|l|i| |l o d q|l|i|l]; cbn [route]; split; try done.
  - intros a. destruct (body ≫= validate_create) as [req|]; cbn; [|by intros [= <-]]. unfold create_crawl, abind, aret.
    destruct (svc_create req s) as [[out|e] s1]; [|done]. by intros [= <-].
  - destruct (query_int 50 1 (Some 200) l) as [n|]; [|done]. cbn. unfold list_crawls, abind, aret.
    destruct (read_crawls n s) as [E _]. by destruct (svc_crawls n s) as [[out|e] s1].
  - intros a. destruct (query_int 50 1 (Some 200) l) as [n|] eqn:En; [|by intros [= <-]]. cbn. unfold list_crawls, abind, aret.
    destruct (read_crawls n s) as [_ Hb]. destruct (svc_crawls n s) as [[out|e] s1]; [|done]. intros [= <-]. cbn.
    specialize (Hb out eq_refl). apply query_int_le in En; lia.
  - intros a. destruct (path_int i) as [n|]; [|by intros [= <-]]. cbn. unfold stop_crawl, abind, aret.
    destruct (svc_stop n s) as [[[out|]|e] s1]; [| |done]; by intros [= <-].
  - unfold get_stats, abind, aret. pose proof (read_stats s) as E. by destruct (svc_stats s) as [[out|e] s1].
  - intros a. unfold get_stats, abind, aret. destruct (svc_stats s) as [[out|e] s1]; [|done]. by intros [= <-].
  - destruct (query_int 50 1 (Some 200) l) as [n|]; [|done]. destruct (query_int 0 0 None o) as [m|]; [|done]. cbn.
    unfold list_documents, abind, aret. destruct (read_documents n m d q s) as [E _]. by destruct (svc_documents n m d q s) as [[out|e] s1].
  - intros a. destruct (query_int 50 1 (Some 200) l) as [n|] eqn:En; [|by intros [= <-]].
    destruct (query_int 0 0 None o) as [m|]; [|by intros [= <-]]. cbn. unfold list_documents, abind, aret.
    destruct (read_documents n m d q s) as [_ Hb]. destruct (svc_documents n m d q s) as [[out|e] s1]; [|done]. intros [= <-]. cbn.
    specialize (Hb out eq_refl). apply query_int_le in En; lia.
  - destruct (query_int 50 1 (Some 500) l) as [n|]; [|done]. cbn. unfold list_domains, abind, aret.
    destruct (read_domains n s) as [E _]. by destruct (svc_domains n s) as [[out|e] s1].
  - intros a. destruct (query_int 50 1 (Some 500) l) as [n|] eqn:En; [|by intros [= <-]]. cbn. unfold list_domains, abind, aret.
    destruct (read_domains n s) as [_ Hb]. destruct (svc_domains n s) as [[out|e] s1]; [|done]. intros [= <-]. cbn.
    specialize (Hb out eq_refl). apply query_int_le in En; lia.
  - destruct (path_int i) as [n|]; [|done]. cbn. unfold get_document, abind, aret. pose proof (read_document n s) as E.
    by destruct (svc_document n s) as [[out|e] s1].
  - intros a. destruct (path_int i) as [n|]; [|by intros [= <-]]. cbn. unfold get_document, abind, aret.
    destruct (svc_document n s) as [[[out|]|e] s1]; [| |done]; by intros [= <-].
  - destruct (query_int 20 1 (Some 200) l) as [n|]; [|done]. cbn. unfold get_graph, abind, aret.
    destruct (read_graph n s) as [E _]. by destruct (svc_graph n s) as [[out|e] s1].
  - intros a. destruct (query_int 20 1 (Some 200) l) as [n|] eqn:En; [|by intros [= <-]]. cbn. unfold get_graph, abind, aret.
    destruct (read_graph n s) as [_ Hb]. destruct (svc_graph n s) as [[out|e] s1]; [|done]. intros [= <-]. cbn.
    specialize (Hb out eq_refl). apply query_int_le in En; lia.
Qed.

End Routes.

(** ** Startup ([app.py], [dashboard.py]) *)

(** [Path.with_suffix(".js")] of a path that ends in ".txt". *)
Definition js_of (txt : string) : string := String.substring 0 (String.length txt - 4) txt +:+ ".js".

(** [_restore_mail_safe_assets]: [txts] is what [rglob("*.txt")] yields, [files]
    the contents by path, and [copy] whether [copyfile] succeeds; an [OSError]
    ends the loop. *)
Fixpoint restore_mail_safe_assets (copy : string -> bool) (txts : list string) (files : gmap string string) : gmap string string :=
  match txts with
  | [] => files
  | txt :: rest =>
      match files !! js_of txt with
      | Some _ => restore_mail_safe_assets copy rest files
      | None =>
          match files !! txt with
          | Some content =>
              if copy txt then restore_mail_safe_assets copy rest (<[js_of txt := content]> files) else files
          | None => files
          end
      end
  end.

(** [_asset_version]: the token from the modification time of app.js. *)
Definition asset_version (mtime : option Q) (version : string) : string :=
  match mtime with Some t => pretty (py_int t) | None => version end.

(** Scripts that are there are never overwritten, every [.txt] gets its script
    when no copy fails, and a second start changes nothing. *)
Lemma restore_assets_spec copy txts files : let files' := restore_mail_safe_assets copy txts files in
  (forall p c, files !! p = Some c -> files' !! p = Some c) /\
  ((forall t, t ∈ txts -> copy t = true /\ is_Some (files !! t)) ->
     (forall t, t ∈ txts -> is_Some (files' !! js_of t)) /\ restore_mail_safe_assets copy txts files' = files').
Proof.
  cbv zeta. assert (forall txts files p c, files !! p = Some c -> restore_mail_safe_assets copy txts files !! p = Some c) as Hkeep.
  { clear. induction txts as [|t txts IH]; intros files p c Hp; [done|]. cbn.
    destruct (files !! js_of t) eqn:E; [by apply IH|]. destruct (files !! t); [|done]. destruct (copy t); [|done].
    apply IH. rewrite lookup_insert_ne by congruence. done. }
  split; [apply Hkeep|]. intros Hall.
  assert (forall t, t ∈ txts -> is_Some (restore_mail_safe_assets copy txts files !! js_of t)) as Hjs.
  { revert files Hall. induction txts as [|t txts IH]; intros files Hall; [set_solver|]. cbn.
    destruct (files !! js_of t) as [c|] eqn:E.
    - intros t' [->|Ht]%elem_of_cons; [exists c; by apply Hkeep|]. apply IH; [|done]. intros x Hx. apply Hall. by right.
    - destruct (Hall t) as [Hc [c Ec]]; [by left|]. rewrite Ec, Hc. intros t' [->|Ht]%elem_of_cons.
      + exists c. apply Hkeep, lookup_insert_eq.
      + apply IH; [|done]. intros x Hx. destruct (Hall x) as [? Hs]; [by right|]. split; [done|].
        destruct (decide (x = js_of t)) as [->|]; [by rewrite lookup_insert_eq; eexists|by rewrite lookup_insert_ne]. }
  split; [done|]. revert Hjs. generalize (restore_mail_safe_assets copy txts files). clear.
  induction txts as [|t txts IH]; intros files Hjs; [done|]. cbn.
  destruct (Hjs t) as [c ->]; [by left|]. apply IH. intros x Hx. apply Hjs. by right.
Qed.

(** ** Concrete instances *)
#[local] Existing Instances log_kafka json_bytes identity_lib no_commit_error merge_order plain_rendering.
#[local] Instance demo_api : CrawlService (SqlCrawlService (list sent)) := sql_crawl_service partition_hash.

Lemma reads_change_nothing_witness :
  snd (route (GetDomains (Int 500)) stocked) = stocked /\
  (forall a, fst (route (GetDomains (Int 500)) stocked) = Ok a -> rows (rp_payload a) <= 500).
Proof. exact (reads_change_nothing (GetDomains (Int 500)) stocked). Defined.

Lemma status_codes_witness :
  fst (route (PostCrawls (Some (mkBodyIn (Some []) None None None None))) stocked) = Ok unprocessable /\
  snd (route (PostCrawls (Some (mkBodyIn (Some ["http://a.org/"]) None (Some 21) None None))) stocked) = stocked.
Proof.
  split.
  - pose proof (status_codes (PostCrawls (Some (mkBodyIn (Some []) None None None None))) stocked) as Hw.
    destruct (route _ stocked) as [x s']. apply Hw. intros (b & Eb & (ss & Es & Hne) & _). injection Eb as <-. injection Es as <-.
    apply Hne. reflexivity.
  - pose proof (status_codes (PostCrawls (Some (mkBodyIn (Some ["http://a.org/"]) None (Some 21) None None))) stocked) as Hw.
    destruct (route _ stocked) as [x s']. apply Hw. intros (b & Eb & _ & [_ Hd] & _). injection Eb as <-. vm_compute in Hd.
    apply Hd. reflexivity.
Defined.

(** A malformed seed passes the validation and ends in an exception (500). *)
Example malformed_seed_is_500 :
  fst (route (PostCrawls (Some (mkBodyIn (Some ["http://[bad"]) None None None None))) stocked) = Raise ValueError.
Proof. vm_compute. reflexivity. Qed.

Example unknown_crawl_is_404 : fst (route (PostStop (Int 7)) stocked) = Ok (mkHttp 404 (PDetail "crawl not found")).
Proof. vm_compute. reflexivity. Qed.
