(* ===== verification/App.v ===== *)
(** * The web application ([crawler/api/app.py], [dashboard.py])

    [create_app] with its startup, the routes it registers in their order, and
    the handlers that are not in [Api]: health, metrics and the dashboard page.
    Starlette's router, the reading of an [int], the templates' engine and the
    metrics exposition are parameters; of the router it is used that it finds a
    route that matches, and answers 405 when only the method is wrong.

    [order_does_not_matter]: no path is claimed by two routes;
    [urls_reach_handlers]: every request of the API arrives at its handler with
    its arguments; [startup_repeats]: a second start changes nothing. *)
From Stdlib Require Import Ascii.
From S2P Require Import Prelude PyStr Logging Config Models UrlUtils Frontier Storage Sessions Schemas Service Api.
Local Open Scope Z_scope.

(** ** Path templates *)

(** A segment of a template: text, ["{name}"], or ["{name:path}"]. *)
Inductive piece : Type := Lit (s : string) | Param (name : string) | Rest (name : string).
Definition piece_of (seg : string) : piece :=
  match seg with
  | String "{"%char inner =>
      match partition ":"%char inner with
      | (name, true, _) => Rest name
      | (name, false, _) => Param (String.substring 0 (String.length name - 1) name)
      end
  | _ => Lit seg
  end.
Definition compile (template : string) : list piece := piece_of <$> split "/"%char template.

(** A parameter is a segment that is not empty; a path parameter takes
    everything that is left. *)
Fixpoint match_pieces (ps : list piece) (segs : list string) : option (list (string * string)) :=
  match ps, segs with
  | [], [] => Some []
  | [Rest name], seg :: segs => Some [(name, join "/" (seg :: segs))]
  | Lit s :: ps, seg :: segs => if decide (seg = s) then match_pieces ps segs else None
  | Param name :: ps, seg :: segs =>
      if decide (seg = "") then None else (fun rest => (name, seg) :: rest) <$> match_pieces ps segs
  | _, _ => None
  end.

(** The parameters of a path under a template. *)
Definition match_path (template path : string) : option (list (string * string)) :=
  match_pieces (compile template) (split "/"%char path).

(** ** Routes *)

Inductive endpoint : Type :=
| OpenApi | SwaggerUi | SwaggerRedirect | Redoc | Health | Metrics
| CreateCrawl | ListCrawls | StopCrawl | GetStatsRoute | ListDocuments | ListDomains | GetDocumentRoute | GetGraphRoute
| DashboardPage | StaticFiles.
#[export] Instance endpoint_eq_dec : EqDecision endpoint.
Proof. solve_decision. Defined.

(** The methods ([None]: any), the template, and the handler. *)
Record Route : Type := mkRoute { rt_methods : option (list string); rt_path : string; rt_endpoint : endpoint }.
#[export] Instance Route_eq_dec : EqDecision Route.
Proof. solve_decision. Defined.
Definition get_route (path : string) (e : endpoint) : Route := mkRoute (Some ["GET"]) path e.
Definition post_route (path : string) (e : endpoint) : Route := mkRoute (Some ["POST"]) path e.

(** [router] of [routes.py], and of [dashboard.py]. *)
Definition api_prefix : string := "/api/v1".
Definition crawl_router : list Route :=
  [post_route (api_prefix +:+ "/crawls") CreateCrawl; get_route (api_prefix +:+ "/crawls") ListCrawls;
   post_route (api_prefix +:+ "/crawls/{crawl_id}/stop") StopCrawl; get_route (api_prefix +:+ "/stats") GetStatsRoute;
   get_route (api_prefix +:+ "/documents") ListDocuments; get_route (api_prefix +:+ "/domains") ListDomains;
   get_route (api_prefix +:+ "/documents/{doc_id}") GetDocumentRoute; get_route (api_prefix +:+ "/graph") GetGraphRoute].
Definition dashboard_router : list Route := [get_route "/" DashboardPage; get_route "/dashboard" DashboardPage].
(** What [FastAPI(...)] registers itself. *)
Definition docs_routes : list Route :=
  (fun pe => mkRoute (Some ["GET"; "HEAD"]) pe.1 pe.2) <$>
    [("/openapi.json", OpenApi); ("/docs", SwaggerUi); ("/docs/oauth2-redirect", SwaggerRedirect); ("/redoc", Redoc)].
Definition app_routes : list Route :=
  docs_routes ++ [get_route "/health" Health; get_route "/metrics" Metrics] ++ crawl_router ++ dashboard_router ++
  [mkRoute None "/static/{path:path}" StaticFiles].

(** ** Dispatch *)

Inductive dispatched : Type := Handled (e : endpoint) (params : list (string * string)) | MethodNotAllowed | NotFound.

Definition allows (m : string) (r : Route) : bool :=
  match rt_methods r with Some ms => bool_decide (m ∈ ms) | None => true end.

(** Starlette and FastAPI: where a request goes, and a parameter declared [int]. *)
Class Starlette := { dispatch : list Route -> string -> string -> dispatched; int_value : string -> int_param }.
(** As they document it: a request is handled by a route that matches its path
    and allows its method; it is refused with 405 when routes match and none
    allows the method, and there is no route when none matches. *)
Class StarletteLaws `{Starlette} := {
  dispatch_cases routes m path :
    match dispatch routes m path with
    | Handled e params => exists r, r ∈ routes /\ rt_endpoint r = e /\ match_path (rt_path r) path = Some params /\ allows m r = true
    | MethodNotAllowed => (exists r, r ∈ routes /\ is_Some (match_path (rt_path r) path)) /\
        forall r, r ∈ routes -> is_Some (match_path (rt_path r) path) -> allows m r = false
    | NotFound => forall r, r ∈ routes -> match_path (rt_path r) path = None
    end;
  int_value_pretty (z : Z) : int_value (pretty z) = Int z;
  int_value_text c t : is_alpha c = true -> int_value (String c t) = NotAnInt }.

(** ** Handlers *)

(** A request: the method, the decoded path, the query, and the body as
    validated against [CrawlCreate]. *)
Record HttpRequest : Type := mkRequest {
  hq_method : string; hq_path : string; hq_query : string -> option string; hq_body : option CrawlBody }.

(** What is answered: an answer of the API with its status; the health object;
    the metrics' text; a page with its context and its Cache-Control header; an
    answer of the libraries (documentation, static files); 405; or what the
    router does when no route matches (404, or the redirect to the path with or
    without a trailing slash). *)
Inductive answer : Type :=
| AApi (r : Api.response) | AHealth (status version : string) | AMetrics (text : string)
| APage (template : string) (context : list (string * string)) (cache_control : string)
| ALibrary (e : endpoint) (params : list (string * string)) | ANotAllowed | ANoRoute.

Definition health : answer := AHealth "ok" __version__.
Definition dashboard (mtime : option Q) : answer :=
  APage "dashboard.html" [("version", __version__); ("api_prefix", api_prefix); ("asset_version", asset_version mtime __version__)] "no-store".

Section Handlers.
Context {S : Type} `{CS : CrawlService S, ST : Starlette}.
(** [generate_latest()] and the modification time of app.js. *)
Variable generate_latest : string.
Variable mtime : option Q.

Definition int_query (q : HttpRequest) (name : string) : int_param := from_option int_value Absent (hq_query q name).
Definition int_path (params : list (string * string)) (name : string) : int_param :=
  match List.find (fun nv => String.eqb (fst nv) name) params with Some (_, v) => int_value v | None => Absent end.

(** The request of [Api] an endpoint of the crawl router is called with. *)
Definition api_request (e : endpoint) (params : list (string * string)) (q : HttpRequest) : option Api.request :=
  match e with
  | CreateCrawl => Some (PostCrawls (hq_body q))
  | ListCrawls => Some (GetCrawls (int_query q "limit"))
  | StopCrawl => Some (PostStop (int_path params "crawl_id"))
  | GetStatsRoute => Some GetStats
  | ListDocuments => Some (GetDocuments (int_query q "limit") (int_query q "offset") (hq_query q "domain") (hq_query q "q"))
  | ListDomains => Some (GetDomains (int_query q "limit"))
  | GetDocumentRoute => Some (GetDocument (int_path params "doc_id"))
  | GetGraphRoute => Some (GetGraph (int_query q "limit"))
  | _ => None
  end.

Definition handle (q : HttpRequest) : act S answer :=
  match dispatch app_routes (hq_method q) (hq_path q) with
  | NotFound => aret ANoRoute
  | MethodNotAllowed => aret ANotAllowed
  | Handled e params =>
      match api_request e params q with
      | Some r => let! x := Api.route r in aret (AApi x)
      | None =>
          aret match e with
               | Health => health
               | Metrics => AMetrics generate_latest
               | DashboardPage => dashboard mtime
               | e => ALibrary e params
               end
      end
  end.
End Handlers.

(** ** Startup *)

(** [create_app]: the logging is configured, and the application has its routes
    and the files under [static]; and what the first request finds: the tables. *)
Definition create_app `{Structlog} (s : Settings) (copy : string -> bool) (txts : list string) (files : gmap string string) :
    act LogState (list Route * gmap string string) :=
  let! _ := configure_logging (log_level s) (log_json s) in
  aret (app_routes, restore_mail_safe_assets copy txts files).
Definition lifespan (s : Settings) (tables : gset string) (h : Handles) : gset string * Handles := ensure_schema s tables h.
(** What the launcher's [_serve] ([run.py]) does in the same process before the
    server imports the application. *)
Definition serve_setup `{Structlog} (s : Settings) (tables : gset string) (h : Handles) : act LogState (gset string * Handles) :=
  let! _ := configure_logging (log_level s) (log_json s) in
  aret (ensure_schema s tables h).

(** ** No path is claimed twice *)

(** Whether some path matches both templates, decided on the templates. *)
Fixpoint overlap (ps qs : list piece) : bool :=
  match ps, qs with
  | [], [] => true
  | Rest _ :: _, _ | _, Rest _ :: _ => true
  | Lit s :: ps, Lit t :: qs => bool_decide (s = t) && overlap ps qs
  | Lit s :: ps, Param _ :: qs | Param _ :: ps, Lit s :: qs => negb (bool_decide (s = "")) && overlap ps qs
  | Param _ :: ps, Param _ :: qs => overlap ps qs
  | _, _ => false
  end.

Lemma match_overlap ps qs segs a b : match_pieces ps segs = Some a -> match_pieces qs segs = Some b -> overlap ps qs = true.
Proof.
  assert (forall name p ps segs a, match_pieces (Rest name :: p :: ps) segs = Some a -> False) as Hrest by by intros name p ps' [|] a'.
  revert qs segs a b. induction ps as [|p ps IH]; intros qs segs a b Ha Hb.
  { destruct segs; [|done]. destruct qs as [|[t|n|n] qs]; [done|done|done|]. done. }
  destruct segs as [|seg segs]; [destruct p as [?|?|?]; [done|done|]; by destruct ps|].
  destruct qs as [|q qs]; [by destruct q || done|].
  destruct p as [s|n|n], q as [t|n'|n']; cbn [overlap]; try done; cbn in Ha, Hb; repeat case_decide; simplify_eq; try done.
  - rewrite bool_decide_eq_true_2 by done. by eapply IH.
  - rewrite bool_decide_eq_false_2 by done. apply fmap_Some in Hb as (b' & Hb & _). by eapply IH.
  - rewrite bool_decide_eq_false_2 by done. apply fmap_Some in Ha as (a' & Ha & _). by eapply IH.
  - apply fmap_Some in Ha as (a' & Ha & _). apply fmap_Some in Hb as (b' & Hb & _). by eapply IH.
Qed.

Definition share_method (r1 r2 : Route) : bool :=
  match rt_methods r1, rt_methods r2 with
  | Some ms, Some ns => existsb (fun m => bool_decide (m ∈ ns)) ms
  | _, _ => true
  end.
Definition clash (r1 r2 : Route) : bool := share_method r1 r2 && overlap (compile (rt_path r1)) (compile (rt_path r2)).

Lemma share_allows m r1 r2 : allows m r1 = true -> allows m r2 = true -> share_method r1 r2 = true.
Proof.
  unfold allows, share_method. destruct (rt_methods r1) as [ms|], (rt_methods r2) as [ns|]; [|done..].
  rewrite !bool_decide_eq_true. intros Hm Hn. apply existsb_exists. exists m. split; [by apply list_elem_of_In|]. by apply bool_decide_eq_true_2.
Qed.

Lemma no_clash : forallb (fun r1 => forallb (fun r2 => bool_decide (r1 = r2) || negb (clash r1 r2)) app_routes) app_routes = true.
Proof. vm_compute. reflexivity. Qed.

Section Dispatched.
Context `{STL : StarletteLaws}.

(** At most one route takes a request. *)
Lemma one_route r1 r2 m path : r1 ∈ app_routes -> r2 ∈ app_routes -> allows m r1 = true -> allows m r2 = true ->
  is_Some (match_path (rt_path r1) path) -> is_Some (match_path (rt_path r2) path) -> r1 = r2.
Proof.
  intros Hin1 Hin2 Ha1 Ha2 [a1 Hm1] [a2 Hm2]. unfold match_path in Hm1, Hm2. pose proof no_clash as Hc.
  rewrite forallb_forall in Hc. specialize (Hc r1 (proj1 (list_elem_of_In _ _) Hin1)). cbv beta in Hc.
  rewrite forallb_forall in Hc. specialize (Hc r2 (proj1 (list_elem_of_In _ _) Hin2)). cbv beta in Hc.
  apply orb_true_iff in Hc as [Hc%bool_decide_eq_true|Hc]; [done|]. unfold clash in Hc.
  by rewrite (share_allows m), (match_overlap _ _ _ _ _ Hm1 Hm2) in Hc.
Qed.

(** The order of the registrations does not matter.  Whatever the order in which
    the application's routes are registered, a request goes to the same handler
    with the same parameters, or gets the same refusal: two routes that allow a
    common method never match the same path. *)
Theorem order_does_not_matter (routes : list Route) (m path : string) :
  routes ≡ₚ app_routes -> dispatch routes m path = dispatch app_routes m path.
Proof.
  intros Hp. pose proof (dispatch_cases routes m path) as H1. pose proof (dispatch_cases app_routes m path) as H2.
  assert (forall r, r ∈ routes <-> r ∈ app_routes) as Hin by (intros r; by rewrite Hp).
  destruct (dispatch routes m path) as [e ps| |], (dispatch app_routes m path) as [e' ps'| |]; try done.
  - destruct H1 as (r & Hr%Hin & <- & Em & Ha), H2 as (r' & Hr' & <- & Em' & Ha').
    assert (r = r') as <- by (apply (one_route r r' m path); [done..|by rewrite Em|by rewrite Em']). congruence.
  - destruct H1 as (r & Hr%Hin & _ & Em & Ha), H2 as [_ H2]. rewrite H2 in Ha; [done|done|by rewrite Em].
  - destruct H1 as (r & Hr%Hin & _ & Em & Ha). by rewrite H2 in Em.
  - destruct H2 as (r & Hr%Hin & _ & Em & Ha), H1 as [_ H1]. rewrite H1 in Ha; [done|done|by rewrite Em].
  - destruct H1 as [(r & Hr%Hin & [x Em]) _]. by rewrite H2 in Em.
  - destruct H2 as (r & Hr%Hin & _ & Em & Ha). by rewrite H1 in Em.
  - destruct H2 as [(r & Hr%Hin & [x Em]) _]. by rewrite H1 in Em.
Qed.
End Dispatched.

(** ** Every request of the API arrives *)

Lemma split_word c w : sall (fun d => negb (is_char c d)) w = true -> split c w = [w].
Proof.
  induction w as [|d w IH]; [done|]. cbn [sall split]. intros [Hd Hw]%andb_true_iff. apply negb_true_iff in Hd. by rewrite Hd, IH.
Qed.
Lemma split_sep c w rest : sall (fun d => negb (is_char c d)) w = true -> split c (w +:+ String c rest) = w :: split c rest.
Proof.
  induction w as [|d w IH]; intros Hw.
  - change (EmptyString +:+ String c rest) with (String c rest). cbn [split].
    unfold is_char. by rewrite Ascii.eqb_refl.
  - change (String d w +:+ String c rest) with (String d (w +:+ String c rest)). cbn [sall split] in *.
    apply andb_true_iff in Hw as [Hd Hw]. apply negb_true_iff in Hd. by rewrite Hd, IH.
Qed.
Lemma pretty_no_slash (z : Z) : sall (fun d => negb (is_char "/" d)) (pretty z) = true.
Proof. by apply sall_pretty_check. Qed.
Lemma pretty_not_empty (z : Z) : pretty z <> "".
Proof. intros E. pose proof (int_of_text_pretty z) as Hz. rewrite E in Hz. done. Qed.

(** A text for a parameter: an id in the path always has one. *)
Definition param_text (p : int_param) : option string :=
  match p with Absent => None | NotAnInt => Some "x" | Int n => Some (pretty n) end.
Definition id_text (p : int_param) : string := default "x" (param_text p).

(** The HTTP request of a request of [Api]. *)
Definition query_of (l : list (string * option string)) (name : string) : option string :=
  match List.find (fun nv => String.eqb (fst nv) name) l with Some (_, v) => v | None => None end.
Definition http_request (r : Api.request) : HttpRequest :=
  match r with
  | PostCrawls body => mkRequest "POST" "/api/v1/crawls" (query_of []) body
  | GetCrawls limit => mkRequest "GET" "/api/v1/crawls" (query_of [("limit", param_text limit)]) None
  | PostStop i => mkRequest "POST" ("/api/v1/crawls/" +:+ id_text i +:+ "/stop") (query_of []) None
  | GetStats => mkRequest "GET" "/api/v1/stats" (query_of []) None
  | GetDocuments limit offset domain q =>
      mkRequest "GET" "/api/v1/documents"
        (query_of [("limit", param_text limit); ("offset", param_text offset); ("domain", domain); ("q", q)]) None
  | GetDomains limit => mkRequest "GET" "/api/v1/domains" (query_of [("limit", param_text limit)]) None
  | GetDocument i => mkRequest "GET" ("/api/v1/documents/" +:+ id_text i) (query_of []) None
  | GetGraph limit => mkRequest "GET" "/api/v1/graph" (query_of [("limit", param_text limit)]) None
  end.
(** An id is part of the path. *)
Definition has_id (r : Api.request) : Prop := match r with PostStop i | GetDocument i => i <> Absent | _ => True end.

Section Arrives.
Context {S : Type} `{CS : CrawlService S, STL : StarletteLaws}.
Variable generate_latest : string.
Variable mtime : option Q.

Lemma int_value_param p : from_option int_value Absent (param_text p) = p.
Proof. destruct p as [| |n]; cbn; [done|by apply int_value_text|by apply int_value_pretty]. Qed.
Lemma int_value_id p : p <> Absent -> int_value (id_text p) = p.
Proof. intros Hp. rewrite <- (int_value_param p) at 2. by destruct p. Qed.
Lemma id_text_word p : sall (fun d => negb (is_char "/" d)) (id_text p) = true /\ id_text p <> "".
Proof. destruct p as [| |n]; [done|done|]. split; [apply pretty_no_slash|apply pretty_not_empty]. Qed.

(** Where a path leads that a route of the application matches. *)
Lemma dispatch_route r m path params : r ∈ app_routes -> allows m r = true -> match_path (rt_path r) path = Some params ->
  dispatch app_routes m path = Handled (rt_endpoint r) params.
Proof.
  intros Hr Ha Em. pose proof (dispatch_cases app_routes m path) as Hd. destruct (dispatch app_routes m path) as [e ps| |].
  - destruct Hd as (r' & Hr' & <- & Em' & Ha'). assert (r = r') as <- by (apply (one_route r r' m path); [done..|by rewrite Em|by rewrite Em']).
    congruence.
  - destruct Hd as [_ Hd]. rewrite Hd in Ha; [done|done|by rewrite Em].
  - by rewrite Hd in Em.
Qed.

Lemma document_path i : split "/"%char ("/api/v1/documents/" +:+ id_text i) = [""; "api"; "v1"; "documents"; id_text i].
Proof.
  change ("/api/v1/documents/" +:+ id_text i) with
    ("" +:+ String "/" ("api" +:+ String "/" ("v1" +:+ String "/" ("documents" +:+ String "/" (id_text i))))).
  rewrite !split_sep by done. by rewrite split_word by apply id_text_word.
Qed.
Lemma stop_path i : split "/"%char ("/api/v1/crawls/" +:+ id_text i +:+ "/stop") = [""; "api"; "v1"; "crawls"; id_text i; "stop"].
Proof.
  change ("/api/v1/crawls/" +:+ id_text i +:+ "/stop") with
    ("" +:+ String "/" ("api" +:+ String "/" ("v1" +:+ String "/" ("crawls" +:+ String "/" (id_text i +:+ String "/" "stop"))))).
  rewrite !split_sep by first [done|apply id_text_word]. done.
Qed.

(** The endpoint of a request, with the parameters of its path. *)
Definition destination (r : Api.request) : endpoint * list (string * string) :=
  match r with
  | PostCrawls _ => (CreateCrawl, []) | GetCrawls _ => (ListCrawls, []) | PostStop i => (StopCrawl, [("crawl_id", id_text i)])
  | GetStats => (GetStatsRoute, []) | GetDocuments _ _ _ _ => (ListDocuments, []) | GetDomains _ => (ListDomains, [])
  | GetDocument i => (GetDocumentRoute, [("doc_id", id_text i)]) | GetGraph _ => (GetGraphRoute, [])
  end.
Definition request_route (r : Api.request) : Route :=
  match r with
  | PostCrawls _ => post_route "/api/v1/crawls" CreateCrawl | GetCrawls _ => get_route "/api/v1/crawls" ListCrawls
  | PostStop _ => post_route "/api/v1/crawls/{crawl_id}/stop" StopCrawl | GetStats => get_route "/api/v1/stats" GetStatsRoute
  | GetDocuments _ _ _ _ => get_route "/api/v1/documents" ListDocuments | GetDomains _ => get_route "/api/v1/domains" ListDomains
  | GetDocument _ => get_route "/api/v1/documents/{doc_id}" GetDocumentRoute | GetGraph _ => get_route "/api/v1/graph" GetGraphRoute
  end.
Lemma request_dispatch r : dispatch app_routes (hq_method (http_request r)) (hq_path (http_request r)) =
  Handled (fst (destination r)) (snd (destination r)).
Proof.
  assert (fst (destination r) = rt_endpoint (request_route r)) as -> by by destruct r.
  apply dispatch_route; [|by destruct r|].
  - apply list_elem_of_In. destruct r; vm_compute; tauto.
  - unfold match_path. destruct r as [body|l|i| |l o d q|l|i|l]; cbn [http_request hq_method hq_path destination fst snd request_route rt_path get_route post_route].
    1-2, 4-6, 8: reflexivity.
    + rewrite stop_path. pose proof (id_text_word i) as [_ Hne]. revert Hne. generalize (id_text i) as w.
      intros [|c w] Hw; [done|]. vm_compute. reflexivity.
    + rewrite document_path. pose proof (id_text_word i) as [_ Hne]. revert Hne. generalize (id_text i) as w.
      intros [|c w] Hw; [done|]. vm_compute. reflexivity.
Qed.

(** C23: every request of the API arrives.  The HTTP request with a request's
    method, path and query, whether its parameters are valid or not, is handled
    by the route of that request with just these parameters: the answer, and the
    service after it, are those of [Api.route]. *)
Theorem urls_reach_handlers (r : Api.request) (s : S) : has_id r ->
  handle generate_latest mtime (http_request r) s =
    match Api.route r s with (Ok x, s') => (Ok (AApi x), s') | (Raise e, s') => (Raise e, s') end.
Proof.
  intros Hid. unfold handle. rewrite request_dispatch. set (q := http_request r).
  assert (api_request (fst (destination r)) (snd (destination r)) q = Some r) as ->; [|done].
  subst q. destruct r as [body|l|i| |l o d q|l|i|l]; cbn [http_request destination fst snd api_request hq_body hq_query]; [done|..];
    unfold int_query, int_path; cbn [hq_query query_of List.find String.eqb Ascii.eqb Bool.eqb fst snd];
    rewrite ?int_value_param, ?int_value_id; done.
Qed.

End Arrives.

(** ** Starting again *)

(** Starting the application in a process that the launcher has set up, or
    again over the files and the tables that a start left, changes nothing but
    the missing scripts: no script is overwritten, each shipped one is there, the
    tables stay as they are and both loggers keep their configuration. *)
Theorem startup_repeats `{SLL : StructlogLaws} (s : Settings) (n : Z) (copy : string -> bool) (txts : list string) (files : gmap string string)
    (tables : gset string) (h : Handles) :
  level_of (log_level s) = Level n -> (forall t, t ∈ txts -> copy t = true /\ is_Some (files !! t)) ->
  exists files' log tables' h',
    serve_setup s tables h unconfigured = (Ok (tables', h'), log) /\ create_app s copy txts files log = (Ok (app_routes, files'), log) /\
    create_app s copy txts files unconfigured = (Ok (app_routes, files'), log) /\ lifespan s tables h = (tables', h') /\
    (forall p c, files !! p = Some c -> files' !! p = Some c) /\ (forall t, t ∈ txts -> is_Some (files' !! js_of t)) /\
    create_app s copy txts files' log = (Ok (app_routes, files'), log) /\ lifespan s tables' h' = (tables', h').
Proof.
  intros En Hc. destruct (restore_assets_spec copy txts files) as [Hkeep Hall]. destruct (Hall Hc) as [Hjs Hagain].
  destruct (configure_again _ _ (log_json s) (log_json s) n n En En) as [E1 E2].
  pose proof (ensure_schema_idempotent s tables h) as Hs. unfold lifespan. destruct (ensure_schema s tables h) as [tables' h'] eqn:Et.
  eexists _, _, tables', h'. split_and!; [| | |done|exact Hkeep|exact Hjs| |exact Hs].
  - unfold serve_setup, abind, aret. by rewrite E1, Et.
  - unfold create_app, abind, aret. by rewrite E2.
  - unfold create_app, abind, aret. by rewrite E1.
  - unfold create_app, abind, aret. by rewrite E2, Hagain.
Qed.

(** ** Concrete instances *)

Definition read_int (s : string) : int_param :=
  match s with
  | String c _ => if is_alpha c then NotAnInt else match int_of_text s with Ok n => Int n | Raise _ => NotAnInt end
  | EmptyString => NotAnInt
  end.
Lemma read_int_pretty (z : Z) : read_int (pretty z) = Int z.
Proof.
  pose proof (int_of_text_pretty z) as E. pose proof (sall_pretty_check (fun c => negb (is_alpha c)) z ltac:(done)) as Ha.
  unfold read_int. destruct (pretty z) as [|c t]; [done|]. cbn [sall] in Ha. apply andb_true_iff in Ha as [Ha%negb_true_iff _]. by rewrite Ha, E.
Qed.
(** The first route that matches the path and allows the method. *)
Fixpoint first_route (routes : list Route) (m path : string) : dispatched :=
  match routes with
  | [] => NotFound
  | r :: routes =>
      match match_path (rt_path r) path with
      | None => first_route routes m path
      | Some params =>
          if allows m r then Handled (rt_endpoint r) params
          else match first_route routes m path with NotFound => MethodNotAllowed | d => d end
      end
  end.
Lemma first_route_cases routes m path :
  match first_route routes m path with
  | Handled e params => exists r, r ∈ routes /\ rt_endpoint r = e /\ match_path (rt_path r) path = Some params /\ allows m r = true
  | MethodNotAllowed => (exists r, r ∈ routes /\ is_Some (match_path (rt_path r) path)) /\
      forall r, r ∈ routes -> is_Some (match_path (rt_path r) path) -> allows m r = false
  | NotFound => forall r, r ∈ routes -> match_path (rt_path r) path = None
  end.
Proof.
  induction routes as [|r routes IH]; cbn; [by intros r ?%elem_of_nil|]. destruct (match_path (rt_path r) path) as [params|] eqn:Em.
  - destruct (allows m r) eqn:Ea; [exists r; split; [left|done]|]. destruct (first_route routes m path) as [e ps| |].
    + destruct IH as (r' & ? & ?). exists r'. split; [by right|done].
    + destruct IH as [_ IH]. split; [exists r; split; [left|by rewrite Em]|]. intros r' [->|Hr]%elem_of_cons ?; [done|by apply IH].
    + split; [exists r; split; [left|by rewrite Em]|]. intros r' [->|Hr]%elem_of_cons [x Ex]; [done|]. by rewrite IH in Ex.
  - destruct (first_route routes m path) as [e ps| |].
    + destruct IH as (r' & ? & ?). exists r'. split; [by right|done].
    + destruct IH as [(r' & ? & ?) IH]. split; [exists r'; split; [by right|done]|].
      intros r'' [->|Hr]%elem_of_cons Hx; [rewrite Em in Hx; by apply is_Some_None in Hx|by apply IH].
    + intros r' [->|Hr]%elem_of_cons; [done|by apply IH].
Qed.
#[export] Instance segment_router : Starlette := {| dispatch := first_route; int_value := read_int |}.
#[export] Instance segment_router_laws : StarletteLaws.
Proof. split; [exact first_route_cases|exact read_int_pretty|]. intros c t Hc. cbn. by rewrite Hc. Qed.

#[local] Existing Instances log_kafka json_bytes identity_lib no_commit_error merge_order plain_rendering.
#[local] Instance app_api : CrawlService (SqlCrawlService (list sent)) := sql_crawl_service partition_hash.

Lemma urls_reach_handlers_witness :
  fst (handle "" None (mkRequest "POST" "/api/v1/crawls/7/stop" (fun _ => None) None) stocked) =
    Ok (AApi (mkHttp 404 (PDetail "crawl not found"))).
Proof.
  pose proof (urls_reach_handlers "" None (PostStop (Int 7)) stocked) as Hw. cbn [has_id] in Hw.
  specialize (Hw ltac:(discriminate)). destruct (Api.route (PostStop (Int 7)) stocked) as [x s'] eqn:E.
  assert (x = Ok (mkHttp 404 (PDetail "crawl not found"))) as Ex.
  { change x with (fst (x, s')). rewrite <- E. vm_compute. reflexivity. }
  subst x. exact (f_equal fst Hw).
Defined.

Example other_paths :
  dispatch app_routes "GET" "/api/v1/crawls/7/stop" = MethodNotAllowed /\ dispatch app_routes "GET" "/api/v1/documents/" = NotFound /\
  dispatch app_routes "GET" "/static/vendor/chart.js" = Handled StaticFiles [("path", "vendor/chart.js")] /\
  dispatch app_routes "GET" "/" = Handled DashboardPage [].
Proof. vm_compute. done. Qed.
