(* ===== verification/Cli.v ===== *)
(** * The command line ([crawler/cli.py])

    The coroutines behind the commands: [_run_crawl] (its wiring, the choice of
    sink and body store, the run), [_seed], [_recrawl], [_recompute_graph] and
    the computation of [ring_demo].  The commands are functions of their
    arguments, which typer reads from the command line; what they print is in
    [Output], the commands as a whole in [Commands].

    [dry_run_scope]: what a dry run collects; [recrawl_reenqueues_stalest]: what
    is re-enqueued, and in which order; [graph_command]: what is printed after the
    degrees were computed; [ring_demo_moves]: which domains move. *)
From S2P Require Import Prelude PyStr Config Models UrlUtils HtmlParser ConsistentHash Recrawl.
From S2P Require Import SimHash Dedup CircuitBreaker Budget Backpressure Frontier Seeding Robots Fetcher Storage.
From S2P Require Import ObjectStore Sessions Pipeline Factory Engine LocalCrawl.
Local Open Scope Z_scope.

(** ** [_run_crawl] *)

(** Its keyword arguments. *)
Record RunOptions : Type := mkOptions {
  ro_max_depth : Z; ro_max_pages : Z; ro_concurrency : Z; ro_same_domain : bool; ro_dry_run : bool;
  ro_polite : bool; ro_dedup : bool; ro_store_bodies : bool; ro_conditional : bool }.

(** The sink: the in-memory one of a dry run, or the database. *)
Definition Sink : Type := InMemoryDocumentSink + DB.
#[export] Instance run_sink : DocumentSink Sink := {|
  save_page := fun r s =>
    match s with
    | inl m => let* m := save_page r m in Ok (inl m)
    | inr db => let* db := save_page r db in Ok (inr db)
    end;
  sink_validators := fun url s =>
    match s with inl m => sink_validators url m | inr db => sink_validators url db end |}.

(** [InMemoryDocumentSink()]. *)
Definition new_memory_sink : InMemoryDocumentSink := mkMemSink [] ∅.

Section RunCrawl.
Context {R Session content O : Type}.
Context `{UL : UrlLib, SX : Selectolax, TH : TokenHash, SH : Sha256, PT : Protego, AI : Aiohttp Session content}.
Context `{UT : Utf8, RS : RedisStrings R, RST : RedisSets R, RC : RedisCounters R, OS : ObjectStore O}.
Abbreviation Net := (Fetcher Session * registry)%type.
Abbreviation Gate := (Politeness R Net * Limiter R)%type.
Abbreviation Dedups := ((RedisContentDedup * R) + InMemoryContentDedup)%type.
Abbreviation Budgets := ((RedisDomainBudget * R) + InMemoryDomainBudget)%type.
Context `{GT : PolitenessGate Gate}.
(** The store a kind stands for, and the clock. *)
Variable open_store : store_kind -> O.
Variable clock : nat -> Q.

Abbreviation pipe := (Pipeline Gate (Fetcher Session) Dedups Budgets O Sink).
#[local] Instance run_pages : PageProcessor (nat * pipe) := pipeline_processor clock.
#[local] Instance run_pages_spec : PageProcessorSpec (nat * pipe) := pipeline_processor_spec clock.

(** The sink and the body store of a run. *)
Definition choose_sink (o : RunOptions) (db : DB) : Sink := if ro_dry_run o then inl new_memory_sink else inr db.
Definition choose_store (s : Settings) (o : RunOptions) : option O :=
  let object_store := build_object_store_for s (ro_store_bodies o && negb (ro_dry_run o)) in
  if ro_store_bodies o && negb (ro_dry_run o) then Some (open_store object_store) else None.

Definition wire_run (s : Settings) (o : RunOptions) (db : DB) (reg : registry) : result (CrawlEngine (nat * pipe)) :=
  let fetcher := Fetcher.aenter (new_fetcher s None) in
  let* politeness := if ro_polite o then let* g := build_politeness (fetcher, reg) s None in Ok (Some g) else Ok None in
  let content_dedup := if ro_dedup o then Some (build_content_dedup s None) else None in
  let* breaker := build_circuit_breaker s in
  let budget := build_domain_budget s None in
  let* _ := build_backpressure s in
  let pipeline := mkPipeline s fetcher (choose_sink o db) politeness content_dedup (choose_store s o) (ro_conditional o)
                    breaker budget reg in
  Ok (new_engine (0%nat, pipeline) new_memory s (ro_max_depth o) (ro_max_pages o) (ro_concurrency o)
        (ro_same_domain o) None).

(** The statistics, the dry run's sink, and the tables; with one worker, [None]
    while it runs.  The schema of an embedded database is created first
    ([Sessions.ensure_schema]). *)
Definition run_crawl (fuel : nat) (elapsed : Q) (s : Settings) (seeds : list string) (o : RunOptions) (db : DB)
    (reg : registry) : result (option (CrawlStats * option InMemoryDocumentSink * DB)) :=
  let* engine := wire_run s o db reg in
  let* outcome := run fuel elapsed seeds None engine in
  match outcome with
  | None => Ok None
  | Some (stats, e) =>
      let* _ := close (pl_fetcher (snd (en_pipeline e))) in
      Ok (Some (match pl_sink (snd (en_pipeline e)) with
                | inl m => (stats, Some m, db)
                | inr db' => (stats, None, db')
                end))
  end.

(** The pages [crawl] prints after a dry run. *)
Definition printed_pages (m : InMemoryDocumentSink) : list (option Z * string * Z) :=
  (fun p => (pr_http_status p, pr_url p, Z.of_nat (length (pr_links p)))) <$> take 25 (ms_pages m).

Variables (s : Settings) (o : RunOptions) (db : DB) (reg : registry).

Lemma wire_run_spec (eng : CrawlEngine (nat * pipe)) : wire_run s o db reg = Ok eng ->
  pl_sink (snd (en_pipeline eng)) = choose_sink o db /\ mf_seen (en_frontier eng) = ∅ /\ mf_queue (en_frontier eng) = [] /\
  mf_unfinished (en_frontier eng) = 0 /\ en_processed eng = 0 /\ en_seed_domains eng = ∅ /\
  en_max_depth eng = ro_max_depth o /\ en_max_pages eng = ro_max_pages o /\ en_concurrency eng = ro_concurrency o.
Proof.
  unfold wire_run. intros (g & _ & (b & _ & (bp & _ & [= <-])%rbind_Ok)%rbind_Ok)%rbind_Ok. done.
Qed.

(** The sink of a dry run: a memory sink whose pages are in scope. *)
Definition dry_sink (x : Sink) : Prop :=
  exists m, x = inl m /\
    Forall (fun p => 0 <= pr_depth p <= Z.max 0 (ro_max_depth o) /\ pr_crawl_id p = None) (ms_pages m).

(** A dry run ends, writes nothing and stays in scope.  Once it is wired and
    its seeds are accepted, with at least one worker and a session that closes,
    it returns after finitely many turns; the tables are as they were, nothing
    was given to a body store, and every page collected for printing is at a
    depth between 0 and [max_depth] and belongs to no crawl. *)
Theorem dry_run_scope (elapsed : Q) (seeds : list string) (eng e1 : CrawlEngine (nat * pipe)) :
  ro_dry_run o = true -> wire_run s o db reg = Ok eng -> seed_all None seeds eng = (Ok tt, e1) -> 0 < ro_concurrency o ->
  (forall ses, is_ok (session_close ses) = true) ->
  pl_object_store (snd (en_pipeline eng)) = None /\
  exists fuel st m, run_crawl fuel elapsed s seeds o db reg = Ok (Some (st, Some m, db)) /\
    Forall (fun p => 0 <= pr_depth p <= Z.max 0 (ro_max_depth o) /\ pr_crawl_id p = None) (ms_pages m) /\
    (length (printed_pages m) <= 25)%nat.
Proof.
  intros Hdry Ew Es Hc Hclose. destruct (wire_run_spec eng Ew) as (Esink & S1 & S2 & S3 & S4 & S5 & Ed & _ & S6).
  split.
  { revert Ew. unfold wire_run. intros (g & _ & (b & _ & (bp & _ & [= <-])%rbind_Ok)%rbind_Ok)%rbind_Ok. cbn.
    unfold choose_store. by rewrite Hdry, andb_false_r. }
  assert (started eng seeds None (mkCrawling e1 [] [])) as Hst by done.
  set (I := fun np : nat * pipe => dry_sink (pl_sink np.2)).
  destruct (work_terminates I eng seeds None _ [] e1 eq_refl (started_inv _ _ _ _ Hst)) as
    (fuel & e' & d' & Ework & _ & Hr & _); [by rewrite S6|].
  assert (I (en_pipeline e')) as (m & Em & Hm).
  { apply (pipeline_invariant I eng seeds None I) with (c := mkCrawling e' [] d'); [| |done| |by exists (mkCrawling e1 [] [])].
    - intros item [n p] [Hcr Hdep] (m & Em & Hm). unfold I. cbn. pose proof (process_walk (fun i => clock (n + i)%nat) item p) as Hw.
      destruct (process _ item p) as [[r|e] p'] eqn:Ep; destruct Hw as [Hw _]; cbn [snd] in *; [|by rewrite Hw; exists m].
      destruct Hw as [_ Hs]. destruct (res_skipped r).
      + destruct Hs as (_ & _ & _ & _ & _ & _ & [Hsk _] & _). rewrite Hsk. by exists m.
      + destruct Hs as (_ & _ & rec & _ & Hsave & _ & Hd & Hci & _). rewrite Em in Hsave. cbn in Hsave. injection Hsave as <-.
        eexists. split; [done|]. cbn. apply Forall_app. split; [done|]. constructor; [|done]. rewrite Hd, Hci. split; [|done].
        rewrite <- Ed. destruct Hdep as [[-> _]|[? _]]; lia.
    - by intros f [n p].
    - unfold I. rewrite Esink. unfold choose_sink. rewrite Hdry. exists new_memory_sink. split; [done|constructor]. }
  exists fuel, (mkStats (en_processed e') (seen_count (en_frontier e')) elapsed), m. split; [|split; [done|]].
  - unfold run_crawl. rewrite Ew. cbn [rbind]. unfold run. rewrite Es, Ework. cbn [fmap option_fmap option_map rbind].
    assert (exists f, close (pl_fetcher (snd (en_pipeline e'))) = Ok f) as [f ->] by by apply close_ok.
    cbn [rbind]. by rewrite Em.
  - unfold printed_pages. rewrite length_fmap, length_take. lia.
Qed.

End RunCrawl.

(** ** [_seed] and [_recrawl] *)
Section Commands.
Context {P A bytes : Type} `{K : Kafka P A bytes, J : Json bytes, UL : UrlLib, CM : Commits, OB : OrderBy}.
Variable hash : string -> Z.

(** [_seed]; [max_depth] is not used. *)
Definition seed_command (s : Settings) (seeds : list string) (max_depth : Z) (reg : registry) :
    result Z * option (KafkaFrontier P) * registry :=
  publish hash s
    ((fun seed => let* n := normalize_url (Some seed) None in
                  Ok ((fun u => mkMessage (JStr u) 0 JNull 0 0) <$> n)) <$> seeds) reg.

(** The message of a row and of an entry. *)
Definition stale_message (row : string * Z * option Z) : FrontierMessage :=
  let '(url, depth, crawl_id) := row in mkMessage (JStr url) depth (json_of_id crawl_id) 0 0.
Definition entry_message (e : RecrawlEntry) : FrontierMessage :=
  mkMessage (JStr (re_url e)) (re_depth e) (json_of_id (re_crawl_id e)) 0 0.

(** The rows with the clock reading each is scheduled at. *)
Definition timed_rows (clock : nat -> Q) (stale : list (string * Z * option Z)) : list (string * Z * option Z * Q) :=
  imap (fun i row => (row, clock i)) stale.

(** [_recrawl]; the engine is disposed of after the query. *)
Definition recrawl_command (s : Settings) (older_than_hours : Q) (limit : Z) (clock : nat -> Q) (db : DB) (reg : registry) :
    result Z * option (KafkaFrontier P) * registry :=
  match session_scope (fun db => (Ok (select_stale (older_than_hours * 3600) limit db), db)) db with
  | (Raise e, _) => (Raise e, None, reg)
  | (Ok stale, _) =>
      publish hash s
        ((fun e => Ok (Some (entry_message e))) <$> recrawl_batch (timed_rows clock stale) (clock (length stale))) reg
  end.

(** ** [_recompute_graph] *)

Definition recompute_graph (top : Z) : act DB (list (string * Z)) :=
  let! _ := session_scope (fun db => (Ok tt, recompute_degrees db)) in
  session_scope (fun db => (Ok (top_by_in_degree top db), db)).

Lemma timed_rows_spec (clock : nat -> Q) (stale : list (string * Z * option Z)) :
  (forall i j : nat, (i < j)%nat -> clock i < clock j)%Q ->
  StronglySorted (fun a b => a.2 < b.2)%Q (timed_rows clock stale) /\
  Forall (fun row => row.2 <= clock (length stale))%Q (timed_rows clock stale) /\
  (fun e => entry_message (stale_entry e)) <$> timed_rows clock stale = stale_message <$> stale.
Proof.
  unfold timed_rows. intros Hc.
  assert (forall n, StronglySorted (fun a b => a.2 < b.2)%Q (imap (fun i row => (row, clock (n + i)%nat)) stale) /\
    Forall (fun row => clock n <= row.2 /\ row.2 < clock (n + length stale)%nat)%Q (imap (fun i row => (row, clock (n + i)%nat)) stale)) as Hgen.
  { induction stale as [|row stale IH]; intros n; cbn [imap]; [split; constructor|].
    assert (forall m, imap ((fun i row => (row, clock (m + i)%nat)) ∘ S) stale = imap (fun i row => (row, clock (S m + i)%nat)) stale) as E.
    { intros m. apply imap_ext. intros i x _. cbn. by rewrite Nat.add_succ_r. }
    rewrite E. destruct (IH (S n)) as [IH1 IH2]. cbn [length]. rewrite Nat.add_0_r. split.
    - constructor; [done|]. eapply Forall_impl; [exact IH2|]. intros x [Hx _]. cbn in *. specialize (Hc n (S n) ltac:(lia)). lra.
    - constructor.
      + cbn. split; [lra|apply Hc; lia].
      + eapply Forall_impl; [exact IH2|]. intros x [Hx1 Hx2]. cbn in *. rewrite Nat.add_succ_r. split; [|done].
        specialize (Hc n (S n) ltac:(lia)). lra. }
  destruct (Hgen 0%nat) as [H1 H2]. split; [done|]. split.
  - eapply Forall_impl; [exact H2|]. intros x [_ Hx]. cbn in Hx. lra.
  - clear. revert clock. induction stale as [|[[u d] c] stale IH]; intros clock; [done|]. cbn. f_equal.
    specialize (IH (fun i => clock (S i))). exact IH.
Qed.

(** [crawler recrawl] re-enqueues the stalest pages, stalest first.  When the
    clock advances between the scheduling calls and the broker accepts every
    record, the records on the frontier topic are exactly those of the rows the
    query selected, in its order, each with the page's depth and crawl, a fresh
    number of attempts and no delay; the command returns their number, unless a
    stored URL is one that cannot be placed (then the rows before it are on the
    topic) or closing the producer fails. *)
Theorem recrawl_reenqueues_stalest `{BL : !BrokerLog P A bytes} (s : Settings) (hours : Q) (limit : Z) (clock : nat -> Q) (db : DB) (reg : registry)
    (a : A) (f : KafkaFrontier P) (p0 : P) :
  commit_error db = None -> (forall i j : nat, (i < j)%nat -> clock i < clock j)%Q ->
  ensure_topics s = Ok a -> new_frontier hash s None = Ok f ->
  producer_start (make_producer (bootstrap_servers (kafka s))) = Ok p0 -> sent_log p0 = [] ->
  let rows := select_stale (hours * 3600) limit db in
  let '(records, error) := planned hash f ((fun row => Ok (Some (stale_message row))) <$> rows) in
  exists f' p' reg', kf_producer f' = Some p' /\ sent_log p' = records /\
    recrawl_command s hours limit clock db reg =
      (match producer_stop p', error with
       | Raise e, _ => Raise e
       | Ok _, Some e => Raise e
       | Ok _, None => Ok (Z.of_nat (length records))
       end, Some f', reg').
Proof.
  intros Hok Hc Ea Ef Es Hl rows. unfold recrawl_command, session_scope. rewrite Hok. fold rows.
  destruct (timed_rows_spec clock rows Hc) as (H1 & H2 & H3).
  rewrite (recrawl_batch_stalest_first _ _ H1 H2).
  assert ((fun e => Ok (Some (entry_message e))) <$> (stale_entry <$> timed_rows clock rows) =
          (fun row => Ok (Some (stale_message row))) <$> rows) as ->.
  { rewrite (list_fmap_compose stale_message (fun m => Ok (Some m))), <- H3.
    by rewrite <- !list_fmap_compose. }
  destruct (publish_exact hash s ((fun row => Ok (Some (stale_message row))) <$> rows) reg a f p0 Ea Ef Es Hl)
    as (f' & p' & reg' & Hp & Hlog & _ & E).
  destruct (planned hash f _) as [records error]. exists f', p', reg'. rewrite E. cbn [fst snd] in *.
  split_and!; [done|done|]. destruct (producer_stop p'); [|done]. by destruct error.
Qed.

(** [crawler graph] prints the most linked-to pages.  When the server accepts
    the commits, the degrees of all documents are recomputed, and each of the
    at most [top] pages printed is a stored page with the number of edges that
    point at its URL; they come most linked first, and a page that is not
    printed has no more links than any that is, once [top] are. *)
Theorem graph_command `{OL : !OrderByLaws} (top : Z) (db : DB) :
  (forall x, commit_error x = None) -> 0 <= top ->
  exists rows, recompute_graph top db = (Ok rows, recompute_degrees db) /\
    length rows = Nat.min (Z.to_nat top) (length (db_documents db)) /\
    StronglySorted (fun a b => b.2 <= a.2) rows /\
    (forall url n, (url, n) ∈ rows -> exists d, d ∈ db_documents db /\ d_url d = url /\ n = in_edges d (db_edges db)) /\
    (forall d url n, d ∈ db_documents db -> d_url d ∉ rows.*1 -> (url, n) ∈ rows -> in_edges d (db_edges db) <= n).
Proof.
  intros Hok Ht. unfold recompute_graph, abind, session_scope. rewrite !Hok. eexists. split; [done|].
  unfold top_by_in_degree. set (le := fun a b : Document => d_in_degree b <=? d_in_degree a).
  set (ds := db_documents (recompute_degrees db)). pose proof (order_by_perm le ds) as Hp.
  assert (ds = (fun d => set_degrees (out_edges d (db_edges db)) (in_edges d (db_edges db)) d) <$> db_documents db) as Eds.
  { unfold ds, recompute_degrees. cbn [set_documents db_documents]. rewrite <- list_fmap_compose. by apply list_fmap_ext. }
  assert (StronglySorted (fun a b => d_in_degree b <= d_in_degree a) (order_by le ds)) as Hs.
  { assert (Sorted (fun a b => le a b = true) (order_by le ds)) as Hs by (apply order_by_sorted; unfold le; intros; lia).
    apply Sorted_StronglySorted in Hs; [|intros x y z; unfold le; lia].
    revert Hs. clear. generalize (order_by le ds). intros l Hs. induction Hs as [|x l Hs IH Hall]; constructor; [done|].
    eapply Forall_impl; [exact Hall|]. unfold le. intros y Hy. lia. }
  assert (forall d, d ∈ order_by le ds -> exists d0, d0 ∈ db_documents db /\ d_url d0 = d_url d /\ d_in_degree d = in_edges d0 (db_edges db)) as Hrow.
  { intros d Hd. rewrite Hp, Eds in Hd. apply list_elem_of_fmap in Hd as (d0 & -> & Hd0). by exists d0. }
  split_and!.
  - rewrite length_fmap, length_take, (Permutation_length Hp), Eds, length_fmap. done.
  - rewrite <- (take_drop (Z.to_nat top) (order_by le ds)) in Hs. apply StronglySorted_app_1_l in Hs. revert Hs. clear.
    generalize (take (Z.to_nat top) (order_by le ds)). intros l Hs. induction Hs as [|x l Hs IH Hall]; constructor; [done|].
    apply Forall_fmap. exact Hall.
  - intros url n (d & [= -> ->] & Hd%elem_of_take_in)%list_elem_of_fmap. destruct (Hrow d Hd) as (d0 & H0 & Hu & Hn). by exists d0.
  - intros d url n Hd Hnot (x & [= -> ->] & Hx)%list_elem_of_fmap.
    assert (set_degrees (out_edges d (db_edges db)) (in_edges d (db_edges db)) d ∈ order_by le ds) as Hin.
    { rewrite Hp, Eds. by apply list_elem_of_fmap_2 with (f := fun d => set_degrees _ _ d) || (apply list_elem_of_fmap; by exists d). }
    rewrite <- (take_drop (Z.to_nat top) (order_by le ds)) in Hs, Hin. apply elem_of_app in Hin as [Hin|Hin].
    + destruct Hnot. apply list_elem_of_fmap. exists (d_url d, in_edges d (db_edges db)). split; [done|].
      apply list_elem_of_fmap. by exists (set_degrees (out_edges d (db_edges db)) (in_edges d (db_edges db)) d).
    + eapply StronglySorted_app_1_elem_of in Hs; [|exact Hx|exact Hin]. exact Hs.
Qed.

End Commands.

(** ** [ring_demo] *)
Section RingDemo.
Variable hash : string -> Z.

Definition domain_name (i : Z) : string := "domain-" +:+ pretty i +:+ ".example".
Definition worker_name (i : Z) : string := "worker-" +:+ pretty i.

(** The assignments before and after the workers are added, with the two rings. *)
Definition ring_demo_maps (domains workers add vn : Z) :
    result (ConsistentHashRing * gmap string string * ConsistentHashRing * gmap string string) :=
  let keys := domain_name <$> seqZ 0 domains in
  let initial := worker_name <$> seqZ 0 workers in
  let* ring := new_ring hash initial vn in
  let* before := assignments hash ring keys ∅ in
  let ring' := fold_left (fun r i => add_node hash (worker_name (workers + i)) r) (seqZ 0 add) ring in
  let* after := assignments hash ring' keys ∅ in
  Ok (ring, before, ring', after).

(** What is printed: the distribution and the imbalance before, the churn, and
    the one of plain modulo sharding. *)
Definition ring_demo (domains workers add vn : Z) : result (gmap string Z * Q * Q * Q) :=
  let keys := domain_name <$> seqZ 0 domains in
  let* (ring, before, _, after) := ring_demo_maps domains workers add vn in
  let* dist := distribution hash ring keys in
  let* skew := imbalance hash ring keys in
  Ok (dist, skew, churn before after, naive_churn hash keys workers (workers + add)).

Context (hash_u32 : forall s, 0 <= hash s < 2 ^ 32).

(** Adding nodes one after the other: a key keeps its node or gets a new one. *)
Lemma add_nodes_disruption (U : string -> Prop) ns r key :
  collision_free hash (virtual_nodes r) U -> Forall U ns -> (forall m, m ∈ nodes r -> U m) -> canonical hash r ->
  0 < virtual_nodes r ->
  let r' := fold_left (fun r n => add_node hash n r) ns r in
  (get hash key r' = get hash key r \/ exists n, n ∈ ns /\ get hash key r' = Ok (Some n)) /\
  canonical hash r' /\ virtual_nodes r' = virtual_nodes r /\ nodes r' = list_to_set ns ∪ nodes r.
Proof.
  intros Hc Hns. revert r Hc. induction Hns as [|n ns Hn Hns IH]; intros r Hc HU Hr Hv; cbv zeta; cbn [fold_left].
  { split_and!; [by left|done|done|set_solver]. }
  pose proof (add_node_disruption hash hash_u32 U r n key Hc Hn HU Hr Hv) as Hone.
  pose proof (canonical_add hash U n r Hc Hn HU Hr) as Hr'.
  destruct (IH (add_node hash n r)) as (Hg & Hc' & Hv' & Hnn).
  { by rewrite add_node_vn. }
  { intros m. rewrite add_node_nodes. set_solver. }
  { done. }
  { by rewrite add_node_vn. }
  rewrite add_node_vn in Hv'. rewrite add_node_nodes in Hnn. split_and!; [|done|done|rewrite Hnn; set_solver].
  destruct Hg as [->|(m & Hm & ->)]; [|right; exists m; split; [by right|done]].
  destruct Hone as [->| ->]; [by left|]. right. exists n. split; [by left|done].
Qed.

(** A ring with a node assigns every key, to the node it looks up. *)
Lemma assignments_total (r : ConsistentHashRing) keys : canonical hash r -> 0 < virtual_nodes r -> nodes r <> ∅ ->
  exists a, assignments hash r keys ∅ = Ok a /\
    (forall k, k ∈ keys -> exists n, get hash k r = Ok (Some n) /\ a !! k = Some n) /\
    (forall k, is_Some (a !! k) -> k ∈ keys).
Proof.
  intros Hr Hv Hn. assert (forall ks acc, exists a, assignments hash r ks acc = Ok a) as Htot.
  { induction ks as [|k ks IH]; intros acc; [by eexists|]. cbn.
    destruct (get_total hash hash_u32 r k Hr Hv Hn) as (n & -> & _). cbn. apply IH. }
  destruct (Htot keys ∅) as [a Ea]. exists a. split; [done|].
  assert (forall k, a !! k = if decide (k ∈ keys) then match get hash k r with Ok (Some n) => Some n | _ => None end else None) as Hl.
  { intros k. rewrite (assignments_lookup hash hash_u32 _ _ _ _ k Ea). case_decide; [|done].
    destruct (get_total hash hash_u32 r k Hr Hv Hn) as (n & -> & _). done. }
  split.
  - intros k Hk. destruct (get_total hash hash_u32 r k Hr Hv Hn) as (n & G & _). exists n. split; [done|].
    by rewrite Hl, decide_True, G.
  - intros k Hk. rewrite Hl in Hk. by case_decide; [|destruct Hk].
Qed.

(** Scaling out moves domains only to the workers that were added.  With ring
    points that do not collide, the demonstration assigns every domain before
    and after; the printed churn is a fraction between 0 and 1, and every
    domain it counts belongs to an added worker afterwards. *)
Theorem ring_demo_moves (domains workers add vn : Z) :
  0 < vn -> 0 < workers -> 0 <= add ->
  collision_free hash vn (fun n => exists i, 0 <= i < workers + add /\ n = worker_name i) ->
  exists ring before ring' after,
    ring_demo_maps domains workers add vn = Ok (ring, before, ring', after) /\
    (forall k, k ∈ domain_name <$> seqZ 0 domains -> is_Some (before !! k) /\ is_Some (after !! k)) /\
    (0 <= churn before after <= 1)%Q /\
    forall k owner, moved_keys before after !! k = Some owner ->
      exists i, workers <= i < workers + add /\ after !! k = Some (worker_name i).
Proof.
  intros Hv Hw Ha Hc. set (U := fun n => exists i, 0 <= i < workers + add /\ n = worker_name i) in *.
  set (keys := domain_name <$> seqZ 0 domains). unfold ring_demo_maps, new_ring.
  destruct (Z.leb_spec vn 0); [lia|]. cbn [rbind]. rewrite (fold_add_node hash).
  destruct (reachable_canonical hash U vn (AddNode <$> (worker_name <$> seqZ 0 workers)) Hc) as (C & V & N & HU).
  { apply Forall_fmap, Forall_fmap, Forall_forall. intros i Hi%elem_of_seqZ. cbn. exists i. split; [lia|done]. }
  set (ring := fold_left _ _ _) in *. rewrite (node_set_adds hash hash_u32) in N.
  assert (forall l r, fold_left (fun r i => add_node hash (worker_name (workers + i)) r) l r =
    fold_left (fun r n => add_node hash n r) ((fun i => worker_name (workers + i)) <$> l) r) as ->.
  { clear. induction l as [|i l IH]; intros r; [done|]. cbn. apply IH. }
  set (new := (fun i => worker_name (workers + i)) <$> seqZ 0 add).
  assert (Forall U new) as Hnew.
  { apply Forall_fmap, Forall_forall. intros i Hi%elem_of_seqZ. cbn. exists (workers + i). split; [lia|done]. }
  set (ring' := fold_left _ new ring).
  assert (forall key, (get hash key ring' = get hash key ring \/ exists n, n ∈ new /\ get hash key ring' = Ok (Some n)) /\
    canonical hash ring' /\ virtual_nodes ring' = virtual_nodes ring /\ nodes ring' = list_to_set new ∪ nodes ring) as Hadd.
  { intros key. apply (add_nodes_disruption U new ring key); rewrite ?V; done. }
  destruct (Hadd "") as (_ & C' & V' & N').
  assert (nodes ring <> ∅) as Hne.
  { rewrite N. intros E. assert (worker_name 0 ∈ (∅ : gset string)) as He; [|set_solver]. rewrite <- E.
    apply elem_of_union_l, elem_of_list_to_set, list_elem_of_fmap. exists 0. split; [done|]. apply elem_of_seqZ. lia. }
  destruct (assignments_total ring keys C ltac:(by rewrite V) Hne) as (before & Eb & Hb & Hdom).
  destruct (assignments_total ring' keys C' ltac:(by rewrite V', V) ltac:(rewrite N'; set_solver)) as (after & Ea & Haf & _).
  fold keys. rewrite Eb. cbn [rbind]. rewrite Ea. cbn [rbind]. exists ring, before, ring', after. split; [done|].
  split_and!.
  - intros k Hk. destruct (Hb k Hk) as (n & _ & ->). destruct (Haf k Hk) as (m & _ & ->). split; by eexists.
  - apply churn_bounds.
  - apply churn_bounds.
  - intros k owner [Hk Hmv]%map_lookup_filter_Some. cbn in Hmv.
    assert (k ∈ keys) as Hin by by apply Hdom.
    destruct (Hb k Hin) as (n & G & Hn). destruct (Haf k Hin) as (m & G' & Hm).
    destruct (Hadd k) as ([E|(n' & Hn' & E)] & _).
    + rewrite G, G' in E. injection E as ->. congruence.
    + rewrite G' in E. injection E as ->. apply list_elem_of_fmap in Hn' as (i & -> & Hi%elem_of_seqZ).
      exists (workers + i). split; [lia|done].
Qed.
End RingDemo.

(** ** Concrete instances *)
#[local] Existing Instances identity_lib line_document length_hash plain_sha toy_protego same_page ascii_text.
#[local] Existing Instances no_redis no_sets no_counters no_commit_error open_local log_kafka json_bytes merge_order.

Definition dry_options : RunOptions := mkOptions 2 100 10 true true true true true false.
Definition dry_wire : result (CrawlEngine (nat *
    Pipeline (Politeness unit (Fetcher unit * registry) * Limiter unit) (Fetcher unit)
      ((RedisContentDedup * unit) + InMemoryContentDedup) ((RedisDomainBudget * unit) + InMemoryDomainBudget)
      NoopObjectStore Sink)) := wire_run (fun _ => Noop) default_settings dry_options empty_db ∅.

Lemma dry_start : exists eng e1, dry_wire = Ok eng /\ seed_all None ["http://a.example/"] eng = (Ok tt, e1).
Proof.
  assert (match dry_wire with
          | Ok eng => is_ok (fst (seed_all None ["http://a.example/"] eng)) | Raise _ => false end = true) as H
    by (vm_compute; reflexivity).
  destruct dry_wire as [eng|e]; [|discriminate H]. exists eng.
  destruct (seed_all _ _ eng) as [[[]|e] e1]; [by exists e1|discriminate H].
Qed.

Lemma dry_run_scope_witness :
  exists fuel st m, run_crawl (fun _ => Noop) fixed_clock fuel 0 default_settings ["http://a.example/"] dry_options empty_db ∅
    = Ok (Some (st, Some m, empty_db)) /\ (length (printed_pages m) <= 25)%nat.
Proof.
  destruct dry_start as (eng & e1 & Ew & Es).
  destruct (dry_run_scope (fun _ => Noop) fixed_clock default_settings dry_options empty_db ∅ 0 ["http://a.example/"] eng e1
    eq_refl Ew Es eq_refl (fun ses => eq_refl)) as (_ & fuel & st & m & E & _ & Hl).
  exists fuel, st, m. split; [exact E|exact Hl].
Defined.

Definition tick (n : nat) : Q := inject_Z (Z.of_nat n).
Lemma tick_lt (i j : nat) : (i < j)%nat -> (tick i < tick j)%Q.
Proof. intros H. unfold tick, Qlt. cbn. lia. Qed.

Definition recrawl_demo : result Z * option (KafkaFrontier (list sent)) * registry :=
  recrawl_command partition_hash two_partitions (-1) 10 tick (sql_save_page page_a empty_db) ∅.

Lemma recrawl_reenqueues_stalest_witness : fst (fst recrawl_demo) = Ok 1.
Proof.
  destruct (@new_frontier (list sent) partition_hash two_partitions None) as [f|e] eqn:Ef; [|vm_compute in Ef; discriminate Ef].
  pose proof (recrawl_reenqueues_stalest (BL := log_kafka_log) partition_hash two_partitions (-1) 10 tick
    (sql_save_page page_a empty_db) ∅
    ["crawler.dlq"; "crawler.retry"; "crawler.parsed"; "crawler.frontier"] f [] eq_refl tick_lt
    ltac:(vm_compute; reflexivity) Ef eq_refl eq_refl) as Hw.
  cbv zeta in Hw. destruct (planned partition_hash f _) as [records error] eqn:Ep.
  vm_compute in Ef. injection Ef as <-. vm_compute in Ep. injection Ep as <- <-.
  destruct Hw as (f' & p' & reg' & _ & _ & E). unfold recrawl_demo. rewrite E. reflexivity.
Defined.

Lemma graph_command_witness :
  exists rows, recompute_graph 5 (sql_save_page page_a empty_db) = (Ok rows, recompute_degrees (sql_save_page page_a empty_db)) /\
    length rows = 1%nat.
Proof.
  destruct (graph_command (OL := merge_order_laws) 5 (sql_save_page page_a empty_db) (fun _ => eq_refl)
    ltac:(vm_compute; discriminate)) as (rows & E & Hl & _).
  exists rows. split; [exact E|]. rewrite Hl. reflexivity.
Defined.

(** Two workers on distinct points. *)
Definition worker_hash (s : string) : Z := if decide (s = "worker-0#0") then 10 else if decide (s = "worker-1#0") then 20 else 15.

Lemma ring_demo_moves_witness :
  exists ring before ring' after, ring_demo_maps worker_hash 2 1 1 1 = Ok (ring, before, ring', after) /\
    (0 <= churn before after <= 1)%Q.
Proof.
  destruct (ring_demo_moves worker_hash ltac:(intros s; unfold worker_hash; repeat case_decide; lia) 2 1 1 1) as
    (ring & before & ring' & after & E & _ & Hc & _).
  - reflexivity.
  - reflexivity.
  - vm_compute. discriminate.
  - intros n m i j (a & Ha & ->) (b & Hb & ->) Hi Hj.
    assert (i = 0) as -> by lia. assert (j = 0) as -> by lia.
    assert (a = 0 \/ a = 1) as [-> | ->] by lia; assert (b = 0 \/ b = 1) as [-> | ->] by lia;
      vm_compute; intros; try discriminate; split; reflexivity.
  - exists ring, before, ring', after. split; [exact E|exact Hc].
Defined.

(** Both domains hash behind the first worker's point and move to the second. *)
Example ring_demo_run :
  (let* (_, skew, moved, naive) := ring_demo worker_hash 2 1 1 1 in Ok (Qred skew, Qred moved, Qred naive))
    = Ok (1%Q, 1%Q, 1%Q).
Proof. vm_compute. reflexivity. Qed.
