(* ===== verification/Bench.v ===== *)
(** * The throughput benchmark ([crawler/bench.py])

    The generated site, its handler, the recording fetcher, the run over an
    in-memory sink and the figures of [BenchResult].  The HTTP server between
    the fetcher and the handler is the session, a parameter.

    [site_closed]: every link of the generated site leads to one of its pages;
    [percentile_rank]: which latency a percentile is; [recording_fetcher]: what
    is recorded; [benchmark_returns]: the run ends with its figures. *)
From S2P Require Import Prelude PyStr Config Models UrlUtils HtmlParser.
From S2P Require Import SimHash Dedup CircuitBreaker Budget Frontier Fetcher Storage.
From S2P Require Import ObjectStore Pipeline Factory Engine.
Local Open Scope Z_scope.

(** ** [generate_site] *)

Definition dquote : string := String (Ascii.ascii_of_nat 34) EmptyString.
Definition page_path (i : Z) : string := "/p" +:+ pretty i.

(** [s * n] and [sep.join(l)]. *)
Definition repeat_str (n : nat) (s : string) : string := String.concat EmptyString (replicate n s).

(** The page a link of page [i] leads to. *)
Definition link_target (pages i j : Z) : Z := (i * 7 + j) mod pages.
Definition page_links_html (pages i : Z) : string :=
  String.concat EmptyString
    ((fun j => "<a href=" +:+ dquote +:+ page_path (link_target pages i j) +:+ dquote +:+ ">link" +:+ pretty j +:+ "</a>")
       <$> seqZ 0 6).
Definition page_body (i : Z) : string :=
  if i mod 10 =? 1
  then "<p>" +:+ repeat_str 30 "shared boilerplate duplicate content " +:+ "</p>"
  else "<p>unique article " +:+ pretty i +:+ ": " +:+
         String.concat " " ((fun k => "word" +:+ pretty i +:+ "x" +:+ pretty k) <$> seqZ 0 40) +:+ "</p>".
Definition page_html (pages i : Z) : string :=
  "<html><head><title>Page " +:+ pretty i +:+ "</title></head><body>" +:+ page_body i +:+ page_links_html pages i +:+
  "</body></html>".

(** The loop, and [site["/"] = site["/p0"]]. *)
Definition generate_site (pages : Z) : result (gmap string string) :=
  let site := fold_left (fun site i => <[page_path i := page_html pages i]> site) (seqZ 0 pages) ∅ in
  match site !! "/p0" with
  | Some front => Ok (<["/" := front]> site)
  | None => Raise KeyError
  end.

(** The handler: status and text. *)
Definition handler (site : gmap string string) (path : string) : Z * string :=
  match site !! path with Some body => (200, body) | None => (404, "not found") end.

(** ** The figures *)

Record BenchResult : Type := mkBench {
  bn_pages : Z; bn_elapsed_s : Q; bn_pages_per_sec : Q; bn_p50_ms : Q; bn_p95_ms : Q; bn_p99_ms : Q; bn_mb_per_sec : Q;
  bn_dedup_hits : Z; bn_dedup_ratio : Q }.

#[export] Instance Qle_dec : RelDecision Qle.
Proof. intros x y. destruct (Qleb_spec x y); [by left|by right]. Defined.

(** [ordered[idx]]; a negative index counts from the end. *)
Definition py_index {A} (l : list A) (idx : Z) : result A :=
  let i := if idx <? 0 then idx + Z.of_nat (length l) else idx in
  if i <? 0 then Raise IndexError
  else match l !! Z.to_nat i with Some x => Ok x | None => Raise IndexError end.

Definition percentile (values : list Q) (q : Q) : result Q :=
  match values with
  | [] => Ok 0%Q
  | _ =>
      let ordered := merge_sort Qle values in
      let n := Z.of_nat (length ordered) in
      py_index ordered (Z.min (n - 1) (py_int (q * inject_Z n)))
  end.

(** The result of a run. *)
Definition bench_result (stats : CrawlStats) (elapsed : Q) (latencies : list Q) (total_bytes dedup_hits : Z) :
    result BenchResult :=
  let per x := if Qltb 0 elapsed then (x / elapsed)%Q else 0%Q in
  let* p50 := percentile latencies (1 # 2) in
  let* p95 := percentile latencies (95 # 100) in
  let* p99 := percentile latencies (99 # 100) in
  Ok (mkBench (st_processed stats) elapsed (per (inject_Z (st_processed stats)))
        (p50 * 1000) (p95 * 1000) (p99 * 1000) (per (inject_Z total_bytes / 1000000))%Q
        dedup_hits
        (if st_processed stats =? 0 then 0 else inject_Z dedup_hits / inject_Z (st_processed stats))%Q).

(** ** The run *)

(** [_RecordingFetcher]: a fetcher with the latencies so far. *)
#[export] Instance recording_download `{Downloader F} : Downloader (F * list Q) := fun url headers flr =>
  let '((f, latencies), reg) := flr in
  let '(r, (f, reg)) := download url headers (f, reg) in
  match r with
  | Ok result => (Ok result, ((f, match fr_error result with None => latencies ++ [fr_elapsed result] | Some _ => latencies end), reg))
  | Raise e => (Raise e, ((f, latencies), reg))
  end.

(** No politeness and no budget. *)
Inductive Unused : Type := .

#[export] Instance no_gate : PolitenessGate Unused := {|
  gate_allowed := fun _ (g : Unused) => match g with end; gate_slot := fun _ (g : Unused) => match g with end |}.
#[export] Instance no_budget : DomainBudget Unused := {|
  try_consume := fun _ _ (b : Unused) => match b with end; remaining := fun _ (b : Unused) => match b with end |}.

Section Benchmark.
Context {R Session content : Type}.
Context `{UL : UrlLib, SX : Selectolax, TH : TokenHash, SH : Sha256, AI : Aiohttp Session content, RST : RedisSets R}.
Variable clock : nat -> Q.

Abbreviation Dedups := ((RedisContentDedup * R) + InMemoryContentDedup)%type.
Abbreviation pipe := (Pipeline Unused (Fetcher Session * list Q) Dedups Unused NoopObjectStore InMemoryDocumentSink).
#[local] Instance bench_pages : PageProcessor (nat * pipe) := pipeline_processor clock.

Definition with_concurrency (n : Z) (s : Settings) : Settings :=
  {| base_url := base_url s; log_level := log_level s; log_json := log_json s; postgres := postgres s; redis := redis s;
     kafka := kafka s;
     fetch := {| concurrency := n; per_host_concurrency := per_host_concurrency (fetch s);
                 timeout_seconds := timeout_seconds (fetch s); connect_timeout_seconds := connect_timeout_seconds (fetch s);
                 retries := retries (fetch s); max_page_bytes := max_page_bytes (fetch s); user_agent := user_agent (fetch s) |};
     politeness := politeness s; crawl := crawl s; dedup := dedup s; frontier := frontier s; sharding := sharding s;
     storage := storage s; resilience := resilience s; recrawl := recrawl s |}.

Definition wire_bench (s : Settings) (pages concurrency max_depth : Z) (dedup : bool) (reg : registry) : CrawlEngine (nat * pipe) :=
  let s := with_concurrency concurrency s in
  let fetcher := (Fetcher.aenter (new_fetcher s None), []) in
  let content_dedup := if dedup then Some (build_content_dedup s (None : option R)) else None in
  let pipeline := mkPipeline s fetcher (mkMemSink [] ∅) None content_dedup None false None None reg in
  new_engine (0%nat, pipeline) new_memory s max_depth pages concurrency true None.

(** The near-duplicates counted in this process so far. *)
Definition _dedup_content_total (reg : registry) : Z := sample (DEDUP_SKIPPED "content") reg.

(** [run_benchmark] on the site's address [base], with one worker. *)
Definition run_benchmark (fuel : nat) (elapsed : Q) (s : Settings) (base : string) (pages concurrency max_depth : Z)
    (dedup : bool) (reg : registry) : result (option BenchResult) :=
  let* _ := generate_site pages in
  let dedup_before := _dedup_content_total reg in
  let* outcome := run fuel elapsed [base] None (wire_bench s pages concurrency max_depth dedup reg) in
  match outcome with
  | None => Ok None
  | Some (stats, e) =>
      let p := snd (en_pipeline e) in
      let* _ := close (fst (pl_fetcher p)) in
      let total_bytes := sum_of (fun r => default 0 (pr_content_length r)) (ms_pages (pl_sink p)) in
      let dedup_hits := _dedup_content_total (pl_reg p) - dedup_before in
      let* r := bench_result stats elapsed (snd (pl_fetcher p)) total_bytes dedup_hits in
      Ok (Some r)
  end.

End Benchmark.

(** ** The site *)

Lemma page_path_inj i j : page_path i = page_path j -> i = j.
Proof. unfold page_path. intros E. apply (inj (String.append "/p")) in E. by apply (inj pretty) in E. Qed.

Lemma site_pages (pages : Z) l (site : gmap string string) path :
  fold_left (fun site i => <[page_path i := page_html pages i]> site) l site !! path =
  match list_find (fun i => path = page_path i) l with Some (_, i) => Some (page_html pages i) | None => site !! path end.
Proof.
  revert site. induction l as [|i l IH]; intros site; [done|]. cbn [fold_left]. rewrite IH. cbn [list_find].
  destruct (decide (path = page_path i)) as [->|Hne].
  - destruct (list_find _ l) as [[k j]|] eqn:E; cbn.
    + apply list_find_Some in E as (_ & E%page_path_inj & _). by subst.
    + by rewrite lookup_insert_eq.
  - destruct (list_find _ l) as [[k j]|]; cbn; [done|]. by rewrite lookup_insert_ne.
Qed.

(** The generated site is closed under its links.  With at least one page the
    handler serves page [i] under [/p<i>] and page 0 also under [/], anything
    else is a 404; and the six links of every page lead to pages it serves.
    Without a page the generation raises. *)
Theorem site_closed (pages : Z) :
  match generate_site pages with
  | Ok site =>
      0 < pages /\ handler site "/" = (200, page_html pages 0) /\
      (forall i, 0 <= i < pages -> handler site (page_path i) = (200, page_html pages i)) /\
      (forall path, path <> "/" -> (forall i, 0 <= i < pages -> path <> page_path i) -> fst (handler site path) = 404) /\
      (forall i j, 0 <= i < pages -> j ∈ seqZ 0 6 -> fst (handler site (page_path (link_target pages i j))) = 200)
  | Raise e => e = KeyError /\ pages <= 0
  end.
Proof.
  unfold generate_site. set (site := fold_left _ _ _).
  assert (forall i, 0 <= i < pages -> site !! page_path i = Some (page_html pages i)) as Hin.
  { intros i Hi. unfold site. rewrite site_pages. destruct (list_find _ _) as [[k j]|] eqn:E.
    - apply list_find_Some in E as (_ & E%page_path_inj & _). by subst.
    - exfalso. rewrite list_find_None, Forall_forall in E. apply (E i); [apply elem_of_seqZ; lia|done]. }
  assert (forall path, (forall i, 0 <= i < pages -> path <> page_path i) -> site !! path = None) as Hout.
  { intros path Hp. unfold site. rewrite site_pages. destruct (list_find _ _) as [[k j]|] eqn:E; [|done].
    apply list_find_Some in E as (Hk & -> & _). apply list_elem_of_lookup_2, elem_of_seqZ in Hk. by destruct (Hp j ltac:(lia)). }
  assert (forall i, page_path i <> "/") as Hroot by (intros i; by unfold page_path).
  change "/p0" with (page_path 0). destruct (Z_lt_le_dec 0 pages) as [Hp|Hp].
  - rewrite (Hin 0) by lia. unfold handler. rewrite lookup_insert_eq. split_and!; [done|done| | |].
    + intros i Hi. rewrite lookup_insert_ne by (intros E; by apply (Hroot i)). by rewrite Hin.
    + intros path Hne Hall. rewrite lookup_insert_ne by done. by rewrite Hout.
    + intros i j Hi _. rewrite lookup_insert_ne by (intros E; by eapply Hroot). rewrite Hin; [done|].
      unfold link_target. by apply Z.mod_pos_bound.
  - rewrite Hout; [done|]. intros i Hi. lia.
Qed.

(** ** Percentiles *)

Lemma sorted_rank (l : list Q) i v : StronglySorted Qle l -> l !! i = Some v ->
  (i < length (filter (fun x => x <= v)%Q l))%nat /\ (length (filter (fun x => ~ v <= x)%Q l) <= i)%nat.
Proof.
  intros Hs. revert i. induction Hs as [|x l Hs IH Hall]; intros i Hi; [done|]. rewrite !filter_cons.
  destruct i as [|i]; cbn in Hi.
  - injection Hi as ->. rewrite decide_True by apply Qle_refl. rewrite (decide_False (P := ~ v <= v)%Q) by (intros H; apply H, Qle_refl).
    cbn. split; [lia|]. assert (filter (fun x => ~ v <= x)%Q l = []) as ->; [|done].
    clear -Hall. induction Hall as [|y l Hy _ IH]; [done|]. by rewrite filter_cons, decide_False by (intros H; by apply H).
  - destruct (IH i Hi) as [H1 H2]. assert (x <= v)%Q as Hx by (eapply Forall_forall in Hall; [exact Hall|by eapply list_elem_of_lookup_2]).
    rewrite decide_True by done. cbn [length]. split; [lia|]. case_decide; cbn [length]; lia.
Qed.

(** A percentile is one of the measured values, by rank: for a fraction [q]
    between 0 and 1 the value returned for [n] measurements has at least
    [int(q n) + 1] of them (at most all) at or below it and at most [int(q n)]
    below it; no measurements give 0. *)
Theorem percentile_rank (values : list Q) (q : Q) : (0 <= q)%Q ->
  let n := Z.of_nat (length values) in
  let idx := Z.min (n - 1) (py_int (q * inject_Z n)) in
  (values = [] -> percentile values q = Ok 0%Q) /\
  (values <> [] -> exists v, percentile values q = Ok v /\ v ∈ values /\
     idx + 1 <= Z.of_nat (length (filter (fun x => x <= v)%Q values)) /\
     Z.of_nat (length (filter (fun x => ~ v <= x)%Q values)) <= idx).
Proof.
  intros Hq n idx. split; [by intros ->|]. intros Hne.
  assert (percentile values q =
    let ordered := merge_sort Qle values in
    let n := Z.of_nat (length ordered) in
    py_index ordered (Z.min (n - 1) (py_int (q * inject_Z n)))) as -> by by destruct values.
  cbv zeta.
  pose proof (merge_sort_Permutation Qle values) as Hp. set (ordered := merge_sort Qle values) in *.
  assert (StronglySorted Qle ordered) as Hs.
  { apply Sorted_StronglySorted; [intros a b c; apply Qle_trans|]. apply Sorted_merge_sort.
    intros a b. destruct (Qlt_le_dec a b); [left; by apply Qlt_le_weak|by right]. }
  rewrite (Permutation_length Hp). fold n. fold idx.
  assert (0 < n) as Hn by (unfold n; destruct values; [done|cbn; lia]).
  assert (0 <= py_int (q * inject_Z n)) as H0.
  { unfold py_int. assert (0 <= q * inject_Z n)%Q as Hpos by (apply Qmult_le_0_compat; [done|]; unfold Qle; cbn; lia).
    destruct (Qltb_spec (q * inject_Z n) 0); [lra|]. apply (Qfloor_resp_le 0) in Hpos. exact Hpos. }
  assert (0 <= idx < n) as Hidx by lia. unfold py_index. destruct (Z.ltb_spec idx 0); [lia|]. destruct (Z.ltb_spec idx 0); [lia|].
  destruct (lookup_lt_is_Some_2 ordered (Z.to_nat idx)) as [v Hv].
  { rewrite (Permutation_length Hp). lia. }
  rewrite Hv. exists v. split; [done|]. destruct (sorted_rank ordered _ v Hs Hv) as [Hle Hlt].
  rewrite (Permutation_length (filter_Permutation (fun x => x <= v)%Q _ _ Hp)) in Hle.
  rewrite (Permutation_length (filter_Permutation (fun x => ~ v <= x)%Q _ _ Hp)) in Hlt.
  split; [rewrite <- Hp; by eapply list_elem_of_lookup_2|]. split; lia.
Qed.

(** The recording fetcher returns what the fetcher returns, and records the
    latency of exactly the fetches without an error. *)
Lemma recording_fetcher `{Downloader F} url headers (f : F) latencies reg :
  fst (download url headers ((f, latencies), reg)) = fst (download url headers (f, reg)) /\
  snd (fst (snd (download url headers ((f, latencies), reg)))) =
    latencies ++ match fst (download url headers (f, reg)) with
                 | Ok r => match fr_error r with None => [fr_elapsed r] | Some _ => [] end
                 | Raise _ => []
                 end.
Proof.
  unfold download at 1 3, recording_download. destruct (download url headers (f, reg)) as [[r|e] [f' reg']]; cbn.
  - split; [done|]. destruct (fr_error r); [by rewrite app_nil_r|done].
  - by rewrite app_nil_r.
Qed.

Lemma percentile_total values q : (0 <= q)%Q -> exists v, percentile values q = Ok v.
Proof.
  intros Hq. destruct (percentile_rank values q Hq) as [He Hne]. destruct values as [|x l]; [by eexists; apply He|].
  destruct Hne as (v & E & _); [done|]. by exists v.
Qed.

(** ** The run *)
Section Returns.
Context {R Session content : Type}.
Context `{UL : UrlLib, SX : Selectolax, TH : TokenHash, SH : Sha256, AI : Aiohttp Session content, RST : RedisSets R}.
Variable clock : nat -> Q.
Abbreviation pipe := (Pipeline Unused (Fetcher Session * list Q) ((RedisContentDedup * R) + InMemoryContentDedup) Unused
  NoopObjectStore InMemoryDocumentSink).
#[local] Instance returns_pages : PageProcessor (nat * pipe) := pipeline_processor clock.
#[local] Instance returns_pages_spec : PageProcessorSpec (nat * pipe) := pipeline_processor_spec clock.

(** The benchmark returns: for a site with a page, at least one worker, an
    address the URL parser accepts and a session that closes, the run ends with
    its figures after finitely many turns, having counted fewer than
    [pages + concurrency] pages. *)
Theorem benchmark_returns (elapsed : Q) (s : Settings) (base : string) (pages concurrency max_depth : Z) (dedup : bool) (reg : registry)
    (e1 : CrawlEngine (nat * pipe)) :
  0 < pages -> 0 < concurrency ->
  seed_all None [base] (wire_bench (R := R) s pages concurrency max_depth dedup reg : CrawlEngine (nat * pipe)) = (Ok tt, e1) ->
  (forall ses : Session, is_ok (session_close ses) = true) ->
  exists fuel r, run_benchmark (R := R) clock fuel elapsed s base pages concurrency max_depth dedup reg = Ok (Some r) /\
    0 <= bn_pages r < pages + concurrency /\ bn_elapsed_s r = elapsed.
Proof.
  intros Hp Hc Es Hclose. set (eng := wire_bench s pages concurrency max_depth dedup reg) in Es.
  assert (started eng [base] None (mkCrawling e1 [] [])) as Hst by done.
  set (I := fun _ : nat * pipe => True).
  destruct (work_terminates I eng [base] None _ [] e1 eq_refl (started_inv _ _ _ _ Hst) Hc) as (fuel & e' & d' & Ework & _ & _ & Hi).
  pose proof (inv_budget _ _ _ _ Hi) as Hb. pose proof (inv_processed _ _ _ _ Hi) as Hpr. cbn [cs_engine cs_busy length] in Hb, Hpr.
  change (en_max_pages eng) with pages in Hb. change (en_concurrency eng) with concurrency in Hb.
  exists fuel. unfold run_benchmark. pose proof (site_closed pages) as Hsite.
  destruct (generate_site pages) as [site|e]; [|lia]. cbn [rbind]. fold eng. unfold run.
  unfold bench_pages. unfold returns_pages in Es, Ework. rewrite Es, Ework.
  cbn [fmap option_fmap option_map rbind].
  assert (exists f, close (fst (pl_fetcher (snd (en_pipeline e')))) = Ok f) as [f ->] by by apply close_ok.
  cbn [rbind]. unfold bench_result.
  destruct (percentile_total (snd (pl_fetcher (snd (en_pipeline e')))) (1 # 2)) as [p50 ->]; [done|].
  destruct (percentile_total (snd (pl_fetcher (snd (en_pipeline e')))) (95 # 100)) as [p95 ->]; [done|].
  destruct (percentile_total (snd (pl_fetcher (snd (en_pipeline e')))) (99 # 100)) as [p99 ->]; [done|].
  cbn [rbind]. eexists. split; [done|]. cbn. split; [|done]. lia.
Qed.
End Returns.

Lemma percentile_rank_witness :
  exists v, percentile [3; 1; 2]%Q (1 # 2) = Ok v /\ v ∈ [3; 1; 2]%Q.
Proof.
  destruct (percentile_rank [3; 1; 2]%Q (1 # 2)) as [_ Hw]; [discriminate|].
  destruct Hw as (v & E & Hin & _); [discriminate|]. exists v. split; [exact E|exact Hin].
Defined.

Example small_site : handler (match generate_site 3 with Ok s => s | Raise _ => ∅ end) "/p3" = (404, "not found").
Proof. vm_compute. reflexivity. Qed.
