(* ===== verification/Output.v ===== *)
(** * What the commands print ([crawler/cli.py])

    The lines [crawl], [seed], [recrawl], [graph], [bench] and [ring-demo] write
    to the terminal, and the defaults of [crawl]'s options.

    [graph_report_reads]: the table of [graph] reads back; [reported_figures]:
    how close the printed figures are; [ring_demo_report]: what [ring-demo]
    prints. *)
From Stdlib Require Import Ascii Qabs.
From S2P Require Import Prelude PyStr Config Format ConsistentHash Models UrlUtils HtmlParser Recrawl.
From S2P Require Import SimHash Dedup CircuitBreaker Budget Backpressure Frontier Seeding Robots Fetcher Storage.
From S2P Require Import ObjectStore Sessions Pipeline Factory Engine LocalCrawl Cli Bench.
Local Open Scope Z_scope.

(** ** [crawl] *)

(** Its options' defaults. *)
Definition crawl_defaults : RunOptions := mkOptions 2 100 10 true false true true true false.

Definition page_line (page : option Z * string * Z) : string :=
  let '(status, url, links) := page in
  "  " +:+ match status with Some s => pretty s | None => "None" end +:+ "  " +:+ url +:+ "  (" +:+ pretty links +:+ " links)".
Definition crawl_summary (stats : CrawlStats) : string :=
  "Crawled " +:+ pretty (st_processed stats) +:+ " pages, discovered " +:+ pretty (st_discovered stats) +:+ " URLs in " +:+
  fixed 2 (st_elapsed stats) +:+ "s".
Definition crawl_output (stats : CrawlStats) (mem_sink : option InMemoryDocumentSink) : list string :=
  match mem_sink with Some m => page_line <$> printed_pages m | None => [] end ++ [crawl_summary stats].

(** ** [seed], [recrawl] and [graph] *)

Definition seed_output (count : Z) : string := "Seeded " +:+ pretty count +:+ " URL(s) to the frontier".
Definition recrawl_output (count : Z) : string := "Re-enqueued " +:+ pretty count +:+ " stale page(s) for recrawl".
Definition row_line (row : string * Z) : string := "  " +:+ rjust " " 6 (pretty (snd row)) +:+ "  " +:+ fst row.
Definition graph_output (rows : list (string * Z)) : list string :=
  "Recomputed link-graph degrees. Most linked-to pages:" :: (row_line <$> rows).

(** ** [bench] *)

Definition bench_output (r : BenchResult) : list string :=
  ["Crawled " +:+ pretty (bn_pages r) +:+ " pages in " +:+ fixed 2 (bn_elapsed_s r) +:+ "s " +:+
     "(" +:+ fixed 0 (bn_pages_per_sec r) +:+ " pages/s, " +:+ fixed 2 (bn_mb_per_sec r) +:+ " MB/s)";
   "  fetch latency  p50=" +:+ fixed 1 (bn_p50_ms r) +:+ "ms  " +:+
     "p95=" +:+ fixed 1 (bn_p95_ms r) +:+ "ms  p99=" +:+ fixed 1 (bn_p99_ms r) +:+ "ms";
   "  near-duplicates skipped: " +:+ pretty (bn_dedup_hits r) +:+ " " +:+ "(" +:+ percent 1 (bn_dedup_ratio r) +:+ " of pages)"].

(** ** [ring-demo] *)

(** The lines printed so far are the state: a command that raises has printed
    those before. *)
Definition echo (line : string) : act (list string) unit := amodify (fun lines => lines ++ [line]).
Fixpoint echo_all (lines : list string) : act (list string) unit :=
  match lines with [] => aret tt | line :: lines => let! _ := echo line in echo_all lines end.

(** [for node in sorted(dist)]. *)
Definition sorted_counts (dist : gmap string Z) : list (string * Z) :=
  (fun node => (node, default 0 (dist !! node))) <$> merge_sort String.le (map_to_list dist).*1.
Definition node_line (count : string * Z) : string := "  " +:+ fst count +:+ ": " +:+ pretty (snd count) +:+ " domains".
Definition newline : string := String (ascii_of_nat 10) EmptyString.

Section RingDemoOutput.
Variable hash : string -> Z.

Definition ring_demo_command (domains workers add vn : Z) : act (list string) unit :=
  let keys := domain_name <$> seqZ 0 domains in
  let initial := worker_name <$> seqZ 0 workers in
  let! ring := alift (new_ring hash initial vn) in
  let! before := alift (assignments hash ring keys ∅) in
  let! dist := alift (distribution hash ring keys) in
  let! _ := echo (pretty domains +:+ " domains across " +:+ pretty workers +:+ " workers (virtual nodes smooth the load):") in
  let! _ := echo_all (node_line <$> sorted_counts dist) in
  let! skew := alift (imbalance hash ring keys) in
  let! _ := echo ("  load imbalance (max/mean): " +:+ fixed 3 skew) in
  let ring := fold_left (fun r i => add_node hash (worker_name (workers + i)) r) (seqZ 0 add) ring in
  let! after := alift (assignments hash ring keys ∅) in
  let moved := churn before after in
  let naive := naive_churn hash keys workers (workers + add) in
  let! _ := echo (newline +:+ "Scaled " +:+ pretty workers +:+ " -> " +:+ pretty (workers + add) +:+ " workers:") in
  let! _ := echo ("  consistent-hash churn: " +:+ percent 1 moved +:+ " of domains moved") in
  echo ("  naive hash%N churn:    " +:+ percent 1 naive +:+ " of domains moved").

End RingDemoOutput.

(** ** The table of [graph] *)

Definition read_row (line : string) : option (string * Z) :=
  let '(n, rest) := break (is_char " ") (lstrip (is_char " ") line) in
  match int_of_digits n with Ok n => Some (sdrop 2 rest, n) | Raise _ => None end.

Lemma lstrip_spaces n s : lstrip (is_char " ") (repeat_char " " n +:+ s) = lstrip (is_char " ") s.
Proof. induction n as [|n IH]; [done|]. exact IH. Qed.
Lemma digit_not_space (z : Z) : 0 <= z -> sall (fun c => negb (is_char " " c)) (pretty z) = true.
Proof.
  intros Hz. eapply sall_impl; [|by apply sall_digits_nonneg]. intros c. unfold is_digit, between, is_char. by destruct c as [[] [] [] [] [] [] [] []].
Qed.
Lemma read_row_line url n : 0 <= n -> read_row (row_line (url, n)) = Some (url, n).
Proof.
  intros Hn. unfold read_row, row_line. cbn [fst snd]. unfold rjust. rewrite !append_assoc.
  change ("  " +:+ ?s) with (repeat_char " " 2 +:+ s) at 1. rewrite !lstrip_spaces.
  change ("  " +:+ url) with (String " " (String " " url)).
  pose proof (digit_not_space n Hn) as Hd. assert (lstrip (is_char " ") (pretty n +:+ String " " (String " " url)) =
    pretty n +:+ String " " (String " " url)) as ->.
  { pose proof (int_of_digits_nonneg n Hn) as Hi. destruct (pretty n) as [|c s]; [done|]. cbn [sall] in Hd.
    apply andb_true_iff in Hd as [Hc _]. change (String c s +:+ ?r) with (String c (s +:+ r)). unfold lstrip. cbn [drop_while].
    by destruct (is_char " " c). }
  rewrite break_sep by done. by rewrite int_of_digits_nonneg.
Qed.

(** The table of [graph] reads back.  Whenever the command's query returns,
    the lines below the heading are one per row and give back, in order, the
    URL (whatever characters it has) and the whole degree of each, also when it
    has more digits than the column is wide. *)
Theorem graph_report_reads `{OB : OrderBy, OL : !OrderByLaws, CM : Commits} (top : Z) (db db' : DB) rows :
  recompute_graph top db = (Ok rows, db') ->
  mapM read_row (tail (graph_output rows)) = Some rows /\ Forall (fun row => 0 <= snd row) rows.
Proof.
  intros Hrun. assert (Forall (fun row : string * Z => 0 <= snd row) rows) as Hn.
  { revert Hrun. unfold recompute_graph, abind, session_scope. destruct (commit_error (recompute_degrees db)); [done|].
    destruct (commit_error _); [done|]. intros [= <- _]. unfold top_by_in_degree.
    apply Forall_fmap, Forall_forall. intros d Hd%elem_of_take_in. rewrite order_by_perm in Hd.
    unfold recompute_degrees in Hd. cbn [set_documents db_documents] in Hd.
    apply list_elem_of_fmap in Hd as (d1 & -> & (d0 & -> & _)%list_elem_of_fmap). cbn. unfold in_edges. lia. }
  split; [|done]. cbn [graph_output tail]. clear Hrun. induction Hn as [|[url n] rows Hrow _ IH]; [done|].
  cbn [fmap list_fmap mapM]. change (list_fmap _ _ row_line rows) with (row_line <$> rows). rewrite read_row_line by done. cbn [mbind option_bind]. by rewrite IH.
Qed.

(** ** The printed figures *)

(** [text] is what a reader takes for [x], give or take [tol]. *)
Definition shows (text : string) (x tol : Q) : Prop := exists y, read_decimal text = Ok y /\ (Qabs (y - x) <= tol)%Q.
Lemma fixed_shows p x tol : (tol == (1 # 2) / inject_Z (10 ^ Z.of_nat p))%Q -> shows (fixed p x) x tol.
Proof. intros Ht. destruct (read_fixed p x) as (y & Ey & Hy). exists y. split; [done|]. by rewrite Ht. Qed.

(** The figures a run reports.  The benchmark's lines and the summary of a
    crawl consist of the counts, printed exactly, and of decimals that read as
    the measured times, rates and ratios to within half a unit of their last
    digit: 5 ms of elapsed time, half a page per second, 0.005 MB/s, 0.05 ms of
    latency, 0.05 percentage points of near-duplicates. *)
Theorem reported_figures (r : BenchResult) (stats : CrawlStats) :
  (exists elapsed pps mbps p50 p95 p99 ratio,
    bench_output r =
      ["Crawled " +:+ pretty (bn_pages r) +:+ " pages in " +:+ elapsed +:+ "s (" +:+ pps +:+ " pages/s, " +:+ mbps +:+ " MB/s)";
       "  fetch latency  p50=" +:+ p50 +:+ "ms  p95=" +:+ p95 +:+ "ms  p99=" +:+ p99 +:+ "ms";
       "  near-duplicates skipped: " +:+ pretty (bn_dedup_hits r) +:+ " (" +:+ ratio +:+ "% of pages)"] /\
    shows elapsed (bn_elapsed_s r) (1 # 200) /\ shows pps (bn_pages_per_sec r) (1 # 2) /\ shows mbps (bn_mb_per_sec r) (1 # 200) /\
    shows p50 (bn_p50_ms r) (1 # 20) /\ shows p95 (bn_p95_ms r) (1 # 20) /\ shows p99 (bn_p99_ms r) (1 # 20) /\
    shows ratio (bn_dedup_ratio r * 100) (1 # 20)) /\
  exists elapsed,
    crawl_summary stats = "Crawled " +:+ pretty (st_processed stats) +:+ " pages, discovered " +:+ pretty (st_discovered stats) +:+
      " URLs in " +:+ elapsed +:+ "s" /\
    shows elapsed (st_elapsed stats) (1 # 200).
Proof.
  split.
  - exists (fixed 2 (bn_elapsed_s r)), (fixed 0 (bn_pages_per_sec r)), (fixed 2 (bn_mb_per_sec r)), (fixed 1 (bn_p50_ms r)),
      (fixed 1 (bn_p95_ms r)), (fixed 1 (bn_p99_ms r)), (fixed 1 (bn_dedup_ratio r * 100)).
    split; [unfold bench_output, percent; by rewrite !append_assoc|]. split_and!; by apply fixed_shows.
  - exists (fixed 2 (st_elapsed stats)). split; [done|]. by apply fixed_shows.
Qed.

(** ** [ring-demo] *)

Lemma echo_all_eq lines printed : echo_all lines printed = (Ok tt, printed ++ lines).
Proof.
  revert printed. induction lines as [|line lines IH]; intros printed; cbn; [by rewrite app_nil_r|].
  unfold abind, echo, amodify. by rewrite IH, <- app_assoc.
Qed.

Definition total (counts : gmap string Z) : Z := foldr Z.add 0 (map_to_list counts).*2.
Definition count_value (counts : gmap string Z) (node : string) : gmap string Z := <[node := default 0 (counts !! node) + 1]> counts.
Lemma foldr_add_perm l l' : l ≡ₚ l' -> foldr Z.add 0 l = foldr Z.add 0 l'.
Proof. induction 1; cbn; lia. Qed.
Lemma total_insert m k x : m !! k = None -> total (<[k := x]> m) = x + total m.
Proof. intros Hk. unfold total. rewrite (foldr_add_perm _ (x :: (map_to_list m).*2)); [done|]. by rewrite (map_to_list_insert m k x Hk). Qed.
Lemma total_count m k : total (count_value m k) = total m + 1.
Proof.
  unfold count_value. destruct (m !! k) as [c|] eqn:E; cbn [default].
  - assert (forall x, total (<[k := x]> m) = x + total (delete k m)) as Ht.
    { intros x. rewrite <- insert_delete_eq, total_insert; [done|apply lookup_delete_eq]. }
    rewrite Ht. specialize (Ht c). rewrite insert_id in Ht by done. unfold id. lia.
  - rewrite total_insert by done. lia.
Qed.

(** How many keys a node has. *)
Definition share (a : gmap string string) (node : string) : Z := Z.of_nat (size (filter (fun kv => kv.2 = node) a)).
Lemma count_values (a : gmap string string) :
  let counts := map_fold (fun _ node counts => count_value counts node) ∅ a in
  total counts = Z.of_nat (size a) /\ forall node c, counts !! node = Some c <-> c = share a node /\ 0 < c.
Proof.
  cbv zeta. apply (map_fold_weak_ind (fun counts a => total counts = Z.of_nat (size a) /\
    forall node c, counts !! node = Some c <-> c = share a node /\ 0 < c)).
  - split; [done|]. intros node c. unfold share. rewrite map_filter_empty, map_size_empty, lookup_empty. split; [done|cbn; lia].
  - intros k n a' counts Hk [Ht Hc]. split; [rewrite total_count, Ht, map_size_insert_None by done; lia|].
    intros node c. unfold count_value. assert (default 0 (counts !! n) = share a' n) as ->.
    { destruct (counts !! n) as [x|] eqn:E; cbn; [by apply Hc in E as [-> _]|].
      assert (~ 0 < share a' n) as Hx; [|unfold share in *; lia].
      intros Hx. by rewrite (proj2 (Hc n _) (conj eq_refl Hx)) in E. }
    assert (share (<[k := n]> a') node = if decide (n = node) then share a' node + 1 else share a' node) as ->.
    { unfold share. destruct (decide (n = node)) as [->|Hne].
      - rewrite map_filter_insert_True by done. rewrite map_size_insert_None; [lia|]. apply map_lookup_filter_None. by left.
      - rewrite map_filter_insert_False by done. by rewrite delete_id. }
    destruct (decide (n = node)) as [->|Hne].
    + rewrite lookup_insert_eq. unfold share. split; [intros [= <-]; lia|intros [-> _]; done].
    + by rewrite lookup_insert_ne.
Qed.

Lemma sorted_counts_spec (dist : gmap string Z) :
  StronglySorted String.le (sorted_counts dist).*1 /\ NoDup (sorted_counts dist).*1 /\
  foldr Z.add 0 (sorted_counts dist).*2 = total dist /\ forall node c, (node, c) ∈ sorted_counts dist <-> dist !! node = Some c.
Proof.
  unfold sorted_counts. set (nodes := merge_sort String.le (map_to_list dist).*1).
  assert (nodes ≡ₚ (map_to_list dist).*1) as Hp by apply merge_sort_Permutation.
  assert (((fun node => (node, default 0 (dist !! node))) <$> nodes).*1 = nodes) as ->.
  { rewrite <- list_fmap_compose. by apply list_fmap_id. }
  assert ((fun node => (node, default 0 (dist !! node))) <$> (map_to_list dist).*1 = map_to_list dist) as Eid.
  { rewrite <- list_fmap_compose. apply list_eq. intros i. rewrite list_lookup_fmap. destruct (map_to_list dist !! i) as [[k c]|] eqn:E; [|done].
    cbn. apply list_elem_of_lookup_2, elem_of_map_to_list in E. by rewrite E. }
  split_and!.
  - apply StronglySorted_merge_sort; apply _.
  - rewrite Hp. apply NoDup_fst_map_to_list.
  - unfold total. apply foldr_add_perm. rewrite Hp, Eid. done.
  - intros node c. rewrite Hp, Eid. apply elem_of_map_to_list.
Qed.

Section RingDemoReport.
Variable hash : string -> Z.
Hypothesis hash_u32 : forall s, 0 <= hash s < 2 ^ 32.

Lemma assigned_size (r : ConsistentHashRing) keys a : NoDup keys -> assignments hash r keys ∅ = Ok a ->
  (forall k, k ∈ keys -> is_Some (a !! k)) -> size a = length keys.
Proof.
  intros Hnd Ha Hall. assert (dom a = list_to_set keys) as Hd.
  { apply set_eq. intros k. rewrite elem_of_dom, elem_of_list_to_set. split; [|apply Hall].
    rewrite (assignments_lookup hash hash_u32 _ _ _ _ k Ha). case_decide; [done|]. by intros []. }
  rewrite <- size_dom, Hd. by apply size_list_to_set.
Qed.

(** What [ring-demo] prints.  With at least one worker and ring points that
    do not collide, the command does not raise; below the heading comes one
    line for each worker that has a domain, in the order of the names, and the
    numbers on them, each the size of that worker's share, add up to the number
    of domains; the last line but one is the fraction of domains whose worker
    changed. *)
Theorem ring_demo_report domains workers add vn : 0 <= domains -> 0 < vn -> 0 < workers -> 0 <= add ->
  collision_free hash vn (fun n => exists i, 0 <= i < workers + add /\ n = worker_name i) ->
  exists ring before ring' after counts skew naive,
    ring_demo_maps hash domains workers add vn = Ok (ring, before, ring', after) /\
    ring_demo_command hash domains workers add vn [] = (Ok tt,
      (pretty domains +:+ " domains across " +:+ pretty workers +:+ " workers (virtual nodes smooth the load):") ::
      (node_line <$> counts) ++
      ["  load imbalance (max/mean): " +:+ fixed 3 skew;
       newline +:+ "Scaled " +:+ pretty workers +:+ " -> " +:+ pretty (workers + add) +:+ " workers:";
       "  consistent-hash churn: " +:+ percent 1 (churn before after) +:+ " of domains moved";
       "  naive hash%N churn:    " +:+ percent 1 naive +:+ " of domains moved"]) /\
    StronglySorted String.le counts.*1 /\ NoDup counts.*1 /\ foldr Z.add 0 counts.*2 = domains /\
    forall node c, (node, c) ∈ counts <-> c = share before node /\ 0 < c.
Proof.
  intros Hd Hv Hw Ha Hc. destruct (ring_demo_moves hash hash_u32 domains workers add vn Hv Hw Ha Hc) as
    (ring & before & ring' & after & E & Hall & _). exists ring, before, ring', after.
  pose proof E as Em. unfold ring_demo_maps in Em. apply rbind_Ok in Em as (ring0 & Er & Em).
  apply rbind_Ok in Em as (before0 & Eb & Em). apply rbind_Ok in Em as (after0 & Ea & Em).
  injection Em as -> -> <- ->. set (dist := map_fold (fun _ node counts => count_value counts node) ∅ before).
  assert (distribution hash ring (domain_name <$> seqZ 0 domains) = Ok dist) as Edist by (unfold distribution; by rewrite Eb).
  destruct (sorted_counts_spec dist) as (Hs & Hnd & Hsum & Hin). destruct (count_values before) as [Htot Hval]. fold dist in Htot, Hval.
  assert (exists skew, imbalance hash ring (domain_name <$> seqZ 0 domains) = Ok skew) as [skew Eskew].
  { unfold imbalance. rewrite Edist. repeat (case_decide || case_match); by eexists. }
  exists (sorted_counts dist), skew, (naive_churn hash (domain_name <$> seqZ 0 domains) workers (workers + add)). split_and!; [done| |done|done| |].
  - unfold ring_demo_command, abind, alift. rewrite Er, Eb, Edist. unfold echo at 1, amodify. rewrite echo_all_eq, Eskew.
    unfold echo, amodify. rewrite Ea. by rewrite <- !app_assoc.
  - rewrite Hsum, Htot, (assigned_size ring (domain_name <$> seqZ 0 domains)).
    + rewrite length_fmap, length_seqZ. lia.
    + apply NoDup_fmap_2_strong; [|apply NoDup_seqZ]. intros i j _ _ Eij. unfold domain_name in Eij.
      apply append_inj_l, (f_equal String.rev) in Eij. rewrite !rev_append in Eij. apply append_inj_l, (f_equal String.rev) in Eij.
      rewrite !rev_involutive in Eij. by apply (inj pretty) in Eij.
    + done.
    + intros k Hk. by apply Hall.
  - intros node c. by rewrite Hin, Hval.
Qed.
End RingDemoReport.

(** ** Witnesses *)

#[local] Existing Instances no_commit_error merge_order.
Lemma graph_report_reads_witness :
  mapM read_row (tail (graph_output (top_by_in_degree 5 (recompute_degrees (sql_save_page page_a empty_db))))) =
    Some (top_by_in_degree 5 (recompute_degrees (sql_save_page page_a empty_db))).
Proof.
  apply (graph_report_reads (OL := merge_order_laws) 5 (sql_save_page page_a empty_db) (recompute_degrees (sql_save_page page_a empty_db))).
  reflexivity.
Defined.

Lemma ring_demo_report_witness : exists counts figures,
  ring_demo_command worker_hash 2 1 1 1 [] =
    (Ok tt, (pretty 2 +:+ " domains across " +:+ pretty 1 +:+ " workers (virtual nodes smooth the load):") :: (node_line <$> counts) ++ figures) /\
  foldr Z.add 0 counts.*2 = 2.
Proof.
  destruct (ring_demo_report worker_hash ltac:(intros s; unfold worker_hash; repeat case_decide; lia) 2 1 1 1) as
    (ring & before & ring' & after & counts & skew & naive & _ & E & _ & _ & Hsum & _).
  - discriminate.
  - reflexivity.
  - reflexivity.
  - discriminate.
  - intros n m i j (a & Ha & ->) (b & Hb & ->) Hi Hj.
    assert (i = 0) as -> by lia. assert (j = 0) as -> by lia.
    assert (a = 0 \/ a = 1) as [-> | ->] by lia; assert (b = 0 \/ b = 1) as [-> | ->] by lia;
      vm_compute; intros; try discriminate; split; reflexivity.
  - exists counts. eexists. split; [exact E|exact Hsum].
Defined.
Example ring_demo_lines : snd (ring_demo_command worker_hash 2 1 1 1 []) =
  ["2 domains across 1 workers (virtual nodes smooth the load):"; "  worker-0: 2 domains"; "  load imbalance (max/mean): 1.000";
   newline +:+ "Scaled 1 -> 2 workers:"; "  consistent-hash churn: 100.0% of domains moved"; "  naive hash%N churn:    100.0% of domains moved"].
Proof. vm_compute. reflexivity. Qed.
Example graph_lines : graph_output [("http://a.org/ x", 1234567); ("b", 3)] =
  ["Recomputed link-graph degrees. Most linked-to pages:"; "  1234567  http://a.org/ x"; "       3  b"].
Proof. vm_compute. reflexivity. Qed.
