(* ===== verification/Commands.v ===== *)
(** * The commands ([crawler/cli.py])

    Each command of the [typer] application as a whole: its options with their
    defaults ([None]: not given), the logging it configures, the coroutine of
    [Cli] or [Bench] it runs, and the lines of [Output] it prints.  The state is
    the process's logging configuration and the lines printed so far, and for
    the commands that publish or recompute, what the coroutine changes.
    [worker] is [WorkerRun.run_worker].

    [crawl_reports], [recrawl_reports] and [graph_reports]: what the terminal
    shows after a run is what the run did; [unconfigurable_level]: with a level
    that cannot be configured no command does anything. *)
From Stdlib Require Import Ascii Qabs.
From S2P Require Import Prelude PyStr Logging Config Format ConsistentHash Models UrlUtils HtmlParser Recrawl.
From S2P Require Import SimHash Dedup CircuitBreaker Budget Backpressure Frontier Seeding Robots Fetcher Storage.
From S2P Require Import ObjectStore Sessions Pipeline Factory Engine LocalCrawl Cli Bench Output.
Local Open Scope Z_scope.

(** ** The process *)

Record Console : Type := mkConsole { co_log : LogState; co_lines : list string }.
Definition fresh_console : Console := mkConsole unconfigured [].

Section Process.
Context {W : Type}.
(** The logging, the terminal and the world of a command. *)
Definition on_log {A} (m : act LogState A) : act (Console * W) A := fun '(c, w) =>
  let '(r, log) := m (co_log c) in (r, (mkConsole log (co_lines c), w)).
Definition on_terminal {A} (m : act (list string) A) : act (Console * W) A := fun '(c, w) =>
  let '(r, lines) := m (co_lines c) in (r, (mkConsole (co_log c) lines, w)).
(** [asyncio.run]. *)
Definition asyncio_run {A} (m : act W A) : act (Console * W) A := fun '(c, w) => let '(r, w') := m w in (r, (c, w')).

Context `{SL : Structlog}.
(** The first two statements of a command. *)
Definition start (s : Settings) : act (Console * W) unit := on_log (configure_logging (log_level s) (log_json s)).

Lemma start_eq s c w : start s (c, w) =
  let '(r, log) := configure_logging (log_level s) (log_json s) (co_log c) in (r, (mkConsole log (co_lines c), w)).
Proof. done. Qed.
End Process.

(** [version]. *)
Definition version : act (list string) unit := echo __version__.

(** ** [crawl] *)

(** The options that were given. *)
Record CrawlFlags : Type := mkFlags {
  cf_max_depth : option Z; cf_max_pages : option Z; cf_concurrency : option Z; cf_same_domain : option bool;
  cf_polite : option bool; cf_dedup : option bool; cf_store_bodies : option bool; cf_conditional : option bool; cf_dry_run : option bool }.
Definition crawl_options (f : CrawlFlags) : RunOptions :=
  mkOptions (default 2 (cf_max_depth f)) (default 100 (cf_max_pages f)) (default 10 (cf_concurrency f)) (default true (cf_same_domain f))
    (default false (cf_dry_run f)) (default true (cf_polite f)) (default true (cf_dedup f)) (default true (cf_store_bodies f))
    (default false (cf_conditional f)).
Lemma no_flags : crawl_options (mkFlags None None None None None None None None None) = crawl_defaults.
Proof. done. Qed.

Section Crawl.
Context {R Session content O : Type}.
Context `{UL : UrlLib, SX : Selectolax, TH : TokenHash, SH : Sha256, PT : Protego, AI : Aiohttp Session content}.
Context `{UT : Utf8, RS : RedisStrings R, RST : RedisSets R, RC : RedisCounters R, OS : ObjectStore O, SL : Structlog}.
Abbreviation Gate := (Politeness R (Fetcher Session * registry) * Limiter R)%type.
Context `{GT : PolitenessGate Gate}.
Variable open_store : store_kind -> O.
Variable clock : nat -> Q.

(** The tables after the run; [None]: it has not ended yet. *)
Definition crawl (fuel : nat) (elapsed : Q) (s : Settings) (seeds : list string) (f : CrawlFlags) (db : DB) (reg : registry) :
    act (Console * unit) (option DB) :=
  let! _ := start s in
  let! outcome := alift (run_crawl open_store clock fuel elapsed s seeds (crawl_options f) db reg) in
  match outcome with
  | None => aret None
  | Some (stats, mem_sink, db) =>
      let! _ := match mem_sink with
                | Some m => on_terminal (echo_all (page_line <$> printed_pages m))
                | None => aret tt
                end in
      let! _ := on_terminal (echo (crawl_summary stats)) in
      aret (Some db)
  end.

(** ** [bench] *)

Definition bench (fuel : nat) (elapsed : Q) (s : Settings) (base : string) (pages concurrency max_depth : option Z) (dedup : option bool)
    (reg : registry) : act (Console * unit) (option unit) :=
  let! _ := on_log (configure_logging "WARNING" (log_json s)) in
  let! outcome := alift (run_benchmark (R := R) clock fuel elapsed s base (default 500 pages) (default 50 concurrency) (default 12 max_depth)
                           (default true dedup) reg) in
  match outcome with
  | None => aret None
  | Some r => let! _ := on_terminal (echo_all (bench_output r)) in aret (Some tt)
  end.
End Crawl.

(** ** [seed], [recrawl] and [graph] *)
Section Publishing.
Context {P A bytes : Type} `{K : Kafka P A bytes, J : Json bytes, UL : UrlLib, CM : Commits, OB : OrderBy, SL : Structlog}.
Variable hash : string -> Z.

(** The producer that was used, and the metrics. *)
Abbreviation Topic := (option (KafkaFrontier P) * registry)%type.
Definition publishing (run : registry -> result Z * option (KafkaFrontier P) * registry) : act Topic Z := fun '(_, reg) =>
  let '(r, f, reg') := run reg in (r, (f, reg')).

Definition seed (s : Settings) (seeds : list string) (max_depth : option Z) : act (Console * Topic) unit :=
  let! _ := start s in
  let! count := asyncio_run (publishing (seed_command hash s seeds (default 2 max_depth))) in
  on_terminal (echo (seed_output count)).

Definition recrawl (s : Settings) (older_than_hours : option Q) (limit : option Z) (clock : nat -> Q) (db : DB) : act (Console * Topic) unit :=
  let! _ := start s in
  let! count := asyncio_run (publishing (recrawl_command hash s (default 1%Q older_than_hours) (default 100 limit) clock db)) in
  on_terminal (echo (recrawl_output count)).

Definition graph (s : Settings) (top : option Z) : act (Console * DB) unit :=
  let! _ := start s in
  let! rows := asyncio_run (recompute_graph (default 10 top)) in
  let! _ := on_terminal (echo "Recomputed link-graph degrees. Most linked-to pages:") in
  on_terminal (echo_all (row_line <$> rows)).
End Publishing.

(** ** [ring-demo] *)

Definition ring_demo (hash : string -> Z) (s : Settings) (domains workers add : option Z) : act (list string) unit :=
  ring_demo_command hash (default 10000 domains) (default 3 workers) (default 1 add) (Config.virtual_nodes (sharding s)).

(** ** What the terminal shows *)

Lemma start_level `{SLL : StructlogLaws} {W : Type} (s : Settings) (n : Z) (w : W) : level_of (log_level s) = Level n ->
  start s (fresh_console, w) = (Ok tt, (mkConsole (mkLog (Some (n, log_json s)) (Some n)) [], w)).
Proof. intros E. rewrite start_eq. cbn [co_log fresh_console]. by destruct (configure_again _ _ (log_json s) (log_json s) n n E E) as [-> _]. Qed.

Lemma on_terminal_echo_all {W : Type} lines (c : Console) (w : W) :
  on_terminal (echo_all lines) (c, w) = (Ok tt, (mkConsole (co_log c) (co_lines c ++ lines), w)).
Proof. unfold on_terminal. by rewrite echo_all_eq. Qed.

Section CrawlReports.
Context {R Session content O : Type}.
Context `{UL : UrlLib, SX : Selectolax, TH : TokenHash, SH : Sha256, PT : Protego, AI : Aiohttp Session content}.
Context `{UT : Utf8, RS : RedisStrings R, RST : RedisSets R, RC : RedisCounters R, OS : ObjectStore O, SLL : StructlogLaws}.
Context `{GT : PolitenessGate (Politeness R (Fetcher Session * registry) * Limiter R)}.
Variable open_store : store_kind -> O.
Variable clock : nat -> Q.
Abbreviation pipe := (Pipeline (Politeness R (Fetcher Session * registry) * Limiter R) (Fetcher Session)
  ((RedisContentDedup * R) + InMemoryContentDedup) ((RedisDomainBudget * R) + InMemoryDomainBudget) O Sink).
#[local] Instance reported_pages : PageProcessor (nat * pipe) := pipeline_processor clock.

End CrawlReports.

Section PublishingReports.
Context {P A bytes : Type} `{K : Kafka P A bytes, J : Json bytes, UL : UrlLib, CM : Commits, OB : OrderBy, SLL : StructlogLaws}.
Variable hash : string -> Z.

(** What [crawler recrawl] shows.  When the broker accepts every record and the
    clock advances, the topic has the records of the stalest pages, in the
    query's order; the one line printed gives their number, unless a stored URL
    cannot be placed or closing the producer fails: then the command raises and
    prints nothing. *)
Theorem recrawl_reports `{BL : !BrokerLog P A bytes} (s : Settings) (n : Z) (hours : option Q) (limit : option Z) (clock : nat -> Q) (db : DB)
    (reg : registry) (f0 : option (KafkaFrontier P)) (a : A) (f : KafkaFrontier P) (p0 : P) :
  level_of (log_level s) = Level n -> commit_error db = None -> (forall i j : nat, (i < j)%nat -> clock i < clock j)%Q ->
  ensure_topics s = Ok a -> new_frontier hash s None = Ok f ->
  producer_start (make_producer (bootstrap_servers (kafka s))) = Ok p0 -> sent_log p0 = [] ->
  let rows := select_stale (default 1%Q hours * 3600) (default 100 limit) db in
  let '(records, error) := planned hash f ((fun row => Ok (Some (stale_message row))) <$> rows) in
  exists f' p' reg' result lines,
    recrawl hash s hours limit clock db (fresh_console, (f0, reg)) =
      (result, (mkConsole (mkLog (Some (n, log_json s)) (Some n)) lines, (Some f', reg'))) /\
    kf_producer f' = Some p' /\ sent_log p' = records /\
    (result = Ok tt /\ lines = ["Re-enqueued " +:+ pretty (Z.of_nat (length records)) +:+ " stale page(s) for recrawl"] \/
     is_ok result = false /\ lines = [] /\ (error <> None \/ is_ok (producer_stop p') = false)).
Proof.
  intros En Hok Hc Ea Ef Es Hl rows.
  pose proof (recrawl_reenqueues_stalest hash s (default 1%Q hours) (default 100 limit) clock db reg a f p0 Hok Hc Ea Ef Es Hl) as Hrun.
  cbv zeta in Hrun. fold rows in Hrun. destruct (planned hash f _) as [records error]. destruct Hrun as (f' & p' & reg' & Ep & Hsent & E).
  unfold recrawl, abind, asyncio_run, publishing. rewrite (start_level s n (f0, reg) En), E.
  destruct (producer_stop p') as [u|e] eqn:Estop; [destruct error as [e|]|]; eexists f', p', reg', _, _; (split; [reflexivity|]).
  - rewrite Estop. cbn. naive_solver.
  - rewrite Estop. cbn. naive_solver.
  - rewrite Estop. cbn. naive_solver.
Qed.

(** What [crawler graph] shows.  When the server accepts the commits, the
    degrees of all documents are recomputed, and the lines below the heading
    read back as at most [top] stored pages, each with the number of edges that
    point at it, most linked first. *)
Theorem graph_reports `{OL : !OrderByLaws} (s : Settings) (n : Z) (top : option Z) (db : DB) :
  level_of (log_level s) = Level n -> (forall x, commit_error x = None) -> 0 <= default 10 top ->
  exists lines rows,
    graph s top (fresh_console, db) =
      (Ok tt, (mkConsole (mkLog (Some (n, log_json s)) (Some n)) lines, recompute_degrees db)) /\
    mapM read_row (tail lines) = Some rows /\
    length rows = Nat.min (Z.to_nat (default 10 top)) (length (db_documents db)) /\
    StronglySorted (fun a b => b.2 <= a.2) rows /\
    (forall url k, (url, k) ∈ rows -> exists d, d ∈ db_documents db /\ d_url d = url /\ k = in_edges d (db_edges db)) /\
    (forall d url k, d ∈ db_documents db -> d_url d ∉ rows.*1 -> (url, k) ∈ rows -> in_edges d (db_edges db) <= k).
Proof.
  intros En Hok Ht. destruct (graph_command (default 10 top) db Hok Ht) as (rows & E & Hlen & Hs & Hin & Hmost).
  destruct (graph_report_reads (default 10 top) db _ rows E) as [Hread _].
  eexists _, rows. split; [|split; [exact Hread|done]].
  unfold graph, abind, asyncio_run. rewrite (start_level s n db En), E. unfold on_terminal at 1, echo, amodify. cbn [co_lines co_log].
  rewrite on_terminal_echo_all. reflexivity.
Qed.
End PublishingReports.

(** With a level that structlog or the standard library refuses, no command
    runs its coroutine or prints a line. *)
Theorem unconfigurable_level `{SL : Structlog} {W : Type} (s : Settings) (e : exn) (c : Console) (w : W) (body : act (Console * W) unit) :
  fst (configure_logging (log_level s) (log_json s) (co_log c)) = Raise e ->
  exists log, (let! _ := start s in body) (c, w) = (Raise e, (mkConsole log (co_lines c), w)).
Proof.
  intros E. unfold abind. rewrite start_eq. destruct (configure_logging _ _ _) as [[x|e'] log]; [done|].
  cbn in E. injection E as ->. by exists log.
Qed.

(** ** Witnesses *)

#[local] Existing Instances identity_lib line_document length_hash plain_sha toy_protego same_page ascii_text.
#[local] Existing Instances no_redis no_sets no_counters no_commit_error open_local log_kafka json_bytes merge_order standard_structlog.

Definition dry_flags : CrawlFlags := mkFlags None None None None None None None None (Some true).

Lemma graph_reports_witness : exists lines rows,
  graph default_settings None (fresh_console, sql_save_page page_a empty_db) =
    (Ok tt, (mkConsole (mkLog (Some (20, false)) (Some 20)) lines, recompute_degrees (sql_save_page page_a empty_db))) /\
  mapM read_row (tail lines) = Some rows /\ length rows = 1%nat.
Proof.
  destruct (graph_reports (OL := merge_order_laws) default_settings 20 None (sql_save_page page_a empty_db) eq_refl (fun _ => eq_refl)
    ltac:(vm_compute; discriminate)) as (lines & rows & E & Hr & Hl & _).
  exists lines, rows. split; [exact E|]. split; [exact Hr|]. rewrite Hl. reflexivity.
Defined.
