(* ===== verification/Launcher.v ===== *)
(** * The one-command launcher ([run.py])

    The command line's values, the crawl started beside the API server, the
    server's supervision ([serve_step]) and the processes of the distributed
    mode ([sup_step]).  The server and the child processes are the steps the
    launcher does not make; a relation interleaves them with its own.

    [serve_waits]: what holds when [_serve] is left; [shutdown_complete]: what
    holds when [_run_distributed] returns; [launcher_exits]: that it does once a
    process has ended; [launched_crawl_ignores_stop]: what the dashboard's stop
    does to a crawl started here. *)
From S2P Require Import Prelude PyStr Config Models UrlUtils HtmlParser.
From S2P Require Import SimHash Dedup CircuitBreaker Budget Backpressure Frontier Robots Fetcher Storage.
From S2P Require Import ObjectStore Sessions Pipeline Factory Engine LocalCrawl Schemas Service.
Local Open Scope Z_scope.

(** ** The command line *)

(** What [_parse_args] returns. *)
Record LaunchArgs : Type := mkLaunch {
  la_host : string; la_port : Z; la_seeds : option (list string); la_name : string; la_max_depth : Z; la_max_pages : Z;
  la_concurrency : Z; la_all_domains : bool; la_polite : bool; la_dedup : bool; la_distributed : bool; la_workers : Z }.
Definition default_launch : LaunchArgs := mkLaunch "127.0.0.1" 8010 None "crawl" 2 100 10 false true true false 3.

Definition newline : string := String (Ascii.ascii_of_nat 10) EmptyString.

Definition banner (host : string) (port : Z) : string :=
  let shown := if bool_decide (host ∈ ["0.0.0.0"; "127.0.0.1"]) then "localhost" else host in
  let base := "http://" +:+ shown +:+ ":" +:+ pretty port in
  let line := String.concat EmptyString (replicate 52 "=") in
  newline +:+ line +:+ newline +:+
  "  Moonshot Web Crawler" +:+ newline +:+
  "  Dashboard : " +:+ base +:+ "/" +:+ newline +:+
  "  API docs  : " +:+ base +:+ "/docs" +:+ newline +:+
  "  Metrics   : " +:+ base +:+ "/metrics" +:+ newline +:+
  line +:+ newline.

(** The API's command, then one per worker, each with its own metrics port. *)
Definition commands (python : string) (a : LaunchArgs) : list (list string) :=
  [python; "-m"; "uvicorn"; "crawler.api.app:app"; "--host"; la_host a; "--port"; pretty (la_port a)] ::
  ((fun i => [python; "-m"; "crawler.worker"; "--metrics-port"; pretty (8001 + i)]) <$> seqZ 0 (la_workers a)).

Lemma commands_distinct python a : NoDup (commands python a) /\
  Z.of_nat (length (commands python a)) = 1 + Z.max 0 (la_workers a).
Proof.
  unfold commands. split.
  - apply NoDup_cons. split.
    + by intros (i & [=] & _)%list_elem_of_fmap.
    + apply NoDup_fmap_2_strong; [|apply NoDup_seqZ]. intros i j _ _ [= E%(inj pretty)]. lia.
  - cbn [length]. rewrite length_fmap, length_seqZ. lia.
Qed.

(** ** The crawl beside the server *)
Section RunCrawl.
Context {R Session content : Type}.
Context `{UL : UrlLib, SX : Selectolax, TH : TokenHash, SH : Sha256, PT : Protego, AI : Aiohttp Session content}.
Context `{UT : Utf8, RS : RedisStrings R, RST : RedisSets R, RC : RedisCounters R, CM : Commits}.
Abbreviation Gate := (Politeness R (Fetcher Session * registry) * Limiter R)%type.
Context `{GT : PolitenessGate Gate}.
Variable clock : nat -> Q.

Definition launcher_args (a : LaunchArgs) (id : Z) : CrawlArgs :=
  mkArgs id (default [] (la_seeds a)) (la_max_depth a) (la_max_pages a) None (negb (la_all_domains a)) (la_concurrency a)
    (la_polite a) (la_dedup a).

(** The session that records the crawl, with the seeds as they were given. *)
Definition record_crawl (a : LaunchArgs) : act DB Z :=
  session_scope (fun db =>
    let '(crawl_id, db) := insert_crawl (la_name a) (default [] (la_seeds a)) "running" (la_max_depth a) (la_max_pages a) None db
    in (Ok crawl_id, db)).

(** [_run_crawl] with one worker; [None] while it runs. *)
Definition run_crawl (fuel : nat) (elapsed : Q) (s : Settings) (a : LaunchArgs) (reg : registry) (db : DB) :
    option (result string * DB) :=
  match record_crawl a db with
  | (Raise e, db) => Some (Raise e, db)
  | (Ok id, db) =>
      match execute_crawl clock fuel elapsed s (launcher_args a id) reg db with
      | None => None
      | Some (status, db) => Some (Ok status, db)
      end
  end.

End RunCrawl.

(** The dashboard's stop does not reach a crawl of the launcher, which is in no
    [_RUNNING_CRAWLS]: the request reports "stopped" and marks the row, no task
    is cancelled, and whatever the crawl ends with replaces the mark. *)
Lemma launched_crawl_ignores_stop {P : Type} `{Commits} (s : SqlCrawlService P) id :
  (forall db, commit_error db = None) ->
  status_of id (sv_db s) = Some "running" -> sv_running s !! id = None ->
  exists s', stop_crawl id s = (Ok (Some (mkActionOut id "stopped")), s') /\ sv_running s' = sv_running s /\
    status_of id (sv_db s') = Some "stopped" /\
    forall status, status_of id (record_status id status (sv_db s')) = Some status.
Proof.
  intros Hok Hst Hr. unfold stop_crawl, abind, amodify, mark_stopped, in_session, session_scope.
  unfold status_of in Hst. cbn [cancel_task with_running sv_db].
  destruct (get_crawl id (sv_db s)) as [row|] eqn:Eg; [|done]. injection Hst as Es. rewrite Es.
  rewrite bool_decide_true by set_solver. rewrite Hok. eexists. split; [done|]. cbn [with_db sv_running sv_db].
  assert (status_of id (set_crawl_status id "stopped" (sv_db s)) = Some "stopped") as E1.
  { by rewrite status_of_set, Z.eqb_refl, Eg. }
  split; [|split; [done|]].
  - change (alter (fun t => mkTask (lt_args t) true (lt_ending t)) id (sv_running s) = sv_running s).
    apply map_eq. intros i. destruct (decide (i = id)) as [->|Hne]; [by rewrite lookup_alter_eq, Hr|].
    by rewrite lookup_alter_ne by done.
  - intros status. unfold record_status, session_scope. rewrite Hok. cbn [snd]. rewrite status_of_set, Z.eqb_refl.
    revert E1. unfold status_of. by destruct (get_crawl id (set_crawl_status id "stopped" (sv_db s))).
Qed.

(** ** The server and the crawl ([_serve]) *)

(** The crawl's task; [CrawlRunning true] once it has been cancelled. *)
Inductive crawl_task : Type := NoCrawl | CrawlRunning (cancelled : bool) | CrawlDone (r : result unit) | CrawlCancelled.
(** Where the coroutine waits: for the server to bind, for the crawl, for the
    cancelled or finished crawl's task, for the server; then it is left. *)
Inductive serve_phase : Type := Binding | Watching | JoiningCrawl | AwaitingServer | Left (r : result unit).
Record serving : Type := mkServing {
  sg_phase : serve_phase; sg_should_exit : bool; sg_server : option (result unit); sg_crawl : crawl_task; sg_disposed : bool }.

Definition start_serving : serving := mkServing Binding false None NoCrawl false.

(** The [finally] block runs whichever way it is left. *)
Definition leave (r : result unit) (g : serving) : serving :=
  mkServing (Left r) (sg_should_exit g) (sg_server g) (sg_crawl g) true.
Definition goto (p : serve_phase) (c : crawl_task) (g : serving) : serving :=
  mkServing p (sg_should_exit g) (sg_server g) c (sg_disposed g).

(** The coroutine's next move; [None] while it waits. *)
Definition serve_main (a : LaunchArgs) (g : serving) : option serving :=
  match sg_phase g with
  | Binding =>
      match sg_server g with
      | Some r => Some (leave r g)
      | None => match la_seeds a with
                | Some (_ :: _) => Some (goto Watching (CrawlRunning false) g)
                | _ => Some (goto AwaitingServer NoCrawl g)
                end
      end
  | Watching =>
      match sg_crawl g with
      | CrawlRunning c => if sg_should_exit g then Some (goto JoiningCrawl (CrawlRunning true) g) else None
      | c => Some (goto JoiningCrawl c g)
      end
  | JoiningCrawl =>
      match sg_crawl g with
      | CrawlRunning _ => None
      | CrawlDone (Raise e) => Some (leave (Raise e) g)
      | c => Some (goto AwaitingServer c g)
      end
  | AwaitingServer => match sg_server g with Some r => Some (leave r g) | None => None end
  | Left _ => None
  end.

Inductive serve_step (a : LaunchArgs) : serving -> serving -> Prop :=
| serve_move g g' : serve_main a g = Some g' -> serve_step a g g'
| serve_exit g :
    (* Ctrl+C: the server's signal handler *)
    serve_step a g (mkServing (sg_phase g) true (sg_server g) (sg_crawl g) (sg_disposed g))
| serve_server_done g r : sg_server g = None ->
    serve_step a g (mkServing (sg_phase g) (sg_should_exit g) (Some r) (sg_crawl g) (sg_disposed g))
| serve_crawl_done g c r : sg_crawl g = CrawlRunning c ->
    serve_step a g (mkServing (sg_phase g) (sg_should_exit g) (sg_server g) (CrawlDone r) (sg_disposed g))
| serve_crawl_cancelled g : sg_crawl g = CrawlRunning true ->
    serve_step a g (mkServing (sg_phase g) (sg_should_exit g) (sg_server g) CrawlCancelled (sg_disposed g)).

(** The crawl as far as the phase allows it. *)
Definition serve_inv (g : serving) : Prop :=
  (sg_crawl g = CrawlRunning true \/ sg_crawl g = CrawlCancelled -> sg_should_exit g = true) /\
  match sg_phase g with
  | Binding => sg_crawl g = NoCrawl /\ sg_disposed g = false
  | Watching | JoiningCrawl => sg_crawl g <> NoCrawl /\ sg_disposed g = false
  | AwaitingServer => sg_crawl g ∈ [NoCrawl; CrawlDone (Ok tt); CrawlCancelled] /\ sg_disposed g = false
  | Left r => (forall c, sg_crawl g <> CrawlRunning c) /\ sg_disposed g = true /\
      match sg_crawl g with CrawlDone (Raise e) => r = Raise e | _ => sg_server g = Some r end
  end.

Lemma serve_step_inv a g g' : serve_inv g -> serve_step a g g' -> serve_inv g'.
Proof.
  intros [Hx Hp] Hs. unfold serve_inv in *. destruct g as [p x sv c d]; cbn in *.
  inversion Hs as [? ? Hm|?|? r Hn|? c' r Hn|? Hn]; subst; cbn in *; clear Hs.
  - unfold serve_main in Hm. cbn in Hm.
    repeat match type of Hm with context [match ?x with _ => _ end] => destruct x end; simplify_eq/=;
      repeat match goal with u : unit |- _ => destruct u end; split; try naive_solver; try set_solver.
  - split; [done|]. by destruct p.
  - split; [done|]. destruct p; try done. destruct Hp as (? & ? & Hp). split; [done|]. split; [done|].
    destruct c as [| |[|]|]; congruence.
  - split; [naive_solver|]. destruct p; set_solver.
  - split; [naive_solver|]. destruct p; set_solver.
Qed.

(** Leaving the server.  Whatever the order of the server's end, the crawl's
    end and Ctrl+C: the database engine is disposed exactly when the function
    is left, and no crawl is running then; its result is the server's, or the
    exception of the crawl's session; the crawl is cancelled only when the
    server was asked to exit.  Once the server has ended and the crawl is not
    running any more, the function can go on until it is left. *)
Theorem serve_waits (a : LaunchArgs) g : rtc (serve_step a) start_serving g ->
  (sg_disposed g = true <-> exists r, sg_phase g = Left r) /\
  (forall r, sg_phase g = Left r -> (forall c, sg_crawl g <> CrawlRunning c) /\
     (sg_server g = Some r \/ exists e, r = Raise e /\ sg_crawl g = CrawlDone r)) /\
  (sg_crawl g = CrawlRunning true \/ sg_crawl g = CrawlCancelled -> sg_should_exit g = true) /\
  (is_Some (sg_server g) -> (forall c, sg_crawl g <> CrawlRunning c) ->
     (exists r, sg_phase g = Left r) \/ exists g', serve_main a g = Some g').
Proof.
  intros Hr. assert (serve_inv g) as [Hx Hp].
  { eapply rtc_invariant; [|exact Hr|split; [by intros [|]|done]]. eauto using serve_step_inv. }
  destruct g as [p x sv c d]; unfold serve_main; cbn in *. split_and!.
  - destruct p; naive_solver.
  - intros r ->. destruct Hp as (Hc & _ & Hp). split; [done|]. destruct c as [| |[|]|]; naive_solver.
  - done.
  - intros [r ->] Hc. destruct p; [right; by eexists| | |right; by eexists|left; by eexists]; right;
      destruct c as [|b|[|]|]; try (by eexists); by destruct (Hc b).
Qed.

(** ** The processes of the distributed mode ([_run_distributed]) *)

Inductive proc_status : Type := Running | Exited (code : Z).

#[export] Instance proc_status_eq_dec : EqDecision proc_status.
Proof. solve_decision. Defined.

(** Polling process [i]; in [procs[0].wait(timeout=1)]; terminating process [i];
    in its [wait(timeout=10)]; the end, or a second Ctrl+C in the [finally] block. *)
Inductive sup_phase : Type := Polling (i : nat) | Ticking | Terminating (i : nat) | Reaping (i : nat) | Returned (code : Z) | Escaped.
#[export] Instance sup_phase_eq_dec : EqDecision sup_phase.
Proof. solve_decision. Defined.

Record supervision : Type := mkSup {
  su_phase : sup_phase; su_procs : list proc_status; su_signalled : list nat; su_stderr : list string }.

Definition start_supervision (a : LaunchArgs) : supervision :=
  mkSup (Polling 0) (const Running <$> commands "python" a) [] [].

Definition at_phase (p : sup_phase) (s : supervision) : supervision := mkSup p (su_procs s) (su_signalled s) (su_stderr s).

(** The launcher's next move; [pids] are the processes' ids. *)
Definition sup_main (pids : list Z) (s : supervision) : option supervision :=
  match su_phase s with
  | Polling i =>
      match su_procs s !! i with
      | Some (Exited code) =>
          Some (mkSup (Terminating 0) (su_procs s) (su_signalled s)
            (su_stderr s ++ ["process " +:+ pretty (default 0 (pids !! i)) +:+ " exited with " +:+ pretty code]))
      | Some Running => Some (at_phase (Polling (S i)) s)
      | None => Some (at_phase Ticking s)
      end
  | Ticking => Some (at_phase (Polling 0) s)
  | Terminating i =>
      match su_procs s !! i with
      | Some Running => Some (mkSup (Terminating (S i)) (su_procs s) (su_signalled s ++ [i]) (su_stderr s))
      | Some (Exited _) => Some (at_phase (Terminating (S i)) s)
      | None => Some (at_phase (Reaping 0) s)
      end
  | Reaping i =>
      match su_procs s !! i with
      | Some _ => Some (at_phase (Reaping (S i)) s)
      | None => Some (at_phase (Returned 0) s)
      end
  | Returned _ | Escaped => None
  end.

Definition supervising (s : supervision) : Prop :=
  match su_phase s with Polling _ | Ticking => True | _ => False end.
Definition stopping (s : supervision) : Prop :=
  match su_phase s with Terminating _ | Reaping _ => True | _ => False end.

(** A step; the boolean tells the launcher's own. *)
Inductive sup_step (pids : list Z) : bool -> supervision -> supervision -> Prop :=
| sup_move s s' : sup_main pids s = Some s' -> sup_step pids true s s'
| sup_exit s i code : su_procs s !! i = Some Running ->
    sup_step pids false s (mkSup (su_phase s) (<[i := Exited code]> (su_procs s)) (su_signalled s) (su_stderr s))
| sup_interrupt s : supervising s -> sup_step pids false s (at_phase (Terminating 0) s)
| sup_interrupt_again s : stopping s -> sup_step pids false s (at_phase Escaped s).
Definition sup_any (pids : list Z) (s s' : supervision) : Prop := exists b, sup_step pids b s s'.

(** A run of which the launcher made [k] steps. *)
Inductive sup_run (pids : list Z) : nat -> supervision -> supervision -> Prop :=
| run_here s : sup_run pids 0 s s
| run_step b k s s1 s' : sup_step pids b s s1 -> sup_run pids k s1 s' ->
    sup_run pids (if b then S k else k) s s'.

(** Process [j] has ended, or was told to. *)
Definition dealt_with (s : supervision) (j : nat) : Prop :=
  (exists code, su_procs s !! j = Some (Exited code)) \/ j ∈ su_signalled s.

(** Processes before the one the shutdown has come to are dealt with. *)
Definition sup_inv (n : nat) (s : supervision) : Prop :=
  length (su_procs s) = n /\ NoDup (su_signalled s) /\
  match su_phase s with
  | Polling _ | Ticking => su_signalled s = [] /\ su_stderr s = []
  | Terminating i => (forall j, j ∈ su_signalled s -> (j < i)%nat) /\ forall j, (j < i)%nat -> (j < n)%nat -> dealt_with s j
  | Reaping _ => forall j, (j < n)%nat -> dealt_with s j
  | Returned code => code = 0 /\ forall j, (j < n)%nat -> dealt_with s j
  | Escaped => True
  end.

Lemma dealt_with_exit s i code j : su_procs s !! i = Some Running -> dealt_with s j ->
  dealt_with (mkSup (su_phase s) (<[i := Exited code]> (su_procs s)) (su_signalled s) (su_stderr s)) j.
Proof.
  intros Hi [[c Hj]|Hj]; [left|by right]. exists c. cbn. rewrite list_lookup_insert_ne; [done|]. intros ->. congruence.
Qed.

Lemma sup_step_inv pids n s s' : sup_inv n s -> sup_any pids s s' -> sup_inv n s'.
Proof.
  intros (Hn & Hd & Hp) [b Hs]. unfold sup_inv.
  inversion Hs as [? ? Hm|? i code Hi|? Hsup|? Hsup]; subst; clear Hs.
  - unfold sup_main in Hm. destruct (su_phase s) as [i| |i|i|c|] eqn:Ep; try (by injection Hm as <-); try done.
    + destruct Hp as [Hsig Herr]. destruct (su_procs s !! i) as [[|code]|] eqn:Ei; injection Hm as <-; cbn; rewrite ?Hsig;
        split_and!; try done; try constructor; set_solver by lia.
    + destruct Hp as [Hlt Hdone]. destruct (su_procs s !! i) as [[|code]|] eqn:Ei; injection Hm as <-; cbn; split_and!; try done.
      * apply NoDup_app. split_and!; [done| |apply NoDup_singleton]. intros j Hj ->%list_elem_of_singleton. apply Hlt in Hj. lia.
      * intros j [Hj| ->%list_elem_of_singleton]%elem_of_app; [apply Hlt in Hj|]; lia.
      * intros j Hj Hn. destruct (decide (j = i)) as [->|Hne]; [right; cbn; set_solver|].
        destruct (Hdone j ltac:(lia) Hn) as [?|?]; [by left|right; cbn; set_solver].
      * intros j Hj%Hlt. lia.
      * intros j Hj Hn. destruct (decide (j = i)) as [->|Hne]; [left; by exists code|]. apply (Hdone j); lia.
      * intros j Hj. apply lookup_ge_None in Ei. apply (Hdone j); lia.
    + destruct (su_procs s !! i) as [?|] eqn:Ei; injection Hm as <-; by cbn.
  - cbn. rewrite length_insert. split_and!; [done..|].
    destruct (su_phase s); try done; try (destruct Hp as [? Hp]; split; [done|]); intros; apply dealt_with_exit; auto.
  - cbn. split_and!; [done..| |lia]. unfold supervising in Hsup. destruct (su_phase s); try done; destruct Hp as [-> _]; set_solver.
  - by cbn.
Qed.

(** The shutdown of the distributed mode.  While the launcher supervises, no
    process has been signalled; when it returns, its exit code is 0 and every
    process had ended or was sent one termination signal.  Only a second Ctrl+C
    during the shutdown leaves it otherwise. *)
Theorem shutdown_complete (pids : list Z) (a : LaunchArgs) s : rtc (sup_any pids) (start_supervision a) s ->
  length (su_procs s) = length (commands "python" a) /\ NoDup (su_signalled s) /\
  (supervising s -> su_signalled s = [] /\ su_stderr s = []) /\
  (forall code, su_phase s = Returned code -> code = 0 /\
     forall j, (j < length (su_procs s))%nat -> dealt_with s j) /\
  (sup_main pids s = None -> su_phase s = Escaped \/ exists code, su_phase s = Returned code).
Proof.
  intros Hr. assert (sup_inv (length (commands "python" a)) s) as (Hn & Hd & Hp).
  { eapply rtc_invariant; [|exact Hr|]; [eauto using sup_step_inv|]. split; [unfold start_supervision; cbn [su_procs]; by rewrite length_fmap|].
    split; [constructor|done]. }
  split; [done|]. split; [done|]. rewrite Hn. unfold supervising, sup_main. destruct (su_phase s) as [i| |i|i|c|]; split_and!; try done;
    try (by intros ? [= <-]); repeat case_match; naive_solver.
Qed.

(** A process has ended, or the shutdown has begun. *)
Definition some_exited (l : list proc_status) : Prop := Exists (fun p => p <> Running) l.
Definition ended (s : supervision) : Prop := supervising s -> some_exited (su_procs s).

(** A bound on the launcher's steps from there on. *)
Definition steps_left (s : supervision) : nat :=
  let n := length (su_procs s) in
  match su_phase s with
  | Polling i => (2 * n + 2) + (if decide (Exists (fun p => p <> Running) (drop i (su_procs s))) then n - i + 1 else n - i + n + 4)
  | Ticking => (2 * n + 2) + (n + 2)
  | Terminating i => (n - i + 1) + (n + 1)
  | Reaping i => n - i + 1
  | Returned _ | Escaped => 0
  end.

Lemma some_exited_insert l i code : l !! i = Some Running -> some_exited l -> some_exited (<[i := Exited code]> l).
Proof.
  intros Hi _. apply Exists_exists. exists (Exited code). split; [|done]. apply list_elem_of_insert. by eapply lookup_lt_Some.
Qed.

Lemma sup_main_left pids s s' : ended s -> sup_main pids s = Some s' -> (steps_left s' < steps_left s)%nat /\ ended s'.
Proof.
  unfold ended, supervising, sup_main, steps_left. intros He Hm.
  destruct (su_phase s) as [i| |i|i|c|] eqn:Ep; try done.
  - destruct (su_procs s !! i) as [p|] eqn:Ei.
    + pose proof (lookup_lt_Some _ _ _ Ei). rewrite (drop_S _ _ _ Ei).
      destruct p as [|code]; injection Hm as <-; cbn -[Nat.mul]; [|split; [case_decide; lia|done]].
      split; [|by intros _; apply He]. destruct (decide (Exists _ (Running :: _))) as [Hx|Hx]; case_decide as Hy; try lia.
      apply Exists_cons in Hx as [Hx|Hx]; by destruct Hy || by destruct Hx.
    + injection Hm as <-. cbn -[Nat.mul]. apply lookup_ge_None in Ei. rewrite drop_ge by done. split; [|by intros _; apply He].
      rewrite decide_False by (by intros Hx%Exists_nil). lia.
  - injection Hm as <-. cbn -[Nat.mul]. rewrite drop_0, decide_True by by apply He. split; [lia|by intros _; apply He].
  - destruct (su_procs s !! i) as [[|code]|] eqn:Ei; injection Hm as <-; cbn -[Nat.mul]; split; try done;
      try (apply lookup_lt_Some in Ei; lia). lia.
  - destruct (su_procs s !! i) as [p|] eqn:Ei; injection Hm as <-; cbn; split; try done; [apply lookup_lt_Some in Ei|]; lia.
Qed.

Lemma sup_other_left pids s s' : ended s -> sup_step pids false s s' -> (steps_left s' <= steps_left s)%nat /\ ended s'.
Proof.
  intros He Hs. unfold ended, supervising, stopping, steps_left in *.
  inversion Hs as [|? i code Hi|? Hsup|? Hsup]; subst; cbn -[Nat.mul]; rewrite ?length_insert.
  - destruct (su_phase s) as [j| |j|j|c|]; (split; [|intros Hx; try apply some_exited_insert; auto]); try lia; try done.
    destruct (decide (Exists _ (drop j (su_procs s)))) as [Hx|Hx]; case_decide as Hy; try lia.
    destruct Hy. apply Exists_exists in Hx as (p & Hp & Hpr). apply Exists_exists.
    apply list_elem_of_lookup in Hp as [k Hk]. rewrite lookup_drop in Hk. exists p. split; [|done].
    apply list_elem_of_lookup. exists k. rewrite lookup_drop, list_lookup_insert_ne; [done|]. intros ->. congruence.
  - split; [|done]. unfold supervising in Hsup. destruct (su_phase s); try done; [case_decide|]; lia.
  - split; [|done]. unfold stopping in Hsup. destruct (su_phase s); try done; lia.
Qed.

(** The distributed mode comes to an end.  Once a process has ended or Ctrl+C
    was pressed, with [n] processes the launcher makes at most [4 n + 6] more
    steps, whatever the processes and the user do meanwhile; it can always make
    one until it has returned (or a second Ctrl+C left it), and on its own it
    returns 0. *)
Theorem launcher_exits (pids : list Z) s : ended s ->
  (forall k s', sup_run pids k s s' -> (k <= 4 * length (su_procs s) + 6)%nat) /\
  (su_phase s <> Escaped -> (forall c, su_phase s <> Returned c) -> exists k s', sup_run pids k s s' /\ su_phase s' = Returned 0).
Proof.
  assert (forall s, steps_left s <= 4 * length (su_procs s) + 6)%nat as Hb.
  { intros x. unfold steps_left. destruct (su_phase x); try lia. case_decide; lia. }
  intros He. split.
  - intros k s' Hr. specialize (Hb s). enough (k <= steps_left s)%nat by lia. clear Hb.
    induction Hr as [|[|] k s s1 s' Hs Hr IH]; [lia| |].
    + inversion Hs as [? ? Hm| | |]; subst. apply sup_main_left in Hm as [Hl He']; [|done]. specialize (IH He'). lia.
    + apply sup_other_left in Hs as [Hl He']; [|done]. specialize (IH He'). lia.
  - clear Hb. revert He. induction s as [s IH] using (well_founded_induction (well_founded_ltof _ steps_left)). intros He Hne Hnr.
    destruct (sup_main pids s) as [s1|] eqn:Em.
    + destruct (sup_main_left _ _ _ He Em) as [Hl He1].
      destruct (decide (su_phase s1 = Returned 0)) as [H1|H1].
      { exists 1%nat, s1. split; [|done]. apply (run_step pids true 0 s s1 s1); [by constructor|constructor]. }
      destruct (IH s1 Hl He1) as (k & s' & Hr & H').
      * intros E. revert Em. unfold sup_main. repeat case_match; naive_solver.
      * intros c E. revert Em. unfold sup_main. repeat case_match; intros [= <-]; cbn in *; naive_solver.
      * exists (S k), s'. split; [|done]. apply (run_step pids true k s s1 s'); [by constructor|done].
    + revert Em. unfold sup_main. destruct (su_phase s) eqn:Ep; repeat case_match; naive_solver.
Qed.

(** ** Concrete instances *)

(** A crawl beside the server, Ctrl+C, and the cancelled crawl's end. *)
Definition crawl_seeds : LaunchArgs := mkLaunch "0.0.0.0" 8010 (Some ["http://a.org"]) "crawl" 2 100 10 false true true false 3.
Definition cut_short : serving := mkServing (Left (Ok tt)) true (Some (Ok tt)) CrawlCancelled true.

Lemma cut_short_reachable : rtc (serve_step crawl_seeds) start_serving cut_short.
Proof.
  eapply rtc_l; [eapply serve_move; reflexivity|]. eapply rtc_l; [eapply serve_exit|].
  eapply rtc_l; [eapply serve_move; reflexivity|]. eapply rtc_l; [eapply serve_crawl_cancelled; reflexivity|].
  eapply rtc_l; [eapply serve_move; reflexivity|]. eapply rtc_l; [eapply (serve_server_done _ _ (Ok tt)); reflexivity|].
  apply rtc_once. apply serve_move. reflexivity.
Qed.

Lemma serve_waits_witness : forall c, sg_crawl cut_short <> CrawlRunning c.
Proof. exact (proj1 (proj1 (proj2 (serve_waits crawl_seeds cut_short cut_short_reachable)) (Ok tt) eq_refl)). Defined.

(** The API and one worker; the worker dies in the first second. *)
Definition one_worker : LaunchArgs := mkLaunch "0.0.0.0" 8010 None "crawl" 2 100 10 false true true true 1.
Definition worker_died : supervision := mkSup Ticking [Running; Exited 1] [] [].
Definition shut_down : supervision := mkSup (Returned 0) [Running; Exited 1] [0%nat] ["process 4711 exited with 1"].

Lemma worker_died_shut_down : sup_run [4710; 4711] 9 worker_died shut_down.
Proof. do 9 (eapply (run_step _ true); [apply sup_move; reflexivity|]). constructor. Qed.

Lemma shut_down_reachable : rtc (sup_any [4710; 4711]) (start_supervision one_worker) shut_down.
Proof.
  do 3 (eapply rtc_l; [exists true; apply sup_move; reflexivity|]).
  eapply rtc_l; [exists false; apply (sup_exit _ _ 1 1); reflexivity|].
  do 8 (eapply rtc_l; [exists true; apply sup_move; reflexivity|]). apply rtc_once. exists true. apply sup_move. reflexivity.
Qed.

Lemma shutdown_complete_witness : dealt_with shut_down 0 /\ dealt_with shut_down 1.
Proof.
  destruct (shutdown_complete [4710; 4711] one_worker shut_down shut_down_reachable) as (_ & _ & _ & Hd & _).
  destruct (Hd 0 eq_refl) as [_ Hall]. split; apply Hall; vm_compute; repeat constructor.
Defined.

Lemma launcher_exits_witness :
  (9 <= 14)%nat /\ exists k s', sup_run [4710; 4711] k worker_died s' /\ su_phase s' = Returned 0.
Proof.
  destruct (launcher_exits [4710; 4711] worker_died) as [Hb Hr].
  - intros _. apply Exists_exists. exists (Exited 1). split; [|discriminate]. apply list_elem_of_further, list_elem_of_here.
  - split; [exact (Hb 9%nat shut_down worker_died_shut_down)|]. apply Hr; [discriminate|]. intros c E. discriminate E.
Defined.

Example two_workers : tail <$> commands "python" (mkLaunch "h" 80 None "" 0 0 0 false true true true 2) =
  [["-m"; "uvicorn"; "crawler.api.app:app"; "--host"; "h"; "--port"; "80"];
   ["-m"; "crawler.worker"; "--metrics-port"; "8001"]; ["-m"; "crawler.worker"; "--metrics-port"; "8002"]].
Proof. vm_compute. reflexivity. Qed.
