(* ===== verification/Entry.v ===== *)
(** * The entry points

    [_parse_args] and [main] of [run.py], what [_serve] and [_run_distributed]
    give to the server and to the child processes, and [main] of
    [crawler/worker.py].

    [launch_args_roundtrip]: the command line is read back; [main_typed]: what
    the launcher runs with; [spawned_workers_start]: the workers read the
    command lines the launcher gives them. *)
From S2P Require Import Prelude PyStr Argparse Launcher.
Local Open Scope Z_scope.

(** ** [run.py] *)

(** The parser, with [-h]; [set_defaults] last. *)
Definition launcher_parser : ArgumentParser := mkParser
  [("-h", PrintHelp); ("--help", PrintHelp);
   ("--host", Store "host" false); ("--port", Store "port" true);
   ("--seeds", StoreList "seeds"); ("--name", Store "name" false);
   ("--max-depth", Store "max_depth" true); ("--max-pages", Store "max_pages" true);
   ("--concurrency", Store "concurrency" true); ("--all-domains", StoreConst "all_domains" true);
   ("--impolite", StoreConst "polite" false); ("--no-dedup", StoreConst "dedup" false);
   ("--distributed", StoreConst "distributed" true);
   ("--workers", Store "workers" true); ("-w", Store "workers" true)]
  [("host", VStr "127.0.0.1"); ("port", VInt 8010); ("seeds", VNone); ("name", VStr "crawl");
   ("max_depth", VInt 2); ("max_pages", VInt 100); ("concurrency", VInt 10); ("all_domains", VBool false);
   ("polite", VBool true); ("dedup", VBool true); ("distributed", VBool false); ("workers", VInt 3)].

(** [args.host] and the others; [None] when an attribute is not of its kind. *)
Definition get_str (ns : namespace) (d : string) : option string :=
  v ← ns !! d; match v with VStr s => Some s | _ => None end.
Definition get_int (ns : namespace) (d : string) : option Z :=
  v ← ns !! d; match v with VInt z => Some z | _ => None end.
Definition get_bool (ns : namespace) (d : string) : option bool :=
  v ← ns !! d; match v with VBool b => Some b | _ => None end.
Definition get_strs (ns : namespace) (d : string) : option (option (list string)) :=
  v ← ns !! d;
  match v with
  | VNone => Some None
  | VList l => Some <$> mapM (fun v => match v with VStr s => Some s | _ => None end) l
  | _ => None
  end.
Definition launch_args (ns : namespace) : option LaunchArgs :=
  host ← get_str ns "host"; port ← get_int ns "port"; seeds ← get_strs ns "seeds"; name ← get_str ns "name";
  max_depth ← get_int ns "max_depth"; max_pages ← get_int ns "max_pages"; concurrency ← get_int ns "concurrency";
  all_domains ← get_bool ns "all_domains"; polite ← get_bool ns "polite"; dedup ← get_bool ns "dedup";
  distributed ← get_bool ns "distributed"; workers ← get_int ns "workers";
  Some (mkLaunch host port seeds name max_depth max_pages concurrency all_domains polite dedup distributed workers).

Definition _parse_args (argv : list string) : exit namespace := parse_args launcher_parser argv.

(** [main]: what is run with the arguments ([None]: with an attribute that is
    not of its kind).  Either way it returns 0. *)
Inductive program : Type := RunDistributed (a : LaunchArgs) | Serve (a : LaunchArgs).
Definition program_of (a : LaunchArgs) : program := if la_distributed a then RunDistributed a else Serve a.
Definition main (argv : list string) : exit (option program) :=
  let? args := _parse_args argv in Done (program_of <$> launch_args args).

(** What [_serve] gives the server, and [_run_distributed] its children. *)
Record UvicornConfig : Type := mkUvicorn { uv_app : string; uv_host : string; uv_port : Z; uv_log_level : string }.
Definition serve_config (log_level : string) (a : LaunchArgs) : UvicornConfig :=
  mkUvicorn "crawler.api.app:app" (la_host a) (la_port a) (lower log_level).
Definition backend_variable : string := "CRAWLER_FRONTIER__BACKEND".
Definition child_env (environ : gmap string string) : gmap string string :=
  match environ !! backend_variable with Some _ => environ | None => <[backend_variable := "kafka"]> environ end.
Definition warns_sqlite (dsn : string) : bool := startswith "sqlite" dsn.

(** ** [crawler/worker.py] *)

Definition worker_parser : ArgumentParser := mkParser
  [("-h", PrintHelp); ("--help", PrintHelp); ("--metrics-port", Store "metrics_port" true)] [("metrics_port", VInt 8001)].
(** The port [run_worker] is called with. *)
Definition worker_main (argv : list string) : exit value :=
  let? args := parse_args worker_parser argv in Done (default VNone (args !! "metrics_port")).

(** ** Round trip *)

Definition flag (b : bool) (o : string) : list string := if b then [o] else [].
(** A command line for given arguments. *)
Definition launch_argv (a : LaunchArgs) : list string :=
  ["--host=" +:+ la_host a; "--port=" +:+ pretty (la_port a); "--name=" +:+ la_name a;
   "--max-depth=" +:+ pretty (la_max_depth a); "--max-pages=" +:+ pretty (la_max_pages a);
   "--concurrency=" +:+ pretty (la_concurrency a); "--workers=" +:+ pretty (la_workers a)] ++
  flag (la_all_domains a) "--all-domains" ++ flag (negb (la_polite a)) "--impolite" ++
  flag (negb (la_dedup a)) "--no-dedup" ++ flag (la_distributed a) "--distributed" ++
  match la_seeds a with Some seeds => "--seeds" :: seeds | None => [] end.

Lemma classify_app p args1 args2 ws1 ws2 : classify p args1 = Done ws1 -> Forall (fun s => s <> "--") args1 -> classify p args2 = Done ws2 ->
  classify p (args1 ++ args2) = Done (ws1 ++ ws2).
Proof.
  intros E1 Hd E2. revert ws1 E1. induction Hd as [|s args1 Hs _ IH]; intros ws1; cbn [classify app]; [by intros [= <-]|].
  rewrite bool_decide_eq_false_2 by done. destruct (parse_optional p s) as [w| |]; [|done..]. cbn [ebind].
  destruct (classify p args1) as [ws| |]; [|done..]. intros [= <-]. by rewrite (IH ws).
Qed.

(** The words of the options with a value. *)
Definition value_words (host port name depth pages conc workers : string) : list (word * string) :=
  [(WOpt (Some (Store "host" false)) "--host" (Some host), "--host=" +:+ host);
   (WOpt (Some (Store "port" true)) "--port" (Some port), "--port=" +:+ port);
   (WOpt (Some (Store "name" false)) "--name" (Some name), "--name=" +:+ name);
   (WOpt (Some (Store "max_depth" true)) "--max-depth" (Some depth), "--max-depth=" +:+ depth);
   (WOpt (Some (Store "max_pages" true)) "--max-pages" (Some pages), "--max-pages=" +:+ pages);
   (WOpt (Some (Store "concurrency" true)) "--concurrency" (Some conc), "--concurrency=" +:+ conc);
   (WOpt (Some (Store "workers" true)) "--workers" (Some workers), "--workers=" +:+ workers)].
Lemma classify_values host port name depth pages conc workers :
  classify launcher_parser
    ["--host=" +:+ host; "--port=" +:+ port; "--name=" +:+ name; "--max-depth=" +:+ depth; "--max-pages=" +:+ pages;
     "--concurrency=" +:+ conc; "--workers=" +:+ workers] =
  Done (value_words host port name depth pages conc workers).
Proof. reflexivity. Qed.

Definition flag_words (b : bool) (d : string) (c : bool) (o : string) : list (word * string) :=
  if b then [(WOpt (Some (StoreConst d c)) o None, o)] else [].
Lemma classify_flag b d c o : classify launcher_parser [o] = Done (flag_words true d c o) ->
  classify launcher_parser (flag b o) = Done (flag_words b d c o).
Proof. by destruct b. Qed.
Lemma consume_flag p b d c o rest ns extras :
  consume p 0 (flag_words b d c o ++ rest) ns extras = consume p 0 rest (if b then <[d := VBool c]> ns else ns) extras.
Proof. by destruct b. Qed.

Lemma pretty_not_dashes (z : Z) : pretty z <> "--".
Proof. intros E. pose proof (int_of_text_pretty z) as Hz. rewrite E in Hz. done. Qed.
Lemma mapM_strs l : mapM (fun v => match v with VStr s => Some s | _ => None end) (map VStr l) = Some l.
Proof. induction l as [|s l IH]; [done|]. cbn. by rewrite IH. Qed.
Lemma flag_plain b o : o <> "--" -> Forall (fun s => s <> "--") (flag b o).
Proof. destruct b; by constructor. Qed.

(** The words of the whole line. *)
Definition launch_words (a : LaunchArgs) : list (word * string) :=
  value_words (la_host a) (pretty (la_port a)) (la_name a) (pretty (la_max_depth a)) (pretty (la_max_pages a))
    (pretty (la_concurrency a)) (pretty (la_workers a)) ++
  flag_words (la_all_domains a) "all_domains" true "--all-domains" ++ flag_words (negb (la_polite a)) "polite" false "--impolite" ++
  flag_words (negb (la_dedup a)) "dedup" false "--no-dedup" ++ flag_words (la_distributed a) "distributed" true "--distributed" ++
  match la_seeds a with Some seeds => (WOpt (Some (StoreList "seeds")) "--seeds" None, "--seeds") :: map (pair WArg) seeds | None => [] end.
Lemma classify_launch a : Forall (fun s => startswith "-" s = false) (default [] (la_seeds a)) ->
  classify launcher_parser (launch_argv a) = Done (launch_words a).
Proof.
  intros Hs. unfold launch_argv, launch_words.
  apply classify_app; [apply classify_values|by repeat (apply Forall_cons; split)|].
  do 4 (apply classify_app; [by apply classify_flag|by apply flag_plain|]).
  destruct (la_seeds a) as [seeds|]; [|done]. cbn [default] in Hs. cbn [classify]. rewrite bool_decide_eq_false_2 by done.
  change (parse_optional launcher_parser "--seeds") with (Done (WOpt (Some (StoreList "seeds")) "--seeds" None)). cbn [ebind].
  by rewrite classify_plain.
Qed.

(** The attributes of given arguments. *)
Definition seeds_value (seeds : option (list string)) : value :=
  match seeds with Some l => VList (map VStr l) | None => VNone end.
Definition attributes (a : LaunchArgs) : list (string * value) :=
  [("host", VStr (la_host a)); ("port", VInt (la_port a)); ("seeds", seeds_value (la_seeds a)); ("name", VStr (la_name a));
   ("max_depth", VInt (la_max_depth a)); ("max_pages", VInt (la_max_pages a)); ("concurrency", VInt (la_concurrency a));
   ("all_domains", VBool (la_all_domains a)); ("polite", VBool (la_polite a)); ("dedup", VBool (la_dedup a));
   ("distributed", VBool (la_distributed a)); ("workers", VInt (la_workers a))].
Lemma launch_args_attributes ns a : Forall (fun dv => ns !! fst dv = Some (snd dv)) (attributes a) -> launch_args ns = Some a.
Proof.
  unfold attributes. rewrite !Forall_cons. cbn [fst snd]. intros (E1 & E2 & E3 & E4 & E5 & E6 & E7 & E8 & E9 & E10 & E11 & E12 & _).
  unfold launch_args, get_str, get_int, get_bool, get_strs. rewrite E1, E2, E3, E4, E5, E6, E7, E8, E9, E10, E11, E12.
  cbn [mbind option_bind]. destruct a as [? ? seeds]. cbn. destruct seeds as [seeds|]; [|done]. cbn. by rewrite mapM_strs.
Qed.

(** What the words of the line store. *)
Definition stored (a : LaunchArgs) (ns : namespace) : namespace :=
  let set (b : bool) d v (ns : namespace) := if b then <[d := VBool v]> ns else ns in
  let ns := <["workers" := VInt (la_workers a)]> (<["concurrency" := VInt (la_concurrency a)]>
    (<["max_pages" := VInt (la_max_pages a)]> (<["max_depth" := VInt (la_max_depth a)]> (<["name" := VStr (la_name a)]>
    (<["port" := VInt (la_port a)]> (<["host" := VStr (la_host a)]> ns)))))) in
  let ns := set (la_distributed a) "distributed" true (set (negb (la_dedup a)) "dedup" false
    (set (negb (la_polite a)) "polite" false (set (la_all_domains a) "all_domains" true ns))) in
  match la_seeds a with Some l => <["seeds" := VList (map VStr l)]> ns | None => ns end.
Lemma consume_launch a ns : la_host a <> "--" -> la_name a <> "--" ->
  Forall (fun s => startswith "-" s = false) (default [] (la_seeds a)) ->
  consume launcher_parser 0 (launch_words a) ns [] = Done (stored a ns, []).
Proof.
  intros Hh Hn Hs. unfold launch_words, value_words. cbn [app].
  repeat (rewrite consume_store by first [done | apply pretty_not_dashes]; rewrite ?get_value_int; cbn [get_value ebind]).
  rewrite !consume_flag. unfold stored. destruct (la_seeds a) as [seeds|]; [|done].
  apply consume_list. eapply Forall_impl; [exact Hs|]. by intros s E ->.
Qed.
Lemma stored_attributes a : Forall (fun dv => stored a (list_to_map (rev (ap_defaults launcher_parser))) !! fst dv = Some (snd dv)) (attributes a).
Proof.
  unfold attributes, stored. destruct a as [host port seeds name depth pages conc [] [] [] [] workers]; cbn [la_seeds];
    destruct seeds; cbn [seeds_value la_all_domains la_polite la_dedup la_distributed negb]; by repeat (apply Forall_cons; split; [by vm_compute|]).
Qed.

(** The launcher's command line is read back.  Every set of arguments has a
    command line, and parsing it gives exactly these arguments and the mode they
    ask for: strings with spaces, leading dashes or equals signs, negative
    numbers, an empty list of seeds as well as none.  Only a host or a name that
    is two dashes, and a seed that starts with a dash, are not written this way. *)
Theorem launch_args_roundtrip (a : LaunchArgs) : la_host a <> "--" -> la_name a <> "--" ->
  Forall (fun s => startswith "-" s = false) (default [] (la_seeds a)) ->
  main (launch_argv a) = Done (Some (program_of a)).
Proof.
  intros Hh Hn Hs. unfold main, _parse_args, parse_args. rewrite (classify_launch a Hs). cbn [ebind].
  rewrite (consume_launch a _ Hh Hn Hs). cbn [ebind]. by rewrite (launch_args_attributes _ a (stored_attributes a)).
Qed.

(** ** What a run gets *)

Definition launcher_types : gmap string kind := list_to_map
  [("host", KStr); ("port", KInt); ("seeds", KList); ("name", KStr); ("max_depth", KInt); ("max_pages", KInt);
   ("concurrency", KInt); ("all_domains", KBool); ("polite", KBool); ("dedup", KBool); ("distributed", KBool); ("workers", KInt)].
Lemma launcher_registered :
  Forall (fun oa => forall d k, writes (snd oa) = Some (d, k) -> launcher_types !! d = Some k) (ap_options launcher_parser).
Proof. cbn [launcher_parser ap_options]. repeat (apply Forall_cons; split; [by intros d k [= <- <-] || by intros d k [=]|]). done. Qed.
Lemma launcher_defaults : typed launcher_types (list_to_map (rev (ap_defaults launcher_parser))).
Proof.
  intros d k Hd%elem_of_list_to_map_2. repeat (apply elem_of_cons in Hd as [[= -> ->]|Hd]; [eexists; split; [vm_compute; reflexivity|done]|]).
  by apply elem_of_nil in Hd.
Qed.

(** An attribute of each kind is read. *)
Lemma typed_reads ns d k : typed launcher_types ns -> launcher_types !! d = Some k ->
  match k with
  | KStr => is_Some (get_str ns d) | KInt => is_Some (get_int ns d) | KBool => is_Some (get_bool ns d) | KList => is_Some (get_strs ns d)
  end.
Proof.
  intros Hns Hd. destruct (Hns d k Hd) as (v & Ev & Hv). unfold get_str, get_int, get_bool, get_strs. rewrite Ev. cbn [mbind option_bind].
  destruct k, v as [|?|?|?|l]; try done; cbn [has_kind] in Hv; try (by eexists).
  assert (is_Some (mapM (fun v => match v with VStr s => Some s | _ => None end) l)) as [l' ->]; [|by eexists].
  apply mapM_is_Some. eapply Forall_impl; [exact Hv|]. intros v [s ->]. by eexists.
Qed.

(** The launcher never starts with half of its arguments.  Whatever the
    command line, unless one of its words other than [--] itself ends in two
    dashes, [main] prints the help and leaves with status 0, leaves with an error
    message and status 2, or has for every argument a value of its type (which
    it takes from the line or from the default) and runs in the mode the
    [--distributed] flag asks for, returning 0. *)
Theorem main_typed argv : Forall (fun s => s = "--" \/ ~ dashed s) argv ->
  match main argv with
  | Done o => exists ns a, _parse_args argv = Done ns /\ launch_args ns = Some a /\ o = Some (program_of a) /\
      get_bool ns "distributed" = Some (la_distributed a) /\ exit_status 0 (main argv) = 0
  | HelpShown => exit_status 0 (main argv) = 0
  | Usage _ => exit_status 0 (main argv) = 2
  end.
Proof.
  intros Hargv. unfold main. destruct (_parse_args argv) as [ns| |] eqn:E; [|done..]. cbn [ebind].
  pose proof (parse_typed launcher_parser launcher_types launcher_registered argv ns launcher_defaults Hargv E) as Hns.
  pose proof (fun d k => typed_reads ns d k Hns) as Hr.
  assert (exists a, launch_args ns = Some a /\ get_bool ns "distributed" = Some (la_distributed a)) as (a & Ea & Ed).
  { unfold launch_args.
    destruct (Hr "host" KStr eq_refl) as [x1 ->], (Hr "port" KInt eq_refl) as [x2 ->], (Hr "seeds" KList eq_refl) as [x3 ->],
      (Hr "name" KStr eq_refl) as [x4 ->], (Hr "max_depth" KInt eq_refl) as [x5 ->], (Hr "max_pages" KInt eq_refl) as [x6 ->],
      (Hr "concurrency" KInt eq_refl) as [x7 ->], (Hr "all_domains" KBool eq_refl) as [x8 ->], (Hr "polite" KBool eq_refl) as [x9 ->],
      (Hr "dedup" KBool eq_refl) as [x10 ->], (Hr "distributed" KBool eq_refl) as [x11 Ex], (Hr "workers" KInt eq_refl) as [x12 ->].
    rewrite Ex. by eexists. }
  rewrite Ea. exists ns, a. by split_and!.
Qed.

(** ** The workers the launcher starts *)

Lemma parse_port (z : Z) : 0 <= z -> startswith "-" (pretty z) = false.
Proof.
  intros Hz. destruct z as [|q|q]; [done| |lia]. change (pretty (Zpos q)) with (pretty_N_go (Npos q) "").
  pose proof (pretty_digits_go is_digit (Npos q) "" (pretty_N_char_cases is_digit eq_refl) eq_refl) as Hd.
  destruct (pretty_N_go (Npos q) "") as [|c s]; [done|]. cbn [sall] in Hd. apply andb_true_iff in Hd as [Hc _].
  destruct c as [[] [] [] [] [] [] [] []]; done.
Qed.
Lemma worker_main_port z : 0 <= z -> worker_main ["--metrics-port"; pretty z] = Done (VInt z).
Proof.
  intros Hz. unfold worker_main, parse_args.
  assert (classify worker_parser ["--metrics-port"; pretty z] =
    Done [(WOpt (Some (Store "metrics_port" true)) "--metrics-port" None, "--metrics-port"); (WArg, pretty z)]) as ->.
  { cbn [classify]. rewrite !bool_decide_eq_false_2 by (done || by apply pretty_not_dashes).
    rewrite (parse_optional_plain _ (pretty z)) by by apply parse_port. done. }
  cbn [ebind consume]. unfold consume_optional. cbn [ebind match_argument app take map snd take_actions]. unfold take_action. rewrite remove_dashes_none by (constructor; [apply pretty_not_dashes|done]).
  rewrite get_value_int. reflexivity.
Qed.

(** The processes of the distributed mode accept the command lines they are
    started with.  Each worker's command runs the worker module, whose parser
    reads its metrics port from it: 8001 for the first worker, and the next one
    for each further worker, so that no two workers have the same. *)
Theorem spawned_workers_start python a :
  (fun cmd => (take 3 cmd, worker_main (drop 3 cmd))) <$> tail (commands python a) =
    (fun i => ([python; "-m"; "crawler.worker"], Done (VInt (8001 + i)))) <$> seqZ 0 (la_workers a) /\
  NoDup ((fun cmd => worker_main (drop 3 cmd)) <$> tail (commands python a)).
Proof.
  unfold commands. cbn [tail]. rewrite <- !list_fmap_compose. split.
  - apply list_fmap_ext. intros i j Hj. apply lookup_seqZ in Hj as [-> Hi]. cbn [compose take drop]. by rewrite worker_main_port by lia.
  - apply NoDup_fmap_2_strong; [|apply NoDup_seqZ]. intros i j Hi%elem_of_seqZ Hj%elem_of_seqZ. cbn [compose drop].
    rewrite !worker_main_port by lia. intros [= E]. lia.
Qed.

(** ** Witnesses *)

Definition odd_arguments : LaunchArgs := mkLaunch "0.0.0.0" (-1) (Some ["http://a.org/?q=1"; "b.org"]) "--my crawl" 3 5 1 true false true true 2.
Lemma launch_args_roundtrip_witness : main (launch_argv odd_arguments) = Done (Some (RunDistributed odd_arguments)).
Proof. apply (launch_args_roundtrip odd_arguments); [discriminate|discriminate|repeat constructor]. Defined.

Lemma main_typed_witness : exists ns a,
  _parse_args ["--seeds"; "a.org"; "-w5"; "--max-d"; "7"; "--distr"] = Done ns /\ launch_args ns = Some a /\
  la_workers a = 5 /\ la_max_depth a = 7 /\ la_distributed a = true /\ la_seeds a = Some ["a.org"].
Proof.
  pose proof (main_typed ["--seeds"; "a.org"; "-w5"; "--max-d"; "7"; "--distr"]) as H.
  destruct (main ["--seeds"; "a.org"; "-w5"; "--max-d"; "7"; "--distr"]) as [o| |e] eqn:E;
    [|vm_compute in E; discriminate E|vm_compute in E; discriminate E].
  destruct H as (ns & a & Ens & Ea & Eo & _).
  - repeat (apply Forall_cons; split; [right; apply not_dashed; reflexivity|]). constructor.
  - exists ns, a. split; [exact Ens|]. split; [exact Ea|]. rewrite Eo in E.
    assert (Done (Some (program_of a)) = Done (Some (RunDistributed
      (mkLaunch "127.0.0.1" 8010 (Some ["a.org"]) "crawl" 7 100 10 false true true true 5)))) as E2
      by (rewrite <- E; vm_compute; reflexivity).
    unfold program_of in E2. destruct (la_distributed a); [|discriminate E2]. injection E2 as ->. repeat split.
Defined.

(** A host of two dashes, [--host=--], is an empty list for [argparse]; an
    abbreviation that two options share is refused; what follows [--] is not
    taken for a seed. *)
Example dashes_lost : main ["--host=--"] = Done None. Proof. vm_compute. reflexivity. Qed.
Example ambiguous_max : main ["--max"; "3"] = Usage (AmbiguousOption "--max" ["--max-depth"; "--max-pages"]). Proof. vm_compute. reflexivity. Qed.
Example seeds_after_dashes : main ["--seeds"; "--"; "a.org"] = Usage (UnrecognizedArguments ["--"; "a.org"]). Proof. vm_compute. reflexivity. Qed.
Example swallowed_seed :
  (let? ns := _parse_args ["--seeds"; "a.org"; "b.org"; "-w"; "2"] in Done (get_strs ns "seeds", get_int ns "workers")) =
  Done (Some (Some ["a.org"; "b.org"]), Some 2).
Proof. vm_compute. reflexivity. Qed.
