(* ===== verification/Distributed.v ===== *)
(** * The distributed processing step ([crawler/pipeline/distributed.py])

    [process_message] over any page processor, any URL-seen set ([UrlSeen]) and
    any [enqueue] coroutine.  Many workers run it at the same time on one
    shared seen-set: [fleet_step] interleaves their loops at the points where
    they wait, the answer of [check_and_add] and the end of [enqueue].

    [fleet_enqueues_once]: no URL is enqueued twice by the whole fleet;
    [process_message_refines_fleet]: a run of [process_message] is a schedule
    of [fleet_step]; [process_message_expands]: what one run enqueues.
    [enqueue_failure_loses_link]: the URL is marked before it is enqueued. *)
From S2P Require Import Prelude PyStr Config Models UrlUtils Bloom Engine.
Local Open Scope Z_scope.

(** The children a result asks for, in the order of its links. *)
Definition child_item (item : FrontierItem) (link : Link) : FrontierItem :=
  mkItem (link_url link) (fi_depth item + 1) (fi_crawl_id item).
Definition expands (item : FrontierItem) (max_depth : Z) (r : ProcessResult) : bool :=
  res_fetched r && negb (res_duplicate r) && (fi_depth item <? max_depth).
Definition children (item : FrontierItem) (max_depth : Z) (r : ProcessResult) : list FrontierItem :=
  if expands item max_depth r then child_item item <$> res_links r else [].

Section Distributed.
Context {Pi St E : Type} `{PP : PageProcessor Pi, US : UrlSeen St}.
Variable enqueue : FrontierItem -> act E unit.

(** What the call is given: the pipeline, the seen-set and the queue. *)
Record Shard : Type := mkShard { sh_pipeline : Pi; sh_seen : St; sh_queue : E }.

Definition call_pipeline (item : FrontierItem) : act Shard ProcessResult := fun s =>
  let '(x, pi) := process_item item (sh_pipeline s) in (x, mkShard pi (sh_seen s) (sh_queue s)).
Definition check_seen (url : string) : act Shard bool := fun s =>
  let '(b, st) := seen_check_and_add url (sh_seen s) in (b, mkShard (sh_pipeline s) st (sh_queue s)).
Definition call_enqueue (item : FrontierItem) : act Shard unit := fun s =>
  let '(x, q) := enqueue item (sh_queue s) in (x, mkShard (sh_pipeline s) (sh_seen s) q).

(** [for link in result.links: if await seen.check_and_add(link.url): await enqueue(...)]. *)
Fixpoint enqueue_new (item : FrontierItem) (links : list Link) : act Shard unit :=
  match links with
  | [] => aret tt
  | link :: rest =>
      let! new := check_seen (link_url link) in
      let! _ := if new then call_enqueue (child_item item link) else aret tt in
      enqueue_new item rest
  end.

Definition process_message (item : FrontierItem) (max_depth : Z) : act Shard ProcessResult :=
  let! result := call_pipeline item in
  let! _ := if expands item max_depth result then enqueue_new item (res_links result) else aret tt in
  aret result.

End Distributed.
Arguments Shard : clear implicits.

(** ** The fleet *)

(** A loop in progress: the child being enqueued, and those still to check. *)
Record task : Type := mkTask { tk_sending : option FrontierItem; tk_rest : list FrontierItem }.

(** A result the pipeline can return for an item. *)
Definition page_result {Pi : Type} `{PP : PageProcessor Pi} (item : FrontierItem) (r : ProcessResult) : Prop :=
  exists pi pi', process_item item pi = (Ok r, pi').

Section Fleet.
Context {St : Type} `{US : UrlSeen St}.
(** The results a worker's pipeline may return for an item. *)
Variable page : FrontierItem -> ProcessResult -> Prop.

(** The shared seen-set and the loops of all workers, with the children asked
    for, those enqueued, those whose [enqueue] raised, and those a loop that
    was left by an exception never came to. *)
Record fleet : Type := mkFleet {
  ft_seen : St; ft_tasks : list task; ft_asked : list FrontierItem; ft_sent : list FrontierItem;
  ft_failed : list FrontierItem; ft_dropped : list FrontierItem }.

Inductive fleet_step (max_depth : Z) : fleet -> fleet -> Prop :=
| fleet_page item r sn ts asked sent fl dr :
    (* a worker's pipeline returns a result *)
    page item r ->
    fleet_step max_depth (mkFleet sn ts asked sent fl dr)
      (mkFleet sn (ts ++ [mkTask None (children item max_depth r)]) (asked ++ children item max_depth r) sent fl dr)
| fleet_new c rest sn sn' t1 t2 asked sent fl dr :
    (* the seen-set answers that the URL is new *)
    seen_check_and_add (fi_url c) sn = (Ok true, sn') ->
    fleet_step max_depth (mkFleet sn (t1 ++ mkTask None (c :: rest) :: t2) asked sent fl dr)
      (mkFleet sn' (t1 ++ mkTask (Some c) rest :: t2) asked sent fl dr)
| fleet_known c rest sn sn' t1 t2 asked sent fl dr :
    seen_check_and_add (fi_url c) sn = (Ok false, sn') ->
    fleet_step max_depth (mkFleet sn (t1 ++ mkTask None (c :: rest) :: t2) asked sent fl dr)
      (mkFleet sn' (t1 ++ mkTask None rest :: t2) asked sent fl dr)
| fleet_sent c rest sn t1 t2 asked sent fl dr :
    (* [enqueue] returns *)
    fleet_step max_depth (mkFleet sn (t1 ++ mkTask (Some c) rest :: t2) asked sent fl dr)
      (mkFleet sn (t1 ++ mkTask None rest :: t2) asked (sent ++ [c]) fl dr)
| fleet_failed c rest sn t1 t2 asked sent fl dr :
    (* [enqueue] raises: the loop is left *)
    fleet_step max_depth (mkFleet sn (t1 ++ mkTask (Some c) rest :: t2) asked sent fl dr)
      (mkFleet sn (t1 ++ t2) asked sent (fl ++ [c]) (dr ++ rest)).

Definition new_fleet (sn : St) : fleet := mkFleet sn [] [] [] [] [].

Definition sending (ts : list task) : list FrontierItem := omap tk_sending ts.
Definition unchecked (ts : list task) : list FrontierItem := ts ≫= tk_rest.
(** The children a worker claimed by a [True] of the seen-set. *)
Definition claimed (f : fleet) : list FrontierItem := ft_sent f ++ ft_failed f ++ sending (ft_tasks f).

Lemma sending_app t1 t2 : sending (t1 ++ t2) = sending t1 ++ sending t2.
Proof. unfold sending. induction t1 as [|t t1 IH]; [done|]. cbn. destruct (tk_sending t); cbn; by rewrite IH. Qed.
Lemma unchecked_app t1 t2 : unchecked (t1 ++ t2) = unchecked t1 ++ unchecked t2.
Proof. unfold unchecked. by rewrite bind_app. Qed.

Context `{!UrlSeenSpec St}.

Record fleet_inv (sn0 : St) (f : fleet) : Prop := {
  fi_seen : seen_inv (ft_seen f);
  fi_mono v : seen_member sn0 v = true -> seen_member (ft_seen f) v = true;
  fi_once : NoDup (fi_url <$> claimed f);
  fi_new : Forall (fun c => seen_member sn0 (fi_url c) = false /\ seen_member (ft_seen f) (fi_url c) = true) (claimed f);
  fi_asked : Forall (fun c => seen_member (ft_seen f) (fi_url c) = true \/
                              c ∈ unchecked (ft_tasks f) ++ ft_dropped f) (ft_asked f) }.

(** The same children are claimed and all asked-for children stay accounted for. *)
Lemma fleet_frame sn0 f f' :
  fleet_inv sn0 f -> seen_inv (ft_seen f') ->
  (forall v, seen_member (ft_seen f) v = true -> seen_member (ft_seen f') v = true) ->
  claimed f' ≡ₚ claimed f ->
  (forall c, c ∈ ft_asked f' -> c ∈ ft_asked f \/ c ∈ unchecked (ft_tasks f') ++ ft_dropped f') ->
  (forall c, c ∈ unchecked (ft_tasks f) ++ ft_dropped f ->
     seen_member (ft_seen f') (fi_url c) = true \/ c ∈ unchecked (ft_tasks f') ++ ft_dropped f') ->
  fleet_inv sn0 f'.
Proof.
  intros [I M O N A] Hi Hm Hp Hask Hun. split; [done|auto| | |].
  - by rewrite Hp.
  - rewrite Hp. eapply Forall_impl; [exact N|]. cbn. naive_solver.
  - apply Forall_forall. intros c [Hc|]%Hask; [|by right]. eapply Forall_forall in A; [|exact Hc].
    destruct A as [?|?%Hun]; [left|]; auto.
Qed.

Lemma fleet_step_inv max_depth sn0 f f' : fleet_inv sn0 f -> fleet_step max_depth f f' -> fleet_inv sn0 f'.
Proof.
  intros Hi Hs. inversion Hs as [item r sn ts asked sent fl dr Hp
    |c rest sn sn' t1 t2 asked sent fl dr Hc|c rest sn sn' t1 t2 asked sent fl dr Hc
    |c rest sn t1 t2 asked sent fl dr|c rest sn t1 t2 asked sent fl dr]; subst.
  - eapply (fleet_frame _ _ _ Hi); cbn; [apply Hi|done| | |].
    + unfold claimed. cbn. by rewrite sending_app, !app_nil_r.
    + intros x. rewrite elem_of_app, unchecked_app. intros [|]; [by left|right]. cbn. set_solver.
    + intros x Hx. right. rewrite unchecked_app. set_solver.
  - destruct (seen_spec (fi_url c) sn (fi_seen _ _ Hi)) as (sn1 & E & Hi1 & Hm1 & Hm). cbn in E. rewrite Hc in E.
    injection E as E <-. symmetry in E. apply negb_true_iff in E. destruct Hi as [I M O N A]. cbn in *.
    assert (claimed (mkFleet sn' (t1 ++ mkTask (Some c) rest :: t2) asked sent fl dr) ≡ₚ
            c :: claimed (mkFleet sn (t1 ++ mkTask None (c :: rest) :: t2) asked sent fl dr)) as Hp.
    { unfold claimed. cbn. rewrite !sending_app. cbn. solve_Permutation. }
    assert (seen_member sn0 (fi_url c) = false) as E0.
    { destruct (seen_member sn0 (fi_url c)) eqn:E1; [|done]. apply M in E1. congruence. }
    split; cbn; [done|auto| | |].
    + rewrite Hp. cbn. constructor; [|done]. intros (x & Ex & Hx)%list_elem_of_fmap.
      eapply Forall_forall in N; [|exact Hx]. destruct N as [_ N]. rewrite <- Ex in N. congruence.
    + rewrite Hp. constructor; [done|]. eapply Forall_impl; [exact N|]. cbn. naive_solver.
    + eapply Forall_impl; [exact A|]. cbn. intros x [?|Hx]; [left; auto|].
      rewrite unchecked_app in *. cbn in *.
      destruct (decide (x = c)) as [->|]; [by left|right]. set_solver.
  - destruct (seen_spec (fi_url c) sn (fi_seen _ _ Hi)) as (sn1 & E & Hi1 & Hm1 & Hm). cbn in E. rewrite Hc in E.
    injection E as E <-. eapply (fleet_frame _ _ _ Hi); cbn; [done|done| | |].
    + unfold claimed. cbn. by rewrite !sending_app.
    + by left.
    + intros x Hx. rewrite unchecked_app in *. cbn in *.
      destruct (decide (x = c)) as [->|]; [by left|right]. set_solver.
  - eapply (fleet_frame _ _ _ Hi); cbn; [apply Hi|done| | |].
    + unfold claimed. cbn. rewrite !sending_app. cbn. solve_Permutation.
    + by left.
    + intros x Hx. rewrite unchecked_app in *. by right.
  - eapply (fleet_frame _ _ _ Hi); cbn; [apply Hi|done| | |].
    + unfold claimed. cbn. rewrite !sending_app. cbn. solve_Permutation.
    + by left.
    + intros x Hx. rewrite unchecked_app in *. cbn in *. right. set_solver.
Qed.

Lemma fleet_reachable_inv max_depth sn0 f : seen_inv sn0 -> rtc (fleet_step max_depth) (new_fleet sn0) f -> fleet_inv sn0 f.
Proof.
  intros H0 Hr. assert (fleet_inv sn0 (new_fleet sn0)) as Hi by (split; cbn; [done|done|constructor..]).
  eapply rtc_invariant; [|exact Hr|exact Hi]. eauto using fleet_step_inv.
Qed.

(** C6: the same URL is enqueued at most once by the whole fleet.  However the
    loops of all workers are interleaved over one shared seen-set, the
    children that were enqueued (or are being enqueued, or whose [enqueue]
    raised) have distinct URLs, none of which the seen-set held at the start;
    and every child a page asked for is in the seen-set, unless it has yet to
    be checked or its loop was left by an exception. *)
Theorem fleet_enqueues_once max_depth sn0 f : seen_inv sn0 -> rtc (fleet_step max_depth) (new_fleet sn0) f ->
  NoDup (fi_url <$> claimed f) /\
  (forall c, c ∈ claimed f -> seen_member sn0 (fi_url c) = false) /\
  (forall c, c ∈ ft_asked f ->
     seen_member (ft_seen f) (fi_url c) = true \/ c ∈ unchecked (ft_tasks f) ++ ft_dropped f).
Proof.
  intros H0 Hr. destruct (fleet_reachable_inv max_depth sn0 f H0 Hr) as [_ _ O N A].
  split_and!; [done| |].
  - intros c Hc. by eapply Forall_forall in N as [? _].
  - intros c Hc. by eapply Forall_forall in A.
Qed.

End Fleet.
Arguments fleet : clear implicits.

(** ** One run of [process_message] *)
Section Refinement.
Context {Pi St E : Type} `{PP : PageProcessor Pi, US : UrlSeen St, !UrlSeenSpec St}.
Variable enqueue : FrontierItem -> act E unit.

(** [enqueue] with a log of what it accepted. *)
Definition logged (item : FrontierItem) : act (E * list FrontierItem) unit := fun ql =>
  match enqueue item (fst ql) with
  | (Ok _, q) => (Ok tt, (q, snd ql ++ [item]))
  | (Raise e, q) => (Raise e, (q, snd ql))
  end.

Abbreviation shard := (Shard Pi St (E * list FrontierItem)).
Abbreviation log s := (snd (sh_queue s)).

Lemma call_logged item (s : shard) :
  call_enqueue logged item s =
  match enqueue item (fst (sh_queue s)) with
  | (Ok _, q) => (Ok tt, mkShard (sh_pipeline s) (sh_seen s) (q, log s ++ [item]))
  | (Raise e, q) => (Raise e, mkShard (sh_pipeline s) (sh_seen s) (q, log s))
  end.
Proof. unfold call_enqueue, logged. by destruct (enqueue item _) as [[?|?] q]. Qed.

Lemma enqueue_new_refines max_depth item links (s : shard) ts asked fl dr : seen_inv (sh_seen s) ->
  let '(x, s') := enqueue_new logged item links s in
  seen_inv (sh_seen s') /\
  exists f', rtc (fleet_step page_result max_depth)
      (mkFleet (sh_seen s) (ts ++ [mkTask None (child_item item <$> links)]) asked (log s) fl dr) f' /\
    ft_seen f' = sh_seen s' /\ ft_sent f' = log s' /\
    match x with
    | Ok _ => ft_tasks f' = ts ++ [mkTask None []] /\ ft_failed f' = fl /\ ft_dropped f' = dr
    | Raise _ => ft_tasks f' = ts /\ exists c, ft_failed f' = fl ++ [c]
    end.
Proof.
  revert s. induction links as [|link links IH]; intros s Hi; cbn [enqueue_new].
  { split; [done|]. eexists. split; [apply rtc_refl|]. done. }
  unfold abind at 1, check_seen.
  destruct (seen_spec (link_url link) (sh_seen s) Hi) as (sn' & Ec & Hi' & _ & _). rewrite Ec.
  destruct (negb (seen_member (sh_seen s) (link_url link))).
  - unfold abind at 1. rewrite call_logged. cbn [sh_queue sh_seen sh_pipeline].
    destruct (enqueue (child_item item link) (fst (sh_queue s))) as [[[]|e] q] eqn:Eq.
    + specialize (IH (mkShard (sh_pipeline s) sn' (q, log s ++ [child_item item link])) Hi').
      destruct (enqueue_new logged item links _) as [x s']. cbn [sh_seen sh_queue snd] in IH.
      destruct IH as (Hs' & f' & Hr & Hrest). split; [done|]. exists f'. split; [|done].
      rewrite fmap_cons. eapply rtc_l; [by apply (fleet_new page_result max_depth (child_item item link))|].
      eapply rtc_l; [apply fleet_sent|]. exact Hr.
    + split; [done|].
      exists (mkFleet sn' (ts ++ []) asked (log s) (fl ++ [child_item item link]) (dr ++ (child_item item <$> links))).
      cbn [ft_tasks ft_failed ft_sent ft_seen]. rewrite app_nil_r. split_and!; [|done..|by eexists].
      rewrite fmap_cons. eapply rtc_l; [by apply (fleet_new page_result max_depth (child_item item link))|].
      rewrite <- (app_nil_r ts) at 2. apply rtc_once, fleet_failed.
  - unfold abind at 1, aret. specialize (IH (mkShard (sh_pipeline s) sn' (sh_queue s)) Hi').
    destruct (enqueue_new logged item links _) as [x s']. cbn [sh_seen sh_queue] in IH.
    destruct IH as (Hs' & f' & Hr & Hrest). split; [done|]. exists f'. split; [|done].
    rewrite fmap_cons. eapply rtc_l; [by apply (fleet_known page_result max_depth (child_item item link))|]. exact Hr.
Qed.

(** The loop of one worker is a schedule of the fleet.  Whatever the other
    workers have in progress, a run of [process_message] takes the fleet to a
    state with its seen-set and its enqueued URLs; it leaves no child behind
    when it returns, and when it raises it has lost at most the child that
    could not be enqueued and those after it. *)
Theorem process_message_refines_fleet item max_depth (s : shard) ts asked fl dr : seen_inv (sh_seen s) ->
  let '(x, s') := process_message logged item max_depth s in
  exists f', rtc (fleet_step page_result max_depth) (mkFleet (sh_seen s) ts asked (log s) fl dr) f' /\
    ft_seen f' = sh_seen s' /\ ft_sent f' = log s' /\ seen_inv (sh_seen s') /\
    match x with
    | Ok r => unchecked (ft_tasks f') = unchecked ts /\ sending (ft_tasks f') = sending ts /\
              ft_failed f' = fl /\ ft_dropped f' = dr
    | Raise _ => ft_tasks f' = ts
    end.
Proof.
  intros Hi. unfold process_message, abind at 1, call_pipeline.
  destruct (process_item item (sh_pipeline s)) as [[r|e] pi] eqn:Ep.
  2:{ eexists. split; [apply rtc_refl|]. done. }
  unfold abind at 1. pose proof (fleet_page page_result max_depth item r (sh_seen s) ts asked (log s) fl dr
    (ex_intro _ _ (ex_intro _ _ Ep))) as Hpage.
  unfold children in Hpage. destruct (expands item max_depth r).
  - pose proof (enqueue_new_refines max_depth item (res_links r) (mkShard pi (sh_seen s) (sh_queue s)) ts
      (asked ++ (child_item item <$> res_links r)) fl dr Hi) as Hloop.
    destruct (enqueue_new logged item (res_links r) _) as [x s']. cbn [sh_seen sh_queue] in Hloop.
    destruct Hloop as (Hi' & f' & Hr & Es & El & Hx). destruct x as [[]|e]; cbn.
    + exists f'. split; [by eapply rtc_l|]. destruct Hx as (Et & ? & ?). rewrite Et, unchecked_app, sending_app. cbn.
      rewrite !app_nil_r. done.
    + exists f'. split; [by eapply rtc_l|]. by destruct Hx as [? _].
  - cbn. eexists. split; [by apply rtc_once|]. cbn. rewrite unchecked_app, sending_app. cbn. by rewrite !app_nil_r.
Qed.

Lemma enqueue_new_ok item links (s : shard) : seen_inv (sh_seen s) -> (forall i q, exists q', enqueue i q = (Ok tt, q')) ->
  exists s' new, enqueue_new logged item links s = (Ok tt, s') /\ log s' = log s ++ new /\ seen_inv (sh_seen s') /\
    sh_pipeline s' = sh_pipeline s /\ new `sublist_of` (child_item item <$> links) /\ NoDup (fi_url <$> new) /\
    (forall v, seen_member (sh_seen s) v = true -> seen_member (sh_seen s') v = true) /\
    (forall c, c ∈ child_item item <$> links -> seen_member (sh_seen s') (fi_url c) = true) /\
    (forall c, c ∈ new -> seen_member (sh_seen s) (fi_url c) = false).
Proof.
  intros Hi Hok. revert s Hi. induction links as [|link links IH]; intros s Hi; cbn [enqueue_new].
  { exists s, []. rewrite app_nil_r. split_and!; try done; [constructor|..]; intros c Hc; by apply elem_of_nil in Hc. }
  unfold abind at 1, check_seen.
  destruct (seen_spec (link_url link) (sh_seen s) Hi) as (sn' & Ec & Hi' & Hm & Hmono). rewrite Ec.
  destruct (seen_member (sh_seen s) (link_url link)) eqn:Emem; cbn [negb].
  - unfold abind at 1, aret.
    destruct (IH (mkShard (sh_pipeline s) sn' (sh_queue s)) Hi') as (s' & new & -> & El & Hs & Hp & Hsub & Hnd & Hm1 & Hall & Hnew).
    exists s', new. cbn [sh_seen sh_queue sh_pipeline] in *. split_and!; try done.
    + rewrite fmap_cons. by constructor.
    + auto.
    + intros c. rewrite fmap_cons, elem_of_cons. intros [->|?]; auto.
    + intros c Hc%Hnew. destruct (seen_member (sh_seen s) (fi_url c)) eqn:E1; [|done]. apply Hmono in E1. congruence.
  - unfold abind at 1. rewrite call_logged. cbn [sh_queue sh_seen sh_pipeline].
    destruct (Hok (child_item item link) (fst (sh_queue s))) as (q & ->).
    destruct (IH (mkShard (sh_pipeline s) sn' (q, log s ++ [child_item item link])) Hi')
      as (s' & new & -> & El & Hs & Hp & Hsub & Hnd & Hm1 & Hall & Hnew).
    exists s', (child_item item link :: new). cbn [sh_seen sh_queue sh_pipeline snd] in *. split_and!; try done.
    + by rewrite El, <- app_assoc.
    + rewrite fmap_cons. by constructor.
    + rewrite fmap_cons. constructor; [|done]. intros (c & Ec' & Hc%Hnew)%list_elem_of_fmap.
      change (fi_url (child_item item link)) with (link_url link) in Ec'. congruence.
    + auto.
    + intros c. rewrite fmap_cons, elem_of_cons. intros [->|?]; auto.
    + intros c. rewrite elem_of_cons. intros [->|Hc%Hnew]; [done|].
      destruct (seen_member (sh_seen s) (fi_url c)) eqn:E1; [|done]. apply Hmono in E1. congruence.
Qed.

(** What one run of [process_message] enqueues, when the queue accepts
    everything.  It returns the pipeline's result; the queue receives a
    subsequence of the page's children, one level deeper and in the same
    crawl, with distinct URLs that were not in the seen-set before; afterwards
    all of the children are in it.  A page that was not fetched, is a
    duplicate or lies at [max_depth] enqueues nothing and marks nothing. *)
Theorem process_message_expands item max_depth (s : shard) r pi :
  seen_inv (sh_seen s) -> (forall i q, exists q', enqueue i q = (Ok tt, q')) ->
  process_item item (sh_pipeline s) = (Ok r, pi) ->
  exists s' new, process_message logged item max_depth s = (Ok r, s') /\ sh_pipeline s' = pi /\ log s' = log s ++ new /\
    new `sublist_of` children item max_depth r /\ NoDup (fi_url <$> new) /\
    (forall c, c ∈ new -> seen_member (sh_seen s) (fi_url c) = false) /\
    (forall c, c ∈ children item max_depth r -> seen_member (sh_seen s') (fi_url c) = true) /\
    (expands item max_depth r = false -> new = [] /\ sh_seen s' = sh_seen s).
Proof.
  intros Hi Hok Ep. unfold process_message, abind at 1, call_pipeline. rewrite Ep. unfold abind at 1, children.
  destruct (expands item max_depth r) eqn:Ex.
  - destruct (enqueue_new_ok item (res_links r) (mkShard pi (sh_seen s) (sh_queue s)) Hi Hok)
      as (s' & new & -> & El & Hs & Hp & Hsub & Hnd & _ & Hall & Hnew).
    exists s', new. cbn in *. by split_and!.
  - exists (mkShard pi (sh_seen s) (sh_queue s)), []. cbn. rewrite app_nil_r.
    split_and!; try done; [constructor|..]; intros c Hc; by apply elem_of_nil in Hc.
Qed.

End Refinement.

(** ** Concrete instances *)

(** An exact seen-set, and a queue that accepts everything but one URL. *)
Definition exact_seen : UrlSeen (gset string) := fun u s => (Ok (negb (bool_decide (u ∈ s))), {[u]} ∪ s).
Definition exact_seen_spec : @UrlSeenSpec (gset string) exact_seen.
Proof.
  refine {| seen_inv := fun _ => True; seen_member := fun s u => bool_decide (u ∈ s) |}.
  intros u s _. exists ({[u]} ∪ s). split_and!; [done|done| |].
  - apply bool_decide_eq_true. set_solver.
  - intros v Hv%bool_decide_eq_true. apply bool_decide_eq_true. set_solver.
Defined.
Definition no_queue (item : FrontierItem) : act unit unit := aret tt.
Definition refuses (u : string) (item : FrontierItem) : act unit unit :=
  if bool_decide (fi_url item = u) then araise (OtherError "KafkaTimeoutError") else aret tt.
Definition message_shard : Shard registry (gset string) (unit * list FrontierItem) := mkShard ∅ {["http://a.org/y"]} (tt, []).
Definition seed_item : FrontierItem := mkItem "http://a.org/" 0 None.

(** A page whose first child is being enqueued by one worker. *)
Definition page_fleet : fleet (gset string) :=
  mkFleet {["http://a.org/x"]}
    [mkTask (Some (mkItem "http://a.org/x" 1 None))
       [mkItem "http://b.org/" 1 None; mkItem "http://a.org/y" 1 None; mkItem "http://a.org/" 1 None]]
    [mkItem "http://a.org/x" 1 None; mkItem "http://b.org/" 1 None; mkItem "http://a.org/y" 1 None; mkItem "http://a.org/" 1 None]
    [] [] [].

Lemma page_fleet_reachable :
  rtc (@fleet_step (gset string) exact_seen (@page_result registry five_pages) 3) (new_fleet ∅) page_fleet.
Proof.
  eapply rtc_l.
  { apply (@fleet_page (gset string) exact_seen (@page_result registry five_pages) 3 seed_item
             (mkResult seed_item true true false None (page_links "http://a.org/") None)). by exists ∅, ∅. }
  apply rtc_once, (@fleet_new (gset string) exact_seen (@page_result registry five_pages) 3 (mkItem "http://a.org/x" 1 None)
    [mkItem "http://b.org/" 1 None; mkItem "http://a.org/y" 1 None; mkItem "http://a.org/" 1 None] ∅ {["http://a.org/x"]} [] []).
  vm_compute. reflexivity.
Qed.

Lemma fleet_enqueues_once_witness : NoDup (fi_url <$> claimed page_fleet).
Proof.
  exact (proj1 (@fleet_enqueues_once (gset string) exact_seen (@page_result registry five_pages) exact_seen_spec 3 ∅ page_fleet I
    page_fleet_reachable)).
Defined.

Lemma process_message_refines_fleet_witness :
  exists f', rtc (@fleet_step (gset string) exact_seen (@page_result registry five_pages) 3)
    (mkFleet {["http://a.org/y"]} [] [] [] [] []) f' /\ ft_failed f' = [].
Proof.
  pose proof (@process_message_refines_fleet registry (gset string) unit five_pages exact_seen exact_seen_spec no_queue
    seed_item 3 message_shard [] [] [] [] I) as Hw.
  destruct (@process_message registry (gset string) (unit * list FrontierItem) five_pages exact_seen (logged no_queue)
    seed_item 3 message_shard) as [[r|e] s'] eqn:E; [|exfalso; vm_compute in E; discriminate E].
  destruct Hw as (f' & Hr & _ & _ & _ & _ & _ & Hf & _). exists f'. split; [exact Hr|exact Hf].
Defined.

Lemma process_message_expands_witness :
  exists s' new,
    @process_message registry (gset string) (unit * list FrontierItem) five_pages exact_seen (logged no_queue)
      seed_item 3 message_shard
    = (Ok (mkResult seed_item true true false None (page_links "http://a.org/") None), s') /\
    NoDup (fi_url <$> new) /\ snd (sh_queue s') = new.
Proof.
  destruct (@process_message_expands registry (gset string) unit five_pages exact_seen exact_seen_spec no_queue
    seed_item 3 message_shard (mkResult seed_item true true false None (page_links "http://a.org/") None) ∅ I
    (fun i q => ex_intro _ q eq_refl) eq_refl) as (s' & new & E & _ & El & _ & Hn & _).
  exists s', new. split; [exact E|]. split; [exact Hn|exact El].
Defined.

(** The URL is marked before it is enqueued: when the queue fails in between
    and the message is processed again, the child is taken for known and is
    lost, with the children after it only now enqueued. *)
Example enqueue_failure_loses_link :
  let first := @process_message registry (gset string) (unit * list FrontierItem) five_pages exact_seen
    (logged (refuses "http://a.org/x")) seed_item 3 message_shard in
  let again := @process_message registry (gset string) (unit * list FrontierItem) five_pages exact_seen
    (logged no_queue) seed_item 3 (snd first) in
  fst first = Raise (OtherError "KafkaTimeoutError") /\ is_ok (fst again) = true /\
  fi_url <$> snd (sh_queue (snd again)) = ["http://b.org/"; "http://a.org/"].
Proof. vm_compute. split_and!; reflexivity. Qed.
