(* ===== verification/Concurrent.v ===== *)
(** * Pages processed at the same time ([crawler/pipeline/], under [asyncio.gather])

    [Pipeline.process] and [process_message] as coroutines that give way at each
    of their awaits, over any page coroutine ([PageCoro]).  [run_process] and
    [run_process_message]: run alone they are [process] and [process_message].

    [gather_refines_fleet]: any schedule of a set of [process_message] calls is a
    schedule of [fleet_step]; [gather_enqueues_once]: what it enqueues. *)
From S2P Require Import Prelude Coro PyStr Config Models UrlUtils HtmlParser Bloom.
From S2P Require Import SimHash Dedup CircuitBreaker Budget Fetcher Storage.
From S2P Require Import ObjectStore Pipeline Engine Distributed.
From stdpp Require Import relations.
Local Open Scope Z_scope.

(** [pipeline.process] as a coroutine, and that it is the same call as the
    uninterrupted one. *)
Class PageCoro (Pi : Type) := page_coro : FrontierItem -> coro Pi ProcessResult.
Class PageAlone (Pi : Type) `{PageProcessor Pi, PageCoro Pi} :=
  run_page (item : FrontierItem) (pi : Pi) : run_coro (page_coro item) pi = process_item item pi.

(** Pages that do not give way. *)
Definition atomic_page {Pi : Type} `{PageProcessor Pi} : PageCoro Pi := fun item => await (process_item item).
Lemma atomic_alone {Pi : Type} `{PP : PageProcessor Pi} : @PageAlone Pi PP atomic_page.
Proof. intros item pi. apply run_await. Qed.

(** ** [Pipeline.process] *)
Section PipelineCoro.
Context {G F D B O S' : Type}.
Context `{UrlLib, Selectolax, TokenHash, Sha256}.
Context `{PolitenessGate G, Downloader F, ContentDedup D, DomainBudget B, ObjectStore O, DocumentSink S'}.
Abbreviation pipe := (Pipeline G F D B O S').

(** Asking the content index about a fingerprint, when there is one. *)
Definition ask_index (fingerprint : Z) : act pipe bool :=
  let! p := aget in
  match pl_content_dedup p with None => aret false | Some d => ask_dedup fingerprint d end.

(** The parsing of a page up to the question whether it is a duplicate, and the
    rest of it. *)
Definition parse_coro (canonical : string) (r : FetchResult) (record : PageRecord) :
    coro pipe (PageRecord * list Link * bool) :=
  if is_html r && truthy (fr_body r) then
    let> (parsed, asks) := await (
      let! parsed := alift (parse_page canonical (fr_body r)) in
      let! _ := count LINKS_EXTRACTED (Z.of_nat (length (pp_links parsed))) in
      let! p := aget in aret (parsed, bool_decide (is_Some (pl_content_dedup p)))) in
    if asks : bool then
      let fingerprint := simhash_text (extract_text (fr_body r)) 64 in
      let record := set_parsed record (pp_title parsed) (Some fingerprint) in
      let> dup := await (ask_index fingerprint) in
      if dup : bool then let> _ := await (count (DEDUP_SKIPPED "content") 1) in cret (record, [], true)
      else cret (record, pp_links parsed, false)
    else cret (set_parsed record (pp_title parsed) None, pp_links parsed, false)
  else cret (record, [], false).

(** A page that was fetched: what comes before the parsing, the parsing, the
    body, the record. *)
Definition page_stage_coro (item : FrontierItem) (result : FetchResult) : coro pipe ProcessResult :=
  let> (canonical, domain) := Return (
    let* n := normalize_url (Some (fr_final_url result)) None in
    let canonical := default (fi_url item) n in
    let* domain := registered_domain canonical in Ok (canonical, domain)) in
  let> (record, links, duplicate) := parse_coro canonical result (base_record item canonical domain result) in
  let> record := await (store_stage result record duplicate) in
  let record := set_links record links in
  let> _ := await (save_stage record) in
  cret (mkResult item true true duplicate None links (Some record)).

Definition after_fetch_coro (now : nat -> Q) (item : FrontierItem) (host : string) (result : FetchResult) : coro pipe ProcessResult :=
  let> _ := await (record_outcome host (fr_status result) (fr_error result) (now 1%nat)) in
  if bool_decide (is_Some (fr_error result)) then cret (skipped_result item "fetch_error")
  else if fr_status result =? 304 then
    let> _ := await (count NOT_MODIFIED 1) in
    cret (mkResult item true false false (Some "not_modified") [] None)
  else page_stage_coro item result.

Definition process_coro (now : nat -> Q) (item : FrontierItem) : coro pipe ProcessResult :=
  let> robots_ok := await (ask_robots (fi_url item)) in
  if negb robots_ok then
    let> _ := await (count ROBOTS_BLOCKED 1) in cret (skipped_result item "robots")
  else
  let> host := Return (host_of (fi_url item)) in
  let> breaker_ok := await (ask_breaker host (now 0%nat)) in
  if negb breaker_ok then
    let> _ := await (count CIRCUIT_OPEN_SKIPS 1) in cret (skipped_result item "circuit_open")
  else
  let> budget_ok := await (ask_budget (fi_url item)) in
  if negb budget_ok then cret (skipped_result item "budget_exhausted")
  else
  let> headers := await (conditional_headers (fi_url item)) in
  let> result := await (guarded_fetch (fi_url item) headers) in
  after_fetch_coro now item host result.

(** Statement by statement, the coroutine alone is the method. *)
Lemma alone_bind {A C} (c : coro pipe A) (m : act pipe A) (g : A -> coro pipe C) (k : A -> act pipe C) :
  (forall p, run_coro c p = m p) -> (forall a p, run_coro (g a) p = k a p) ->
  forall p, run_coro (cbind c g) p = abind m k p.
Proof.
  intros Hc Hg p. rewrite run_bind. unfold abind. rewrite Hc. destruct (m p) as [[a|e] p']; [apply Hg|done].
Qed.
Ltac alone := repeat first
  [ apply alone_bind; [intros; first [apply run_await|done]|intros] | apply run_await | done ].

Lemma run_parse canonical r record p : run_coro (parse_coro canonical r record) p = parse_stage canonical r record p.
Proof.
  unfold parse_coro, parse_stage. destruct (is_html r && truthy (fr_body r)); [|done].
  unfold abind, alift, aget, aret, count, amodify. cbn [cbind await run_coro fst snd].
  destruct (parse_page canonical (fr_body r)) as [parsed|e]; [|done]. cbn [fst snd pl_content_dedup with_fetcher].
  destruct (pl_content_dedup p) as [d|] eqn:Ed; [|done].
  cbn. unfold ask_index, abind, aget. cbn. rewrite Ed.
  destruct (ask_dedup _ d _) as [[[]|e] p']; done.
Qed.

Lemma run_page_stage item r p : run_coro (page_stage_coro item r) p = page_stage item r p.
Proof.
  unfold page_stage_coro, page_stage. rewrite run_bind. unfold abind at 1 2, alift at 1.
  destruct (normalize_url (Some (fr_final_url r)) None) as [n|e]; [|done]. cbn [rbind run_coro].
  unfold abind at 1, alift at 1. destruct (registered_domain (default (fi_url item) n)) as [domain|e]; [|done]. cbn [rbind].
  apply alone_bind; [apply run_parse|]. intros [[record links] duplicate]. alone.
Qed.

Lemma run_process now item p : run_coro (process_coro now item) p = process now item p.
Proof.
  unfold process_coro, process. revert p. apply alone_bind; [apply run_await|intros [] p]; cbn [negb]; [|by alone].
  revert p. apply alone_bind; [done|intros host]. apply alone_bind; [apply run_await|intros [] p]; cbn [negb]; [|by alone].
  revert p. apply alone_bind; [apply run_await|intros [] p]; cbn [negb]; [|done].
  revert p. apply alone_bind; [apply run_await|intros headers]. apply alone_bind; [apply run_await|intros r].
  unfold after_fetch_coro, after_fetch. apply alone_bind; [apply run_await|intros _ p].
  case_bool_decide; [done|]. destruct (fr_status r =? 304); [by alone|]. apply run_page_stage.
Qed.

(** Over the clock of [pipeline_processor]: a page takes the numbers of its two
    readings when it starts. *)
Variable clock : nat -> Q.
#[export] Instance pipeline_coro : PageCoro (nat * Pipeline G F D B O S') := fun item =>
  let> n := await (fun np => (Ok (fst np), (fst np + 2, snd np)%nat)) in
  czoom snd (fun np p => (fst np, p)) (process_coro (fun i => clock (n + i)%nat) item).
#[export] Instance pipeline_alone : @PageAlone (nat * Pipeline G F D B O S') (pipeline_processor clock) pipeline_coro.
Proof.
  intros item [n p]. unfold page_coro, pipeline_coro. rewrite run_bind. unfold abind. rewrite run_await. cbn [fst snd].
  rewrite run_zoom; [|by split; intros [] **|..]. cbn [snd fst]. rewrite run_process. cbn.
  by destruct (process _ item p) as [x p'].
Qed.
End PipelineCoro.

(** Pages processed at the same time over one database. *)
Section PipelineSafe.
Context {G F D B O : Type}.
Context `{UrlLib, Selectolax, TokenHash, Sha256}.
Context `{PolitenessGate G, Downloader F, ContentDedup D, DomainBudget B, ObjectStore O}.
Abbreviation pipe := (Pipeline G F D B O DB).
Abbreviation stored := (fun p : pipe => db_wf (pl_sink p)).

(** A call that does not touch the sink. *)
Lemma keeps_sink {A} (m : act pipe A) : (forall p, pl_sink (snd (m p)) = pl_sink p) -> keeps stored m.
Proof. intros Hm p Hp. by rewrite Hm. Qed.
Lemma count_keeps m n : keeps stored (count m n).
Proof. by apply keeps_modify. Qed.
Lemma robots_keeps url : keeps stored (ask_robots url).
Proof. apply keeps_sink. intros p. destruct (ask_robots_frame url p) as (b & p' & -> & [[Hs _] _] & _). exact Hs. Qed.
Lemma breaker_keeps host now : keeps stored (ask_breaker host now).
Proof. apply keeps_sink. intros p. destruct (ask_breaker_frame host now p) as (b & p' & -> & [[Hs _] _] & _). exact Hs. Qed.
Lemma budget_keeps url : keeps stored (ask_budget url).
Proof. apply keeps_sink. intros p. pose proof (ask_budget_frame url p) as Hf. destruct (ask_budget url p) as [x p']. apply Hf. Qed.
Lemma headers_keeps url : keeps stored (conditional_headers url).
Proof. by apply keeps_sink. Qed.
Lemma fetch_keeps url headers : keeps stored (guarded_fetch url headers).
Proof.
  apply keeps_sink. intros p. pose proof (guarded_fetch_frame url headers p) as Hf. destruct (guarded_fetch url headers p) as [x p']. apply Hf.
Qed.
Lemma outcome_keeps host status error now : keeps stored (record_outcome host status error now).
Proof. apply keeps_sink. intros p. destruct (record_outcome_frame host status error now p) as (p' & -> & [Hs _] & _). exact Hs. Qed.
Lemma index_keeps fp : keeps stored (ask_index fp).
Proof. unfold ask_index. keeps_auto. apply keeps_sink. intros p. unfold ask_dedup. by destruct (is_duplicate fp _) as [[b d']|e]. Qed.
Lemma body_keeps r rec dup : keeps stored (store_stage r rec dup).
Proof. apply keeps_sink. intros p. pose proof (store_stage_frame r rec dup p) as Hf. destruct (store_stage r rec dup p) as [x p']. apply Hf. Qed.
Lemma save_keeps rec : keeps stored (save_stage rec).
Proof. intros p Hp. cbn. by apply sql_save_page_wf. Qed.
#[local] Hint Resolve count_keeps robots_keeps breaker_keeps budget_keeps headers_keeps fetch_keeps outcome_keeps index_keeps
  body_keeps save_keeps : keeps.

Lemma process_csafe now item : csafe stored (process_coro now item).
Proof.
  unfold process_coro, after_fetch_coro, page_stage_coro, parse_coro. csafe_auto; keeps_auto.
Qed.

(** *** Which saves they do *)

(** [p'] has the tables of [p] after saving these records one after the other. *)
Definition saves (recs : list PageRecord) (p p' : pipe) : Prop :=
  pl_sink p' = fold_left (fun db rec => sql_save_page rec db) recs (pl_sink p).
Lemma saves_nil p : saves [] p p.
Proof. done. Qed.
Lemma saves_app l1 l2 p1 p2 p3 : saves l1 p1 p2 -> saves l2 p2 p3 -> saves (l1 ++ l2) p1 p3.
Proof. unfold saves. intros E1 E2. by rewrite fold_left_app, <- E1. Qed.

(** What a page answers, and the records it has saved by then: a URL that was
    skipped has saved nothing; a page that was stored has saved its record,
    which has the item's depth and crawl and the result's links; a page that
    raises has saved nothing. *)
Definition page_outcome (item : FrontierItem) (x : result ProcessResult) (saved : list PageRecord) : Prop :=
  match x with
  | Raise _ => saved = []
  | Ok r =>
      res_item r = item /\ saved = option_list (res_record r) /\
      match res_skipped r with
      | Some why =>
          why ∈ refusals ++ ["fetch_error"; "not_modified"] /\ res_fetched r = bool_decide (why = "not_modified") /\
          res_stored r = false /\ res_duplicate r = false /\ res_links r = [] /\ res_record r = None
      | None =>
          res_fetched r = true /\ res_stored r = true /\
          exists rec, res_record r = Some rec /\ pr_links rec = res_links r /\ pr_depth rec = fi_depth item /\
            pr_crawl_id rec = fi_crawl_id item /\ (res_duplicate r = true -> res_links r = [] /\ pr_storage_key rec = None)
      end
  end.

Abbreviation does := (performs saves (fun _ : pipe => True)).

(** An await of [process] that leaves the sink alone. *)
Lemma silent {A} (Q : result A -> list PageRecord -> Prop) out (m : act pipe A) :
  (forall p, pl_sink (snd (m p)) = pl_sink p) -> (forall p, Q (fst (m p)) out) -> does Q out (await m).
Proof. intros Hs HQ. apply performs_silent; [intros p _; split; [done|]; unfold saves; cbn; by rewrite Hs|auto]. Qed.

Lemma robots_sink url (p : pipe) : pl_sink (snd (ask_robots url p)) = pl_sink p.
Proof. destruct (ask_robots_frame url p) as (b & p' & -> & [[Hs _] _] & _). exact Hs. Qed.
Lemma breaker_sink host now (p : pipe) : pl_sink (snd (ask_breaker host now p)) = pl_sink p.
Proof. destruct (ask_breaker_frame host now p) as (b & p' & -> & [[Hs _] _] & _). exact Hs. Qed.
Lemma budget_sink url (p : pipe) : pl_sink (snd (ask_budget url p)) = pl_sink p.
Proof. pose proof (ask_budget_frame url p) as Hf. destruct (ask_budget url p) as [x p']. apply Hf. Qed.
Lemma fetch_sink url headers (p : pipe) : pl_sink (snd (guarded_fetch url headers p)) = pl_sink p.
Proof. pose proof (guarded_fetch_frame url headers p) as Hf. destruct (guarded_fetch url headers p) as [x p']. apply Hf. Qed.
Lemma outcome_sink host status error now (p : pipe) : pl_sink (snd (record_outcome host status error now p)) = pl_sink p.
Proof. destruct (record_outcome_frame host status error now p) as (p' & -> & [Hs _] & _). exact Hs. Qed.
Lemma index_sink fp (p : pipe) : pl_sink (snd (ask_index fp p)) = pl_sink p.
Proof.
  unfold ask_index, abind, aget. destruct (pl_content_dedup p) as [d|]; [|done]. unfold ask_dedup.
  by destruct (is_duplicate fp d) as [[b d']|e].
Qed.
Lemma body_sink r rec dup (p : pipe) : pl_sink (snd (store_stage r rec dup p)) = pl_sink p.
Proof. pose proof (store_stage_frame r rec dup p) as Hf. destruct (store_stage r rec dup p) as [x p']. apply Hf. Qed.
#[local] Hint Resolve robots_sink breaker_sink budget_sink fetch_sink outcome_sink index_sink body_sink : core.

(** The parsing saves nothing. *)
Lemma parse_does canonical r record :
  does (fun x out => out = [] /\ match x with
    | Ok (rec, links, dup) => (exists t sg, rec = set_parsed record t sg \/ rec = record) /\ (dup = true -> links = [])
    | Raise _ => True end) [] (parse_coro canonical r record).
Proof.
  unfold parse_coro. destruct (is_html r && truthy (fr_body r)).
  2:{ split; [done|]. split; [exists None, None; by right|done]. }
  apply performs_bind, silent.
  - intros p. unfold abind, alift, aget, aret, count, amodify. by destruct (parse_page canonical (fr_body r)).
  - intros p. set (x := fst _). assert (x = (let* parsed := parse_page canonical (fr_body r) in Ok (parsed, bool_decide (is_Some (pl_content_dedup p))))) as ->.
    { unfold x, abind, alift, aget, aret, count, amodify. by destruct (parse_page canonical (fr_body r)). }
    destruct (parse_page canonical (fr_body r)) as [parsed|e]; [|done]. cbn [rbind].
    case_bool_decide; [|split; [done|]; split; [eexists _, _; by left|done]].
    apply performs_bind, silent; [auto|]. intros q.
    destruct (fst (ask_index _ q)) as [[]|e]; [|split; [done|]; split; [eexists _, _; by left|done]|done].
    apply performs_bind, silent; [done|]. intros q'. split; [done|]. split; [eexists _, _; by left|done].
Qed.

Lemma page_stage_does item r : does (page_outcome item) [] (page_stage_coro item r).
Proof.
  unfold page_stage_coro. destruct (normalize_url (Some (fr_final_url r)) None) as [n|e]; [|done]. cbn [rbind].
  destruct (registered_domain (default (fi_url item) n)) as [domain|e]; [|done]. cbn [rbind cbind].
  apply performs_bind. eapply performs_mono; [|apply parse_does].
  intros [[[record links] dup]|e] out [-> Hx]; [|done]. destruct Hx as [(t & sg & Hrec) Hdup].
  apply performs_bind, silent; [auto|]. intros p. pose proof (store_stage_frame r record dup p) as Hst.
  destruct (store_stage r record dup p) as [[rec2|e] p']; [|done]. cbn [fst]. destruct Hst as (_ & _ & Hy). specialize (Hy _ eq_refl).
  apply performs_bind, performs_await. intros q _. split; [done|]. exists [set_links rec2 links]. split; [done|]. cbn.
  split; [done|]. split; [done|]. split; [done|]. split; [done|]. exists (set_links rec2 links). cbn.
  assert (pr_depth rec2 = fi_depth item /\ pr_crawl_id rec2 = fi_crawl_id item /\ (dup = true -> pr_storage_key rec2 = None)) as (Hd & Hc & Hk).
  { destruct Hrec as [-> | ->]; destruct Hy as [-> | [-> (k & ->)]]; done. }
  split_and!; auto.
Qed.

Lemma process_does now item : does (page_outcome item) [] (process_coro now item).
Proof.
  assert (forall why, why ∈ refusals ++ ["fetch_error"] -> page_outcome item (Ok (skipped_result item why)) []) as Hskip.
  { intros why Hw. cbn. split_and!; try done; [set_solver|]. rewrite bool_decide_eq_false_2; [done|]. intros ->. revert Hw. unfold refusals. set_solver. }
  unfold process_coro. apply performs_bind, silent; [auto|]. intros p. destruct (ask_robots_frame (fi_url item) p) as (b & p' & -> & _).
  cbn [fst]. destruct b; cbn [negb]; [|apply performs_bind, silent; [done|]; intros q; apply Hskip; unfold refusals; set_solver].
  destruct (host_of (fi_url item)) as [host|e]; [|done]. cbn [cbind].
  apply performs_bind, silent; [auto|]. intros q. destruct (ask_breaker_frame host (now 0%nat) q) as (b & q' & -> & _).
  cbn [fst]. destruct b; cbn [negb]; [|apply performs_bind, silent; [done|]; intros q2; apply Hskip; unfold refusals; set_solver].
  apply performs_bind, silent; [auto|]. intros q2. destruct (fst (ask_budget (fi_url item) q2)) as [[]|e]; cbn [negb];
    [|apply Hskip; unfold refusals; set_solver|done].
  apply performs_bind, silent; [done|]. intros q3. destruct (fst (conditional_headers (fi_url item) q3)) as [headers|e]; [|done].
  apply performs_bind, silent; [auto|]. intros q4. destruct (fst (guarded_fetch (fi_url item) headers q4)) as [r|e]; [|done].
  unfold after_fetch_coro. apply performs_bind, silent; [auto|]. intros q5.
  destruct (record_outcome_frame host (fr_status r) (fr_error r) (now 1%nat) q5) as (q5' & -> & _). cbn [fst].
  case_bool_decide; [apply Hskip; set_solver|]. destruct (fr_status r =? 304); [|apply page_stage_does].
  apply performs_bind, silent; [done|]. intros q6. cbn. split_and!; try done. unfold refusals. set_solver.
Qed.

(** C13: Any number of pages of a process, each giving way to the others at all
    its awaits, come out as if their records had been saved one after the
    other.  No schedule runs for ever; at every moment of every schedule the
    tables are well formed and are those of a sequence of saves, which has
    exactly one save, of its result's record, for each page that has returned
    a stored result, and none for one that was skipped or has raised; and a
    page that is still running has saved nothing but what it is about to
    return. *)
Theorem concurrent_pages_well_formed now items (p p' : pipe) ts : db_wf (pl_sink p) ->
  rtc turn (imap (fun i item => process_coro (now i) item) items, p) (ts, p') ->
  sn turn (ts, p') /\ db_wf (pl_sink p') /\
  exists (saved : list (list PageRecord)) recs,
    interleaves saved recs /\ saves recs p p' /\ length saved = length items /\ length ts = length items /\
    forall i item c, items !! i = Some item -> ts !! i = Some c -> exists out, saved !! i = Some out /\
      (exists x more, page_outcome item x (out ++ more)) /\ forall x, c = Return x -> page_outcome item x out.
Proof.
  intros Hp Hr. split; [apply turn_terminates|]. split.
  - apply (turn_invariant stored _ _ Hr); [|done].
    apply Forall_lookup. intros i c Hc. cbn [fst] in Hc. rewrite list_lookup_imap in Hc. destruct (items !! i); [|done].
    injection Hc as <-. apply process_csafe.
  - set (Q := fun i x out => forall item, items !! i = Some item -> page_outcome item x out).
    destruct (performed_turns saves (fun _ => True) saves_app Q p _ (ts, p') _ _
      (performed_start saves _ saves_nil Q (imap (fun i item => process_coro (now i) item) items) p I
        ltac:(intros i c Hc; rewrite list_lookup_imap in Hc; destruct (items !! i) as [item|] eqn:Ei; [|done]; injection Hc as <-;
              eapply performs_mono; [|apply process_does]; intros x out Ho item' E'; by simplify_eq)) Hr) as (saved & recs & Hd).
    exists saved, recs. pose proof (turn_length _ _ Hr) as Hl. cbn [fst] in Hl. rewrite length_imap in Hl.
    pose proof Hd as (_ & Hs & Hi & Hlen & _). cbn [fst snd] in *. split_and!; [done|done|lia|done|].
    intros i item c Ei Ec. destruct (performed_so_far _ _ _ _ _ _ _ _ i c Hd Ec) as (out & Ho & (x & more & Hq) & Hret).
    exists out. split; [done|]. split; [exists x, more; by apply Hq|]. intros y Ey. by apply (Hret y Ey).
Qed.
End PipelineSafe.

(** ** [process_message] *)
Section ProcessMessage.
Context {Pi St E : Type} `{PC : PageCoro Pi, US : UrlSeen St}.
Variable enqueue : FrontierItem -> act E unit.
Abbreviation shard := (Shard Pi St E).

Definition put_pipeline (s : shard) (pi : Pi) : shard := mkShard pi (sh_seen s) (sh_queue s).
Lemma pipeline_lens : lens (@sh_pipeline Pi St E) put_pipeline.
Proof. by split; [|intros []|]. Qed.

Fixpoint enqueue_new_coro (item : FrontierItem) (links : list Link) : coro shard unit :=
  match links with
  | [] => cret tt
  | link :: rest =>
      let> new := await (check_seen (link_url link)) in
      let> _ := (if new : bool then await (call_enqueue enqueue (child_item item link)) else cret tt) in
      enqueue_new_coro item rest
  end.
Definition expand_coro (item : FrontierItem) (max_depth : Z) (result : ProcessResult) : coro shard ProcessResult :=
  let> _ := (if expands item max_depth result then enqueue_new_coro item (res_links result) else cret tt) in
  cret result.
Definition process_message_coro (item : FrontierItem) (max_depth : Z) : coro shard ProcessResult :=
  let> result := czoom sh_pipeline put_pipeline (page_coro item) in
  expand_coro item max_depth result.

Lemma run_enqueue_new item links s : run_coro (enqueue_new_coro item links) s = enqueue_new enqueue item links s.
Proof.
  revert s. induction links as [|link links IH]; intros s; [done|]. cbn [enqueue_new_coro enqueue_new].
  rewrite run_bind. unfold abind at 1 2. rewrite run_await. destruct (check_seen _ s) as [[new|e] s']; [|done].
  rewrite run_bind. unfold abind. destruct new; [rewrite run_await|]; [|apply IH].
  destruct (call_enqueue _ _ s') as [[u|e] s2]; [apply IH|done].
Qed.
Lemma run_process_message `{PP : PageProcessor Pi, !PageAlone Pi} item max_depth s :
  run_coro (process_message_coro item max_depth) s = process_message enqueue item max_depth s.
Proof.
  unfold process_message_coro, process_message, expand_coro. rewrite run_bind. unfold abind at 1 2, call_pipeline.
  rewrite (run_zoom _ _ _ _ pipeline_lens), run_page.
  destruct (process_item item (sh_pipeline s)) as [[r|e] pi]; [|done].
  rewrite run_bind. unfold abind. fold (put_pipeline s pi). change (mkShard pi (sh_seen s) (sh_queue s)) with (put_pipeline s pi).
  destruct (expands item max_depth r); [|done]. rewrite run_enqueue_new.
  by destruct (enqueue_new _ _ _ _) as [[u|e] s'].
Qed.
End ProcessMessage.

(** ** A gather of [process_message] calls is a schedule of the fleet *)
Section GatherFleet.
Context {Pi St E : Type} `{PC : PageCoro Pi, US : UrlSeen St, !UrlSeenSpec St}.
Variable enqueue : FrontierItem -> act E unit.
Variable max_depth : Z.
Abbreviation shard := (Shard Pi St (E * list FrontierItem)).
Abbreviation log s := (snd (sh_queue s)).

(** The results a page coroutine may return, whatever happens between its awaits. *)
Definition page_answer (item : FrontierItem) (r : ProcessResult) : Prop := returns (Ok r) (page_coro item).
Abbreviation fstep := (fleet_step page_answer max_depth).
Abbreviation loop_coro := (enqueue_new_coro (logged enqueue)).

(** How far a call is, and its loop in the fleet ([None] before the page has
    answered and after an exception); [asked] has the children of its page. *)
Inductive stage (asked : list FrontierItem) (item : FrontierItem) : coro shard ProcessResult -> option task -> Prop :=
| stage_page f k : (forall r, returns r (Step f k) -> returns r (page_coro item)) ->
    stage asked item (let> r := czoom sh_pipeline put_pipeline (Step f k) in expand_coro (logged enqueue) item max_depth r) None
| stage_check r links : (forall c, c ∈ children item max_depth r -> c ∈ asked) ->
    stage asked item (let> _ := loop_coro item links in cret r) (Some (mkTask None (child_item item <$> links)))
| stage_send r link links : (forall c, c ∈ children item max_depth r -> c ∈ asked) ->
    stage asked item
      (let> _ := (let> _ := await (call_enqueue (logged enqueue) (child_item item link)) in loop_coro item links) in cret r)
      (Some (mkTask (Some (child_item item link)) (child_item item <$> links)))
| stage_raised e : stage asked item (Return (Raise e)) None.

Lemma stage_mono asked asked' item c ot : (forall x, x ∈ asked -> x ∈ asked') -> stage asked item c ot -> stage asked' item c ot.
Proof. intros Hm. destruct 1; constructor; auto. Qed.

(** The fleet has the call's loop next to [others], and agrees with the shard. *)
Record view (f : fleet St) (ot : option task) (others : list task) (s : shard) : Prop := {
  vw_tasks : ft_tasks f ≡ₚ option_list ot ++ others;
  vw_seen : ft_seen f = sh_seen s;
  vw_sent : ft_sent f = log s;
  vw_inv : seen_inv (sh_seen s) }.

(** What a turn of one call does to the fleet. *)
Definition advanced (item : FrontierItem) (f : fleet St) (others : list task) (s : shard) (c : coro shard ProcessResult) : Prop :=
  exists f' ot, rtc fstep f f' /\ stage (ft_asked f') item c ot /\ view f' ot others s /\
    (forall x, x ∈ ft_asked f -> x ∈ ft_asked f') /\ (ft_dropped f' = ft_dropped f \/ exists e, c = Return (Raise e)).

Lemma page_advances item f others s pc : view f None others s -> (forall r, returns r pc -> returns r (page_coro item)) ->
  advanced item f others s (let> r := czoom sh_pipeline put_pipeline pc in expand_coro (logged enqueue) item max_depth r).
Proof.
  intros [Ht Es El Hi] Hr. destruct pc as [[r|e]|g k].
  - destruct f as [sn ts asked sent fl dr]. cbn in *.
    exists (mkFleet sn (ts ++ [mkTask None (children item max_depth r)]) (asked ++ children item max_depth r) sent fl dr),
      (Some (mkTask None (children item max_depth r))).
    split; [apply rtc_once; constructor; apply Hr; constructor|]. split; [|split_and!].
    + unfold expand_coro, children. destruct (expands item max_depth r) eqn:Ex.
      * constructor. unfold children. rewrite Ex. cbn. set_solver.
      * apply (stage_check _ _ r []). unfold children. rewrite Ex. cbn. set_solver.
    + split; cbn; [|done..]. rewrite Ht. solve_Permutation.
    + cbn. set_solver.
    + by left.
  - exists f, None. split; [apply rtc_refl|]. split_and!; [constructor|by split|done|by left].
  - exists f, None. split; [apply rtc_refl|]. split_and!; [by constructor|by split|done|by left].
Qed.

(** A fleet's loop can be brought to any place. *)
Lemma task_split (ts others : list task) t : ts ≡ₚ t :: others -> exists t1 t2, ts = t1 ++ t :: t2 /\ t1 ++ t2 ≡ₚ others.
Proof.
  intros Hp. assert (t ∈ ts) as (t1 & t2 & ->)%list_elem_of_split by (rewrite Hp; by left).
  exists t1, t2. split; [done|]. apply (Permutation_cons_inv (a := t)). rewrite <- Hp. solve_Permutation.
Qed.

Lemma stage_turn item f others s ot g k : view f ot others s -> stage (ft_asked f) item (Step g k) ot ->
  advanced item f others (g s) (k s).
Proof.
  intros Hv Hst. remember (Step g k) as c eqn:Ec. destruct Hst as [g' k' Hr|r links Ha|r link links Ha|e]; [..|discriminate Ec].
  - cbn in Ec. injection Ec as <- <-. destruct Hv as [Ht Es El Hi].
    apply page_advances; [by split|]. intros r Hret. apply Hr. by econstructor.
  - destruct links as [|link links]; [discriminate Ec|]. cbn in Ec. injection Ec as <- <-.
    destruct Hv as [Ht Es El Hi]. destruct f as [sn ts asked sent fl dr]. cbn in *.
    destruct (task_split _ _ _ Ht) as (t1 & t2 & -> & Hp).
    destruct (seen_spec (link_url link) (sh_seen s) Hi) as (sn' & Ec & Hi' & _ & _).
    unfold check_seen. rewrite Ec. cbn [fst snd]. subst sn.
    destruct (negb (seen_member (sh_seen s) (link_url link))).
    + eexists _, (Some (mkTask (Some (child_item item link)) (child_item item <$> links))).
      split; [by apply rtc_once, (fleet_new page_answer max_depth (child_item item link))|].
      split_and!; [by apply stage_send| |done|by left]. split; cbn; [|done..]. rewrite <- Hp. solve_Permutation.
    + eexists _, (Some (mkTask None (child_item item <$> links))).
      split; [by apply rtc_once, (fleet_known page_answer max_depth (child_item item link))|].
      split_and!; [by apply stage_check| |done|by left]. split; cbn; [|done..]. rewrite <- Hp. solve_Permutation.
  - cbn in Ec. injection Ec as <- <-. destruct Hv as [Ht Es El Hi]. destruct f as [sn ts asked sent fl dr]. cbn in *.
    destruct (task_split _ _ _ Ht) as (t1 & t2 & -> & Hp). subst sn sent. rewrite call_logged.
    destruct (enqueue (child_item item link) (fst (sh_queue s))) as [[u|e] q]; cbn [fst snd].
    + eexists _, (Some (mkTask None (child_item item <$> links))). split; [apply rtc_once, fleet_sent|].
      split_and!; [by apply stage_check| |done|by left]. split; cbn; [|done..]. rewrite <- Hp. solve_Permutation.
    + eexists _, None. split; [apply rtc_once, fleet_failed|].
      split_and!; [apply stage_raised| |done|by right; eexists]. split; cbn; done.
Qed.

(** All calls with their loops in the fleet. *)
Definition tracks (items : list FrontierItem) (others : list task) (dr : list FrontierItem)
    (cfg : list (coro shard ProcessResult) * shard) (f : fleet St) : Prop :=
  exists ots : list (option task), length ots = length (fst cfg) /\ length (fst cfg) = length items /\
    (forall i item c ot, items !! i = Some item -> fst cfg !! i = Some c -> ots !! i = Some ot -> stage (ft_asked f) item c ot) /\
    view f None (omap id ots ++ others) (snd cfg) /\
    (ft_dropped f = dr \/ exists e, Return (Raise e) ∈ fst cfg).

Lemma omap_id_pick (ots : list (option task)) i ot : ots !! i = Some ot -> omap id ots ≡ₚ option_list ot ++ omap id (delete i ots).
Proof.
  intros Ho. rewrite (omap_Permutation id _ _ (delete_Permutation _ _ _ Ho)). by destruct ot.
Qed.

Lemma delete_insert_list {B} (l : list B) i x : delete i (<[i := x]> l) = delete i l.
Proof. revert i. induction l as [|y l IH]; intros [|i]; cbn; [done..|]. f_equal. apply IH. Qed.

Lemma tracks_turn items others dr cfg cfg' f : tracks items others dr cfg f -> turn cfg cfg' ->
  exists f', rtc fstep f f' /\ tracks items others dr cfg' f'.
Proof.
  intros (ots & Hlo & Hli & Hst & Hv & Hd) Ht. destruct Ht as [ts s i g k Eg]. cbn [fst snd] in *.
  pose proof (lookup_lt_Some _ _ _ Eg) as Hlt.
  destruct (lookup_lt_is_Some_2 ots i ltac:(lia)) as [ot Ho]. destruct (lookup_lt_is_Some_2 items i ltac:(lia)) as [item Hi].
  assert (view f ot (omap id (delete i ots) ++ others) s) as Hv'.
  { destruct Hv as [Hp ? ? ?]. split; [|done..]. rewrite Hp. cbn. by rewrite (omap_id_pick _ _ _ Ho), app_assoc. }
  destruct (stage_turn item f _ s ot g k Hv' (Hst _ _ _ _ Hi Eg Ho)) as (f' & ot' & Hr & Hs & [Hp' Es El Hiv] & Hm & Hdr).
  exists f'. split; [done|]. exists (<[i := ot']> ots). cbn [fst snd]. rewrite !length_insert. split_and!; [done|done| | |].
  - intros j item' c ot2 Hj Hc Ho2. destruct (decide (i = j)) as [<-|Hne].
    + rewrite list_lookup_insert_eq in Hc by lia. rewrite list_lookup_insert_eq in Ho2 by lia. by simplify_eq.
    + rewrite list_lookup_insert_ne in Hc by done. rewrite list_lookup_insert_ne in Ho2 by done. eapply stage_mono; [exact Hm|by eapply Hst].
  - split; [|done..]. rewrite Hp'. cbn. rewrite app_assoc. f_equiv.
    rewrite (omap_id_pick (<[i := ot']> ots) i ot') by (apply list_lookup_insert_eq; lia).
    by rewrite delete_insert_list.
  - destruct Hd as [Hd|(e & He)].
    + destruct Hdr as [->|(e & ->)]; [by left|right]. exists e. apply list_elem_of_insert. lia.
    + right. exists e. apply list_elem_of_lookup in He as (j & Hj). apply list_elem_of_lookup. exists j.
      rewrite list_lookup_insert_ne; [done|]. intros <-. congruence.
Qed.

Lemma tracks_start items others asked fl dr (s : shard) : seen_inv (sh_seen s) ->
  exists f, rtc fstep (mkFleet (sh_seen s) others asked (log s) fl dr) f /\
    tracks items others dr ((fun item => process_message_coro (logged enqueue) item max_depth) <$> items, s) f.
Proof.
  intros Hi. set (f0 := mkFleet _ _ _ _ _ _). assert (forall its1 its2 ots f, rtc fstep f0 f -> items = its1 ++ its2 ->
    length ots = length its1 ->
    (forall i item ot, its1 !! i = Some item -> ots !! i = Some ot ->
       stage (ft_asked f) item (process_message_coro (logged enqueue) item max_depth) ot) ->
    view f None (omap id ots ++ others) s -> ft_dropped f = dr \/ (exists item e, item ∈ its1 /\ process_message_coro (logged enqueue) item max_depth = (Return (Raise e) : coro shard _)) ->
    exists f', rtc fstep f0 f' /\ tracks items others dr ((fun item => process_message_coro (logged enqueue) item max_depth) <$> items, s) f') as Hgo.
  { intros its1 its2. revert its1. induction its2 as [|item its2 IH]; intros its1 ots f Hr Eits Hl Hst Hv Hd.
    - exists f. split; [done|]. rewrite app_nil_r in Eits. subst its1. exists ots. cbn [fst snd]. rewrite length_fmap.
      split_and!; [done|done| |done|].
      + intros i item c ot Hit Hc Ho. rewrite list_lookup_fmap, Hit in Hc. injection Hc as <-. by eapply Hst.
      + destruct Hd as [?|(item & e & Hin & Ec)]; [by left|right]. exists e. apply list_elem_of_fmap. by exists item.
    - destruct (page_advances item f (omap id ots ++ others) s (page_coro item)) as (f' & ot & Hr' & Hs & [Hp' ? ? ?] & Hm & Hd').
      { done. } { done. }
      apply (IH (its1 ++ [item]) (ots ++ [ot]) f').
      + by etrans.
      + by rewrite <- app_assoc.
      + rewrite !length_app. cbn. lia.
      + intros i it ot' Hit Hot. destruct (decide (i < length its1)%nat) as [Hlt|Hge].
        * rewrite lookup_app_l in Hit by lia. rewrite lookup_app_l in Hot by lia. eapply stage_mono; [exact Hm|by eapply Hst].
        * rewrite lookup_app_r in Hit by lia. rewrite lookup_app_r, Hl in Hot by lia.
          destruct (i - length its1)%nat; [|done]. cbn in Hit, Hot. by simplify_eq.
      + split; [|done..]. rewrite Hp'. rewrite omap_app. cbn. destruct ot; cbn; solve_Permutation.
      + destruct Hd as [<-|(it & e & Hin & Ec)].
        * destruct Hd' as [?|(e & Ec)]; [by left|right]. exists item, e. split; [set_solver|done].
        * right. exists it, e. split; [set_solver|done]. }
  apply (Hgo [] items [] f0); try done; by left.
Qed.

Abbreviation calls := (fmap (fun item => process_message_coro (logged enqueue) item max_depth)).

Lemma gather_tracks items others asked fl dr (s : shard) cfg : seen_inv (sh_seen s) -> rtc turn (calls items, s) cfg ->
  exists f, rtc fstep (mkFleet (sh_seen s) others asked (log s) fl dr) f /\ tracks items others dr cfg f.
Proof.
  intros Hi Hr. destruct (tracks_start items others asked fl dr s Hi) as (f0 & Hr0 & Ht0).
  set (x := (calls items, s)) in *. clearbody x. revert f0 Hr0 Ht0.
  induction Hr as [x|x y z Hxy _ IH]; intros f0 Hr0 Ht0; [by exists f0|].
  destruct (tracks_turn _ _ _ _ _ _ Ht0 Hxy) as (f1 & Hr1 & Ht1). apply (IH f1); [by etrans|done].
Qed.

Lemma stage_returned asked item r ot : stage asked item (cret r) ot ->
  ot = Some (mkTask None []) /\ forall c, c ∈ children item max_depth r -> c ∈ asked.
Proof.
  intros Hs. remember (cret r) as c eqn:Ec. destruct Hs as [g k Hr|r' [|link links] Ha|r' link links Ha|e]; try discriminate Ec.
  injection Ec as ->. done.
Qed.

(** When all calls have returned, the fleet has no work of theirs left. *)
Lemma tracks_done items others dr ts s f : tracks items others dr (ts, s) f -> Forall succeeded ts ->
  unchecked (ft_tasks f) ≡ₚ unchecked others /\ sending (ft_tasks f) ≡ₚ sending others /\ ft_dropped f = dr /\
  forall i item r, items !! i = Some item -> ts !! i = Some (cret r) -> forall c, c ∈ children item max_depth r -> c ∈ ft_asked f.
Proof.
  intros (ots & Hlo & Hli & Hst & [Hp _ _ _] & Hd) Hok. cbn [fst] in *.
  assert (Forall (fun ot => ot = Some (mkTask None [])) ots) as Hall.
  { apply Forall_lookup. intros i ot Ho. destruct (lookup_lt_is_Some_2 ts i) as [c Hc]; [rewrite <- Hlo; by eapply lookup_lt_Some|].
    destruct (lookup_lt_is_Some_2 items i) as [item Hi]; [rewrite <- Hli; by eapply lookup_lt_Some|].
    destruct (proj1 (Forall_lookup _ _) Hok i c Hc) as [r ->]. by apply (stage_returned (ft_asked f) item r ot), (Hst i). }
  assert (unchecked (omap id ots) = [] /\ sending (omap id ots) = []) as [Eu Es].
  { clear -Hall. by induction Hall as [|ot ots -> _ [IH1 IH2]]. }
  cbn in Hp. split_and!.
  - unfold unchecked in *. rewrite Hp, bind_app, Eu. done.
  - unfold sending in *. rewrite Hp, omap_app, Es. done.
  - destruct Hd as [?|(e & He)]; [done|]. apply list_elem_of_lookup in He as [i He].
    by destruct (proj1 (Forall_lookup _ _) Hok i _ He).
  - intros i item r Hi Hc. destruct (lookup_lt_is_Some_2 ots i) as [ot Ho]; [rewrite Hlo; by eapply lookup_lt_Some|].
    by apply (stage_returned (ft_asked f) item r ot), (Hst i).
Qed.

(** C7: Concurrent calls of [process_message] are a schedule of the fleet.
    Whatever the other workers have in progress, any interleaving of a set of
    calls over one shard, at all their awaits, takes the fleet to a state with
    the shard's seen-set and its enqueued URLs.  When all calls have returned,
    none of them has left a child behind, and the children of each page that
    was returned have been asked for. *)
Theorem gather_refines_fleet items others asked fl dr (s s' : shard) ts : seen_inv (sh_seen s) ->
  rtc turn (((fun item => process_message_coro (logged enqueue) item max_depth) <$> items), s) (ts, s') ->
  exists f, rtc fstep (mkFleet (sh_seen s) others asked (log s) fl dr) f /\
    ft_seen f = sh_seen s' /\ ft_sent f = log s' /\ seen_inv (sh_seen s') /\
    (Forall succeeded ts ->
       unchecked (ft_tasks f) ≡ₚ unchecked others /\ sending (ft_tasks f) ≡ₚ sending others /\ ft_dropped f = dr /\
       forall i item r, items !! i = Some item -> ts !! i = Some (cret r) ->
         forall c, c ∈ children item max_depth r -> c ∈ ft_asked f).
Proof.
  intros Hi Hr. destruct (gather_tracks items others asked fl dr s _ Hi Hr) as (f & Hf & Ht).
  exists f. split; [done|]. pose proof Ht as (ots & _ & _ & _ & [_ Es El Hi'] & _).
  split_and!; [done..|]. by eapply tracks_done.
Qed.

(** A batch enqueues every URL once.  Calls of [process_message] on any
    pages, over one seen-set and a queue that starts empty, end under every
    schedule; whenever the schedule is looked at, what has been enqueued has
    distinct URLs that the seen-set did not hold at the start; and when all
    calls have returned, every child of every page that was returned is in
    the seen-set. *)
Theorem gather_enqueues_once items (s : shard) : seen_inv (sh_seen s) -> log s = [] ->
  sn turn (((fun item => process_message_coro (logged enqueue) item max_depth) <$> items), s) /\
  forall ts s', rtc turn (((fun item => process_message_coro (logged enqueue) item max_depth) <$> items), s) (ts, s') ->
    NoDup (fi_url <$> log s') /\
    (forall c, c ∈ log s' -> seen_member (sh_seen s) (fi_url c) = false /\ seen_member (sh_seen s') (fi_url c) = true) /\
    (Forall succeeded ts -> forall i item r, items !! i = Some item -> ts !! i = Some (cret r) ->
       forall c, c ∈ children item max_depth r -> seen_member (sh_seen s') (fi_url c) = true).
Proof.
  intros Hi Hl. split; [apply turn_terminates|]. intros ts s' Hr.
  destruct (gather_tracks items [] [] [] [] s _ Hi Hr) as (f & Hf & Ht). rewrite Hl in Hf.
  destruct (fleet_reachable_inv page_answer max_depth (sh_seen s) f Hi Hf) as [_ _ Ho Hn Ha].
  pose proof Ht as (ots & _ & _ & _ & [_ Es El _] & _). cbn [snd] in *. unfold claimed in *. rewrite El, Es in *.
  split_and!.
  - rewrite fmap_app in Ho. by apply NoDup_app in Ho as [? _].
  - intros c Hc. rewrite Forall_forall in Hn. apply Hn. set_solver.
  - intros Hok i item r Hit Hc c Hch. destruct (tracks_done _ _ _ _ _ _ Ht Hok) as (Eu & _ & Ed & Hask).
    rewrite Forall_forall in Ha. destruct (Ha c (Hask i item r Hit Hc c Hch)) as [?|Hu]; [done|].
    rewrite Eu, Ed in Hu. by apply elem_of_nil in Hu.
Qed.

End GatherFleet.

(** ** Concrete instances *)

(** Two pages of a site with the same links, processed at the same time. *)
#[local] Instance five_coro : PageCoro registry := @atomic_page registry five_pages.
Definition two_calls : list (coro (Shard registry (gset string) (unit * list FrontierItem)) ProcessResult) :=
  (fun item => @process_message_coro registry (gset string) (unit * list FrontierItem) five_coro exact_seen (logged no_queue) item 3)
    <$> [seed_item; seed_item].

(** The first turns: both pages, then both ask about the first link. *)
Fixpoint resume_all {S A} (order : list nat) (cfg : list (coro S A) * S) : list (coro S A) * S :=
  match order with
  | [] => cfg
  | i :: order =>
      match fst cfg !! i with
      | Some (Step f k) => resume_all order (<[i := k (snd cfg)]> (fst cfg), f (snd cfg))
      | _ => resume_all order cfg
      end
  end.
Lemma resume_turns {S A} order (cfg : list (coro S A) * S) : rtc turn cfg (resume_all order cfg).
Proof.
  revert cfg. induction order as [|i order IH]; intros [ts s]; cbn; [apply rtc_refl|].
  destruct (ts !! i) as [[r|f k]|] eqn:Ei; [apply IH| |apply IH]. eapply rtc_l; [by apply turn_task|]. apply IH.
Qed.

(** Whoever asks first enqueues the link. *)
Example two_calls_share :
  let '(ts, s) := resume_all [0; 1; 1; 0; 1; 0; 1; 0; 1; 0; 1; 0; 1; 0; 1; 0]%nat (two_calls, message_shard) in
  (forall c, c ∈ ts -> exists r, c = Return (Ok r)) /\ fi_url <$> snd (sh_queue s) = ["http://a.org/x"; "http://b.org/"; "http://a.org/"].
Proof.
  vm_compute. split; [|reflexivity]. intros c Hc. repeat (apply elem_of_cons in Hc as [->|Hc]; [by eexists|]). by apply elem_of_nil in Hc.
Qed.

(** Two tasks with the page of a one-page server, in turns until both have
    returned: the one that asks the content index second is a duplicate. *)
Definition site_pages : list (coro site_pipeline ProcessResult) :=
  imap (fun i item => process_coro (H := identity_lib) (H0 := line_document) (H1 := length_hash) (H2 := plain_sha)
    (H3 := open_gate) (H4 := one_page []) (H5 := in_memory_dedup) (H6 := in_memory_budget) (H7 := @pg_store tagged_gzip)
    (H8 := sql_sink) fixed_clock item) [site_item; site_item].
Definition site_run : list (coro site_pipeline ProcessResult) * site_pipeline :=
  resume_all [0; 1; 1; 0; 0; 1; 1; 0; 1; 0; 0; 1; 1; 0; 1; 0; 1; 0; 1; 0; 1; 0; 1; 0; 1]%nat (site_pages, site).
Definition answer_of (c : coro site_pipeline ProcessResult) : option ProcessResult :=
  match c with Return (Ok r) => Some r | _ => None end.

Lemma concurrent_pages_well_formed_witness : db_wf (pl_sink (snd site_run)) /\
  exists saved recs, interleaves saved recs /\ saves recs site (snd site_run) /\
    forall i c r, fst site_run !! i = Some c -> answer_of c = Some r -> saved !! i = Some (option_list (res_record r)).
Proof.
  destruct (concurrent_pages_well_formed (H := identity_lib) (H0 := line_document) (H1 := length_hash) (H2 := plain_sha)
    (H3 := open_gate) (H4 := one_page []) (H5 := in_memory_dedup) (H6 := in_memory_budget) (H7 := @pg_store tagged_gzip)
    (fun _ => fixed_clock) [site_item; site_item] site (snd site_run) (fst site_run)) as (_ & Hwf & saved & recs & Hi & Hs & _ & Hl & Hall).
  - exact empty_db_wf.
  - rewrite <- surjective_pairing. exact (resume_turns _ (site_pages, site)).
  - split; [exact Hwf|]. exists saved, recs. split; [exact Hi|]. split; [exact Hs|]. intros i c r Ec Er.
    destruct c as [[r'|e]|f k]; [injection Er as ->|discriminate Er|discriminate Er].
    assert (i < 2)%nat as Hlt by (change 2%nat with (length [site_item; site_item]); rewrite <- Hl; exact (lookup_lt_Some _ _ _ Ec)).
    destruct (Hall i site_item (Return (Ok r))) as (out & Ho & _ & Hret); [destruct i as [|[|i]]; [reflexivity|reflexivity|lia]|exact Ec|].
    destruct (Hret (Ok r) eq_refl) as (_ & Eo & _). rewrite Ho, Eo. reflexivity.
Defined.
Example site_run_answers : (fun c => res_duplicate <$> answer_of c) <$> fst site_run = [Some true; Some false].
Proof. vm_compute. reflexivity. Qed.

Lemma gather_refines_fleet_witness : exists f,
  rtc (@fleet_step (gset string) exact_seen (@page_answer registry five_coro) 3) (mkFleet {["http://a.org/y"]} [] [] [] [] []) f /\
  ft_sent f = snd (sh_queue (snd (resume_all [0; 1; 1; 0]%nat (two_calls, message_shard)))).
Proof.
  destruct (@gather_refines_fleet registry (gset string) unit five_coro exact_seen exact_seen_spec no_queue 3 [seed_item; seed_item]
    [] [] [] [] message_shard (snd (resume_all [0; 1; 1; 0]%nat (two_calls, message_shard)))
    (fst (resume_all [0; 1; 1; 0]%nat (two_calls, message_shard))) I) as (f & Hf & _ & El & _).
  - rewrite <- surjective_pairing. apply resume_turns.
  - exists f. split; [exact Hf|exact El].
Defined.

Lemma gather_enqueues_once_witness : sn turn (two_calls, message_shard) /\
  NoDup (fi_url <$> snd (sh_queue (snd (resume_all [0; 1; 1; 0]%nat (two_calls, message_shard))))).
Proof.
  destruct (@gather_enqueues_once registry (gset string) unit five_coro exact_seen exact_seen_spec no_queue 3 [seed_item; seed_item]
    message_shard I eq_refl) as [Hsn Hg]. split; [exact Hsn|].
  refine (proj1 (Hg (fst (resume_all [0; 1; 1; 0]%nat (two_calls, message_shard))) _ _)).
  rewrite <- surjective_pairing. apply resume_turns.
Defined.
