(* ===== verification/Worker.v ===== *)
(** * The distributed worker ([crawler/worker.py])

    [CrawlWorker._handle] and [_schedule_retry] over any page processor, any
    URL-seen set and the Kafka frontier, and one turn of [run]'s loop on a
    batch.  A worker's state is the [Shard] of [Distributed], with the Kafka
    frontier (and the metrics it counts) as its queue; the clock is read once
    per message ([now]), and the time slept is added up.

    [worker_handles]: what is sent for each kind of message;
    [failing_message_reaches_dlq]: a URL that always fails is retried
    [max_retries] times and then lands on the dead-letter topic.
    [retry_before_backoff] and [poison_url_stops_worker] show two limits. *)
From S2P Require Import Prelude PyStr Config Models ConsistentHash UrlUtils Bloom Frontier Engine Distributed.
Local Open Scope Z_scope.

(** A message as it is consumed: the topic it came from and its bytes. *)
Record ConsumedMessage (bytes : Type) : Type := mkConsumed { msg_topic : string; msg_value : bytes }.
Arguments mkConsumed {bytes} _ _.
Arguments msg_topic {bytes} _.
Arguments msg_value {bytes} _.

(** [message.not_before = nb], [message.attempts += 1]. *)
Definition set_not_before (m : FrontierMessage) (nb : Q) : FrontierMessage :=
  mkMessage (fm_url m) (fm_depth m) (fm_crawl_id m) (fm_attempts m) nb.
Definition add_attempt (m : FrontierMessage) : FrontierMessage :=
  mkMessage (fm_url m) (fm_depth m) (fm_crawl_id m) (fm_attempts m + 1) (fm_not_before m).

(** [asyncio.sleep(min(delay, 5.0))] when there is a delay. *)
Definition retry_sleep (delay : Q) : Q := if Qltb 0 delay then py_min delay 5 else 0.
(** [min(2**attempts, 30)]. *)
Definition retry_backoff (attempts : Z) : Q := py_min (2 ^ attempts) 30.
Definition retried (now : Q) (m : FrontierMessage) : FrontierMessage :=
  set_not_before (add_attempt m) (now + retry_backoff (fm_attempts m + 1)).

Section Worker.
Context {Pi St P A bytes : Type}.
Context `{PP : PageProcessor Pi, US : UrlSeen St, K : Kafka P A bytes, J : Json bytes, UL : UrlLib}.
Variable hash : string -> Z.

(** The worker in its loop; [wk_commits] counts [consumer.commit()]. *)
Record CrawlWorker : Type := mkWorker {
  wk_settings : Settings; wk_shard : Shard Pi St (KafkaFrontier P * registry); wk_slept : Q; wk_commits : Z }.

Definition with_shard (w : CrawlWorker) (s : Shard Pi St (KafkaFrontier P * registry)) : CrawlWorker :=
  mkWorker (wk_settings w) s (wk_slept w) (wk_commits w).
Definition wk_frontier (w : CrawlWorker) : KafkaFrontier P := fst (sh_queue (wk_shard w)).

(** A call of the shared step, and of the frontier. *)
Definition on_shard {T} (m : act (Shard Pi St (KafkaFrontier P * registry)) T) : act CrawlWorker T := fun w =>
  let '(x, s) := m (wk_shard w) in (x, with_shard w s).
Definition on_frontier {T} (m : act (KafkaFrontier P * registry) T) : act CrawlWorker T :=
  on_shard (fun s => let '(x, q) := m (sh_queue s) in (x, mkShard (sh_pipeline s) (sh_seen s) q)).
Definition sleep (d : Q) : act CrawlWorker unit :=
  amodify (fun w => mkWorker (wk_settings w) (wk_shard w) (wk_slept w + d) (wk_commits w)).

(** [_schedule_retry]. *)
Definition schedule_retry (now : Q) (message : FrontierMessage) : act CrawlWorker unit :=
  let! w := aget in
  if max_retries (kafka (wk_settings w)) <=? fm_attempts message
  then on_frontier (send_dlq message)
  else on_frontier (send_retry (retried now message)).

(** [_handle]. *)
Definition handle (now : Q) (msg : ConsumedMessage bytes) : act CrawlWorker unit :=
  let! w := aget in
  match from_bytes (msg_value msg) with
  | Raise _ => aret tt
  | Ok message =>
      if bool_decide (msg_topic msg = t_retry (kf_topics (wk_frontier w))) then
        let! _ := sleep (retry_sleep (fm_not_before message - now)) in
        on_frontier (add_message hash (set_not_before message 0))
      else if max_depth (crawl (wk_settings w)) <? fm_depth message then aret tt
      else
        let! result := atry
          (let! item := alift (to_item message) in
           let! r := on_shard (process_message (kf_add hash) item (max_depth (crawl (wk_settings w)))) in
           aret (Some r))
          (fun _ => let! _ := schedule_retry now message in aret None) in
        match result with
        | Some r => if bool_decide (res_skipped r = Some "fetch_error") then schedule_retry now message else aret tt
        | None => aret tt
        end
  end.

(** [asyncio.gather] of a batch, the messages one after the other: the first
    exception leaves it. *)
Fixpoint handle_all (now : nat -> Q) (msgs : list (ConsumedMessage bytes)) : act CrawlWorker unit :=
  match msgs with
  | [] => aret tt
  | msg :: rest => let! _ := handle (now 0%nat) msg in handle_all (fun n => now (S n)) rest
  end.
(** One turn of the loop of [run]: the batch is committed when every message
    has been handled; an exception ends the worker. *)
Definition run_batch (now : nat -> Q) (msgs : list (ConsumedMessage bytes)) : act CrawlWorker unit :=
  match msgs with
  | [] => aret tt
  | _ =>
      let! _ := handle_all now msgs in
      amodify (fun w => mkWorker (wk_settings w) (wk_shard w) (wk_slept w) (wk_commits w + 1))
  end.

End Worker.
Arguments CrawlWorker : clear implicits.

(** ** The messages a worker sends *)

Lemma topics_distinct s : t_frontier (topic_names s) <> t_retry (topic_names s) /\
  t_dlq (topic_names s) <> t_retry (topic_names s) /\ t_dlq (topic_names s) <> t_frontier (topic_names s).
Proof. unfold topic_names. cbn. split_and!; intros E%append_inj_l; discriminate E. Qed.

Section Facts.
Context {Pi St P A bytes : Type}.
Context `{PP : PageProcessor Pi, US : UrlSeen St, K : Kafka P A bytes, J : Json bytes, UL : UrlLib}.
Context `{BL : !BrokerLog P A bytes, JL : !JsonLaws bytes}.
Variable hash : string -> Z.
Abbreviation worker := (CrawlWorker Pi St P).

Definition wk_log (w : worker) : list (string * bytes * string * option Z) :=
  match kf_producer (wk_frontier w) with Some p => sent_log p | None => [] end.

(** A started worker: its frontier has a producer and the topics of its settings. *)
Definition wk_ready (w : worker) : Prop :=
  is_Some (kf_producer (wk_frontier w)) /\ kf_topics (wk_frontier w) = topic_names (wk_settings w).

(** What handling a message never changes. *)
Definition same_worker (w w' : worker) : Prop :=
  wk_ready w' /\ wk_settings w' = wk_settings w /\ kf_ring (wk_frontier w') = kf_ring (wk_frontier w) /\
  sh_seen (wk_shard w') = sh_seen (wk_shard w).

Lemma same_worker_refl w : wk_ready w -> same_worker w w.
Proof. done. Qed.
Lemma same_worker_trans w1 w2 w3 : same_worker w1 w2 -> same_worker w2 w3 -> same_worker w1 w3.
Proof. unfold same_worker. intuition congruence. Qed.

(** A send on a ready worker. *)
Lemma send_logged topic v key part (w : worker) : wk_ready w ->
  exists w', on_frontier (send topic v key part) w = (Ok tt, w') /\ same_worker w w' /\
    wk_log w' = wk_log w ++ [(topic, v, key, part)] /\ sh_pipeline (wk_shard w') = sh_pipeline (wk_shard w) /\
    wk_slept w' = wk_slept w.
Proof.
  intros [[p Ep] Et]. destruct w as [s [pi sn [f reg]] slept commits]. unfold wk_frontier in *. cbn in *.
  unfold on_frontier, on_shard, send, wk_log, same_worker, wk_ready, wk_frontier. cbn. rewrite Ep.
  destruct (send_logs topic v key part p) as (p' & Es & El). rewrite Es.
  eexists. split; [done|]. cbn. split_and!; [by eexists|done..].
Qed.

Lemma schedule_retry_logged now m d (w : worker) : wk_ready w -> message_domain m = Ok d ->
  exists w', schedule_retry now m w = (Ok tt, w') /\ same_worker w w' /\
    sh_pipeline (wk_shard w') = sh_pipeline (wk_shard w) /\
    wk_log w' = wk_log w ++
      [if max_retries (kafka (wk_settings w)) <=? fm_attempts m
       then (t_dlq (topic_names (wk_settings w)), to_bytes m, d, None)
       else (t_retry (topic_names (wk_settings w)), to_bytes (retried now m), d, None)].
Proof.
  intros Hr Hd. pose proof Hr as [_ Et]. unfold schedule_retry, abind at 1, aget.
  destruct (max_retries _ <=? fm_attempts m).
  - destruct (send_logged (t_dlq (topic_names (wk_settings w))) (to_bytes m) d None w Hr) as (w' & E & Hs & Hl & Hp & _).
    exists w'. split_and!; try done. rewrite <- E, <- Et. unfold on_frontier, on_shard, send_dlq, abind, alift, aget.
    rewrite Hd. unfold wk_frontier. by destruct (sh_queue (wk_shard w)).
  - destruct (send_logged (t_retry (topic_names (wk_settings w))) (to_bytes (retried now m)) d None w Hr)
      as (w' & E & Hs & Hl & Hp & _).
    exists w'. split_and!; try done. rewrite <- E, <- Et. unfold on_frontier, on_shard, send_retry, abind, alift, aget.
    replace (message_domain (retried now m)) with (Ok d) by done. unfold wk_frontier. by destruct (sh_queue (wk_shard w)).
Qed.

Lemma add_message_logged m d part (w : worker) : wk_ready w -> message_domain m = Ok d ->
  partition_for hash d (wk_frontier w) = Ok part ->
  exists w', on_frontier (add_message hash m) w = (Ok tt, w') /\ same_worker w w' /\
    sh_pipeline (wk_shard w') = sh_pipeline (wk_shard w) /\ wk_slept w' = wk_slept w /\
    wk_log w' = wk_log w ++ [(t_frontier (topic_names (wk_settings w)), to_bytes m, d, Some part)].
Proof.
  intros [[p Ep] Et] Hd Hp. destruct w as [s [pi sn [f reg]] slept commits]. unfold wk_frontier in *. cbn in *.
  unfold on_frontier, on_shard, add_message, abind, alift, require_producer, aget. cbn. rewrite Hd, Ep. cbn. rewrite Hp.
  unfold send. rewrite Ep.
  destruct (send_logs (t_frontier (kf_topics f)) (to_bytes m) d (Some part) p) as (p' & Es & El). rewrite Es.
  eexists. split; [done|]. unfold same_worker, wk_ready, wk_log, wk_frontier. cbn. rewrite Ep.
  split_and!; [by eexists|done..|by rewrite El, Et].
Qed.

(** Every attempt at the page of a message fails. *)
Definition page_fails (m : FrontierMessage) : Prop := forall item pi, to_item m = Ok item ->
  match process_item item pi with
  | (Ok r, _) => r = skipped_result item "fetch_error"
  | (Raise _, _) => True
  end.

Lemma failing_page now m d msg (w : worker) :
  wk_ready w -> message_domain m = Ok d -> page_fails m -> from_bytes (msg_value msg) = Ok m ->
  msg_topic msg <> t_retry (topic_names (wk_settings w)) -> fm_depth m <= max_depth (crawl (wk_settings w)) ->
  exists w', handle hash now msg w = (Ok tt, w') /\ same_worker w w' /\
    wk_log w' = wk_log w ++
      [if max_retries (kafka (wk_settings w)) <=? fm_attempts m
       then (t_dlq (topic_names (wk_settings w)), to_bytes m, d, None)
       else (t_retry (topic_names (wk_settings w)), to_bytes (retried now m), d, None)].
Proof.
  intros Hr Hd Hf Em Ht Hdep. pose proof Hr as [Hp Et]. unfold handle, abind at 1, aget. rewrite Em, Et.
  rewrite bool_decide_eq_false_2 by done. destruct (Z.ltb_spec (max_depth (crawl (wk_settings w))) (fm_depth m)); [lia|].
  unfold abind at 1, atry, abind at 1, alift. destruct (to_item m) as [item|e] eqn:Ei.
  - unfold abind at 1, on_shard, process_message, abind at 1, call_pipeline.
    pose proof (Hf item (sh_pipeline (wk_shard w)) Ei) as Hres.
    destruct (process_item item (sh_pipeline (wk_shard w))) as [[r|e] pi].
    + subst r. cbn [expands skipped_result res_fetched res_skipped andb]. unfold abind, aret.
      change (bool_decide (Some "fetch_error" = Some "fetch_error")) with true. cbn iota.
      destruct (schedule_retry_logged now m d (with_shard w (mkShard pi (sh_seen (wk_shard w)) (sh_queue (wk_shard w)))) Hr Hd)
        as (w' & E & Hs & _ & Hl).
      by exists w'.
    + destruct (schedule_retry_logged now m d (with_shard w (mkShard pi (sh_seen (wk_shard w)) (sh_queue (wk_shard w)))) Hr Hd)
        as (w' & E & Hs & _ & Hl).
      unfold abind. rewrite E. by exists w'.
  - destruct (schedule_retry_logged now m d w Hr Hd) as (w' & E & Hs & _ & Hl). unfold abind. rewrite E. by exists w'.
Qed.

Lemma retry_message now m d part msg (w : worker) :
  wk_ready w -> message_domain m = Ok d -> partition_for hash d (wk_frontier w) = Ok part ->
  from_bytes (msg_value msg) = Ok m -> msg_topic msg = t_retry (topic_names (wk_settings w)) ->
  exists w', handle hash now msg w = (Ok tt, w') /\ same_worker w w' /\
    sh_pipeline (wk_shard w') = sh_pipeline (wk_shard w) /\
    wk_slept w' = (wk_slept w + retry_sleep (fm_not_before m - now))%Q /\
    wk_log w' = wk_log w ++ [(t_frontier (topic_names (wk_settings w)), to_bytes (set_not_before m 0), d, Some part)].
Proof.
  intros Hr Hd Hp Em Ht. pose proof Hr as [_ Et]. unfold handle, abind at 1, aget. rewrite Em, Et, Ht.
  rewrite bool_decide_eq_true_2 by done. unfold abind, sleep, amodify.
  apply (add_message_logged (set_not_before m 0) d part
    (mkWorker (wk_settings w) (wk_shard w) (wk_slept w + retry_sleep (fm_not_before m - now)) (wk_commits w)) Hr Hd Hp).
Qed.

(** What a worker does with each kind of message, when the broker accepts
    what it sends.  An undecodable message, and one beyond [max_depth], is
    passed over; a message of the retry topic is put back on its domain's
    partition of the frontier topic with its attempts kept, after a sleep of
    at most five seconds; a message whose page fails is sent on exactly once:
    to the dead-letter topic, unchanged, when its attempts are used up, and
    otherwise to the retry topic with one more attempt and the exponential
    back-off.  None of these raises, so the batch can be committed. *)
Theorem worker_handles now m d part topic v (w : worker) :
  wk_ready w -> message_domain m = Ok d -> partition_for hash d (wk_frontier w) = Ok part ->
  (is_ok (from_bytes v) = false -> handle hash now (mkConsumed topic v) w = (Ok tt, w)) /\
  (exists w', handle hash now (mkConsumed (t_retry (topic_names (wk_settings w))) (to_bytes m)) w = (Ok tt, w') /\
     sh_pipeline (wk_shard w') = sh_pipeline (wk_shard w) /\
     (wk_slept w <= wk_slept w' <= wk_slept w + 5)%Q /\
     wk_log w' = wk_log w ++
       [(t_frontier (topic_names (wk_settings w)), to_bytes (set_not_before m 0), d, Some part)]) /\
  (topic <> t_retry (topic_names (wk_settings w)) -> max_depth (crawl (wk_settings w)) < fm_depth m ->
     handle hash now (mkConsumed topic (to_bytes m)) w = (Ok tt, w)) /\
  (topic <> t_retry (topic_names (wk_settings w)) -> fm_depth m <= max_depth (crawl (wk_settings w)) -> page_fails m ->
     exists w', handle hash now (mkConsumed topic (to_bytes m)) w = (Ok tt, w') /\
       wk_log w' = wk_log w ++
         [if max_retries (kafka (wk_settings w)) <=? fm_attempts m
          then (t_dlq (topic_names (wk_settings w)), to_bytes m, d, None)
          else (t_retry (topic_names (wk_settings w)), to_bytes (retried now m), d, None)]).
Proof.
  intros Hr Hd Hp. pose proof (from_to_bytes m) as Em. split_and!.
  - intros Ev. unfold handle, abind, aget. cbn [msg_value]. by destruct (from_bytes v).
  - destruct (retry_message now m d part (mkConsumed (t_retry (topic_names (wk_settings w))) (to_bytes m)) w Hr Hd Hp Em eq_refl)
      as (w' & E & _ & Hpi & Hsl & Hl). exists w'. split_and!; try done; rewrite Hsl; unfold retry_sleep, py_min; qcases; lra.
  - intros Ht Hdep. unfold handle, abind, aget. cbn [msg_value msg_topic]. pose proof Hr as [_ ->]. rewrite Em.
    rewrite bool_decide_eq_false_2 by done. by destruct (Z.ltb_spec (max_depth (crawl (wk_settings w))) (fm_depth m)); [|lia].
  - intros Ht Hdep Hf. destruct (failing_page now m d (mkConsumed topic (to_bytes m)) w Hr Hd Hf Em Ht Hdep)
      as (w' & E & _ & Hl). by exists w'.
Qed.

(** ** The life of a failing URL *)

(** The worker consumes the last message it sent. *)
Definition relay (now : Q) (w : worker) : worker :=
  match last (wk_log w) with
  | Some (topic, v, _, _) =>
      if bool_decide (topic = t_frontier (topic_names (wk_settings w)) \/ topic = t_retry (topic_names (wk_settings w)))
      then snd (handle hash now (mkConsumed topic v) w) else w
  | None => w
  end.
Fixpoint relays (n : nat) (now : nat -> Q) (w : worker) : worker :=
  match n with O => w | S n => relays n (fun i => now (S i)) (relay (now 0%nat) w) end.

Lemma relay_frontier now m d part (w : worker) : wk_ready w -> message_domain m = Ok d -> page_fails m ->
  last (wk_log w) = Some (t_frontier (topic_names (wk_settings w)), to_bytes m, d, part) ->
  fm_depth m <= max_depth (crawl (wk_settings w)) ->
  same_worker w (relay now w) /\
  wk_log (relay now w) = wk_log w ++
    [if max_retries (kafka (wk_settings w)) <=? fm_attempts m
     then (t_dlq (topic_names (wk_settings w)), to_bytes m, d, None)
     else (t_retry (topic_names (wk_settings w)), to_bytes (retried now m), d, None)].
Proof.
  intros Hr Hd Hf Hl Hdep. unfold relay. rewrite Hl, bool_decide_eq_true_2 by by left.
  destruct (failing_page now m d (mkConsumed (t_frontier (topic_names (wk_settings w))) (to_bytes m)) w Hr Hd Hf)
    as (w' & -> & ? & ?); [apply from_to_bytes|apply topics_distinct|done|done].
Qed.

Lemma relay_retry now m d part pt (w : worker) : wk_ready w -> message_domain m = Ok d ->
  partition_for hash d (wk_frontier w) = Ok part ->
  last (wk_log w) = Some (t_retry (topic_names (wk_settings w)), to_bytes m, d, pt) ->
  same_worker w (relay now w) /\
  wk_log (relay now w) = wk_log w ++
    [(t_frontier (topic_names (wk_settings w)), to_bytes (set_not_before m 0), d, Some part)].
Proof.
  intros Hr Hd Hp Hl. unfold relay. rewrite Hl, bool_decide_eq_true_2 by by right.
  destruct (retry_message now m d part (mkConsumed (t_retry (topic_names (wk_settings w))) (to_bytes m)) w Hr Hd Hp)
    as (w' & -> & ? & _ & _ & ?); [apply from_to_bytes|done|done].
Qed.

Lemma partition_for_ring d (f f' : KafkaFrontier P) : kf_ring f' = kf_ring f -> partition_for hash d f' = partition_for hash d f.
Proof. unfold partition_for. by intros ->. Qed.

(** C10: retries are bounded and end on the dead-letter topic.  A URL whose page
    fails every time, taken from the frontier topic with [k] attempts left,
    is consumed [2 k + 1] times (frontier, retry, frontier, ...) and each
    time sent on once; the last message is its own on the dead-letter topic,
    with [max_retries] attempts, which no worker consumes. *)
Theorem failing_message_reaches_dlq k m d part pt now (w : worker) :
  wk_ready w -> message_domain m = Ok d -> partition_for hash d (wk_frontier w) = Ok part -> page_fails m ->
  fm_depth m <= max_depth (crawl (wk_settings w)) ->
  fm_attempts m + Z.of_nat k = max_retries (kafka (wk_settings w)) ->
  last (wk_log w) = Some (t_frontier (topic_names (wk_settings w)), to_bytes m, d, pt) ->
  let w' := relays (2 * k + 1) now w in
  exists sent nb, wk_log w' = wk_log w ++ sent /\ length sent = (2 * k + 1)%nat /\
    last sent = Some (t_dlq (topic_names (wk_settings w)),
      to_bytes (mkMessage (fm_url m) (fm_depth m) (fm_crawl_id m) (max_retries (kafka (wk_settings w))) nb), d, None) /\
    relay 0 w' = w'.
Proof.
  revert m pt now w. induction k as [|k IH]; intros m pt now w Hr Hd Hp Hf Hdep Ha Hl.
  - cbn [Nat.mul Nat.add relays].
    destruct (relay_frontier (now 0%nat) m d pt w Hr Hd Hf Hl Hdep) as [(_ & Es & _) Hlog].
    destruct (Z.leb_spec (max_retries (kafka (wk_settings w))) (fm_attempts m)); [|lia].
    eexists _, (fm_not_before m). split; [exact Hlog|]. split; [done|].
    assert (fm_attempts m = max_retries (kafka (wk_settings w))) as Ha' by lia. split.
    + rewrite <- Ha'. by destruct m.
    + unfold relay at 1. rewrite Hlog, last_snoc, Es. rewrite bool_decide_eq_false_2; [done|].
      intros [E|E]; by apply topics_distinct in E.
  - replace (2 * S k + 1)%nat with (S (S (2 * k + 1))) by lia. cbn [relays].
    destruct (relay_frontier (now 0%nat) m d pt w Hr Hd Hf Hl Hdep) as [Hs1 Hlog1].
    set (w1 := relay (now 0%nat) w) in *. destruct (Z.leb_spec (max_retries (kafka (wk_settings w))) (fm_attempts m)); [lia|].
    pose proof Hs1 as (Hr1 & Es1 & Er1 & _).
    destruct (relay_retry (now 1%nat) (retried (now 0%nat) m) d part None w1 Hr1 Hd) as [Hs2 Hlog2].
    { by rewrite (partition_for_ring d _ _ Er1). } { by rewrite Hlog1, last_snoc, Es1. }
    set (w2 := relay (now 1%nat) w1) in *. pose proof (same_worker_trans _ _ _ Hs1 Hs2) as (Hr2 & Es2 & Er2 & _).
    rewrite Es1 in Hlog2.
    destruct (IH (set_not_before (retried (now 0%nat) m) 0) (Some part) (fun i => now (S (S i))) w2)
      as (sent & nb & E & Hlen & Hlast & Hstop); try done.
    { by rewrite (partition_for_ring d _ _ Er2). } { by rewrite Es2. } { rewrite Es2. cbn. lia. }
    { by rewrite Hlog2, last_snoc, Es2. }
    rewrite Es2 in *.
    eexists _, nb. split; [|split; [|split; [|exact Hstop]]].
    + rewrite E, Hlog2, Hlog1, <- !app_assoc. reflexivity.
    + rewrite !length_app, Hlen. cbn. lia.
    + rewrite !last_app, Hlast. done.
Qed.

End Facts.

(** ** Concrete instances *)

(** A site that never answers, and a worker with one message of it in the log. *)
Definition dead_site : PageProcessor unit := {|
  process_item := fun item pi =>
    match @host_of identity_lib (fi_url item) with
    | Ok _ => (Ok (skipped_result item "fetch_error"), pi)
    | Raise e => (Raise e, pi)
    end;
  on_registry := fun _ pi => pi |}.

Definition dead_message (url : string) (attempts : Z) (not_before : Q) : FrontierMessage :=
  mkMessage (JStr url) 1 JNull attempts not_before.
Definition frontier_topic : string := "crawler.frontier".
Definition worker_of (msgs : list FrontierMessage) : CrawlWorker unit (gset string) (list sent) :=
  mkWorker two_partitions
    (mkShard tt ∅ (set_producer demo_frontier
       (Some ((fun m => mkSent frontier_topic (asdict m) "a.org" (Some 0)) <$> msgs)), ∅)) 0 0.
Definition site_handle (now : Q) (msg : ConsumedMessage json) : act (CrawlWorker unit (gset string) (list sent)) unit :=
  @handle unit (gset string) (list sent) (list string) json dead_site exact_seen log_kafka json_bytes identity_lib
    partition_hash now msg.

Lemma dead_site_fails url attempts nb : @page_fails unit dead_site (dead_message url attempts nb).
Proof. intros item pi _. cbn. by destruct (@host_of identity_lib (fi_url item)). Qed.

Lemma worker_handles_witness :
  let w := worker_of [] in
  site_handle 0 (mkConsumed frontier_topic (JStr "not a message")) w = (Ok tt, w) /\
  exists w', site_handle 0 (mkConsumed frontier_topic (asdict (dead_message "http://a.org/" 0 0))) w = (Ok tt, w') /\
    length (@wk_log unit (gset string) (list sent) (list string) json log_kafka log_kafka_log w') = 1%nat.
Proof.
  cbv zeta.
  destruct (@worker_handles unit (gset string) (list sent) (list string) json dead_site exact_seen log_kafka json_bytes
    identity_lib log_kafka_log json_bytes_laws partition_hash 0%Q (dead_message "http://a.org/" 0 0) "a.org" 1
    frontier_topic (JStr "not a message") (worker_of [])) as (H1 & _ & _ & H4).
  - split; [exists []; reflexivity|vm_compute; reflexivity].
  - vm_compute. reflexivity.
  - vm_compute. reflexivity.
  - split; [exact (H1 eq_refl)|].
    destruct (H4 ltac:(vm_compute; discriminate) ltac:(vm_compute; discriminate) (dead_site_fails _ _ _)) as (w' & E & Hl).
    exists w'. split; [exact E|]. rewrite Hl. vm_compute. reflexivity.
Defined.

Lemma failing_message_reaches_dlq_witness :
  let w := worker_of [dead_message "http://a.org/" 1 0] in
  exists records nb, @wk_log unit (gset string) (list sent) (list string) json log_kafka log_kafka_log
      (@relays unit (gset string) (list sent) (list string) json dead_site exact_seen log_kafka json_bytes identity_lib
         log_kafka_log partition_hash 5 (fun _ => 0%Q) w)
    = @wk_log unit (gset string) (list sent) (list string) json log_kafka log_kafka_log w ++ records /\
    length records = 5%nat /\
    last records = Some ("crawler.dlq", asdict (dead_message "http://a.org/" 3 nb), "a.org", None).
Proof.
  cbv zeta.
  destruct (@failing_message_reaches_dlq unit (gset string) (list sent) (list string) json dead_site exact_seen log_kafka
    json_bytes identity_lib log_kafka_log json_bytes_laws partition_hash 2 (dead_message "http://a.org/" 1 0) "a.org" 1
    (Some 0) (fun _ => 0%Q) (worker_of [dead_message "http://a.org/" 1 0])) as (s & nb & E & Hn & Hl & _).
  - split; [eexists; reflexivity|vm_compute; reflexivity].
  - vm_compute. reflexivity.
  - vm_compute. reflexivity.
  - exact (dead_site_fails _ _ _).
  - vm_compute. discriminate.
  - vm_compute. reflexivity.
  - vm_compute. reflexivity.
  - exists s, nb. split; [exact E|]. split; [exact Hn|exact Hl].
Defined.

(** A message whose back-off has another hundred seconds to go is back on the
    frontier topic after five. *)
Example retry_before_backoff :
  let '(r, w) := site_handle 0 (mkConsumed "crawler.retry" (asdict (dead_message "http://a.org/" 3 100))) (worker_of []) in
  r = Ok tt /\ wk_slept w = 5%Q /\
  (kf_producer (wk_frontier w) ≫= last) =
    Some (mkSent frontier_topic (asdict (dead_message "http://a.org/" 3 0)) "a.org" (Some 1)).
Proof. vm_compute. split_and!; reflexivity. Qed.

(** A URL that cannot be split ends the worker: scheduling its retry raises as
    well, so the batch is not committed, the message never reaches the
    dead-letter topic, and the next worker is given the same batch. *)
Example poison_url_stops_worker :
  let '(r, w) := @run_batch unit (gset string) (list sent) (list string) json dead_site exact_seen log_kafka json_bytes
    identity_lib partition_hash (fun _ => 0%Q)
    [mkConsumed frontier_topic (asdict (dead_message "http://[bad" 0 0))] (worker_of []) in
  r = Raise ValueError /\ wk_commits w = 0 /\ kf_producer (wk_frontier w) = Some [].
Proof. vm_compute. split_and!; reflexivity. Qed.
