(* ===== verification/WorkerRun.v ===== *)
(** * The life of a worker ([CrawlWorker.run])

    The start-up (topics, frontier, consumer), the wiring of the pipeline over
    the shared Redis, the loop over the batches the consumer returns until a
    stop is requested, and the shutdown.  [run_loop] is the loop on the batches
    one worker gets, with the messages of a batch handled one after the other
    ([Batch] has every interleaving); the consumer's own calls are [Consumer], a
    parameter.

    [worker_commits_handled]: at-least-once delivery; [worker_shuts_down]: what
    every run leaves behind. *)
From S2P Require Import Prelude PyStr Config Models UrlUtils HtmlParser Bloom.
From S2P Require Import SimHash Dedup CircuitBreaker Budget Backpressure Frontier Robots Fetcher Storage.
From S2P Require Import ObjectStore Sessions Pipeline Factory Engine LocalCrawl Distributed Worker.
Local Open Scope Z_scope.

(** [AIOKafkaConsumer(...)], with how its start and stop end; [cn_batches] is
    what [getmany] returns until the stop event is set. *)
Record ConsumerConfig : Type := mkConsumer {
  cn_topics : list string; cn_servers : string; cn_group : string; cn_auto_commit : bool; cn_offset_reset : string }.
Definition consumer_config (s : Settings) (topics : Topics) : ConsumerConfig :=
  mkConsumer [t_frontier topics; t_retry topics] (bootstrap_servers (kafka s)) (consumer_group (kafka s)) false "earliest".
Class Consumer (bytes : Type) := {
  consumer_start : ConsumerConfig -> result unit;
  consumer_stop : ConsumerConfig -> result unit;
  cn_batches : list (list (ConsumedMessage bytes)) }.

Section Loop.
Context {Pi St P A bytes : Type}.
Context `{PP : PageProcessor Pi, US : UrlSeen St, K : Kafka P A bytes, J : Json bytes, UL : UrlLib}.
Variable hash : string -> Z.

(** [now i j] is read for message [j] of batch [i]. *)
Fixpoint run_loop (now : nat -> nat -> Q) (batches : list (list (ConsumedMessage bytes))) : act (CrawlWorker Pi St P) unit :=
  match batches with
  | [] => aret tt
  | batch :: rest => let! _ := run_batch hash (now 0%nat) batch in run_loop (fun i => now (S i)) rest
  end.

(** What a worker did, in order: messages it handled without an exception, and
    commits. *)
Inductive event : Type := Handled (msg : ConsumedMessage bytes) | Committed.
Definition commit (w : CrawlWorker Pi St P) : CrawlWorker Pi St P :=
  mkWorker (wk_settings w) (wk_shard w) (wk_slept w) (wk_commits w + 1).
Inductive trace : list event -> CrawlWorker Pi St P -> CrawlWorker Pi St P -> Prop :=
| trace_done w : trace [] w w
| trace_handled now msg evs w w1 w2 : handle hash now msg w = (Ok tt, w1) -> trace evs w1 w2 -> trace (Handled msg :: evs) w w2
| trace_commit evs w w2 : trace evs (commit w) w2 -> trace (Committed :: evs) w w2.

(** A batch as it should be delivered. *)
Definition delivery (batch : list (ConsumedMessage bytes)) : list event :=
  match batch with [] => [] | _ => (Handled <$> batch) ++ [Committed] end.

Lemma trace_app evs1 evs2 w w1 w2 : trace evs1 w w1 -> trace evs2 w1 w2 -> trace (evs1 ++ evs2) w w2.
Proof. induction 1; cbn; [done|econstructor; eauto|constructor; auto]. Qed.

Lemma handle_all_trace now msgs (w : CrawlWorker Pi St P) :
  let '(r, w') := handle_all hash now msgs w in
  match r with
  | Ok _ => trace (Handled <$> msgs) w w'
  | Raise e => exists before msg after now1 w1, msgs = before ++ msg :: after /\ trace (Handled <$> before) w w1 /\
      handle hash now1 msg w1 = (Raise e, w')
  end.
Proof.
  revert now w. induction msgs as [|msg msgs IH]; intros now w; [constructor|]. cbn [handle_all]. unfold abind.
  destruct (handle hash (now 0%nat) msg w) as [[[]|e] w1] eqn:Eh.
  - specialize (IH (fun n => now (S n)) w1). destruct (handle_all _ _ msgs w1) as [[u|e] w2].
    + econstructor; eauto.
    + destruct IH as (b & m & a & n1 & x & -> & Hb & He). exists (msg :: b), m, a, n1, x.
      split; [done|]. split; [econstructor; eauto|done].
  - exists [], msg, msgs, (now 0%nat), w. split; [done|]. split; [constructor|done].
Qed.

(** At-least-once delivery.  What a worker does with the batches it is given
    is a prefix of: handle the first batch's messages in order, commit, handle
    the second's, commit, ... (nothing for an empty batch).  A loop that ends by
    a stop request has done all of it; one that ends with an exception has
    committed exactly the batches before the one with the message that raised
    it, whose handled part and everything after will be delivered again. *)
Theorem worker_commits_handled now batches (w : CrawlWorker Pi St P) :
  let '(r, w') := run_loop now batches w in
  match r with
  | Ok _ => trace (batches ≫= delivery) w w'
  | Raise e => exists committed before msg after later now1 w1,
      batches = committed ++ (before ++ msg :: after) :: later /\
      trace ((committed ≫= delivery) ++ (Handled <$> before)) w w1 /\ handle hash now1 msg w1 = (Raise e, w')
  end.
Proof.
  revert now w. induction batches as [|batch batches IH]; intros now w; [constructor|].
  cbn [run_loop]. unfold abind at 1. destruct batch as [|msg msgs].
  - cbn [run_batch]. unfold aret. specialize (IH (fun i => now (S i)) w). destruct (run_loop _ batches w) as [[u|e] w'].
    + done.
    + destruct IH as (c & b & m & a & l & n1 & x & -> & Hc & He). by exists ([] :: c), b, m, a, l, n1, x.
  - cbn [run_batch]. unfold abind at 1. pose proof (handle_all_trace (now 0%nat) (msg :: msgs) w) as Hs.
    destruct (handle_all hash (now 0%nat) (msg :: msgs) w) as [[[]|e] w1].
    + unfold amodify. fold (commit w1). specialize (IH (fun i => now (S i)) (commit w1)).
      assert (trace (delivery (msg :: msgs)) w (commit w1)) as Hd by (eapply trace_app; [exact Hs|]; by repeat constructor).
      destruct (run_loop _ batches (commit w1)) as [[u|e] w'].
      * rewrite bind_cons. by eapply trace_app.
      * destruct IH as (c & b & m & a & l & n1 & x & -> & Hc & He). exists ((msg :: msgs) :: c), b, m, a, l, n1, x.
        split; [done|]. split; [|done]. rewrite bind_cons, <- app_assoc. by eapply trace_app.
    + destruct Hs as (b & m & a & n1 & x & -> & Hb & He). by exists [], b, m, a, batches, n1, x.
Qed.

(** A property of the worker that the frontier's calls, the page and a sleep keep
    is kept by a message. *)
Section HandleKeeps.
Variable F : KafkaFrontier P -> Prop.
Hypothesis F_producer : forall f p, F f -> F (set_producer f p).
Abbreviation on_queue := (fun fr : KafkaFrontier P * registry => F (fst fr)).
Abbreviation on_worker := (fun w : CrawlWorker Pi St P => F (wk_frontier w)).

Lemma send_keeps topic v key part : keeps on_queue (send topic v key part).
Proof.
  intros [f reg] Hf. unfold send. destruct (kf_producer f) as [p|]; [|done].
  destruct (send_and_wait _ _ _ _ p); cbn; [by apply F_producer|done].
Qed.
#[local] Hint Resolve send_keeps : keeps.
Lemma require_keeps : keeps on_queue require_producer.
Proof. intros fr Hf. unfold require_producer. by destruct (kf_producer (fst fr)). Qed.
#[local] Hint Resolve require_keeps : keeps.
Lemma add_keeps m : keeps on_queue (add_message hash m).
Proof. unfold add_message. keeps_auto. Qed.
Lemma frontier_keeps {T} (m : act (KafkaFrontier P * registry) T) : keeps on_queue m -> keeps on_worker (on_frontier m).
Proof.
  intros Hm w Hf. unfold on_frontier, on_shard. specialize (Hm (sh_queue (wk_shard w)) Hf).
  by destruct (m (sh_queue (wk_shard w))) as [x q].
Qed.
Lemma retry_keeps now m : keeps on_worker (schedule_retry now m).
Proof. unfold schedule_retry, send_dlq, send_retry. keeps_auto; apply frontier_keeps; keeps_auto. Qed.
#[local] Hint Resolve retry_keeps : keeps.

Lemma page_keeps item md : keeps (fun sh : Shard Pi St (KafkaFrontier P * registry) => F (fst (sh_queue sh)))
  (process_message (kf_add hash) item md).
Proof.
  assert (forall links, keeps (fun sh : Shard Pi St (KafkaFrontier P * registry) => F (fst (sh_queue sh)))
    (enqueue_new (kf_add hash) item links)) as Hl.
  { induction links as [|link links IH]; cbn [enqueue_new]; keeps_auto.
    - intros sh Hs. unfold check_seen. by destruct (seen_check_and_add _ _) as [b st].
    - intros sh Hs. unfold call_enqueue. pose proof (add_keeps (from_item (child_item item link)) (sh_queue sh) Hs) as Hq.
      unfold kf_add. by destruct (add_message _ _ _) as [x q]. }
  unfold process_message. keeps_auto. intros sh Hs. unfold call_pipeline. by destruct (process_item item _) as [x pi].
Qed.

Lemma handle_keeps now msg : keeps on_worker (handle hash now msg).
Proof.
  unfold handle. keeps_auto.
  - by apply keeps_modify.
  - intros _. apply frontier_keeps, add_keeps.
  - intros w Hf. unfold on_shard.
    match goal with |- context [process_message ?e ?i ?d (wk_shard w)] => pose proof (page_keeps i d (wk_shard w) Hf) as Hp;
      destruct (process_message e i d (wk_shard w)) as [x sh] end. done.
Qed.
End HandleKeeps.

(** The loop keeps what the producer's calls keep of the frontier. *)
Lemma run_loop_keeps (F : KafkaFrontier P -> Prop) now batches : (forall f p, F f -> F (set_producer f p)) ->
  keeps (fun w : CrawlWorker Pi St P => F (wk_frontier w)) (run_loop now batches).
Proof.
  intros HF. assert (forall now msgs, keeps (fun w : CrawlWorker Pi St P => F (wk_frontier w)) (handle_all hash now msgs)) as Ha.
  { intros n msgs. revert n. induction msgs as [|msg msgs IH]; intros n; cbn [handle_all]; keeps_auto.
    by apply handle_keeps. }
  revert now. induction batches as [|batch batches IH]; intros now; cbn [run_loop]; keeps_auto.
  unfold run_batch. keeps_auto.
Qed.

End Loop.

(** ** [run] *)
Section Run.
Context {R Session content O P A bytes : Type}.
Context `{UL : UrlLib, SX : Selectolax, TH : TokenHash, SH : Sha256, PT : Protego, AI : Aiohttp Session content}.
Context `{UT : Utf8, RS : RedisStrings R, RST : RedisSets R, RC : RedisCounters R, RB : RedisBits R, M3 : Mmh3, ML : MathLog}.
Context `{CM : Commits, OS : ObjectStore O, K : Kafka P A bytes, J : Json bytes, CN : Consumer bytes}.
Abbreviation Gate := (Politeness R (Fetcher Session * registry) * Limiter R)%type.
Abbreviation Dedups := ((RedisContentDedup * R) + InMemoryContentDedup)%type.
Abbreviation Budgets := ((RedisDomainBudget * R) + InMemoryDomainBudget)%type.
Abbreviation Seen := ((RedisBloomFilter * R) + InMemoryUrlSeen)%type.
Context `{GT : PolitenessGate Gate}.
Variable hash : string -> Z.
Variable open_store : store_kind -> O.
Variable clock : nat -> Q.

Abbreviation pipe := (Pipeline Gate (Fetcher Session) Dedups Budgets O DB).
Abbreviation worker := (CrawlWorker (nat * pipe) Seen P).
#[local] Instance worker_pages : PageProcessor (nat * pipe) := pipeline_processor clock.

(** The collaborators, over the connection to the shared Redis. *)
Definition wire_worker (s : Settings) (conn : R) (db : DB) (reg : registry) : result (pipe * Seen) :=
  let fetcher := Fetcher.aenter (new_fetcher s None) in
  let* politeness := build_politeness (fetcher, reg) s (Some conn) in
  let content_dedup := build_content_dedup s (Some conn) in
  let* breaker := build_circuit_breaker s in
  let budget := build_domain_budget s (Some conn) in
  let* _ := build_backpressure s in
  let pipeline := mkPipeline s fetcher db (Some politeness) (Some content_dedup)
                    (Some (open_store (build_object_store_for s true))) true breaker budget reg in
  let* seen := build_url_seen s (Some conn) in
  Ok (pipeline, seen).

(** How a worker ends: the result, its frontier, the process's handles, and
    the worker as its loop left it. *)
Record WorkerExit : Type := mkExit {
  we_result : result unit; we_frontier : option (KafkaFrontier P); we_handles : Handles; we_worker : option worker }.

(** The [try] block: the wiring, the loop, and the fetcher's [__aexit__]. *)
Definition run_body (now : nat -> nat -> Q) (s : Settings) (conn : R) (db : DB) (reg : registry) (frontier : KafkaFrontier P) :
    result unit * KafkaFrontier P * option worker :=
  match wire_worker s conn db reg with
  | Raise e => (Raise e, frontier, None)
  | Ok (pipeline, seen) =>
      let '(r, w) := run_loop hash now cn_batches (mkWorker s (mkShard (0%nat, pipeline) seen (frontier, reg)) 0 0) in
      ((let* _ := close (pl_fetcher (snd (sh_pipeline (wk_shard w)))) in r), wk_frontier w, Some w)
  end.

(** The [finally] block: an exception of one call skips the others and replaces
    the [try] block's. *)
Definition shutdown (c : ConsumerConfig) (store_close : result unit) (x : WorkerExit) : WorkerExit :=
  match consumer_stop c, we_frontier x with
  | Raise e, f => mkExit (Raise e) f (we_handles x) (we_worker x)
  | Ok _, None => x
  | Ok _, Some f =>
      match frontier_stop f with
      | (Raise e, f) => mkExit (Raise e) (Some f) (we_handles x) (we_worker x)
      | (Ok _, f) =>
          match close_sink (Some store_close) (we_handles x) with
          | (Raise e, h) => mkExit (Raise e) (Some f) h (we_worker x)
          | (Ok _, h) => mkExit (we_result x) (Some f) (close_redis h) (we_worker x)
          end
      end
  end.

Definition run_worker (now : nat -> nat -> Q) (s : Settings) (conn : R) (store_close : result unit) (db : DB) (reg : registry)
    (h : Handles) : WorkerExit :=
  match ensure_topics s with
  | Raise e => mkExit (Raise e) None h None
  | Ok _ =>
      let '(_, h) := get_redis s h in
      match new_frontier hash s None with
      | Raise e => mkExit (Raise e) None h None
      | Ok f =>
          match frontier_start f with
          | (Raise e, f) => mkExit (Raise e) (Some f) h None
          | (Ok _, f) =>
              let c := consumer_config s (kf_topics f) in
              match consumer_start c with
              | Raise e => mkExit (Raise e) (Some f) h None
              | Ok _ =>
                  let '(r, f, w) := run_body now s conn db reg f in
                  shutdown c store_close (mkExit r (Some f) h w)
              end
          end
      end
  end.

(** When the wiring raises. *)
Lemma wire_worker_raises (s : Settings) (conn : R) (db : DB) (reg : registry) :
  (forall x, wire_worker s conn db reg <> Ok x) <->
     robots_cache_size (politeness s) <= 0 \/
     enable_circuit_breaker (resilience s) = true /\ circuit_failure_threshold (resilience s) <= 0 \/
     (bloom_false_positive_rate (dedup s) <= 0)%Q \/ bloom_expected_insertions (dedup s) = 0.
Proof.
  destruct (backpressure_builds s) as [bp Ebp].
  unfold wire_worker, build_politeness, new_robots, Lru.new, build_circuit_breaker, new_breaker, build_url_seen, new_redis_bloom.
  rewrite Ebp.
  destruct (Z.leb_spec (robots_cache_size (politeness s)) 0), (enable_circuit_breaker (resilience s)),
    (Z.leb_spec (circuit_failure_threshold (resilience s)) 0), (Qleb_spec (bloom_false_positive_rate (dedup s)) 0),
    (Z.eqb_spec (bloom_expected_insertions (dedup s)) 0); cbn;
    (split; [intros Hn; first [by auto|exfalso; by eapply Hn]|]);
    first [by intros _ x|intros [?|[[? ?]|[?|?]]]; first [lia|done]].
Qed.

(** Every run of a worker shuts down in order.  Once the consumer has started,
    whatever the wiring, the messages and the fetcher do, the worker's result is
    the [try] block's, its producer is stopped and dropped, and the Redis and
    database handles are closed, provided that stopping does not raise.  The
    loop is not entered exactly when the wiring raises: a robots cache without
    capacity, an enabled breaker with a threshold below one, a filter rate that
    is not positive or an expected number of zero. *)
Theorem worker_shuts_down (now : nat -> nat -> Q) (s : Settings) (conn : R) (db : DB) (reg : registry) (h : Handles) (f0 f1 : KafkaFrontier P) :
  (forall c, consumer_stop c = Ok tt) -> (forall p : P, is_ok (producer_stop p) = true) ->
  is_ok (ensure_topics s) = true -> new_frontier hash s None = Ok f0 -> frontier_start f0 = (Ok tt, f1) ->
  consumer_start (consumer_config s (kf_topics f1)) = Ok tt ->
  let x := run_worker now s conn (Ok tt) db reg h in
  we_result x = fst (fst (run_body now s conn db reg f1)) /\
  (exists f, we_frontier x = Some f /\ kf_producer f = None) /\
  h_redis (we_handles x) = None /\ h_engine (we_handles x) = None /\ h_sessionmaker (we_handles x) = None /\
  (we_worker x = None <->
     robots_cache_size (politeness s) <= 0 \/
     enable_circuit_breaker (resilience s) = true /\ circuit_failure_threshold (resilience s) <= 0 \/
     (bloom_false_positive_rate (dedup s) <= 0)%Q \/ bloom_expected_insertions (dedup s) = 0).
Proof.
  intros Hcs Hps Ht Ef Es Hc. cbv zeta. unfold run_worker. destruct (ensure_topics s); [|done].
  destruct (get_redis s h) as [u h1]. rewrite Ef, Es, Hc.
  assert (kf_owns_producer f1 = true) as Ho.
  { unfold new_frontier in Ef. apply rbind_Ok in Ef as (ring & _ & [= <-]). unfold frontier_start in Es. cbn in Es.
    destruct (producer_start _); [|done]. by injection Es as <-. }
  assert (kf_owns_producer (snd (fst (run_body now s conn db reg f1))) = true) as Hob.
  { unfold run_body. destruct (wire_worker s conn db reg) as [[p seen]|e]; [|done].
    match goal with |- context [run_loop hash now cn_batches ?w0] =>
      pose proof (run_loop_keeps hash (fun f => kf_owns_producer f = true) now cn_batches ltac:(done) w0 Ho) as Hk;
      destruct (run_loop hash now cn_batches w0) as [r w] end. exact Hk. }
  assert (snd (run_body now s conn db reg f1) = None <-> forall x, wire_worker s conn db reg <> Ok x) as Hw.
  { unfold run_body. destruct (wire_worker s conn db reg) as [[p seen]|e]; [|done].
    destruct (run_loop _ _ _ _) as [r w]. cbn. split; [done|]. intros Hn. by destruct (Hn (p, seen)). }
  destruct (run_body now s conn db reg f1) as [[r f] w]. cbn in Hob, Hw. cbn [fst]. unfold shutdown, frontier_stop. cbn [we_frontier].
  rewrite Hcs, Hob.
  assert (forall f' : KafkaFrontier P, kf_producer f' = None ->
    let x := mkExit r (Some f') (close_redis (dispose_engine h1)) w in
    we_result x = r /\ (exists f, we_frontier x = Some f /\ kf_producer f = None) /\
    h_redis (we_handles x) = None /\ h_engine (we_handles x) = None /\ h_sessionmaker (we_handles x) = None) as Hx.
  { intros f' Hf. cbv zeta. split_and!; try done. by exists f'. }
  rewrite <- (wire_worker_raises s conn db reg).
  destruct (kf_producer f) as [p|] eqn:Ep; [specialize (Hps p); destruct (producer_stop p); [|done]|];
    (split; [done|]; split; [by eexists|]; split_and!; done).
Qed.

End Run.

(** ** Concrete instances *)

(** A consumer that gets one undecodable message, then one for a dead host. *)
Definition two_batches : Consumer json := {|
  consumer_start := fun _ => Ok tt; consumer_stop := fun _ => Ok tt;
  cn_batches := [[mkConsumed frontier_topic (JStr "?")]; []; [mkConsumed frontier_topic (asdict (dead_message "http://a.org/" 0 0))]] |}.
Definition no_bits : RedisBits unit := {| getbit := fun _ _ _ => Ok 0; setbit := fun _ _ _ r => Ok r |}.
(** A host that refuses every connection. *)
Definition refused : Aiohttp unit string := {|
  make_session := fun _ => tt; session_get := fun url _ s => (Failed "ClientConnectorError", 1%Q, s);
  content_read := fun n c => c; session_close := Ok; content_bytes := fun c => c |}.
#[local] Existing Instances identity_lib line_document length_hash plain_sha toy_protego refused ascii_text sum_hash table_log.
#[local] Existing Instances no_redis no_sets no_counters no_bits no_commit_error open_local log_kafka json_bytes two_batches.

Definition demo_exit : WorkerExit :=
  run_worker (O := NoopObjectStore) partition_hash (fun _ => Noop) (fun _ => 0%Q) (fun _ _ => 0%Q) two_partitions tt (Ok tt) empty_db ∅
    no_handles.

Lemma demo_startup : exists f0 f1 : KafkaFrontier (list sent),
  new_frontier partition_hash two_partitions None = Ok f0 /\ frontier_start f0 = (Ok tt, f1).
Proof.
  destruct (new_frontier (P := list sent) partition_hash two_partitions None) as [f0|e] eqn:E; [|discriminate E].
  exists f0, (set_producer f0 (Some [])). split; [reflexivity|].
  unfold new_frontier in E. apply rbind_Ok in E as (ring & _ & [= <-]). reflexivity.
Qed.

Lemma worker_shuts_down_witness : h_redis (we_handles demo_exit) = None /\
  exists f, we_frontier demo_exit = Some f /\ kf_producer f = None.
Proof.
  destruct demo_startup as (f0 & f1 & E0 & E1).
  destruct (worker_shuts_down (O := NoopObjectStore) (CN := two_batches) (K := log_kafka) partition_hash (fun _ => Noop) (fun _ => 0%Q) (fun _ _ => 0%Q) two_partitions tt empty_db ∅
    no_handles f0 f1 (fun _ => eq_refl) (fun _ => eq_refl) ltac:(vm_compute; reflexivity) E0 E1 eq_refl) as (_ & Hf & Hr & _).
  split; [exact Hr|exact Hf].
Defined.

(** The message of the dead host goes to the retry topic, and both batches that
    held a message are committed. *)
Example demo_exit_commits : we_result demo_exit = Ok tt /\ (wk_commits <$> we_worker demo_exit) = Some 2.
Proof. vm_compute. split; reflexivity. Qed.
