(* ===== verification/Batch.v ===== *)
(** * A worker's batch ([CrawlWorker._handle] under [asyncio.gather])

    [handle_coro]: one message as a coroutine over the worker that all messages
    of the batch share; [run_handle]: alone it is [Worker.handle].

    [handled]: what handling a message does, with every branch of [_handle], as
    the operations ([op]) on what the worker shares: asking the seen-set and
    sending to the broker.  [batch_forwards]: any schedule of a batch does an
    interleaving of its messages' operations.  [loop_step] is the loop of [run]
    with its batches, commits, stop requests and exceptions: as in the code the
    statement after [await asyncio.gather(...)] is [consumer.commit()], so the
    commit is reached only when no task raised.  [worker_loses_nothing]:
    at-least-once delivery.  The broker accepts what is sent ([BrokerLog]). *)
From S2P Require Import Prelude Coro PyStr Config Models ConsistentHash UrlUtils Bloom Frontier.
From S2P Require Import Engine Distributed Concurrent Worker WorkerRun.
From stdpp Require Import relations.
Local Open Scope Z_scope.

Section Handle.
Context {Pi St P A bytes : Type}.
Context `{PC : PageCoro Pi, US : UrlSeen St, K : Kafka P A bytes, J : Json bytes, UL : UrlLib}.
Variable hash : string -> Z.
Abbreviation worker := (CrawlWorker Pi St P).

Lemma shard_lens : lens (@wk_shard Pi St P) with_shard.
Proof. by split; [|intros []|]. Qed.

(** [_handle]; the clock is read once. *)
Definition handle_coro (now : Q) (msg : ConsumedMessage bytes) : coro worker unit :=
  let> w := await aget in
  match from_bytes (msg_value msg) with
  | Raise _ => cret tt
  | Ok message =>
      if bool_decide (msg_topic msg = t_retry (kf_topics (wk_frontier w))) then
        let> _ := await (sleep (retry_sleep (fm_not_before message - now))) in
        await (on_frontier (add_message hash (set_not_before message 0)))
      else if max_depth (crawl (wk_settings w)) <? fm_depth message then cret tt
      else
        let> result := ctry
          (let> item := Return (to_item message) in
           let> r := czoom wk_shard with_shard (process_message_coro (kf_add hash) item (max_depth (crawl (wk_settings w)))) in
           cret (Some r))
          (fun _ => let> _ := await (schedule_retry now message) in cret None) in
        match result with
        | Some r => if bool_decide (res_skipped r = Some "fetch_error") then await (schedule_retry now message) else cret tt
        | None => cret tt
        end
  end.

Lemma run_handle `{PP : PageProcessor Pi, !PageAlone Pi} now msg (w : worker) :
  run_coro (handle_coro now msg) w = handle hash now msg w.
Proof.
  unfold handle_coro, handle. rewrite run_bind. unfold abind at 1 2. rewrite run_await. unfold aget at 1 2.
  destruct (from_bytes (msg_value msg)) as [m|e]; [|done].
  case_bool_decide.
  { rewrite run_bind. unfold abind at 1 2. rewrite run_await. destruct (sleep _ w) as [[u|e] w']; [|done]. by rewrite run_await. }
  destruct (_ <? fm_depth m); [done|]. rewrite run_bind. unfold abind at 1. rewrite run_try. unfold atry at 1. rewrite run_bind.
  unfold abind, atry, alift, aret. destruct (to_item m) as [item|e]; cbn [run_coro].
  - rewrite run_bind. unfold abind. rewrite (run_zoom _ _ _ _ shard_lens).
    rewrite (run_process_message (kf_add hash) item (max_depth (crawl (wk_settings w))) (wk_shard w)). unfold on_shard.
    destruct (process_message _ item _ (wk_shard w)) as [[r|e] s]; cbn [run_coro cret].
    + case_bool_decide; [apply run_await|done].
    + rewrite run_bind. unfold abind. rewrite run_await. by destruct (schedule_retry now m _) as [[u|e'] w'].
  - rewrite run_bind. unfold abind. rewrite run_await. by destruct (schedule_retry now m w) as [[u|e'] w'].
Qed.

(** ** What a message does to what the workers share

    The seen-set's answers and the records the broker gets, in their order. *)
Abbreviation record := (string * bytes * string * option Z)%type.
Inductive op : Type := Asked (url : string) (answer : result bool) | Sent (r : record).
Inductive history : list op -> St * list record -> St * list record -> Prop :=
| hist_nil x : history [] x x
| hist_asked url answer ops s s' log x :
    seen_check_and_add url s = (answer, s') -> history ops (s', log) x -> history (Asked url answer :: ops) (s, log) x
| hist_sent r ops s log x : history ops (s, log ++ [r]) x -> history (Sent r :: ops) (s, log) x.

Lemma history_app ops1 ops2 x y z : history ops1 x y -> history ops2 y z -> history (ops1 ++ ops2) x z.
Proof. induction 1; cbn; [done|econstructor; eauto..]. Qed.

Definition sent_record (o : op) : option record := match o with Asked _ _ => None | Sent r => Some r end.
Lemma history_log ops x y : history ops x y -> snd y = snd x ++ omap sent_record ops.
Proof.
  induction 1 as [x|url new ops s s' log x _ _ IH|r ops s log x _ IH]; cbn in *; [by rewrite app_nil_r|done|].
  by rewrite IH, <- app_assoc.
Qed.

(** The record of a message put on the frontier topic, and of one that is
    retried or given up, when they can be computed. *)
Definition enqueued (w : worker) (m : FrontierMessage) : result record :=
  let* domain := message_domain m in
  let* part := partition_for hash domain (wk_frontier w) in
  Ok (t_frontier (topic_names (wk_settings w)), to_bytes m, domain, Some part).
Definition retried_or_dead (w : worker) (now : Q) (m : FrontierMessage) : result record :=
  let* domain := message_domain m in
  Ok (if max_retries (kafka (wk_settings w)) <=? fm_attempts m
      then (t_dlq (topic_names (wk_settings w)), to_bytes m, domain, None)
      else (t_retry (topic_names (wk_settings w)), to_bytes (retried now m), domain, None)).
Definition outcome {T} (x : result T) : result unit := match x with Ok _ => Ok tt | Raise e => Raise e end.
Definition sends (x : result record) : list op := match x with Ok r => [Sent r] | Raise _ => [] end.

(** The links of a page: each is asked for, and the new ones are sent. *)
Inductive links_done (w : worker) (item : FrontierItem) : list Link -> list op -> Prop :=
| links_end : links_done w item [] []
| links_old link links ops : links_done w item links ops -> links_done w item (link :: links) (Asked (link_url link) (Ok false) :: ops)
| links_new link links r ops : enqueued w (from_item (child_item item link)) = Ok r -> links_done w item links ops ->
    links_done w item (link :: links) (Asked (link_url link) (Ok true) :: Sent r :: ops).
(** The same, up to an exception of the seen-set or of a child's record. *)
Inductive links_cut (w : worker) (item : FrontierItem) : list Link -> list op -> Prop :=
| cut_asking link links e : links_cut w item (link :: links) [Asked (link_url link) (Raise e)]
| cut_sending link links e : enqueued w (from_item (child_item item link)) = Raise e ->
    links_cut w item (link :: links) [Asked (link_url link) (Ok true)]
| cut_old link links ops : links_cut w item links ops -> links_cut w item (link :: links) (Asked (link_url link) (Ok false) :: ops)
| cut_new link links r ops : enqueued w (from_item (child_item item link)) = Ok r -> links_cut w item links ops ->
    links_cut w item (link :: links) (Asked (link_url link) (Ok true) :: Sent r :: ops).

(** An attempt at a page: it answers, and its children are enqueued; or it
    fails, by the page's answer or by an exception. *)
Inductive answered (w : worker) (item : FrontierItem) : ProcessResult -> list op -> Prop :=
| ans_page r ops : returns (Ok r) (page_coro item) ->
    (if expands item (max_depth (crawl (wk_settings w))) r then links_done w item (res_links r) ops else ops = []) ->
    answered w item r ops.
Inductive failed (w : worker) (m : FrontierMessage) : list op -> Prop :=
| fail_item e : to_item m = Raise e -> failed w m []
| fail_page item e : to_item m = Ok item -> returns (Raise e) (page_coro item) -> failed w m []
| fail_links item r ops : to_item m = Ok item -> returns (Ok r) (page_coro item) ->
    expands item (max_depth (crawl (wk_settings w))) r = true -> links_cut w item (res_links r) ops -> failed w m ops
| fail_fetch item r ops : to_item m = Ok item -> answered w item r ops -> res_skipped r = Some "fetch_error" -> failed w m ops.

(** What [_handle] does with a message: the result it returns or raises, and
    the operations. *)
Inductive handled (w : worker) (now : Q) : ConsumedMessage bytes -> result unit -> list op -> Prop :=
| hd_undecodable topic v e : from_bytes v = Raise e -> handled w now (mkConsumed topic v) (Ok tt) []
| hd_retry v m : from_bytes v = Ok m ->
    handled w now (mkConsumed (t_retry (topic_names (wk_settings w))) v)
      (outcome (enqueued w (set_not_before m 0))) (sends (enqueued w (set_not_before m 0)))
| hd_deep topic v m : from_bytes v = Ok m -> topic <> t_retry (topic_names (wk_settings w)) ->
    max_depth (crawl (wk_settings w)) < fm_depth m -> handled w now (mkConsumed topic v) (Ok tt) []
| hd_page topic v m item r ops : from_bytes v = Ok m -> topic <> t_retry (topic_names (wk_settings w)) ->
    fm_depth m <= max_depth (crawl (wk_settings w)) -> to_item m = Ok item -> answered w item r ops ->
    res_skipped r <> Some "fetch_error" -> handled w now (mkConsumed topic v) (Ok tt) ops
| hd_failed topic v m ops : from_bytes v = Ok m -> topic <> t_retry (topic_names (wk_settings w)) ->
    fm_depth m <= max_depth (crawl (wk_settings w)) -> failed w m ops ->
    handled w now (mkConsumed topic v) (outcome (retried_or_dead w now m)) (ops ++ sends (retried_or_dead w now m)).

(** ** A message as a task *)
Context `{BL : !BrokerLog P A bytes, JL : !JsonLaws bytes}.
Abbreviation shard := (Shard Pi St (KafkaFrontier P * registry)).

Definition shared (s : shard) : St * list record :=
  (sh_seen s, match kf_producer (fst (sh_queue s)) with Some p => sent_log p | None => [] end).
Definition shard_does (ops : list op) (s s' : shard) : Prop := history ops (shared s) (shared s').
Definition does (ops : list op) (w w' : worker) : Prop := shard_does ops (wk_shard w) (wk_shard w').

(** The frontier and the settings of [w0], while its producer is started. *)
Definition started (w0 : worker) (s : shard) : Prop :=
  is_Some (kf_producer (fst (sh_queue s))) /\ kf_topics (fst (sh_queue s)) = topic_names (wk_settings w0) /\
  kf_ring (fst (sh_queue s)) = kf_ring (wk_frontier w0).
Definition serving (w0 : worker) (commits : Z) (w : worker) : Prop :=
  started w0 (wk_shard w) /\ wk_settings w = wk_settings w0 /\ wk_commits w = commits.

Lemma does_nil w : does [] w w.
Proof. constructor. Qed.
Lemma does_app l1 l2 w1 w2 w3 : does l1 w1 w2 -> does l2 w2 w3 -> does (l1 ++ l2) w1 w3.
Proof. apply history_app. Qed.
Lemma does_log ops w w' : does ops w w' -> wk_log w' = wk_log w ++ omap sent_record ops.
Proof. intros Hd. apply (history_log _ _ _ Hd). Qed.

(** A send of the frontier. *)
Lemma send_does (w0 : worker) (topic : string) (v : bytes) (key : string) (part : option Z) (s : shard) : started w0 s ->
  exists q, send topic v key part (sh_queue s) = (Ok tt, q) /\ started w0 (mkShard (sh_pipeline s) (sh_seen s) q) /\
    shard_does [Sent (topic, v, key, part)] s (mkShard (sh_pipeline s) (sh_seen s) q).
Proof.
  intros ([p Ep] & Et & Er). destruct s as [pi st [f reg]]. cbn in *. rewrite Ep.
  destruct (send_logs topic v key part p) as (p' & Es & El). rewrite Es. eexists. split; [done|]. split; [by split; [eexists|]|].
  unfold shard_does, shared. cbn. rewrite Ep, El. constructor. constructor.
Qed.

Lemma add_message_does (w0 : worker) (m : FrontierMessage) (s : shard) : started w0 s ->
  exists q, add_message hash m (sh_queue s) = (outcome (enqueued w0 m), q) /\ started w0 (mkShard (sh_pipeline s) (sh_seen s) q) /\
    shard_does (sends (enqueued w0 m)) s (mkShard (sh_pipeline s) (sh_seen s) q).
Proof.
  intros Hs. pose proof Hs as ([p Ep] & Et & Er). unfold add_message, enqueued, abind, alift, aget, require_producer.
  assert (forall q, q = sh_queue s -> started w0 (mkShard (sh_pipeline s) (sh_seen s) q) /\
    shard_does [] s (mkShard (sh_pipeline s) (sh_seen s) q)) as Hsame by (intros q ->; split; [exact Hs|constructor]).
  destruct (message_domain m) as [d|e]; cbn [rbind]; [|by eexists; split; [|apply Hsame]].
  rewrite Ep, (partition_for_ring hash d _ _ Er). destruct (partition_for hash d (wk_frontier w0)) as [part|e]; cbn [rbind];
    [|by eexists; split; [|apply Hsame]].
  destruct (send_does w0 (t_frontier (kf_topics (fst (sh_queue s)))) (to_bytes m) d (Some part) s Hs) as (q & -> & Hq & Hd).
  unfold amodify. eexists. split; [done|]. rewrite Et in Hd. by destruct q.
Qed.

Lemma serving_shard w0 c (w : worker) s : serving w0 c w -> started w0 s -> serving w0 c (with_shard w s).
Proof. by intros (_ & ? & ?) ?. Qed.
Lemma on_frontier_does {T} (w0 : worker) (c : Z) (m : act (KafkaFrontier P * registry) T) x ops (w : worker) :
  serving w0 c w ->
  (exists q, m (sh_queue (wk_shard w)) = (x, q) /\ started w0 (mkShard (sh_pipeline (wk_shard w)) (sh_seen (wk_shard w)) q) /\
    shard_does ops (wk_shard w) (mkShard (sh_pipeline (wk_shard w)) (sh_seen (wk_shard w)) q)) ->
  exists w', on_frontier m w = (x, w') /\ serving w0 c w' /\ does ops w w'.
Proof.
  intros Hw (q & E & Hs & Hd). unfold on_frontier, on_shard. rewrite E. eexists. split; [done|]. split; [by apply serving_shard|exact Hd].
Qed.

Lemma schedule_retry_does (w0 : worker) (c : Z) (now : Q) (m : FrontierMessage) (w : worker) : serving w0 c w ->
  exists w', schedule_retry now m w = (outcome (retried_or_dead w0 now m), w') /\ serving w0 c w' /\
    does (sends (retried_or_dead w0 now m)) w w'.
Proof.
  intros Hw. pose proof Hw as (Hs & Es & _). pose proof Hs as (_ & Et & _).
  unfold schedule_retry, retried_or_dead, abind at 1, aget. rewrite Es.
  destruct (max_retries (kafka (wk_settings w0)) <=? fm_attempts m); apply (on_frontier_does w0 c); try done;
    unfold send_dlq, send_retry, abind, alift, aget; rewrite ?Et; change (message_domain (retried now m)) with (message_domain m);
    (destruct (message_domain m) as [d|e]; cbn [rbind]; [by apply send_does|]); eexists; (split; [done|]); (split; [exact Hs|constructor]).
Qed.

(** The loop over a page's links, and the call of the shared step. *)
Lemma enqueue_new_does (w0 : worker) (item : FrontierItem) (links : list Link) (out : list op) :
  performs shard_does (started w0) (fun x o => exists ops, o = out ++ ops /\
    match x with Ok _ => links_done w0 item links ops | Raise _ => links_cut w0 item links ops end)
    out (enqueue_new_coro (kf_add hash) item links).
Proof.
  revert out. induction links as [|link links IH]; intros out; cbn [enqueue_new_coro].
  { exists []. rewrite app_nil_r. split; [done|constructor]. }
  apply performs_bind, performs_await. intros s Hs. unfold check_seen.
  destruct (seen_check_and_add (link_url link) (sh_seen s)) as [x st] eqn:Ec; cbn [fst snd].
  split; [exact Hs|]. exists [Asked (link_url link) x]. split; [by econstructor; [exact Ec|constructor]|].
  destruct x as [new|e]; [|exists [Asked (link_url link) (Raise e)]; split; [done|constructor]].
  apply performs_bind. destruct new.
  - apply performs_await. intros s1 Hs1. unfold call_enqueue, kf_add.
    destruct (add_message_does w0 (from_item (child_item item link)) s1 Hs1) as (q & -> & Hq & Hd). cbn [fst snd].
    split; [done|]. eexists. split; [exact Hd|]. destruct (enqueued w0 (from_item (child_item item link))) as [r|e] eqn:Er; cbn [outcome sends].
    + eapply performs_mono; [|apply IH]. intros x o (ops & -> & Hx). exists (Asked (link_url link) (Ok true) :: Sent r :: ops).
      split; [by rewrite <- !app_assoc|]. by destruct x; constructor.
    + exists [Asked (link_url link) (Ok true)]. split; [by rewrite app_nil_r|by econstructor].
  - cbn [performs cret]. eapply performs_mono; [|apply IH]. intros x o (ops & -> & Hx). exists (Asked (link_url link) (Ok false) :: ops).
    split; [by rewrite <- !app_assoc|]. by destruct x; constructor.
Qed.

Lemma process_message_does (w0 : worker) (item : FrontierItem) :
  performs shard_does (started w0) (fun x ops => match x with
    | Ok r => answered w0 item r ops
    | Raise _ => (exists e, returns (Raise e) (page_coro item)) /\ ops = [] \/
        exists r, returns (Ok r) (page_coro item) /\ expands item (max_depth (crawl (wk_settings w0))) r = true /\
          links_cut w0 item (res_links r) ops
    end) [] (process_message_coro (kf_add hash) item (max_depth (crawl (wk_settings w0)))).
Proof.
  unfold process_message_coro. apply performs_bind, performs_elsewhere.
  { intros s pi Hs. split; [exact Hs|]. unfold shard_does, shared. destruct s. constructor. }
  intros [r|e] Hr; [|left; split; [by exists e|done]]. unfold expand_coro. apply performs_bind.
  destruct (expands item (max_depth (crawl (wk_settings w0))) r) eqn:Ex.
  - eapply performs_mono; [|apply enqueue_new_does]. intros [u|e] o (ops & -> & Hl); cbn.
    + constructor; [done|by rewrite Ex].
    + right. by exists r.
  - cbn. constructor; [done|by rewrite Ex].
Qed.

Lemma handle_does (w0 : worker) (c : Z) (now : Q) (msg : ConsumedMessage bytes) : performs does (serving w0 c) (handled w0 now msg) [] (handle_coro now msg).
Proof.
  unfold handle_coro. apply performs_bind, performs_silent; [by intros w Hw; split; [|constructor]|]. intros w ((_ & Et & _) & Es & _).
  cbn [fst aget]. rewrite Es. unfold wk_frontier. rewrite Et. destruct msg as [topic v]. cbn [msg_value msg_topic].
  destruct (from_bytes v) as [m|e] eqn:Ev; [|by econstructor].
  assert (forall ops, failed w0 m ops -> topic <> t_retry (topic_names (wk_settings w0)) ->
    fm_depth m <= max_depth (crawl (wk_settings w0)) ->
    performs does (serving w0 c) (handled w0 now (mkConsumed topic v)) ops (await (schedule_retry now m))) as Hretry.
  { intros ops Hf Ht Hd. apply performs_await. intros w1 Hw1. destruct (schedule_retry_does w0 c now m w1 Hw1) as (w2 & -> & Hw2 & Hd2).
    split; [done|]. eexists. split; [exact Hd2|]. by eapply hd_failed. }
  case_bool_decide as Ht.
  { subst topic. apply performs_bind, performs_silent; [intros w1 Hw1; split; [exact Hw1|constructor]|]. intros w1 _. cbn [sleep amodify fst].
    apply performs_await. intros w2 Hw2. destruct (on_frontier_does w0 c (add_message hash (set_not_before m 0)) _ _ w2 Hw2
      (add_message_does w0 (set_not_before m 0) (wk_shard w2) (proj1 Hw2))) as (w3 & -> & Hw3 & Hd3).
    split; [done|]. eexists. split; [exact Hd3|]. by constructor. }
  destruct (Z.ltb_spec (max_depth (crawl (wk_settings w0))) (fm_depth m)) as [Hd|Hd]; [by eapply hd_deep|].
  apply performs_bind, performs_try. destruct (to_item m) as [item|e] eqn:Ei; cbn [cbind].
  2:{ cbn [performs]. apply performs_bind. eapply performs_mono; [|apply (Hretry []); [by econstructor|done..]]. by intros [[]|e'] o Ho. }
  apply performs_bind. eapply (performs_zoom does (serving w0 c) shard_does (started w0)); [by intros w1 (? & _)| |].
  { intros w1 s ops Hw1 Hs He. split; [by apply serving_shard|exact He]. }
  eapply performs_mono; [|apply process_message_does]. intros [r|e] ops Hx.
  - cbn [cbind cret performs]. case_bool_decide as Er.
    + apply Hretry; [by eapply fail_fetch|done..].
    + by eapply hd_page.
  - cbn [cbind performs]. apply performs_bind. eapply performs_mono; [|apply (Hretry ops); [|done..]].
    + by intros [[]|e'] o Ho.
    + destruct Hx as [[(e' & He) ->]|(r & Hr & Hex & Hc)]; [by eapply fail_page|by eapply fail_links].
Qed.

(** The tasks of a batch, in the order of its messages. *)
Definition batch_tasks (now : nat -> Q) (msgs : list (ConsumedMessage bytes)) : list (coro worker unit) :=
  imap (fun i msg => handle_coro (now i) msg) msgs.

(** The operations of a batch that is over and whose tasks have all succeeded,
    and of one whose tasks are at [ts]. *)
Definition batch_over (w0 : worker) (now : nat -> Q) (msgs : list (ConsumedMessage bytes)) (ops : list op) : Prop :=
  exists outs, interleaves outs ops /\ length outs = length msgs /\
    forall i msg, msgs !! i = Some msg -> exists out, outs !! i = Some out /\ handled w0 (now i) msg (Ok tt) out.
Definition batch_at (w0 : worker) (now : nat -> Q) (msgs : list (ConsumedMessage bytes)) (ts : list (coro worker unit)) (ops : list op) : Prop :=
  exists outs, interleaves outs ops /\ length outs = length msgs /\ length ts = length msgs /\
    forall i msg c, msgs !! i = Some msg -> ts !! i = Some c -> exists out, outs !! i = Some out /\
      (exists x more, handled w0 (now i) msg x (out ++ more)) /\ forall x, c = Return x -> handled w0 (now i) msg x out.

Lemma batch_at_over w0 now msgs ts ops : batch_at w0 now msgs ts ops -> Forall succeeded ts -> batch_over w0 now msgs ops.
Proof.
  intros (outs & Hi & Hl & Hts & Ha) Hok. exists outs. split_and!; [done..|]. intros i msg Em.
  destruct (lookup_lt_is_Some_2 ts i) as [c Ec]; [rewrite Hts; by eapply lookup_lt_Some|].
  destruct (Ha i msg c Em Ec) as (out & Ho & _ & Hret). exists out. split; [done|]. apply Hret.
  by destruct (proj1 (Forall_lookup _ _) Hok i c Ec) as [[] ->].
Qed.

Definition batch_outcome (w0 : worker) (now : nat -> Q) (msgs : list (ConsumedMessage bytes)) (i : nat) (x : result unit) (out : list op) : Prop :=
  forall msg, msgs !! i = Some msg -> handled w0 (now i) msg x out.
Abbreviation batch_performed w0 c now msgs := (performed does (serving w0 c) (batch_outcome w0 now msgs)).

Lemma batch_start w0 c now msgs (w : worker) : serving w0 c w ->
  batch_performed w0 c now msgs w (batch_tasks now msgs, w) (replicate (length (batch_tasks now msgs)) []) [].
Proof.
  intros Hw. apply performed_start; [exact does_nil|done|]. intros i t Ht. unfold batch_tasks in Ht. rewrite list_lookup_imap in Ht.
  destruct (msgs !! i) as [msg|] eqn:Em; [|done]. injection Ht as <-.
  eapply performs_mono; [|apply handle_does]. intros x out Ho msg' Em'. by simplify_eq.
Qed.
Lemma batch_tasks_length now msgs : length (batch_tasks now msgs) = length msgs.
Proof. apply length_imap. Qed.
Lemma performed_batch_at w0 c now msgs w1 ts w outs ops : batch_performed w0 c now msgs w1 (ts, w) outs ops ->
  length ts = length msgs -> batch_at w0 now msgs ts ops.
Proof.
  intros Hd Hl. pose proof Hd as (_ & _ & Hi & Hlen & _). cbn [fst] in Hlen. exists outs. split_and!; [done|lia|done|].
  intros i msg t Em Et. destruct (performed_so_far _ _ _ _ _ _ _ _ i t Hd Et) as (out & Ho & (x & more & Hq) & Hret).
  exists out. split; [done|]. split; [exists x, more; by apply Hq|]. intros y Ey. by apply (Hret y Ey).
Qed.

(** C9: What a batch sends, whatever its messages are and whatever the schedule
    of its tasks.  No schedule runs for ever or gets stuck; and at every moment
    the seen-set has been asked, and the broker has got, exactly the operations
    of an interleaving of what the messages do, each in its own order: a
    message that has been handled has done nothing if it could not be decoded
    or was too deep, has been put back if it came from the retry topic, has
    asked for every link of its page and sent a child for exactly the new ones
    if the page answered, and has sent one record to the retry or the
    dead-letter topic if the attempt failed; a task only ends in an exception
    when the record it had to send could not be computed. *)
Theorem batch_forwards now msgs (w : worker) : wk_ready w ->
  sn turn (batch_tasks now msgs, w) /\
  forall ts w', rtc turn (batch_tasks now msgs, w) (ts, w') ->
    wk_ready w' /\ wk_settings w' = wk_settings w /\ wk_commits w' = wk_commits w /\
    (Forall returned ts \/ exists cfg, turn (ts, w') cfg) /\
    exists ops, does ops w w' /\ wk_log w' = wk_log w ++ omap sent_record ops /\ batch_at w now msgs ts ops.
Proof.
  intros [Hr Ht]. split; [apply turn_terminates|]. intros ts w' Hrun.
  destruct (performed_turns does _ does_app _ w _ (ts, w') _ _ (batch_start w (wk_commits w) now msgs w ltac:(done)) Hrun) as (outs & ops & Hd).
  pose proof Hd as (((Hp & Et & _) & Es & Ec) & He & _). cbn [fst snd app] in *. split; [split; [done|by rewrite Es]|].
  split_and!; [done|done|apply turn_progress|]. exists ops. split; [done|]. split; [by apply does_log|].
  eapply performed_batch_at; [exact Hd|]. change (length (fst (ts, w')) = length msgs). rewrite (turn_length _ _ Hrun). apply batch_tasks_length.
Qed.

(** ** The loop of [run] *)

Inductive phase : Type :=
| Polling
| Gathering (batch : list (ConsumedMessage bytes)) (tasks : list (coro worker unit))
| Ended (r : result unit) (left_over : list (coro worker unit)).
(** [lp_done] batches of those the consumer returns are over, [lp_rest] are to
    come. *)
Record loop : Type := mkLoop {
  lp_worker : worker; lp_phase : phase; lp_stop : bool; lp_done : nat; lp_rest : list (list (ConsumedMessage bytes)) }.

(** [request_stop], also the handler of SIGINT and SIGTERM: the event is set. *)
Definition request_stop (l : loop) : loop := mkLoop (lp_worker l) (lp_phase l) true (lp_done l) (lp_rest l).

(** The turns of the worker, a stop request at any time, and the ways in which
    the loop is left.  When a task raises, [gather] raises at once and leaves
    the other tasks running. *)
Inductive loop_step (now : nat -> nat -> Q) : loop -> loop -> Prop :=
| ls_poll w n msg batch rest :
    loop_step now (mkLoop w Polling false n ((msg :: batch) :: rest))
      (mkLoop w (Gathering (msg :: batch) (batch_tasks (now n) (msg :: batch))) false n rest)
| ls_empty w n rest :
    loop_step now (mkLoop w Polling false n ([] :: rest)) (mkLoop w Polling false (S n) rest)
| ls_turn w w' batch ts ts' stop n rest : turn (ts, w) (ts', w') ->
    loop_step now (mkLoop w (Gathering batch ts) stop n rest) (mkLoop w' (Gathering batch ts') stop n rest)
| ls_commit w batch ts stop n rest : Forall succeeded ts ->
    loop_step now (mkLoop w (Gathering batch ts) stop n rest) (mkLoop (commit w) Polling stop (S n) rest)
| ls_raised w batch ts e stop n rest : Return (Raise e) ∈ ts ->
    loop_step now (mkLoop w (Gathering batch ts) stop n rest) (mkLoop w (Ended (Raise e) ts) stop n rest)
| ls_getmany_raises w e n rest :
    loop_step now (mkLoop w Polling false n rest) (mkLoop w (Ended (Raise e) []) false n rest)
| ls_commit_raises w batch ts e stop n rest : Forall succeeded ts ->
    loop_step now (mkLoop w (Gathering batch ts) stop n rest) (mkLoop w (Ended (Raise e) []) stop n rest)
| ls_request_stop w ph stop n rest :
    loop_step now (mkLoop w ph stop n rest) (request_stop (mkLoop w ph stop n rest))
| ls_stopped w n rest :
    loop_step now (mkLoop w Polling true n rest) (mkLoop w (Ended (Ok tt) []) true n rest)
| ls_left_over w w' r ts ts' stop n rest : turn (ts, w) (ts', w') ->
    loop_step now (mkLoop w (Ended r ts) stop n rest) (mkLoop w' (Ended r ts') stop n rest).

Definition start_loop (w : worker) (batches : list (list (ConsumedMessage bytes))) : loop := mkLoop w Polling false 0 batches.

Lemma gather_steps now (w w' : worker) batch ts ts' stop n rest : rtc turn (ts, w) (ts', w') ->
  rtc (loop_step now) (mkLoop w (Gathering batch ts) stop n rest) (mkLoop w' (Gathering batch ts') stop n rest).
Proof.
  intros Hr. remember (ts, w) as x eqn:Ex. remember (ts', w') as y eqn:Ey. revert ts w Ex.
  induction Hr as [x|x [ts1 w1] z Ht _ IH]; intros ts w ->; [injection Ey as -> ->; apply rtc_refl|].
  eapply rtc_l; [by apply ls_turn|]. by apply IH.
Qed.

Definition nonempty (batch : list (ConsumedMessage bytes)) : Prop := batch <> [].
#[local] Instance nonempty_dec batch : Decision (nonempty batch).
Proof. destruct batch; [right|left]; unfold nonempty; [by intros H|done]. Defined.
(** The commits of the first [n] batches. *)
Definition commits_upto (batches : list (list (ConsumedMessage bytes))) (n : nat) : Z :=
  Z.of_nat (length (filter nonempty (take n batches))).

Lemma commits_upto_S batches n batch : batches !! n = Some batch ->
  commits_upto batches (S n) = commits_upto batches n + match batch with [] => 0 | _ => 1 end.
Proof.
  intros E. unfold commits_upto. rewrite (take_S_r _ _ _ E), filter_app, length_app, filter_cons, filter_nil.
  destruct batch; [rewrite decide_False by (unfold nonempty; by intros H)|rewrite decide_True by done]; cbn; lia.
Qed.
Lemma drop_cons_inv {B} (l rest : list B) n x : x :: rest = drop n l -> l !! n = Some x /\ rest = drop (S n) l.
Proof.
  intros E. assert (l !! n = Some x) as Hn by (by rewrite <- (Nat.add_0_r n), <- lookup_drop, <- E).
  split; [done|]. rewrite (drop_S _ _ _ Hn) in E. by injection E.
Qed.

Section LoopInvariant.
Variables (now : nat -> nat -> Q) (batches : list (list (ConsumedMessage bytes))) (w0 : worker).

(** The operations of the batches that are over, one after the other. *)
Definition all_over (over : list (list op)) : Prop :=
  forall i batch ops, batches !! i = Some batch -> over !! i = Some ops -> batch_over w0 (now i) batch ops.

(** Where the current batch is in each phase, after the operations [cur]. *)
Definition current (ph : phase) (n : nat) (cur : list op) : Prop :=
  match ph with
  | Polling => cur = []
  | Gathering batch ts => batches !! n = Some batch /\ batch_at w0 (now n) batch ts cur
  | Ended r ts =>
      ts = [] /\ cur = [] \/
      exists e batch, r = Raise e /\ batches !! n = Some batch /\
        (ts = [] /\ batch_over w0 (now n) batch cur \/ Return (Raise e) ∈ ts /\ batch_at w0 (now n) batch ts cur)
  end.

(** The tasks of the current batch, as [batch_performed] follows them. *)
Definition tracked (l : loop) (w1 : worker) (cur : list op) : Prop :=
  let c := wk_commits w0 + commits_upto batches (lp_done l) in
  let follows batch ts := batches !! lp_done l = Some batch /\ batch <> [] /\ length ts = length batch /\
    exists outs, batch_performed w0 c (now (lp_done l)) batch w1 (ts, lp_worker l) outs cur in
  match lp_phase l with
  | Polling => cur = [] /\ w1 = lp_worker l /\ lp_rest l = drop (lp_done l) batches
  | Gathering batch ts => follows batch ts /\ lp_rest l = drop (S (lp_done l)) batches
  | Ended r ts => ts = [] /\ cur = [] /\ w1 = lp_worker l \/
      exists e batch, r = Raise e /\ (ts = [] /\ (exists ts', follows batch ts' /\ Forall succeeded ts') \/
        Return (Raise e) ∈ ts /\ follows batch ts)
  end.
Definition loop_inv (l : loop) (over : list (list op)) (w1 : worker) (cur : list op) : Prop :=
  serving w0 (wk_commits w0 + commits_upto batches (lp_done l)) w1 /\ does (concat over) w0 w1 /\
  length over = lp_done l /\ all_over over /\ tracked l w1 cur.

Lemma loop_inv_over l over w1 cur ops batch : loop_inv l over w1 cur -> batches !! lp_done l = Some batch ->
  batch_over w0 (now (lp_done l)) batch ops -> all_over (over ++ [ops]).
Proof.
  intros (_ & _ & Hl & Ho & _) Hb Hops i b o Hi E. destruct (decide (i < length over)%nat).
  - rewrite lookup_app_l in E by done. by eapply Ho.
  - rewrite lookup_app_r in E by lia. apply list_lookup_singleton_Some in E as [Hi0 <-].
    assert (i = lp_done l) as -> by lia. by simplify_eq.
Qed.

Lemma batch_over_nil i : batch_over w0 (now i) [] [].
Proof. exists []. split; [apply (il_start 0)|]. split; [done|]. intros j msg E. by rewrite lookup_nil in E. Qed.
Lemma performed_over c n batch ts w w1 outs cur : batch_performed w0 c (now n) batch w1 (ts, w) outs cur ->
  length ts = length batch -> Forall succeeded ts -> batch_over w0 (now n) batch cur.
Proof. intros Hd Hl Hok. eapply batch_at_over; [by eapply performed_batch_at|done]. Qed.

Ltac loop_cbn := cbn [request_stop lp_worker lp_phase lp_stop lp_done lp_rest] in *.
Lemma loop_step_inv l l' over w1 cur : loop_inv l over w1 cur -> loop_step now l l' ->
  exists over' w1' cur', loop_inv l' over' w1' cur'.
Proof.
  intros Hinv Hs. pose proof Hinv as (Hw & Hd & Hlen & Ho & Ht). unfold tracked in Ht.
  destruct Hs as [w n msg batch rest|w n rest|w w' batch ts ts' stop n rest Hturn
    |w batch ts stop n rest Hok|w batch ts e stop n rest He|w e n rest|w batch ts e stop n rest Hok|w ph stop n rest|w n rest
    |w w' r ts ts' stop n rest Hturn]; loop_cbn.
  - destruct Ht as (-> & -> & Hr). destruct (drop_cons_inv _ _ _ _ Hr) as [Hb Hrest].
    exists over, w, []. split_and!; [done..|]. unfold tracked. loop_cbn. split; [|done]. split_and!; [done|done|apply batch_tasks_length|].
    eexists. by apply batch_start.
  - destruct Ht as (-> & -> & Hr). destruct (drop_cons_inv _ _ _ _ Hr) as [Hb Hrest].
    exists (over ++ [[]]), w, []. unfold loop_inv. loop_cbn. rewrite (commits_upto_S _ _ _ Hb), Z.add_0_r.
    split_and!; [done|by rewrite concat_app, app_nil_r|rewrite length_app; cbn; lia| |by unfold tracked; loop_cbn].
    eapply (loop_inv_over _ _ _ _ _ _ Hinv Hb). apply batch_over_nil.
  - destruct Ht as [(Hb & Hne & Hl & outs & Hp) Hr].
    destruct (performed_turn does _ does_app _ _ _ _ _ _ Hp Hturn) as (outs' & new & Hp').
    exists over, w1, (cur ++ new). split_and!; [done..|]. unfold tracked. loop_cbn. split; [|done]. split_and!; [done|done| |by eexists].
    rewrite <- Hl. apply (turn_length (ts, w) (ts', w')). by apply rtc_once.
  - destruct Ht as [(Hb & Hne & Hl & outs & Hp) Hr]. pose proof Hp as (Hw' & Hd' & _). cbn [snd] in *.
    exists (over ++ [cur]), (commit w), []. unfold loop_inv. loop_cbn. rewrite (commits_upto_S _ _ _ Hb).
    split_and!.
    + destruct Hw' as (Hst & Hse & Hc). split_and!; [done|done|]. cbn [commit wk_commits]. rewrite Hc. destruct batch; [done|lia].
    + rewrite concat_app. cbn. rewrite app_nil_r. by eapply does_app.
    + rewrite length_app. cbn. lia.
    + eapply (loop_inv_over _ _ _ _ _ _ Hinv Hb). by eapply performed_over.
    + done.
  - destruct Ht as [Hf Hr]. exists over, w1, cur. split_and!; [done..|]. unfold tracked. loop_cbn. right. exists e, batch. auto.
  - destruct Ht as (-> & -> & Hr). exists over, w, []. split_and!; [done..|]. by left.
  - destruct Ht as [Hf Hr]. exists over, w1, cur. split_and!; [done..|]. unfold tracked. loop_cbn. right. exists e, batch. split; [done|]. left. split; [done|]. by exists ts.
  - exists over, w1, cur. by split_and!.
  - destruct Ht as (-> & -> & Hr). exists over, w, []. split_and!; [done..|]. by left.
  - destruct Ht as [(-> & _)|(e & batch & -> & [(-> & _)|(He & Hb & Hne & Hl & outs & Hp)])];
      [inversion Hturn as [? ? i f k Ei]; subst; by rewrite lookup_nil in Ei..|].
    destruct (performed_turn does _ does_app _ _ _ _ _ _ Hp Hturn) as (outs' & new & Hp').
    exists over, w1, (cur ++ new). split_and!; [done..|]. unfold tracked. loop_cbn. right. exists e, batch. split; [done|]. right.
    split; [|split_and!; [done|done| |by eexists]].
    + inversion Hturn as [? ? i f k Ei]; subst. apply list_elem_of_lookup in He as [j Hj]. apply list_elem_of_lookup. exists j.
      rewrite list_lookup_insert_ne; [done|]. intros ->. congruence.
    + rewrite <- Hl. apply (turn_length (ts, w) (ts', w')). by apply rtc_once.
Qed.

Lemma tracked_current l over w1 cur : loop_inv l over w1 cur ->
  does cur w1 (lp_worker l) /\ serving w0 (wk_commits w0 + commits_upto batches (lp_done l)) (lp_worker l) /\
  current (lp_phase l) (lp_done l) cur.
Proof.
  intros (Hw & _ & _ & _ & Ht). unfold tracked in Ht. unfold current.
  destruct (lp_phase l) as [|batch ts|r ts].
  - destruct Ht as (-> & -> & _). split; [apply does_nil|done].
  - destruct Ht as [(Hb & _ & Hl & outs & Hp) _]. pose proof Hp as (? & ? & _). split_and!; [done..|].
    by eapply performed_batch_at.
  - destruct Ht as [(-> & -> & ->)|(e & batch & -> & Hx)]; [split; [apply does_nil|split; [done|by left]]|].
    destruct Hx as [(-> & ts' & (Hb & _ & Hl & outs & Hp) & Hok)|(He & Hb & _ & Hl & outs & Hp)]; pose proof Hp as (? & ? & _);
      (split_and!; [done..|]); right; exists e, batch; (split_and!; [done..|]).
    + left. split; [done|]. by eapply performed_over.
    + right. split; [done|]. by eapply performed_batch_at.
Qed.
End LoopInvariant.

(** C8: A worker loses no message.  Whatever its messages are, under every
    schedule of its tasks, any stop request and any failure of the consumer's
    own calls: at every moment the worker has done the operations of the
    batches that are over, one batch after the other, and of the current one;
    in a batch that is over every message has been handled without an
    exception, so its children, its retry or its dead letter are with the
    broker or the seen-set knew them; and there is exactly one commit for each
    batch that is over and was not empty.  The loop ends with an exception
    only in a failing call of the consumer or by the exception of a task, whose
    batch is not committed, and after a stop request without one nothing of an
    uncommitted batch was done. *)
Theorem worker_loses_nothing now batches (w0 : worker) l : wk_ready w0 ->
  rtc (loop_step now) (start_loop w0 batches) l ->
  exists over cur, does (concat over ++ cur) w0 (lp_worker l) /\ length over = lp_done l /\
    (forall i batch ops, batches !! i = Some batch -> over !! i = Some ops -> batch_over w0 (now i) batch ops) /\
    wk_commits (lp_worker l) = wk_commits w0 + commits_upto batches (lp_done l) /\
    match lp_phase l with
    | Polling => cur = []
    | Gathering batch ts => batches !! lp_done l = Some batch /\ batch_at w0 (now (lp_done l)) batch ts cur /\
        (Forall returned ts \/ exists cfg, turn (ts, lp_worker l) cfg)
    | Ended r ts =>
        ts = [] /\ cur = [] \/
        exists e batch, r = Raise e /\ batches !! lp_done l = Some batch /\
          (ts = [] /\ batch_over w0 (now (lp_done l)) batch cur \/
           Return (Raise e) ∈ ts /\ batch_at w0 (now (lp_done l)) batch ts cur)
    end.
Proof.
  intros [Hr Ht] Hrun. assert (exists over w1 cur, loop_inv now batches w0 l over w1 cur) as (over & w1 & cur & Hinv).
  { apply (rtc_invariant (loop_step now) (fun l => exists over w1 cur, loop_inv now batches w0 l over w1 cur) _ _
      ltac:(intros x y (over & w1 & cur & Hi) Hs; by eapply loop_step_inv) Hrun).
    exists [], w0, []. split_and!; [|constructor|done|done|done]. split_and!; [done|done|]. cbn [start_loop lp_done].
    change (commits_upto batches 0) with 0. lia. }
  destruct (tracked_current now batches w0 l over w1 cur Hinv) as (Hd & (_ & _ & Hc) & Hcur).
  pose proof Hinv as (_ & Hd0 & Hlen & Ho & _). exists over, cur. split_and!; [by eapply does_app|done|done|done|].
  unfold current in Hcur. destruct (lp_phase l) as [|batch ts|r ts]; [done| |done]. destruct Hcur. split_and!; [done..|]. apply turn_progress.
Qed.

(** ** The messages one after the other are one schedule *)
Section Sequential.
Context `{PP : PageProcessor Pi, !PageAlone Pi}.

Lemma handle_all_turns now msgs ts (w : worker) : Forall succeeded ts ->
  let '(r, w') := handle_all hash now msgs w in
  exists ts', rtc turn (ts ++ batch_tasks now msgs, w) (ts', w') /\
    match r with Ok _ => Forall succeeded ts' | Raise e => Return (Raise e) ∈ ts' end.
Proof.
  revert now ts w. induction msgs as [|msg msgs IH]; intros now ts w Hok.
  { exists ts. rewrite app_nil_r. split; [apply rtc_refl|done]. }
  cbn [handle_all]. unfold abind. unfold batch_tasks. rewrite imap_cons.
  assert ((ts ++ handle_coro (now 0%nat) msg :: batch_tasks (fun n => now (S n)) msgs) !! length ts = Some (handle_coro (now 0%nat) msg)) as E
    by by apply list_lookup_middle.
  pose proof (run_turns _ _ _ w E) as Ht. rewrite run_handle in Ht.
  rewrite insert_app_r_alt, Nat.sub_diag in Ht by done. cbn [insert list_insert] in Ht.
  destruct (handle hash (now 0%nat) msg w) as [[[]|e] w1]; cbn [fst snd] in Ht.
  - specialize (IH (fun n => now (S n)) (ts ++ [Return (Ok tt)]) w1).
    destruct (handle_all hash (fun n => now (S n)) msgs w1) as [r w2].
    destruct IH as (ts' & Hr & Hx). { apply Forall_app_2; [done|]. constructor; [by eexists|done]. }
    exists ts'. split; [|done]. etrans; [exact Ht|]. by rewrite <- app_assoc in Hr.
  - eexists. split; [exact Ht|]. apply elem_of_app. right. by left.
Qed.

Lemma run_loop_steps now (now' : nat -> nat -> Q) n batches (w : worker) : (forall i, now' i = now (n + i)%nat) ->
  let '(r, w') := run_loop hash now' batches w in
  exists l, rtc (loop_step now) (mkLoop w Polling false n batches) l /\ lp_worker l = w' /\
    match r with
    | Ok _ => l = mkLoop w' Polling false (n + length batches) []
    | Raise e => exists ts, lp_phase l = Ended (Raise e) ts
    end.
Proof.
  revert now' n w. induction batches as [|[|msg msgs] batches IH]; intros now' n w Hnow;
    [|assert (forall i, now' (S i) = now (S n + i)%nat) as Hnext by (intros i; rewrite Hnow; f_equal; lia)..].
  - eexists. split; [apply rtc_refl|]. split; [done|]. cbn. by rewrite Nat.add_0_r.
  - cbn [run_loop run_batch]. unfold abind, aret. specialize (IH _ (S n) w Hnext).
    destruct (run_loop hash _ batches w) as [r w']. destruct IH as (l & Hr & Hw & Hx). exists l.
    split; [eapply rtc_l; [apply ls_empty|exact Hr]|]. split; [done|]. destruct r; [|done]. rewrite Hx. f_equal. cbn. lia.
  - cbn [run_loop run_batch]. unfold abind at 1 2. pose proof (handle_all_turns (now n) (msg :: msgs) [] w ltac:(done)) as Hb.
    rewrite Hnow, Nat.add_0_r. destruct (handle_all hash (now n) (msg :: msgs) w) as [r w1]. destruct Hb as (ts & Ht & Hx).
    assert (rtc (loop_step now) (mkLoop w Polling false n ((msg :: msgs) :: batches)) (mkLoop w1 (Gathering (msg :: msgs) ts) false n batches)) as Hg.
    { eapply rtc_l; [apply ls_poll|]. cbn [app] in Ht. by apply gather_steps. }
    destruct r as [[]|e].
    + unfold amodify. fold (commit w1). specialize (IH _ (S n) (commit w1) Hnext).
      destruct (run_loop hash _ batches (commit w1)) as [r w']. destruct IH as (l & Hr & Hw & Hy). exists l.
      split; [etrans; [exact Hg|]; eapply rtc_l; [by apply ls_commit|exact Hr]|]. split; [done|].
      destruct r; [|done]. rewrite Hy. f_equal. cbn. lia.
    + eexists. split; [etrans; [exact Hg|]; by apply rtc_once, ls_raised|]. split; [done|]. by eexists.
Qed.

(** The loop that handles the messages of a batch one after the other
    ([run_loop], over the uninterrupted pages) is one schedule of the
    concurrent one: it reaches the same worker, with all batches over when it
    returns and the loop ended by the same exception when it raises. *)
Theorem run_loop_is_schedule now batches (w : worker) :
  let '(r, w') := run_loop hash now batches w in
  exists l, rtc (loop_step now) (start_loop w batches) l /\ lp_worker l = w' /\
    match r with
    | Ok _ => lp_phase l = Polling /\ lp_done l = length batches
    | Raise e => exists ts, lp_phase l = Ended (Raise e) ts
    end.
Proof.
  pose proof (run_loop_steps now now 0 batches w ltac:(done)) as H.
  destruct (run_loop hash now batches w) as [r w']. destruct H as (l & Hr & Hw & Hx). exists l.
  split; [done|]. split; [done|]. destruct r; [|done]. by rewrite Hx.
Qed.
End Sequential.

End Handle.

(** ** Concrete instances *)

(** A site with a dead host, and a worker for it. *)
Definition mixed_site : PageProcessor registry := {|
  process_item := fun item pi =>
    if bool_decide (fi_url item = "http://dead.org/") then (Ok (skipped_result item "fetch_error"), pi)
    else @process_item registry five_pages item pi;
  on_registry := fun f pi => f pi |}.
#[local] Instance mixed_coro : PageCoro registry := @atomic_page registry mixed_site.
#[local] Existing Instances mixed_site exact_seen log_kafka json_bytes identity_lib log_kafka_log json_bytes_laws.
#[local] Instance mixed_alone : @PageAlone registry mixed_site mixed_coro := @atomic_alone registry mixed_site.
Abbreviation site_worker := (CrawlWorker registry (gset string) (list sent)).
Definition idle_worker : site_worker :=
  mkWorker two_partitions (mkShard ∅ ∅ (set_producer demo_frontier (Some []), ∅)) 0 0.
Lemma idle_ready : wk_ready idle_worker.
Proof. split; [exists []; reflexivity|vm_compute; reflexivity]. Qed.

(** Four messages at once: one that cannot be decoded, one of the retry topic,
    one of the dead host with no attempt left, and one of a page with links. *)
Definition four_messages : list (ConsumedMessage json) :=
  [mkConsumed frontier_topic (JStr "?"); mkConsumed "crawler.retry" (asdict (dead_message "http://a.org/r" 1 0));
   mkConsumed frontier_topic (asdict (dead_message "http://dead.org/" 3 0));
   mkConsumed frontier_topic (asdict (mkMessage (JStr "http://a.org/") 0 JNull 0 0))].
Definition four_tasks : list (coro site_worker unit) := batch_tasks partition_hash (fun _ => 0%Q) four_messages.
(** The page's children are sent while the others are handled. *)
Definition four_run : list (coro site_worker unit) * site_worker :=
  resume_all [3; 3; 2; 3; 3; 2; 2; 0; 3; 1; 3; 1; 1; 3; 3; 3; 3]%nat (four_tasks, idle_worker).

Example four_run_done : fst four_run = [Return (Ok tt); Return (Ok tt); Return (Ok tt); Return (Ok tt)] /\
  (fun r : string * json * string * option Z => (fst (fst (fst r)), snd (fst r))) <$> wk_log (snd four_run) =
    [("crawler.frontier", "a.org"); ("crawler.dlq", "dead.org"); ("crawler.frontier", "b.org");
     ("crawler.frontier", "a.org"); ("crawler.frontier", "a.org"); ("crawler.frontier", "a.org")].
Proof. split; vm_compute; reflexivity. Qed.

Lemma four_run_turns : rtc turn (four_tasks, idle_worker) (fst four_run, snd four_run).
Proof. rewrite <- surjective_pairing. apply resume_turns. Qed.

Lemma batch_forwards_witness : exists ops, wk_log (snd four_run) = omap (sent_record (bytes := json)) ops /\
  batch_at (Pi := registry) partition_hash idle_worker (fun _ => 0%Q) four_messages (fst four_run) ops.
Proof.
  destruct (batch_forwards partition_hash (fun _ => 0%Q) four_messages idle_worker idle_ready) as [_ Hg].
  destruct (Hg (fst four_run) (snd four_run) four_run_turns) as (_ & _ & _ & _ & ops & _ & Hl & Ha).
  exists ops. split; [exact Hl|exact Ha].
Defined.

(** The loop after the batch was committed. *)
Definition committed_loop : loop :=
  mkLoop (commit (snd four_run)) Polling false 1 ([] : list (list (ConsumedMessage json))).
Lemma committed_reachable : rtc (loop_step partition_hash (fun _ _ => 0%Q)) (start_loop idle_worker [four_messages]) committed_loop.
Proof.
  eapply rtc_l; [exact (ls_poll _ _ _ _ _ _ _)|]. etransitivity; [apply (gather_steps _ _ _ _ _ _ _ _ _ _ four_run_turns)|].
  apply rtc_once. apply ls_commit. rewrite (proj1 four_run_done). repeat constructor; eexists; reflexivity.
Qed.

Lemma worker_loses_nothing_witness : wk_commits (lp_worker committed_loop) = 1 /\
  exists ops, does ops idle_worker (commit (snd four_run)) /\
    batch_over (Pi := registry) partition_hash idle_worker (fun _ => 0%Q) four_messages ops.
Proof.
  destruct (worker_loses_nothing partition_hash (fun _ _ => 0%Q) [four_messages] idle_worker committed_loop idle_ready committed_reachable)
    as (over & cur & Hd & Hl & Ho & Hc & Ecur).
  split; [exact Hc|]. cbn [committed_loop lp_done lp_phase lp_worker] in *. subst cur.
  destruct over as [|ops [|x over]]; [discriminate Hl| |discriminate Hl]. exists ops. split.
  - cbn [concat] in Hd. rewrite !app_nil_r in Hd. exact Hd.
  - exact (Ho 0%nat four_messages ops eq_refl eq_refl).
Defined.

Lemma run_loop_is_schedule_witness : exists l : loop,
  rtc (loop_step partition_hash (fun _ _ => 0%Q)) (start_loop idle_worker [four_messages]) l /\ lp_done l = 1%nat.
Proof.
  pose proof (run_loop_is_schedule partition_hash (fun _ _ => 0%Q) [four_messages] idle_worker) as Hw.
  destruct (run_loop partition_hash (fun _ _ => 0%Q) [four_messages] idle_worker) as [[u|e] w'] eqn:E.
  - destruct Hw as (l & Hr & _ & _ & Hd). exists l. split; [exact Hr|exact Hd].
  - exfalso. apply (f_equal (fun x => is_ok (fst x))) in E. vm_compute in E. discriminate E.
Defined.
